(* ===== verification/_CoqProject ===== *)
-Q . S2P
Prelude.v
PortPool.v
Hub.v
Logs.v
Types.v
GoStrings.v
Selector.v
Health.v
Store.v
Stores.v
Deployment.v
ReplicaSetCtl.v
Loops.v
SvcProxy.v
Forward.v
Path.v
Volume.v
Engine.v
Lifecycle.v
Monitor.v
HostEngines.v
Manifest.v
Table.v
Server.v
ServerPods.v
Races.v
Handlers.v
Demo.v
Rollout.v
LogStream.v
WatchStream.v
Discovery.v
Api.v
Cli.v
Terminal.v
ApiLaws.v
Cluster.v
Daemon.v
Restart.v
