(* ===== verification/Prelude.v ===== *)
(** * lok8s: a verification library

    lok8s (src/, in Go) is a pod supervisor that speaks the Kubernetes API: a daemon
    keeps pods, services, config maps, secrets, deployments and replica sets in a
    database, runs pods as native processes or WebAssembly modules, restarts them,
    gives them host ports, balances connections to services, and reconciles replica
    sets and deployments; the same binary is its command line client.  This library
    models the Go code component by component and proves what makes it correct.

    ** The parts and how they interact

    The client ([Cli], main.go) turns a command into a request for an endpoint, and
    prints what comes back ([Terminal]: the logs of several pods at once).  The server
    ([Server], api/server.go) finds the route ([Discovery], discovery/endpoints.go) and
    its handler ([Api]); a handler ([Handlers], api/handler.go and
    api/deployment_handler.go) reads the body ([Manifest], manifest/parser.go), filters
    with selectors ([Selector], discovery/selector.go), prints tables ([Table],
    discovery/table.go), leaves watches ([WatchStream]) and followed logs ([LogStream])
    running, and calls:
    - the resource stores ([Stores]: controller/store.go, config/store.go,
      service/store.go), instances of one write-through map over the database
      ([Store], store/db.go);
    - the lifecycle manager ([Lifecycle], engine/lifecycle.go), which leases ports
      ([PortPool], network/portpool.go), projects volumes ([Volume],
      volume/projection.go), starts an engine ([Engine], engine/native.go,
      engine/wasm.go, engine/engine.go; [HostEngines] is the registry of the daemon),
      probes it ([Health], engine/health.go), keeps its output ([Logs],
      logs/ringbuffer.go and logs/writer.go) and announces changes to watchers ([Hub]);
      [Races] takes its launches apart into their steps, [Monitor] has the goroutine
      that watches over a pod and the goroutines of its probes;
    - the proxy manager ([SvcProxy], service/proxy.go and service/envinjector.go),
      which shares the port pool with the lifecycle manager; the connections of its
      proxies and of those of the pods (network/proxy.go) are [Forward].
    Two controllers work on the stores: [Deployment] (controller/deployment.go)
    maintains replica sets, [ReplicaSetCtl] (controller/replicaset.go) maintains pods
    through the interface [PodManager], which [ServerPods] implements by the server;
    [Loops] is the goroutine both run in.  [Rollout] puts the two together, [Cluster]
    the requests, ticks and monitors of one server, [Daemon] and [Restart] the life of
    the process (main.go): start-up from the database, recovery, shutdown.  [Types] has
    the resources (types/types.go); [GoStrings] and [Path] have what the code uses of
    packages [strings], [strconv] and [path/filepath].  [ApiLaws] holds properties of
    the handlers, [Demo] a daemon in memory to run the witnesses on.

    ** How the code is modelled

    A component is a [Record] for its state and a function per operation, from state
    to state and result ([res]: a value, an error, or a run-time panic; Go rolls
    nothing back, so an error keeps the state reached).  Machine integers are [Z]
    wrapped at their width ([i32], [i64], [u64]).  A range over a map takes an
    arbitrary reordering of the entries ([shuffle]), a different one for every loop.
    What a mutex or a [sync.Map] makes atomic is one step; goroutines are interleaved
    steps, of inductive relations ([Hub.hub_step], [Lifecycle.lm_step],
    [Engine.native_step], [Engine.wasm_step], [Loops.loop_step], [Cluster.server_step],
    [Daemon.daemon_step]) or of functions on lists of events ([Forward.frun],
    [Races.launch_step], [Monitor.monitor_run], [Restart.record_step],
    [LogStream.log_run], [WatchStream.watch_run], [Terminal.print_run]).  Time is what the caller passes; a loop on a ticker is a
    sequence of ticks.  Where an operation of several critical sections is one step
    ([Lifecycle.Launch], [Store.kv_store], a request of [Cluster]), the theorems are
    about operations that do not overlap on one key.  [Races] takes a launch and the
    start of a process apart ([Races.run_is_Launch]: the steps add up to [Launch]),
    [Restart] a write of a store, [Engine] the starts of both engines ([native_spawn] and
    [native_record], [wasm_test] and [wasm_record]), [LogStream] a write to the logs;
    their theorems say what overlapping operations do.

    What is outside of src/ is an interface with its documented behaviour as laws,
    each with an instance in memory that runs the witnesses: the database
    ([Store.Bolt], [Store.BoltLaws], [memdb]), JSON and YAML ([Store.Codec],
    [Manifest.Decoder], [Cli.ManifestYaml], [Terminal.PodListJson]), the file system
    ([Path.FS], [Path.FSLaws], [memfiles]), listening sockets ([SvcProxy.TCP],
    [SvcProxy.TCPLaws]), processes ([Engine.Exec], [HostEngines.RunCommand]), probes
    ([Health.ProbeNet]), case mapping beyond ASCII ([GoStrings.UnicodeCase]), the HTTP
    connection of the client ([Cli.Client]).  Between components there are
    [Lifecycle.PodEngines] with [Lifecycle.EngineLaws], which [HostEngines] discharges,
    and [ReplicaSetCtl.PodManager] with [ReplicaSetCtl.PodManagerLaws], which
    [ServerPods] discharges.

    ** What the theorems show

    - [PortPool]: leases are exclusive in every reachable pool, [Allocate] implements
      the table of leases, succeeds below capacity, and is undone by [Release].
    - [Hub], [Logs]: no send on or close of a closed channel; subscribers see events
      in order; the ring buffer is the suffix of what was written; tails are whole
      lines; prefixes are once per line however a stream is cut.
    - [Store], [Stores], [Restart]: a start reads back what was written; secrets are
      merged; a killed daemon finds all its objects again, but for the writes under way,
      and brings its pods back; writes of one key that overlap can leave memory and
      database apart.
    - [Selector], [SvcProxy], [Forward]: the matchers decide the requirements of a
      selector; service selectors agree with them; proxies are exclusive, and starting
      one is all or nothing; what a proxy delivers is a prefix of what was sent, and
      the connections of a service are spread evenly.
    - [Health], [Monitor], [Engine], [HostEngines]: probes are the hysteresis of their
      thresholds and end with the workload they judge; the status of an engine is the
      truth about its workloads.
    - [Volume], [Lifecycle]: projection and launch are all or nothing (for names that are
      plain file names, and directories that can be removed), [Terminate] undoes [Launch], managed pods have distinct ports and restart by their policy;
      the bounds and the overflow of the back-off.
    - [Deployment], [ReplicaSetCtl], [Rollout], [Loops]: what one reconciliation may
      change, that a rolling update keeps its bounds and terminates, that a replica set
      reaches its count, that a new deployment comes up; that [Stop] can return and is
      final.
    - [Discovery], [Cli], [Terminal], [ApiLaws]: routes do not overlap, every endpoint
      of the client is served, replies are honest, deletion cascades, lists are exact;
      interleaved logs keep the lines of every pod.
    - [LogStream], [WatchStream]: what a client of a stream gets, and in which order.
    - [Cluster], [Daemon]: no request panics and the records and sockets stay well
      formed in every reachable state, and only a negative count of a replica set makes
      its controller panic; an orderly exit leaves no pod and closes the
      database.
    Some theorems state where the code goes wrong (stale snapshots, shared keys,
    path traversal, overflow, check-then-act races, half-closed connections, a shutdown
    that waits or misses a pass): they are about the code as it is.

    ** Bounds and fuel

    Recursion is structural, except for [Engine.copyDir], whose fuel bounds the depth
    of the directories copied, [Races.launch_run], whose fuel is the number of steps of
    a launch, and the scan of [PortPool.scan_free], whose fuel is the size of the port
    range; [Allocate_refines] and [run_is_Launch] show that it is enough.
    [Deployment.rollout_converges] counts the rounds a rollout needs.

    ** What is not modelled

    Log messages of the daemon, its banner and the usage text, headers and encodings of
    HTTP replies, the runtime of WebAssembly (wazero) beyond its configuration and its
    end, the memory model of Go below the critical sections (unguarded reads of a field
    that another goroutine writes), and real time. *)

From Stdlib Require Export ZArith Lia Strings.String Strings.Ascii Strings.Byte.
From stdpp Require Export base gmap strings fin_maps numbers list.
Export stdpp.list_basics.list stdpp.list_relations.list stdpp.list_monad.list
  stdpp.list_misc.list.

#[global] Set Default Goal Selector "!".

Declare Scope lok8s_scope.
Delimit Scope lok8s_scope with lok8s.

(** ** Machine integers

    Go's sized integers are kept as [Z] together with the wrap-around of their
    width: [int] is 64 bits wide on every platform the daemon is released for. *)

Definition wrap_signed (w z : Z) : Z :=
  ((z + 2 ^ (w - 1)) mod 2 ^ w - 2 ^ (w - 1))%Z.

Definition i32 (z : Z) : Z := wrap_signed 32 z.
Definition i64 (z : Z) : Z := wrap_signed 64 z.
Definition u64 (z : Z) : Z := (z mod 2 ^ 64)%Z.
Definition u32 (z : Z) : Z := (z mod 2 ^ 32)%Z.

Definition in_i32 (z : Z) : Prop := (- 2 ^ 31 <= z < 2 ^ 31)%Z.
Definition in_i64 (z : Z) : Prop := (- 2 ^ 63 <= z < 2 ^ 63)%Z.

Lemma wrap_signed_id w z :
  (0 < w)%Z -> (- 2 ^ (w - 1) <= z < 2 ^ (w - 1))%Z -> wrap_signed w z = z.
Proof.
  intros Hw Hz. unfold wrap_signed.
  assert (2 ^ w = 2 * 2 ^ (w - 1))%Z as E
    by (rewrite <- Z.pow_succ_r by lia; f_equal; lia).
  rewrite Z.mod_small; lia.
Qed.

Lemma wrap_signed_range w z :
  (0 < w)%Z -> (- 2 ^ (w - 1) <= wrap_signed w z < 2 ^ (w - 1))%Z.
Proof.
  intros Hw. unfold wrap_signed.
  assert (2 ^ w = 2 * 2 ^ (w - 1))%Z as E
    by (rewrite <- Z.pow_succ_r by lia; f_equal; lia).
  pose proof (Z.mod_pos_bound (z + 2 ^ (w - 1)) (2 ^ w)).
  assert (0 < 2 ^ (w - 1))%Z by (apply Z.pow_pos_nonneg; lia). lia.
Qed.

Lemma i32_id z : in_i32 z -> i32 z = z.
Proof. intros H. apply wrap_signed_id; [lia | exact H]. Qed.

Lemma i32_range z : in_i32 (i32 z).
Proof. apply (wrap_signed_range 32). lia. Qed.

Lemma i64_id z : in_i64 z -> i64 z = z.
Proof. intros H. apply wrap_signed_id; [lia | exact H]. Qed.

Lemma i64_range z : in_i64 (i64 z).
Proof. apply (wrap_signed_range 64). lia. Qed.

(** Wrapping may be postponed to the end of a sum. *)
Lemma wrap_signed_add w a b : wrap_signed w (wrap_signed w a + b) = wrap_signed w (a + b).
Proof.
  unfold wrap_signed. f_equal.
  set (m := (2 ^ (w - 1))%Z). set (M := (2 ^ w)%Z).
  replace ((a + m) mod M - m + b + m)%Z with ((a + m) mod M + b)%Z by lia.
  rewrite Zplus_mod_idemp_l. f_equal. lia.
Qed.

Lemma i64_add a b : i64 (i64 a + b) = i64 (a + b).
Proof. apply wrap_signed_add. Qed.

Lemma i32_add a b : i32 (i32 a + b) = i32 (a + b).
Proof. apply wrap_signed_add. Qed.

(** [range_lia] closes side conditions on machine widths. *)
Ltac range_lia := unfold in_i32, in_i64 in *; lia.

(** ** Outcomes of an operation

    A Go function that returns an [error] yields [Ok] or [Err]; one that can also
    run into a run-time panic yields [Panic] (a panic in a goroutine of the
    daemon ends the process: nothing recovers it). *)

Inductive res (E A : Type) : Type :=
| Ok (a : A)
| Err (e : E)
| Panic (why : string).
Arguments Ok {E A} a.
Arguments Err {E A} e.
Arguments Panic {E A} why.

#[export] Instance res_ret {E} : MRet (res E) := fun A => @Ok E A.
#[export] Instance res_bind {E} : MBind (res E) := fun A B f r =>
  match r with
  | Ok a => f a
  | Err e => Err e
  | Panic w => Panic w
  end.

#[export] Instance res_eq_dec {E A} `{EqDecision E, EqDecision A} :
  EqDecision (res E A).
Proof. solve_decision. Defined.

(** Stateful operations that may fail: the state is kept on failure, because Go
    code does not roll anything back. *)
Definition SE (E S A : Type) : Type := S -> S * res E A.

#[export] Instance SE_ret {E S} : MRet (SE E S) := fun A a s => (s, Ok a).
#[export] Instance SE_bind {E S} : MBind (SE E S) := fun A B f m s =>
  match m s with
  | (s', Ok a) => f a s'
  | (s', Err e) => (s', Err e)
  | (s', Panic w) => (s', Panic w)
  end.

Definition fail {E S A} (e : E) : SE E S A := fun s => (s, Err e).
Definition panic {E S A} (w : string) : SE E S A := fun s => (s, Panic w).

(** ** Iteration order

    Ranging over a Go map or a [sync.Map] visits the entries in an unspecified
    order that may differ from one loop to the next.  Every loop of the model
    takes a [shuffle], an arbitrary reordering of the entries, of its own. *)

Record shuffle (A : Type) := Shuffle {
  shuffle_list :> list A -> list A;
  shuffle_perm : forall l, shuffle_list l ≡ₚ l;
}.
Arguments Shuffle {A} _ _.
Arguments shuffle_list {A} _ _.
Arguments shuffle_perm {A} _ _.

Definition in_order {A} : shuffle A := Shuffle (fun l => l) (fun l => Permutation_refl l).
Definition in_reverse {A} : shuffle A :=
  Shuffle (fun l => reverse l) (fun l => reverse_Permutation l).

Lemma elem_of_shuffle {A} (o : shuffle A) (l : list A) x : x ∈ o l <-> x ∈ l.
Proof. by rewrite (shuffle_perm o l). Qed.

Lemma length_shuffle {A} (o : shuffle A) (l : list A) : length (o l) = length l.
Proof. apply Permutation_length, shuffle_perm. Qed.

Lemma NoDup_shuffle {A} (o : shuffle A) (l : list A) : NoDup (o l) <-> NoDup l.
Proof. by rewrite (shuffle_perm o l). Qed.

(** ** Bytes *)

Abbreviation bytes := (list Byte.byte).
#[export] Instance byte_eq_dec : EqDecision Byte.byte := Byte.byte_eq_dec.
Definition newline : Byte.byte := Byte.x0a.

Definition bytes_of (s : string) : bytes := list_byte_of_string s.
Definition string_of (b : bytes) : string := string_of_list_byte b.

(** ** Slices *)

(** [copy(dst[off:], src)]: as many bytes as fit. *)
Definition copy_at {A} (dst : list A) (off : nat) (src : list A) : list A :=
  let n := Nat.min (length dst - off) (length src) in
  take off dst ++ take n src ++ drop (off + n) dst.

Lemma length_copy_at {A} (dst : list A) off src :
  off <= length dst -> length (copy_at dst off src) = length dst.
Proof.
  intros H. unfold copy_at. rewrite !length_app, !length_take, length_drop. lia.
Qed.

Lemma copy_at_fit {A} (dst : list A) off src :
  off + length src <= length dst ->
  copy_at dst off src = take off dst ++ src ++ drop (off + length src) dst.
Proof.
  intros H. unfold copy_at. rewrite Nat.min_r by lia. by rewrite (take_ge src).
Qed.

(** The last [n] elements. *)
Definition lastn {A} (n : nat) (l : list A) : list A := drop (length l - n) l.

Lemma lastn_all {A} n (l : list A) : length l <= n -> lastn n l = l.
Proof. intros H. unfold lastn. by replace (length l - n) with 0 by lia. Qed.

Lemma lastn_app {A} n (l k : list A) :
  length k <= n <= length l ->
  lastn n (l ++ k) = drop (length k) (lastn n l) ++ k.
Proof.
  intros H. unfold lastn. rewrite length_app, drop_app_le by lia.
  f_equal. rewrite drop_drop. f_equal. lia.
Qed.

Lemma lastn_app_r {A} n (l k : list A) : n <= length k -> lastn n (l ++ k) = lastn n k.
Proof.
  intros H. unfold lastn. rewrite length_app, drop_app_ge by lia. f_equal. lia.
Qed.

Lemma length_lastn {A} n (l : list A) : length (lastn n l) = Nat.min n (length l).
Proof. unfold lastn. rewrite length_drop. lia. Qed.

(** ** Sums *)

Definition zsum (l : list Z) : Z := foldr Z.add 0%Z l.

Lemma zsum_app l k : zsum (l ++ k) = (zsum l + zsum k)%Z.
Proof. induction l as [|x l IH]; simpl; lia. Qed.

#[export] Instance zsum_Proper : Proper (Permutation ==> eq) zsum.
Proof. intros l k E. induction E; simpl; lia. Qed.

Lemma zsum_nonneg l : Forall (Z.le 0) l -> (0 <= zsum l)%Z.
Proof. induction 1; simpl; lia. Qed.

(** A filter by a boolean respects permutations. *)
#[export] Instance bool_filter_Proper {A} (p : A -> bool) :
  Proper (Permutation ==> Permutation) (List.filter p).
Proof.
  intros l k E. induction E as [|x l k _ IH|x y l|l1 l2 l3 _ IH1 _ IH2]; simpl.
  - done.
  - destruct (p x); [by constructor | done].
  - destruct (p x), (p y); try done. by apply Permutation_swap.
  - by rewrite IH1.
Qed.

Lemma elem_of_bool_filter {A} (p : A -> bool) l x :
  x ∈ List.filter p l <-> x ∈ l /\ p x = true.
Proof. by rewrite list_elem_of_In, filter_In, <- list_elem_of_In. Qed.

Lemma NoDup_bool_filter {A} (p : A -> bool) (l : list A) : NoDup l -> NoDup (List.filter p l).
Proof.
  induction 1 as [|x l Hn Hd IH]; simpl; [constructor|].
  destruct (p x); [|done]. constructor; [|done]. rewrite elem_of_bool_filter. naive_solver.
Qed.

Lemma NoDup_fmap_bool_filter {A B} (f : A -> B) (p : A -> bool) (l : list A) :
  NoDup (f <$> l) -> NoDup (f <$> List.filter p l).
Proof.
  induction l as [|x l IH]; intros Hnd; [constructor|]. simpl.
  rewrite fmap_cons in Hnd. apply NoDup_cons in Hnd as [Hni Hnd].
  destruct (p x); [|auto]. rewrite fmap_cons. constructor; [|auto].
  rewrite list_elem_of_fmap. intros (y & Ey & Hy). apply elem_of_bool_filter in Hy as [Hy _].
  apply Hni. rewrite Ey. by apply list_elem_of_fmap_2.
Qed.

(** ** Runs *)

(** What every step keeps holds at the end of a run. *)
Lemma rtc_keeps {A} (R : A -> A -> Prop) (P : A -> Prop) x y :
  (forall x y, P x -> R x y -> P y) -> P x -> rtc R x y -> P y.
Proof. intros HR Hx Hr. induction Hr as [|x y z Hs _ IH]; [done|]. by eapply IH, HR. Qed.

(** ** Automation shared by the components *)

(** Split the innermost [match] or [if] of the goal and simplify. *)
Ltac split_match :=
  match goal with
  | |- context [match ?x with _ => _ end] =>
      lazymatch x with
      | context [match _ with _ => _ end] => fail
      | _ => destruct x eqn:?
      end
  end; simplify_eq/=.

Ltac split_match_in H :=
  match type of H with
  | context [match ?x with _ => _ end] =>
      lazymatch x with
      | context [match _ with _ => _ end] => fail
      | _ => destruct x eqn:?
      end
  end; simplify_eq/=.

(** Turn boolean tests on [Z] into propositions. *)
Ltac bool_z :=
  repeat match goal with
  | H : (_ && _) = true |- _ => apply andb_true_iff in H as [? ?]
  | H : (_ || _) = false |- _ => apply orb_false_iff in H as [? ?]
  | H : negb _ = true |- _ => apply negb_true_iff in H
  | H : negb _ = false |- _ => apply negb_false_iff in H
  | H : (_ <? _)%Z = true |- _ => apply Z.ltb_lt in H
  | H : (_ <? _)%Z = false |- _ => apply Z.ltb_ge in H
  | H : (_ <=? _)%Z = true |- _ => apply Z.leb_le in H
  | H : (_ <=? _)%Z = false |- _ => apply Z.leb_gt in H
  | H : (_ =? _)%Z = true |- _ => apply Z.eqb_eq in H
  | H : (_ =? _)%Z = false |- _ => apply Z.eqb_neq in H
  | H : String.eqb _ _ = true |- _ => apply String.eqb_eq in H
  | H : String.eqb _ _ = false |- _ => apply String.eqb_neq in H
  end.

Create HintDb lok8s discriminated.
Create Rewrite HintDb lok8s.
#[export] Hint Resolve i32_range i64_range : lok8s.
#[export] Hint Rewrite @elem_of_shuffle @length_shuffle : lok8s.
