(* ===== verification/PortPool.v ===== *)
(** * The host-port pool (src/network/portpool.go)

    The pool hands out host ports of a fixed range to owners named by a string
    (a pod or a service key).  [allocated] and [usedPorts] are the two Go maps;
    every method holds the mutex for its whole body, so each is one atomic step. *)

From S2P Require Import Prelude.

Inductive pool_error :=
| NoFreePorts (minPort maxPort : Z)
| NoPortAllocated (id : string)
| PortAlreadyAllocated (port : Z) (owner : string).

#[export] Instance pool_error_eq_dec : EqDecision pool_error.
Proof. solve_decision. Defined.

Record PortPool := mkPortPool {
  minPort : Z;
  maxPort : Z;
  allocated : gmap string Z;
  usedPorts : gmap Z string;
}.

Definition NewPortPool (minPort maxPort : Z) : PortPool :=
  mkPortPool minPort maxPort ∅ ∅.

(** [p.allocated[id] = port; p.usedPorts[port] = id] *)
Definition assign (p : PortPool) (id : string) (port : Z) : PortPool :=
  mkPortPool (minPort p) (maxPort p)
    (<[id := port]> (allocated p)) (<[port := id]> (usedPorts p)).

(** The scan [for port := p.minPort; port <= p.maxPort; port++]; the fuel is the
    number of ports left to try. *)
Fixpoint scan_free (fuel : nat) (used : gmap Z string) (port max : Z) : option Z :=
  match fuel with
  | O => None
  | S fuel' =>
      if (port <=? max)%Z then
        match used !! port with
        | None => Some port
        | Some _ => scan_free fuel' used (port + 1)%Z max
        end
      else None
  end.

Definition range_size (p : PortPool) : nat := Z.to_nat (maxPort p - minPort p + 1).

Definition Allocate (p : PortPool) (id : string) : PortPool * res pool_error Z :=
  match allocated p !! id with
  | Some port => (p, Ok port)
  | None =>
      match scan_free (range_size p) (usedPorts p) (minPort p) (maxPort p) with
      | Some port => (assign p id port, Ok port)
      | None => (p, Err (NoFreePorts (minPort p) (maxPort p)))
      end
  end.

Definition Release (p : PortPool) (id : string) : PortPool :=
  match allocated p !! id with
  | Some port =>
      mkPortPool (minPort p) (maxPort p)
        (delete id (allocated p)) (delete port (usedPorts p))
  | None => p
  end.

Definition Lookup (p : PortPool) (id : string) : res pool_error Z :=
  match allocated p !! id with
  | Some port => Ok port
  | None => Err (NoPortAllocated id)
  end.

Definition Reserve (p : PortPool) (id : string) (port : Z) : PortPool * res pool_error unit :=
  match usedPorts p !! port with
  | Some owner =>
      if String.eqb owner id then (p, Ok tt)
      else (p, Err (PortAlreadyAllocated port owner))
  | None => (assign p id port, Ok tt)
  end.

(** ** Steps of the pool *)

Inductive pool_op :=
| OpAllocate (id : string)
| OpRelease (id : string)
| OpReserve (id : string) (port : Z).

Definition pool_step (p : PortPool) (op : pool_op) : PortPool :=
  match op with
  | OpAllocate id => (Allocate p id).1
  | OpRelease id => Release p id
  | OpReserve id port => (Reserve p id port).1
  end.

Definition pool_run (p : PortPool) (ops : list pool_op) : PortPool :=
  foldl pool_step p ops.

(** An owner's port is always recorded as used by that owner. *)
Definition pool_ok (p : PortPool) : Prop :=
  forall id port, allocated p !! id = Some port -> usedPorts p !! port = Some id.

(** The two maps are inverse to each other. *)
Definition pool_exact (p : PortPool) : Prop :=
  forall id port, allocated p !! id = Some port <-> usedPorts p !! port = Some id.

Definition in_range (p : PortPool) (port : Z) : Prop :=
  (minPort p <= port <= maxPort p)%Z.

(** Ports that no scan would return: all those in [used]. *)
Definition port_free (p : PortPool) (port : Z) : Prop := usedPorts p !! port = None.

(** ** The scan *)

Lemma scan_free_spec fuel used port max r :
  scan_free fuel used port max = r ->
  (Z.of_nat fuel >= max - port + 1)%Z ->
  match r with
  | Some q => (port <= q <= max)%Z /\ used !! q = None /\
              forall q', (port <= q' < q)%Z -> is_Some (used !! q')
  | None => forall q', (port <= q' <= max)%Z -> is_Some (used !! q')
  end.
Proof.
  revert port r. induction fuel as [|fuel IH]; intros port r <- Hf; simpl.
  { intros q' Hq. lia. }
  destruct (port <=? max)%Z eqn:Hle; bool_z; [|intros q' ?; lia].
  destruct (used !! port) as [w|] eqn:Hu; [|repeat split; [lia.. | done | intros; lia]].
  specialize (IH (port + 1)%Z _ eq_refl ltac:(lia)).
  assert (Hp : forall q', q' = port -> is_Some (used !! q')) by (intros ? ->; eauto).
  destruct (scan_free fuel used (port + 1) max) as [q|].
  - destruct IH as (Hr & Hn & Hl). repeat split; [lia.. | done |].
    intros q' Hq'. destruct (decide (q' = port)); [eauto | apply Hl; lia].
  - intros q' Hq'. destruct (decide (q' = port)); [eauto | apply IH; lia].
Qed.

Lemma scan_free_full p r :
  scan_free (range_size p) (usedPorts p) (minPort p) (maxPort p) = r ->
  match r with
  | Some q => in_range p q /\ port_free p q /\
              forall q', (minPort p <= q' < q)%Z -> is_Some (usedPorts p !! q')
  | None => forall q', in_range p q' -> is_Some (usedPorts p !! q')
  end.
Proof.
  intros H. apply scan_free_spec in H; [exact H | unfold range_size; lia].
Qed.

(** A port given to a new owner was free and lies in the range. *)
Lemma Allocate_new p id port :
  allocated p !! id = None -> (Allocate p id).2 = Ok port ->
  in_range p port /\ port_free p port.
Proof.
  intros Hn. unfold Allocate. rewrite Hn.
  destruct (scan_free _ _ _ _) eqn:Hs; simpl; [|done]. intros [= ->].
  apply scan_free_full in Hs as (? & ? & _). done.
Qed.

(** ** Invariants *)

Lemma assign_ok p id port :
  pool_ok p -> port_free p port -> pool_ok (assign p id port).
Proof.
  unfold pool_ok, port_free. intros Hok Hfree id' port' Ha; simpl in *.
  destruct (decide (id = id')) as [->|Hne].
  - rewrite lookup_insert_eq in Ha; simplify_eq. by rewrite lookup_insert_eq.
  - rewrite lookup_insert_ne in Ha by done.
    rewrite lookup_insert_ne; [by apply Hok|].
    intros ->. apply Hok in Ha. congruence.
Qed.

Lemma assign_exact p id port :
  pool_exact p -> port_free p port -> allocated p !! id = None ->
  pool_exact (assign p id port).
Proof.
  unfold pool_exact, port_free. intros Hex Hfree Hnone id' port'; simpl.
  destruct (decide (id = id')) as [->|Hne].
  - rewrite lookup_insert_eq. split; [intros [= ->]; by rewrite lookup_insert_eq|].
    intros Hu. destruct (decide (port = port')) as [->|Hp]; [done|].
    rewrite lookup_insert_ne in Hu by done. apply Hex in Hu. congruence.
  - rewrite lookup_insert_ne by done. rewrite Hex.
    destruct (decide (port = port')) as [->|Hp].
    + rewrite lookup_insert_eq, Hfree. split; congruence.
    + by rewrite lookup_insert_ne.
Qed.

Lemma Release_ok p id : pool_ok p -> pool_ok (Release p id).
Proof.
  unfold pool_ok, Release. intros Hok id' port' Ha.
  destruct (allocated p !! id) as [port|] eqn:E; simpl in *; [|by apply Hok].
  apply lookup_delete_Some in Ha as [Hne Ha].
  rewrite lookup_delete_ne; [by apply Hok|].
  intros ->. apply Hok in Ha. apply Hok in E. congruence.
Qed.

Lemma Release_exact p id : pool_exact p -> pool_exact (Release p id).
Proof.
  unfold pool_exact, Release. intros Hex id' port'.
  destruct (allocated p !! id) as [port|] eqn:E; simpl; [|apply Hex].
  rewrite !lookup_delete_Some, <- Hex.
  split; intros [Hne Ha]; (split; [|done]).
  - intros ->. apply Hex in Ha. apply Hex in E. congruence.
  - intros ->. congruence.
Qed.

Lemma Allocate_ok p id : pool_ok p -> pool_ok (Allocate p id).1.
Proof.
  intros Hok. unfold Allocate. destruct (allocated p !! id); [done|].
  destruct (scan_free _ _ _ _) eqn:Hs; [|done].
  apply scan_free_full in Hs as (_ & Hf & _). by apply assign_ok.
Qed.

Lemma Allocate_exact p id : pool_exact p -> pool_exact (Allocate p id).1.
Proof.
  intros Hok. unfold Allocate. destruct (allocated p !! id) eqn:E; [done|].
  destruct (scan_free _ _ _ _) eqn:Hs; [|done].
  apply scan_free_full in Hs as (_ & Hf & _). by apply assign_exact.
Qed.

Lemma Reserve_ok p id port : pool_ok p -> pool_ok (Reserve p id port).1.
Proof.
  intros Hok. unfold Reserve. destruct (usedPorts p !! port) eqn:E; simpl.
  - by destruct (String.eqb _ _).
  - by apply assign_ok.
Qed.

Lemma pool_exact_ok p : pool_exact p -> pool_ok p.
Proof. intros H id port. apply H. Qed.

#[export] Hint Resolve Allocate_ok Release_ok Reserve_ok Allocate_exact Release_exact
  pool_exact_ok : lok8s.

Lemma NewPortPool_exact lo hi : pool_exact (NewPortPool lo hi).
Proof. intros id port. simpl. by rewrite !lookup_empty. Qed.

Lemma pool_step_ok p op : pool_ok p -> pool_ok (pool_step p op).
Proof. destruct op; simpl; auto with lok8s. Qed.

Lemma pool_run_ok p ops : pool_ok p -> pool_ok (pool_run p ops).
Proof.
  revert p. induction ops as [|op ops IH]; intros p H; [done|].
  apply IH, pool_step_ok, H.
Qed.

Lemma pool_ok_exclusive p id1 id2 port :
  pool_ok p -> allocated p !! id1 = Some port -> allocated p !! id2 = Some port ->
  id1 = id2.
Proof. intros Hok H1 H2. apply Hok in H1. apply Hok in H2. congruence. Qed.

Lemma assign_bounds p id port :
  minPort (assign p id port) = minPort p /\ maxPort (assign p id port) = maxPort p.
Proof. done. Qed.

(** ** Abstract specification: a table of leases

    The contract of the pool forgets [usedPorts]: its state is the table of
    leases, and a call to [Allocate] keeps an existing lease, or leases the lowest
    port of the range nobody holds, or fails because every port of the range is
    held. *)

Definition held (L : gmap string Z) (port : Z) : Prop :=
  exists id, L !! id = Some port.

Inductive alloc_spec (lo hi : Z) (L : gmap string Z) (id : string) :
    gmap string Z -> res pool_error Z -> Prop :=
| AllocKeep port :
    L !! id = Some port ->
    alloc_spec lo hi L id L (Ok port)
| AllocFresh port :
    L !! id = None -> (lo <= port <= hi)%Z -> ~ held L port ->
    (forall q, (lo <= q < port)%Z -> held L q) ->
    alloc_spec lo hi L id (<[id := port]> L) (Ok port)
| AllocFull :
    L !! id = None -> (forall q, (lo <= q <= hi)%Z -> held L q) ->
    alloc_spec lo hi L id L (Err (NoFreePorts lo hi)).

Lemma exact_held p port :
  pool_exact p -> (is_Some (usedPorts p !! port) <-> held (allocated p) port).
Proof.
  intros Hex. split.
  - intros [id Hid]. exists id. by apply Hex.
  - intros [id Hid]. exists id. by apply Hex.
Qed.

Lemma exact_not_held p port :
  pool_exact p -> port_free p port -> ~ held (allocated p) port.
Proof.
  unfold port_free. intros Hex Hf Hh. apply exact_held in Hh as [? ?]; [congruence|done].
Qed.

(** The ports of the range, in scan order. *)
Definition range_ports (p : PortPool) : list Z :=
  seqZ (minPort p) (maxPort p - minPort p + 1).

Lemma elem_of_range_ports p q : q ∈ range_ports p <-> in_range p q.
Proof. unfold range_ports, in_range. rewrite elem_of_seqZ. lia. Qed.

Lemma length_range_ports p : length (range_ports p) = range_size p.
Proof. apply length_seqZ. Qed.

(** If every port of the range is held there are at least as many leases. *)
Lemma held_range_size p :
  (forall q, in_range p q -> held (allocated p) q) -> range_size p <= size (allocated p).
Proof.
  intros Hall. rewrite <- length_range_ports, <- length_map_to_list,
    <- (length_fmap snd (map_to_list (allocated p))).
  apply submseteq_length, NoDup_submseteq; [apply NoDup_seqZ|].
  intros q Hq%elem_of_range_ports. apply Hall in Hq as [id Hid].
  apply list_elem_of_fmap. exists (id, q). split; [done|].
  by apply elem_of_map_to_list.
Qed.

Lemma Allocate_spec p id :
  pool_exact p ->
  alloc_spec (minPort p) (maxPort p) (allocated p) id
    (allocated (Allocate p id).1) (Allocate p id).2.
Proof.
  intros Hex. unfold Allocate.
  destruct (allocated p !! id) as [port|] eqn:E; simpl; [by constructor|].
  destruct (scan_free _ _ _ _) as [q|] eqn:Hs; simpl; apply scan_free_full in Hs.
  - destruct Hs as (Hr & Hf & Hl). constructor; [done.. | by apply exact_not_held |].
    intros q' Hq'. apply exact_held, Hl; done.
  - constructor; [done|]. intros q' Hq'. apply exact_held, Hs; done.
Qed.

Lemma Release_Allocate p id port :
  allocated p !! id = None -> (Allocate p id).2 = Ok port -> Release (Allocate p id).1 id = p.
Proof.
  intros Hn. unfold Allocate. rewrite Hn.
  destruct (scan_free _ _ _ _) as [q|] eqn:Hs; simpl; [|done]. intros _.
  apply scan_free_full in Hs as (_ & Hf & _).
  unfold Release; simpl. rewrite lookup_insert_eq.
  rewrite !delete_insert_id by done. by destruct p.
Qed.

(** ** Properties *)

(** *** The leases of other keys *)

Lemma Release_other pool key key' :
  key' <> key -> allocated (Release pool key) !! key' = allocated pool !! key'.
Proof.
  intros Hne. unfold Release. destruct (allocated pool !! key); [|done]. by apply lookup_delete_ne.
Qed.

Lemma Allocate_other pool key key' :
  key' <> key -> allocated (Allocate pool key).1 !! key' = allocated pool !! key'.
Proof.
  intros Hne. unfold Allocate. destruct (allocated pool !! key); [done|].
  destruct (scan_free _ _ _ _); [|done]. by apply lookup_insert_ne.
Qed.

Lemma Allocate_lease pool key port :
  (Allocate pool key).2 = Ok port -> allocated (Allocate pool key).1 !! key = Some port.
Proof.
  unfold Allocate. destruct (allocated pool !! key) as [q|] eqn:E; [by intros [= <-]|].
  destruct (scan_free _ _ _ _); [|done]. intros [= <-]. apply lookup_insert_eq.
Qed.

Lemma Reserve_other pool key port key' :
  key' <> key -> allocated (Reserve pool key port).1 !! key' = allocated pool !! key'.
Proof.
  intros Hne. unfold Reserve. destruct (usedPorts pool !! port) as [owner|].
  - by destruct (String.eqb owner key).
  - by apply lookup_insert_ne.
Qed.

(** C10. Two owners never hold the same port: in every pool reached from a new one
    by any sequence of [Allocate], [Release] and [Reserve] calls, a port leased to
    [id1] and to [id2] forces [id1 = id2]. *)
Theorem pool_reachable_exclusive lo hi ops id1 id2 port :
  allocated (pool_run (NewPortPool lo hi) ops) !! id1 = Some port ->
  allocated (pool_run (NewPortPool lo hi) ops) !! id2 = Some port ->
  id1 = id2.
Proof.
  apply pool_ok_exclusive, pool_run_ok, pool_exact_ok, NewPortPool_exact.
Qed.

Lemma pool_reachable_exclusive_witness :
  allocated (pool_run (NewPortPool 30000 30001)
     [OpAllocate "a"; OpReserve "b" 30001; OpRelease "a"; OpAllocate "c"]) !! "c"
    = Some 30000%Z /\ "c" = "c".
Proof.
  split; [reflexivity|].
  exact (pool_reachable_exclusive 30000 30001
    [OpAllocate "a"; OpReserve "b" 30001; OpRelease "a"; OpAllocate "c"]
    "c" "c" 30000 eq_refl eq_refl).
Defined.

(** C11. [Allocate] implements the lease table: on every branch (owner already
    known, lowest free port found by the scan, range exhausted) the result and the
    new table of leases are the ones of the abstract specification, and the two
    maps stay inverse to each other. *)
Theorem Allocate_refines p id :
  pool_exact p ->
  alloc_spec (minPort p) (maxPort p) (allocated p) id
    (allocated (Allocate p id).1) (Allocate p id).2
  /\ pool_exact (Allocate p id).1.
Proof. intros Hex. split; [by apply Allocate_spec | auto with lok8s]. Qed.

Lemma Allocate_refines_witness :
  (Allocate (assign (NewPortPool 30000 30002) "a" 30000) "b").2 = Ok 30001%Z /\
  alloc_spec 30000 30002 {["a" := 30000%Z]} "b"
    (allocated (Allocate (assign (NewPortPool 30000 30002) "a" 30000) "b").1)
    (Ok 30001%Z).
Proof.
  split; [reflexivity|].
  exact (proj1 (Allocate_refines (assign (NewPortPool 30000 30002) "a" 30000) "b"
    (assign_exact _ "a" 30000 (NewPortPool_exact _ _) eq_refl eq_refl))).
Defined.

(** Allocation cannot fail while the pool holds fewer leases than the range
    has ports. *)
Theorem Allocate_succeeds_below_capacity p id :
  pool_exact p -> size (allocated p) < range_size p ->
  exists port, (Allocate p id).2 = Ok port.
Proof.
  intros Hex Hsz. pose proof (Allocate_spec p id Hex) as Hs.
  inversion Hs as [port | port | Hn Hall]; [eauto.. |].
  exfalso. apply held_range_size in Hall. lia.
Qed.

Lemma Allocate_succeeds_below_capacity_witness :
  exists port,
    (Allocate (assign (NewPortPool 30000 30002) "a" 30001) "b").2 = Ok port.
Proof.
  apply Allocate_succeeds_below_capacity.
  - apply assign_exact; [apply NewPortPool_exact | reflexivity..].
  - vm_compute. repeat constructor.
Defined.

(** Releasing what was just allocated for a new owner gives back the pool as
    it was: nothing of the allocation is left in either map. *)
Theorem Release_Allocate_roundtrip p id port :
  pool_exact p -> allocated p !! id = None -> (Allocate p id).2 = Ok port ->
  Release (Allocate p id).1 id = p.
Proof. intros _. apply Release_Allocate. Qed.

Lemma Release_Allocate_roundtrip_witness :
  Release (Allocate (NewPortPool 30000 30001) "default/web").1 "default/web"
  = NewPortPool 30000 30001.
Proof.
  apply (Release_Allocate_roundtrip _ _ 30000); [apply NewPortPool_exact | reflexivity..].
Defined.

(** [Reserve] forgets the port its owner already holds.  After
    [Reserve(id, new)] by an owner of [old], [Release(id)] gives back [new] only:
    [old] stays marked as used by an owner without a lease, so no later
    [Allocate] hands it out and no [Release] can free it. *)
Theorem Reserve_leaks_held_port p id old new :
  pool_exact p -> allocated p !! id = Some old -> port_free p new ->
  let p' := Release (Reserve p id new).1 id in
  allocated p' !! id = None /\ usedPorts p' !! old = Some id /\
  forall id' port, allocated p' !! id' = None -> (Allocate p' id').2 = Ok port -> port <> old.
Proof.
  intros Hex Ho Hnew p'.
  assert (Hon : usedPorts p !! old = Some id) by by apply Hex.
  assert (Hne : new <> old) by (unfold port_free in Hnew; congruence).
  assert (Hp' : p' = mkPortPool (minPort p) (maxPort p)
                       (delete id (allocated p)) (usedPorts p)).
  { unfold p', Reserve, port_free in *. rewrite Hnew; simpl. unfold Release; simpl.
    rewrite lookup_insert_eq; simpl.
    rewrite delete_insert_eq, delete_insert_id by done. done. }
  rewrite Hp'; simpl. split; [apply lookup_delete_eq|]. split; [done|].
  intros id' port Hn Hal ->. apply Allocate_new in Hal as [_ Hf]; [|done].
  unfold port_free in Hf; simpl in Hf. congruence.
Qed.

Lemma Reserve_leaks_held_port_witness :
  usedPorts (Release (Reserve (assign (NewPortPool 30000 30002) "a" 30000) "a" 30001).1 "a")
    !! 30000%Z = Some "a".
Proof.
  apply (Reserve_leaks_held_port (assign (NewPortPool 30000 30002) "a" 30000) "a" 30000 30001);
    [apply assign_exact; [apply NewPortPool_exact | reflexivity..] | reflexivity..].
Defined.
