(* ===== verification/Hub.v ===== *)
(** * Fan-out over buffered channels

    [RingBuffer.Follow]/[RingBuffer.Write] (src/logs/ringbuffer.go) and
    [LifecycleManager.Watch]/[broadcast] (src/engine/lifecycle.go) share one
    pattern: a map from subscription ids to buffered channels, guarded by its own
    mutex; a publisher that sends to every registered channel without blocking
    and drops the event where the buffer is full; a goroutine per subscription
    that, once its context is done, unregisters the id under the mutex and then
    closes the channel.  This file models that pattern once, over the type of the
    events and the capacity of the channels. *)

From S2P Require Import Prelude.

(** A Go channel with a buffer; sending on a closed channel panics. *)
Record chan (E : Type) := Chan { ch_buf : list E; ch_closed : bool }.
Arguments Chan {E} _ _.
Arguments ch_buf {E} _.
Arguments ch_closed {E} _.

(** [hub_subs] is the Go map (its keys), [hub_chans] every channel made so far:
    a subscriber keeps its end of the channel after it is unregistered. *)
Record hub (E : Type) := Hub {
  hub_subs : gset Z;
  hub_chans : gmap Z (chan E);
  hub_nextID : Z;
}.
Arguments Hub {E} _ _ _.
Arguments hub_subs {E} _.
Arguments hub_chans {E} _.
Arguments hub_nextID {E} _.

Section Hub.
Context {E : Type} (cap : nat).

Definition empty_hub : hub E := Hub ∅ ∅ 0.

(** [select { case ch <- e: default: }] *)
Definition try_send (c : chan E) (e : E) : option (chan E) :=
  if ch_closed c then None
  else if decide (length (ch_buf c) < cap) then Some (Chan (ch_buf c ++ [e]) false)
  else Some c.

Definition subscribe (h : hub E) : hub E * Z :=
  let id := hub_nextID h in
  (Hub ({[id]} ∪ hub_subs h) (<[id := Chan [] false]> (hub_chans h)) (id + 1)%Z, id).

(** One turn of [for _, ch := range subs]. *)
Definition send_to (e : E) (cs : gmap Z (chan E)) (id : Z) : res Empty_set (gmap Z (chan E)) :=
  match cs !! id with
  | Some c =>
      match try_send c e with
      | Some c' => Ok (<[id := c']> cs)
      | None => Panic "send on closed channel"
      end
  | None => Ok cs
  end.

Fixpoint send_all (e : E) (ids : list Z) (cs : gmap Z (chan E)) :
    res Empty_set (gmap Z (chan E)) :=
  match ids with
  | [] => Ok cs
  | id :: ids' => cs' ← send_to e cs id; send_all e ids' cs'
  end.

Definition publish (o : shuffle Z) (h : hub E) (e : E) : res Empty_set (hub E) :=
  cs ← send_all e (o (elements (hub_subs h))) (hub_chans h);
  Ok (Hub (hub_subs h) cs (hub_nextID h)).

(** [delete(subs, id)], then [close(ch)]: two steps of the goroutine. *)
Definition unsubscribe (h : hub E) (id : Z) : hub E :=
  Hub (hub_subs h ∖ {[id]}) (hub_chans h) (hub_nextID h).

Definition close_chan (h : hub E) (id : Z) : res Empty_set (hub E) :=
  match hub_chans h !! id with
  | Some c =>
      if ch_closed c then Panic "close of closed channel"
      else Ok (Hub (hub_subs h) (<[id := Chan (ch_buf c) true]> (hub_chans h)) (hub_nextID h))
  | None => Panic "close of nil channel"
  end.

(** The subscriber takes the oldest event of its channel. *)
Definition recv (h : hub E) (id : Z) : option (E * hub E) :=
  match hub_chans h !! id with
  | Some (Chan (e :: es) cl) =>
      Some (e, Hub (hub_subs h) (<[id := Chan es cl]> (hub_chans h)) (hub_nextID h))
  | _ => None
  end.

(** ** Interleavings

    One step is one critical section (or the unguarded [close], which only the
    goroutine of that subscription runs, once, after [unsubscribe]). The second
    component lists the ids whose goroutine is between the two. *)
Inductive hub_step : hub E * gset Z -> hub E * gset Z -> Prop :=
| StepSubscribe h w :
    hub_step (h, w) ((subscribe h).1, w)
| StepPublish o e h h' w :
    publish o h e = Ok h' -> hub_step (h, w) (h', w)
| StepUnsubscribe h w id :
    id ∈ hub_subs h -> hub_step (h, w) (unsubscribe h id, {[id]} ∪ w)
| StepClose h h' w id :
    id ∈ w -> close_chan h id = Ok h' -> hub_step (h, w) (h', w ∖ {[id]})
| StepRecv h h' w id e :
    recv h id = Some (e, h') -> hub_step (h, w) (h', w).

Inductive hub_reach : hub E * gset Z -> Prop :=
| ReachInit : hub_reach (empty_hub, ∅)
| ReachStep s s' : hub_reach s -> hub_step s s' -> hub_reach s'.

(** Registered and closing ids have an open channel; ids are below [nextID];
    no buffer exceeds the capacity. *)
Definition hub_ok (s : hub E * gset Z) : Prop :=
  (forall id, id ∈ hub_subs s.1 ∪ s.2 ->
     exists c, hub_chans s.1 !! id = Some c /\ ch_closed c = false) /\
  hub_subs s.1 ## s.2 /\
  (forall id c, hub_chans s.1 !! id = Some c ->
     (id < hub_nextID s.1)%Z /\ length (ch_buf c) <= cap).

Definition open_at (cs : gmap Z (chan E)) (id : Z) : Prop :=
  exists c, cs !! id = Some c /\ ch_closed c = false.

Definition bump (c : chan E) (e : E) : chan E :=
  if decide (length (ch_buf c) < cap) then Chan (ch_buf c ++ [e]) false else c.

Lemma try_send_open c e : ch_closed c = false -> try_send c e = Some (bump c e).
Proof. intros H. unfold try_send, bump. rewrite H. by case_decide. Qed.

Lemma bump_closed c e : ch_closed c = false -> ch_closed (bump c e) = false.
Proof. unfold bump. by case_decide. Qed.

Lemma bump_length c e : length (ch_buf c) <= cap -> length (ch_buf (bump c e)) <= cap.
Proof. unfold bump. case_decide; simpl; [rewrite length_app; simpl|]; lia. Qed.

(** A round over open channels bumps exactly the channels of the round. *)
Lemma send_all_spec e ids cs :
  NoDup ids -> Forall (open_at cs) ids ->
  exists cs', send_all e ids cs = Ok cs' /\
    forall id, cs' !! id = if decide (id ∈ ids) then (fun c => bump c e) <$> cs !! id
                           else cs !! id.
Proof.
  intros Hnd. revert cs. induction Hnd as [|id ids Hid Hnd IH]; intros cs Hop.
  { exists cs. split; [done|]. intros id. case_decide; set_solver. }
  cbn [send_all].
  apply Forall_cons in Hop as [(c & Hc & Hcl) Hop].
  unfold send_to. rewrite Hc, try_send_open by done. simpl.
  destruct (IH (<[id := bump c e]> cs)) as (cs' & Hrun & Hcs').
  { eapply Forall_impl; [exact Hop|]. intros id' (c' & Hc' & Hcl').
    destruct (decide (id = id')) as [->|]; [|exists c'; by rewrite lookup_insert_ne].
    exists (bump c e). rewrite lookup_insert_eq. auto using bump_closed. }
  exists cs'. split; [exact Hrun|]. intros id'. rewrite Hcs'.
  destruct (decide (id = id')) as [->|Hne].
  - rewrite decide_False by done. rewrite decide_True by set_solver.
    by rewrite lookup_insert_eq, Hc.
  - rewrite lookup_insert_ne by done.
    destruct (decide (id' ∈ ids)).
    + by rewrite decide_True by set_solver.
    + by rewrite decide_False by set_solver.
Qed.

Lemma publish_spec o h e :
  Forall (open_at (hub_chans h)) (elements (hub_subs h)) ->
  exists h', publish o h e = Ok h' /\ hub_subs h' = hub_subs h /\
    hub_nextID h' = hub_nextID h /\
    forall id, hub_chans h' !! id =
      if decide (id ∈ hub_subs h) then (fun c => bump c e) <$> hub_chans h !! id
      else hub_chans h !! id.
Proof.
  intros Hop. unfold publish.
  destruct (send_all_spec e (o (elements (hub_subs h))) (hub_chans h))
    as (cs & -> & Hcs).
  { apply NoDup_shuffle, NoDup_elements. }
  { by rewrite (shuffle_perm o). }
  eexists; split; [reflexivity|]; simpl. repeat split. intros id. rewrite Hcs.
  do 2 case_decide; try done;
    rewrite elem_of_shuffle, elem_of_elements in *; done.
Qed.

Lemma hub_ok_open s : hub_ok s -> Forall (open_at (hub_chans s.1)) (elements (hub_subs s.1)).
Proof.
  intros (Hop & _). apply Forall_forall. intros id Hid%elem_of_elements.
  apply Hop. set_solver.
Qed.

Lemma hub_ok_publish o h h' w e :
  hub_ok (h, w) -> publish o h e = Ok h' -> hub_ok (h', w).
Proof.
  intros Hok Hp. pose proof (hub_ok_open _ Hok) as Hop; simpl in Hop.
  destruct (publish_spec o h e Hop) as (h'' & Hp' & Hs & Hn & Hc).
  rewrite Hp in Hp'; simplify_eq. destruct Hok as (Ho & Hd & Hb); simpl in *.
  split_and!; simpl; rewrite ?Hs, ?Hn; [|done|].
  - intros id Hid. rewrite Hc. destruct (Ho id Hid) as (c & Hl & Hcl).
    case_decide; rewrite Hl; simpl; eauto using bump_closed.
  - intros id c. rewrite Hc. case_decide.
    + intros (c0 & Hl & ->)%fmap_Some. destruct (Hb _ _ Hl).
      auto using bump_length.
    + apply Hb.
Qed.

Lemma hub_ok_recv h h' w id e :
  hub_ok (h, w) -> recv h id = Some (e, h') -> hub_ok (h', w).
Proof.
  intros (Ho & Hd & Hb) Hr. unfold recv in Hr.
  destruct (hub_chans h !! id) as [[[|e' es] cl]|] eqn:Hl; simplify_eq.
  destruct (Hb _ _ Hl) as [Hlt Hlen]; simpl in *.
  split_and!; simpl; [|done|].
  - intros id' Hid'. destruct (decide (id = id')) as [->|Hne].
    + destruct (Ho id' Hid') as (c & Hc & Hcl). simplify_eq/=.
      eexists; split; [apply lookup_insert_eq|done].
    + rewrite lookup_insert_ne by done. by apply Ho.
  - intros id' c. destruct (decide (id = id')) as [->|Hne].
    + rewrite lookup_insert_eq. intros [= <-]; simpl. lia.
    + rewrite lookup_insert_ne by done. apply Hb.
Qed.

Lemma hub_ok_subscribe h w : hub_ok (h, w) -> hub_ok ((subscribe h).1, w).
Proof.
  intros (Ho & Hd & Hb); simpl in *.
  assert (Hfresh : forall id, id ∈ hub_subs h ∪ w -> id <> hub_nextID h).
  { intros id Hid ->. destruct (Ho _ Hid) as (c & Hc & _).
    apply Hb in Hc. lia. }
  split_and!; simpl.
  - intros id Hid. destruct (decide (hub_nextID h = id)) as [->|Hne].
    + eexists; split; [apply lookup_insert_eq|done].
    + rewrite lookup_insert_ne by done. apply Ho. set_solver.
  - intros id Hs Hw. apply (Hfresh id); set_solver.
  - intros id c. destruct (decide (hub_nextID h = id)) as [->|Hne].
    + rewrite lookup_insert_eq. intros [= <-]; simpl. lia.
    + rewrite lookup_insert_ne by done. intros Hc. apply Hb in Hc. lia.
Qed.

Lemma hub_ok_unsubscribe h w id :
  hub_ok (h, w) -> id ∈ hub_subs h -> hub_ok (unsubscribe h id, {[id]} ∪ w).
Proof.
  intros (Ho & Hd & Hb) Hid; simpl in *. split_and!; simpl; [|set_solver|done].
  intros id' Hid'. apply Ho. set_solver.
Qed.

Lemma hub_ok_close h h' w id :
  hub_ok (h, w) -> id ∈ w -> close_chan h id = Ok h' -> hub_ok (h', w ∖ {[id]}).
Proof.
  intros (Ho & Hd & Hb) Hid Hc; simpl in *. unfold close_chan in Hc.
  destruct (hub_chans h !! id) as [c|] eqn:Hl; [|done].
  destruct (ch_closed c) eqn:Hcl; simplify_eq. destruct (Hb _ _ Hl).
  split_and!; simpl; [|set_solver|].
  - intros id' Hid'. rewrite lookup_insert_ne by set_solver. apply Ho. set_solver.
  - intros id' c'. destruct (decide (id = id')) as [->|Hne].
    + rewrite lookup_insert_eq. intros [= <-]; done.
    + rewrite lookup_insert_ne by done. apply Hb.
Qed.

Lemma hub_reach_ok s : hub_reach s -> hub_ok s.
Proof.
  induction 1 as [|s s' _ IH Hst].
  { split_and!; simpl; set_solver. }
  destruct Hst; eauto using hub_ok_subscribe, hub_ok_publish, hub_ok_unsubscribe,
    hub_ok_close, hub_ok_recv.
Qed.

(** ** Delivery

    A sequence of calls as the subscribers see it: what was published and what
    each subscriber took out of its channel. *)
Inductive hub_cmd :=
| CmdPublish (o : shuffle Z) (e : E)
| CmdRecv (id : Z)
| CmdSubscribe
| CmdUnsubscribe (id : Z).

Fixpoint hub_run (cmds : list hub_cmd) (h : hub E) :
    res Empty_set (hub E * list E * list (Z * E)) :=
  match cmds with
  | [] => Ok (h, [], [])
  | CmdPublish o e :: cmds' =>
      h1 ← publish o h e;
      '(h2, pub, rcv) ← hub_run cmds' h1; Ok (h2, e :: pub, rcv)
  | CmdRecv id :: cmds' =>
      match recv h id with
      | Some (e, h1) => '(h2, pub, rcv) ← hub_run cmds' h1; Ok (h2, pub, (id, e) :: rcv)
      | None => hub_run cmds' h
      end
  | CmdSubscribe :: cmds' => hub_run cmds' (subscribe h).1
  | CmdUnsubscribe id :: cmds' => hub_run cmds' (unsubscribe h id)
  end.

(** What one subscriber received, in order. *)
Definition received (id : Z) (rcv : list (Z * E)) : list E :=
  snd <$> filter (fun p => p.1 = id) rcv.

Definition keeps (id : Z) (c : hub_cmd) : Prop :=
  match c with CmdUnsubscribe i => i <> id | _ => True end.

Lemma received_cons id i (e : E) rcv :
  received id ((i, e) :: rcv) =
    if decide (i = id) then e :: received id rcv else received id rcv.
Proof. unfold received. rewrite filter_cons; simpl. by case_decide. Qed.

(** The channel of [id] across one publication. *)
Lemma publish_at o h h' e id buf :
  hub_ok (h, ∅) -> publish o h e = Ok h' ->
  id ∈ hub_subs h -> hub_chans h !! id = Some (Chan buf false) ->
  hub_chans h' !! id = Some (bump (Chan buf false) e) /\ hub_subs h' = hub_subs h.
Proof.
  intros Hok Hp Hid Hc.
  destruct (publish_spec o h e (hub_ok_open _ Hok)) as (h'' & Hp' & Hs & _ & Hl).
  rewrite Hp in Hp'; simplify_eq. split; [|done].
  rewrite Hl. rewrite decide_True by done. by rewrite Hc.
Qed.

Lemma recv_at h h' i e id buf :
  recv h i = Some (e, h') -> hub_chans h !! id = Some (Chan buf false) ->
  hub_subs h' = hub_subs h /\
  exists buf', hub_chans h' !! id = Some (Chan buf' false) /\
    buf = if decide (i = id) then e :: buf' else buf'.
Proof.
  unfold recv. intros Hr Hc.
  destruct (hub_chans h !! i) as [[[|e' es] cl]|] eqn:Hi; simplify_eq.
  split; [done|]. case_decide as Hd.
  - subst. rewrite Hc in Hi. simplify_eq. exists es. split; [|done].
    apply lookup_insert_eq.
  - exists buf. split; [|done]. simpl. by rewrite lookup_insert_ne.
Qed.

Lemma hub_ok_forget h w : hub_ok (h, w) -> hub_ok (h, ∅).
Proof.
  intros (Ho & _ & Hb). split_and!; simpl in *; [|set_solver|done].
  intros id Hid. apply Ho. set_solver.
Qed.

Lemma hub_run_delivery cmds h h' pub rcv id buf :
  hub_ok (h, ∅) -> id ∈ hub_subs h -> hub_chans h !! id = Some (Chan buf false) ->
  Forall (keeps id) cmds -> hub_run cmds h = Ok (h', pub, rcv) ->
  exists buf', hub_chans h' !! id = Some (Chan buf' false) /\
    received id rcv ++ buf' `sublist_of` buf ++ pub /\
    (length buf + length pub <= cap -> received id rcv ++ buf' = buf ++ pub).
Proof.
  revert h h' pub rcv buf.
  induction cmds as [|c cmds IH]; intros h h' pub rcv buf Hok Hid Hc Hk Hrun;
    [|apply Forall_cons in Hk as [Hk1 Hk]]; simpl in Hrun.
  { simplify_eq. exists buf. rewrite app_nil_r. done. }
  destruct c as [o e | i | | i].
  - destruct (publish o h e) as [h1|[]|] eqn:Hp; simpl in Hrun; try done.
    destruct (hub_run cmds h1) as [[[h2 pub'] rcv']|[]|] eqn:Hr; simplify_eq/=.
    destruct (publish_at _ _ _ _ _ _ Hok Hp Hid Hc) as [Hc1 Hs1].
    assert (Hok1 := hub_ok_publish _ _ _ _ _ Hok Hp).
    unfold bump in Hc1; simpl in Hc1. case_decide as Hd.
    + destruct (IH _ _ _ _ _ Hok1 ltac:(by rewrite Hs1) Hc1 Hk Hr)
        as (buf' & Hb & Hsub & Hall).
      exists buf'. rewrite <- app_assoc in Hsub, Hall. split_and!; [done..|].
      intros. apply Hall. rewrite length_app; simpl in *; lia.
    + destruct (IH _ _ _ _ _ Hok1 ltac:(by rewrite Hs1) Hc1 Hk Hr)
        as (buf' & Hb & Hsub & _).
      exists buf'. split_and!; [done| |simpl in *; lia].
      etrans; [exact Hsub|]. apply sublist_app; [done|]. by apply sublist_cons.
  - destruct (recv h i) as [[e h1]|] eqn:Hrc; [|by eapply IH].
    destruct (hub_run cmds h1) as [[[h2 pub'] rcv']|[]|] eqn:Hr; simplify_eq/=.
    destruct (recv_at _ _ _ _ _ _ Hrc Hc) as (Hs1 & b1 & Hc1 & ->).
    assert (Hok1 := hub_ok_recv _ _ _ _ _ Hok Hrc).
    destruct (IH _ _ _ _ _ Hok1 ltac:(by rewrite Hs1) Hc1 Hk Hr)
      as (buf' & Hb & Hsub & Hall).
    exists buf'. rewrite received_cons. split; [done|].
    case_decide; simpl in *; split; auto using sublist_skip.
    intros. f_equal. apply Hall. lia.
  - assert (Hok1 := hub_ok_subscribe _ _ Hok).
    eapply (IH (subscribe h).1); [done | set_solver | | done..]. simpl.
    rewrite lookup_insert_ne; [done|]. intros <-.
    apply Hok in Hc as [? _]. simpl in *; lia.
  - simpl in Hk1. eapply (IH (unsubscribe h i)); [| set_solver | done..].
    destruct (decide (i ∈ hub_subs h)).
    + by eapply hub_ok_forget, hub_ok_unsubscribe.
    + replace (unsubscribe h i) with h; [done|].
      destruct h; unfold unsubscribe; simpl in *. f_equal. set_solver.
Qed.

(** ** Properties *)

(** C16. Publishing never sends on a closed channel and no channel is closed
    twice: in every reachable interleaving of subscriptions, publications (in any
    map order), cancellations and receives, a further publication succeeds, so
    does every pending [close], and every buffer is within its capacity. *)
Theorem hub_never_panics s o e :
  hub_reach s ->
  (exists h', publish o s.1 e = Ok h') /\
  (forall id, id ∈ s.2 -> exists h', close_chan s.1 id = Ok h') /\
  (forall id c, hub_chans s.1 !! id = Some c -> length (ch_buf c) <= cap).
Proof.
  intros Hr%hub_reach_ok. split_and!.
  - destruct (publish_spec o s.1 e (hub_ok_open _ Hr)) as (h' & ? & _). eauto.
  - intros id Hid. destruct Hr as (Ho & _).
    destruct (Ho id) as (c & Hc & Hcl); [set_solver|].
    unfold close_chan. rewrite Hc, Hcl. eauto.
  - intros id c Hc. destruct Hr as (_ & _ & Hb). by destruct (Hb _ _ Hc).
Qed.

(** C15. A subscriber sees the published events in order and without duplicates:
    what it received so far followed by what waits in its channel is a
    subsequence of what was published since it subscribed (events are dropped
    where its buffer was full), and it is all of it while no more than the
    capacity was published. *)
Theorem hub_delivers_in_order s h' id cmds pub rcv :
  hub_reach s -> (subscribe s.1) = (h', id) -> Forall (keeps id) cmds ->
  forall h'', hub_run cmds h' = Ok (h'', pub, rcv) ->
  exists buf, hub_chans h'' !! id = Some (Chan buf false) /\
    received id rcv ++ buf `sublist_of` pub /\
    (length pub <= cap -> received id rcv ++ buf = pub).
Proof.
  intros Hr%hub_reach_ok Hsub Hk h'' Hrun. destruct s as [h w].
  assert (Hok := hub_ok_subscribe _ _ (hub_ok_forget _ _ Hr)).
  simpl in Hsub. injection Hsub as Hh Hi.
  assert ((subscribe h).1 = h') as E1 by done. rewrite E1 in Hok. subst id.
  apply (hub_run_delivery cmds h' h'' pub rcv (hub_nextID h) []); try done; subst h'.
  - simpl. set_solver.
  - apply lookup_insert_eq.
Qed.
End Hub.

Lemma hub_never_panics_witness :
  exists h', publish 2 in_reverse (subscribe (@empty_hub nat)).1 7 = Ok h'.
Proof.
  refine (proj1 (hub_never_panics 2 ((subscribe empty_hub).1, ∅) in_reverse 7 _)).
  apply (ReachStep 2 (empty_hub, ∅)); [apply ReachInit | apply StepSubscribe].
Defined.

Lemma hub_delivers_in_order_witness :
  exists h'' buf,
    hub_run 2 [CmdPublish in_order 1; CmdPublish in_order 2; CmdPublish in_order 3; CmdRecv 0]
      (subscribe (@empty_hub nat)).1 = Ok (h'', [1; 2; 3], [(0%Z, 1)]) /\
    hub_chans h'' !! 0%Z = Some (Chan buf false) /\
    received 0 [(0%Z, 1)] ++ buf `sublist_of` [1; 2; 3].
Proof.
  eexists.
  edestruct (hub_delivers_in_order 2 (@empty_hub nat, ∅) (subscribe (@empty_hub nat)).1 0
    [CmdPublish in_order 1; CmdPublish in_order 2; CmdPublish in_order 3; CmdRecv 0]
    [1; 2; 3] [(0%Z, 1)]) as (buf & H1 & H2 & _).
  - apply ReachInit.
  - reflexivity.
  - repeat constructor.
  - reflexivity.
  - exists buf. split_and!; [reflexivity | exact H1 | exact H2].
Defined.
