(* ===== verification/Logs.v ===== *)
(** * Container logs (src/logs/ringbuffer.go, src/logs/writer.go)

    Module [RingBuffer] keeps the last bytes a pod wrote, with its followers;
    Module [PrefixWriter] prefixes every line with the pod's name.  Both
    implement [io.Writer], the type class [Writer]. *)

From S2P Require Import Prelude Hub.

(** ** Lines

    The reference notion of the lines of a byte stream: every line keeps its
    terminating newline; the last one may lack it. *)
Fixpoint lines_of (b : bytes) : list bytes :=
  match b with
  | [] => []
  | c :: b' =>
      if decide (c = newline) then [c] :: lines_of b'
      else match lines_of b' with
           | [] => [[c]]
           | l :: ls => (c :: l) :: ls
           end
  end.

Lemma lines_of_concat b : concat (lines_of b) = b.
Proof.
  induction b as [|c b IH]; simpl; [done|]. case_decide; simpl; [by rewrite IH|].
  destruct (lines_of b); simpl in *; by rewrite <- IH.
Qed.

Lemma lines_of_nil b : lines_of b = [] <-> b = [].
Proof.
  split; [|by intros ->]. destruct b as [|c b]; simpl; [done|].
  case_decide; [done|]. by destruct (lines_of b).
Qed.

Lemma length_lines_of_cons c b :
  length (lines_of (c :: b)) =
    if decide (c = newline) then S (length (lines_of b))
    else Nat.max 1 (length (lines_of b)).
Proof.
  simpl. case_decide; [done|]. destruct (lines_of b); simpl; lia.
Qed.

(** Cutting a stream right after a newline cuts its lines there. *)
Lemma lines_of_app_newline b k :
  lines_of (b ++ newline :: k) = lines_of (b ++ [newline]) ++ lines_of k.
Proof.
  induction b as [|c b IH]; simpl.
  - reflexivity.
  - case_decide; [by rewrite IH|]. rewrite IH.
    destruct (lines_of (b ++ [newline])) eqn:E; simpl; [|done].
    apply lines_of_nil in E. by destruct b.
Qed.

(** ** [io.Writer] *)

Inductive write_error := ErrShortWrite | ErrDest.

(** [Write] returns the new state, and the number of bytes or an error. *)
Class Writer (W : Type) := Write : W -> bytes -> W * res write_error Z.

(** [io.MultiWriter] duplicates a write to each writer in turn and stops at the
    first error. *)
Definition write_checked {W} `{Writer W} (w : W) (p : bytes) : W * res write_error unit :=
  match Write w p with
  | (w', Ok n) => if (n =? Z.of_nat (length p))%Z then (w', Ok tt) else (w', Err ErrShortWrite)
  | (w', Err e) => (w', Err e)
  | (w', Panic y) => (w', Panic y)
  end.

#[export] Instance MultiWriter {W1 W2} `{Writer W1, Writer W2} : Writer (W1 * W2) :=
  fun '(w1, w2) p =>
    match write_checked w1 p with
    | (w1', Ok _) =>
        match write_checked w2 p with
        | (w2', Ok _) => ((w1', w2'), Ok (Z.of_nat (length p)))
        | (w2', Err e) => ((w1', w2'), Err e)
        | (w2', Panic y) => ((w1', w2'), Panic y)
        end
    | (w1', Err e) => ((w1', w2), Err e)
    | (w1', Panic y) => ((w1', w2), Panic y)
    end.

(** A sequence of writes, stopping at the first that fails. *)
Fixpoint write_all {W} `{Writer W} (w : W) (ps : list bytes) : W * res write_error unit :=
  match ps with
  | [] => (w, Ok tt)
  | p :: ps' =>
      match Write w p with
      | (w', Ok _) => write_all w' ps'
      | (w', Err e) => (w', Err e)
      | (w', Panic y) => (w', Panic y)
      end
  end.

(** ** The ring buffer *)
Module RingBuffer.

Definition DefaultCapacity : Z := Z.shiftl 1 20.

(** Positions and the capacity are non-negative and bounded by the length of
    [data], so they are kept in [nat]; [total] is an [int64] and wraps. *)
Record RingBuffer := mkRingBuffer {
  data : bytes;
  capacity : nat;
  writePos : nat;
  total : Z;
  wrapped : bool;
  subs : hub bytes;
}.

(** [make(chan []byte, 64)] *)
Definition follow_cap : nat := 64.

Definition NewRingBuffer (capacity : Z) : RingBuffer :=
  let capacity := if (capacity <=? 0)%Z then DefaultCapacity else capacity in
  mkRingBuffer (replicate (Z.to_nat capacity) Byte.x00) (Z.to_nat capacity) 0 0 false
    empty_hub.

(** The part of [Write] under [rb.mu]. *)
Definition write_data (rb : RingBuffer) (p : bytes) : RingBuffer :=
  let n := length p in
  let total' := i64 (total rb + Z.of_nat n) in
  if (capacity rb <=? n)%nat then
    mkRingBuffer (copy_at (data rb) 0 (drop (n - capacity rb) p))
      (capacity rb) 0 total' true (subs rb)
  else
    let remaining := capacity rb - writePos rb in
    if (n <=? remaining)%nat then
      let data' := copy_at (data rb) (writePos rb) p in
      let writePos' := writePos rb + n in
      if (writePos' =? capacity rb)%nat
      then mkRingBuffer data' (capacity rb) 0 total' true (subs rb)
      else mkRingBuffer data' (capacity rb) writePos' total' (wrapped rb) (subs rb)
    else
      let data1 := copy_at (data rb) (writePos rb) (take remaining p) in
      let data2 := copy_at data1 0 (drop remaining p) in
      mkRingBuffer data2 (capacity rb) (n - remaining) total' true (subs rb).

(** The part of [Write] under [rb.subsMu]: the chunk goes to every follower. *)
Definition broadcast (o : shuffle Z) (rb : RingBuffer) (chunk : bytes) : res Empty_set RingBuffer :=
  h ← publish follow_cap o (subs rb) chunk;
  Ok (mkRingBuffer (data rb) (capacity rb) (writePos rb) (total rb) (wrapped rb) h).

Definition Write (o : shuffle Z) (rb : RingBuffer) (p : bytes) : RingBuffer * res write_error Z :=
  if decide (p = []) then (rb, Ok 0%Z)
  else
    let rb1 := write_data rb p in
    match broadcast o rb1 p with
    | Ok rb2 => (rb2, Ok (Z.of_nat (length p)))
    | Err e => match e with end
    | Panic w => (rb1, Panic w)
    end.

#[export] Instance RingBuffer_Writer : Writer RingBuffer := Write in_order.

Definition ReadAll (rb : RingBuffer) : bytes :=
  if (total rb =? 0)%Z then []
  else if negb (wrapped rb) then take (writePos rb) (data rb)
  else drop (writePos rb) (data rb) ++ take (writePos rb) (data rb).

(** The loop [for ; i >= 0; i--] of [TailLines], with [k = i + 1]. *)
Fixpoint tail_scan (all : bytes) (count found : Z) (k : nat) : bytes :=
  match k with
  | O => all
  | S i =>
      if decide (all !! i = Some newline) then
        let found' := (found + 1)%Z in
        if (count <=? found')%Z then drop (S i) all else tail_scan all count found' i
      else tail_scan all count found i
  end.

Definition TailLines (rb : RingBuffer) (count : Z) : bytes :=
  let all := ReadAll rb in
  if (count <=? 0)%Z || (length all =? 0)%nat then all
  else
    let i := length all - 1 in
    let k := if decide (all !! i = Some newline) then i else S i in
    tail_scan all count 0 k.

Definition Follow (rb : RingBuffer) : RingBuffer * Z :=
  let '(h, id) := subscribe (subs rb) in
  (mkRingBuffer (data rb) (capacity rb) (writePos rb) (total rb) (wrapped rb) h, id).

Definition Len (rb : RingBuffer) : Z := total rb.

(** ** Representation of the bytes written so far *)

(** [rep rb h]: the buffer holds the last [capacity] bytes of the history [h]. *)
Record rep (rb : RingBuffer) (h : bytes) : Prop := {
  rep_pos : 0 < capacity rb;
  rep_len : length (data rb) = capacity rb;
  rep_wp : writePos rb < capacity rb;
  rep_total : total rb = i64 (Z.of_nat (length h));
  rep_content :
    if wrapped rb
    then capacity rb <= length h /\
         drop (writePos rb) (data rb) ++ take (writePos rb) (data rb)
           = lastn (capacity rb) h
    else writePos rb = length h /\ take (writePos rb) (data rb) = h;
}.

Lemma NewRingBuffer_rep c : rep (NewRingBuffer c) [].
Proof.
  unfold NewRingBuffer. set (c' := if (c <=? 0)%Z then _ else _).
  assert (0 < c')%Z by (unfold c'; destruct (c <=? 0)%Z eqn:?; bool_z; [done|lia]).
  split; simpl; rewrite ?length_replicate; try done; lia.
Qed.

(** *** [write_data] *)

Lemma write_data_total rb p : total (write_data rb p) = i64 (total rb + Z.of_nat (length p)).
Proof. unfold write_data. by repeat case_match. Qed.

Lemma write_data_capacity rb p : capacity (write_data rb p) = capacity rb.
Proof. unfold write_data. by repeat case_match. Qed.

Lemma rep_total_write rb h p :
  rep rb h -> total (write_data rb p) = i64 (Z.of_nat (length (h ++ p))).
Proof.
  intros H. rewrite write_data_total, (rep_total _ _ H), i64_add, length_app.
  f_equal. lia.
Qed.

(** The three ways the bytes are laid out. *)
Lemma write_overwrite rb h p :
  rep rb h -> capacity rb <= length p -> rep (write_data rb p) (h ++ p).
Proof.
  intros Hr Hle. pose proof (rep_total_write rb h p Hr) as Ht.
  destruct Hr as [H0 Hl Hw _ _].
  unfold write_data in *. rewrite (proj2 (Nat.leb_le _ _) Hle) in *.
  assert (Hd : copy_at (data rb) 0 (drop (length p - capacity rb) p) = lastn (capacity rb) p).
  { rewrite copy_at_fit; rewrite ?length_drop; [|lia].
    rewrite (drop_ge (data rb)) by lia. by rewrite app_nil_r. }
  split; simpl in *; [done | | done | done |].
  - rewrite length_copy_at; lia.
  - rewrite Hd, app_nil_r. split; [rewrite length_app; lia|].
    by rewrite lastn_app_r.
Qed.

Lemma write_wrap rb h p :
  rep rb h -> length p < capacity rb -> capacity rb - writePos rb < length p ->
  rep (write_data rb p) (h ++ p).
Proof.
  intros Hr Hlt Hgt. pose proof (rep_total_write rb h p Hr) as Ht.
  destruct Hr as [H0 Hl Hw _ Hc].
  unfold write_data in *. rewrite (proj2 (Nat.leb_gt _ _) Hlt) in *.
  rewrite (proj2 (Nat.leb_gt _ _) Hgt) in *.
  set (rem := capacity rb - writePos rb) in *.
  assert (Hd1 : copy_at (data rb) (writePos rb) (take rem p)
                = take (writePos rb) (data rb) ++ take rem p).
  { rewrite copy_at_fit; rewrite length_take; [|lia].
    rewrite (drop_ge (data rb)) by lia. by rewrite app_nil_r. }
  assert (Hd2 : copy_at (copy_at (data rb) (writePos rb) (take rem p)) 0 (drop rem p)
                = drop rem p ++ drop (length p - rem) (take (writePos rb) (data rb))
                    ++ take rem p).
  { rewrite Hd1, copy_at_fit; rewrite length_drop;
      [|rewrite length_app, !length_take; lia]. simpl.
    rewrite drop_app_le by (rewrite length_take; lia). done. }
  split; simpl in *; [done | | lia | done |].
  - rewrite !length_copy_at; rewrite ?length_copy_at; lia.
  - rewrite Hd2, drop_app_length', take_app_length' by (by rewrite length_drop).
    rewrite <- app_assoc, take_drop.
    destruct (wrapped rb).
    + destruct Hc as [Hch Hcl]. split; [rewrite length_app; lia|].
      rewrite lastn_app by lia. f_equal. rewrite <- Hcl.
      rewrite drop_app_ge by (rewrite length_drop; lia).
      f_equal. rewrite length_drop. lia.
    + destruct Hc as [Hch Hcl]. rewrite length_app. split; [lia|].
      unfold lastn. rewrite length_app, drop_app_le by lia.
      rewrite Hcl. do 2 f_equal. lia.
Qed.

Lemma write_fit rb h p :
  rep rb h -> length p < capacity rb -> length p <= capacity rb - writePos rb ->
  rep (write_data rb p) (h ++ p).
Proof.
  intros Hr Hlt Hle. pose proof (rep_total_write rb h p Hr) as Ht.
  destruct Hr as [H0 Hl Hw _ Hc].
  unfold write_data in *. rewrite (proj2 (Nat.leb_gt _ _) Hlt) in *.
  rewrite (proj2 (Nat.leb_le _ _) Hle) in *.
  set (d' := copy_at (data rb) (writePos rb) p) in *.
  assert (Hd : d' = take (writePos rb) (data rb) ++ p
                     ++ drop (writePos rb + length p) (data rb)).
  { unfold d'. by rewrite copy_at_fit by lia. }
  assert (Hld : length d' = capacity rb) by (unfold d'; rewrite length_copy_at; lia).
  assert (Hal : writePos rb + length p = length (take (writePos rb) (data rb) ++ p))
    by (rewrite length_app, length_take; lia).
  assert (Htk : take (writePos rb + length p) d' = take (writePos rb) (data rb) ++ p)
    by (rewrite Hd, app_assoc, take_app_length'; done).
  assert (Hdr : drop (writePos rb + length p) d' = drop (writePos rb + length p) (data rb))
    by (rewrite Hd, app_assoc, drop_app_length'; done).
  assert (Hnew : if wrapped rb
    then drop (writePos rb + length p) d' ++ take (writePos rb + length p) d'
         = lastn (capacity rb) (h ++ p)
    else take (writePos rb + length p) d' = h ++ p).
  { rewrite Htk, Hdr. destruct (wrapped rb); destruct Hc as [Hch Hcl]; [|by rewrite Hcl].
    rewrite lastn_app by lia. rewrite <- Hcl.
    rewrite drop_app_le by (rewrite length_drop; lia).
    rewrite drop_drop, <- app_assoc. done. }
  destruct (writePos rb + length p =? capacity rb)%nat eqn:He.
  - apply Nat.eqb_eq in He. split; simpl in *; [done.. |].
    rewrite He, drop_ge, take_ge in Hnew by lia. rewrite app_nil_r.
    destruct (wrapped rb); destruct Hc as [Hch Hcl]; simpl in Hnew.
    + split; [rewrite length_app; lia | done].
    + split; [rewrite length_app; lia|]. rewrite Hnew, lastn_all; [done|].
      rewrite length_app; lia.
  - apply Nat.eqb_neq in He. split; simpl in *; [done | done | lia | done |].
    destruct (wrapped rb); destruct Hc as [Hch Hcl].
    + split; [rewrite length_app; lia | done].
    + split; [rewrite length_app; lia | done].
Qed.

Lemma write_data_rep rb h p : rep rb h -> rep (write_data rb p) (h ++ p).
Proof.
  intros Hr. destruct (le_lt_dec (capacity rb) (length p)).
  - by apply write_overwrite.
  - destruct (le_lt_dec (length p) (capacity rb - writePos rb)).
    + by apply write_fit.
    + by apply write_wrap.
Qed.

(** *** Reading *)

Lemma ReadAll_rep rb h :
  rep rb h -> (Z.of_nat (length h) < 2 ^ 64)%Z -> ReadAll rb = lastn (capacity rb) h.
Proof.
  intros [H0 Hl Hw Ht Hc] Hb. unfold ReadAll. rewrite Ht.
  assert (Hz : (i64 (Z.of_nat (length h)) =? 0)%Z = true -> h = []).
  { intros Hz. bool_z. unfold i64, wrap_signed in Hz.
    apply length_zero_iff_nil. pose proof (Z.div_mod (Z.of_nat (length h) + 2 ^ (64 - 1)) (2 ^ 64)).
    pose proof (Nat2Z.is_nonneg (length h)).
    assert ((Z.of_nat (length h) + 2 ^ (64 - 1)) `div` 2 ^ 64 <= 1)%Z
      by (apply Z.lt_succ_r, Z.div_lt_upper_bound; lia).
    assert (0 <= (Z.of_nat (length h) + 2 ^ (64 - 1)) `div` 2 ^ 64)%Z
      by (apply Z.div_pos; lia).
    lia. }
  destruct (i64 _ =? 0)%Z eqn:E; [by rewrite (Hz eq_refl)|].
  destruct (wrapped rb); simpl; destruct Hc as [Hch Hcl]; [done|].
  rewrite Hcl, lastn_all; [done|lia].
Qed.

(** *** Sequences of calls *)

Inductive ring_op :=
  | OpWrite (o : shuffle Z) (p : bytes)
  | OpFollow
  | OpCancel (id : Z)
  | OpRecv (id : Z).

Definition with_subs (rb : RingBuffer) (h : hub bytes) : RingBuffer :=
  mkRingBuffer (data rb) (capacity rb) (writePos rb) (total rb) (wrapped rb) h.

(** The goroutine of a follower once its context is done. *)
Definition cancel_follow (rb : RingBuffer) (id : Z) : res Empty_set RingBuffer :=
  if decide (id ∈ hub_subs (subs rb)) then
    h ← close_chan (unsubscribe (subs rb) id) id; Ok (with_subs rb h)
  else Ok rb.

Definition ring_step (rb : RingBuffer) (op : ring_op) : res write_error RingBuffer :=
  match op with
  | OpWrite o p =>
      match Write o rb p with
      | (rb', Ok _) => Ok rb'
      | (_, Err e) => Err e
      | (_, Panic w) => Panic w
      end
  | OpFollow => Ok (Follow rb).1
  | OpCancel id =>
      match cancel_follow rb id with
      | Ok rb' => Ok rb'
      | Err e => match e with end
      | Panic w => Panic w
      end
  | OpRecv id =>
      match recv (subs rb) id with
      | Some (_, h) => Ok (with_subs rb h)
      | None => Ok rb
      end
  end.

Fixpoint ring_run (rb : RingBuffer) (ops : list ring_op) : res write_error RingBuffer :=
  match ops with
  | [] => Ok rb
  | op :: ops' => rb' ← ring_step rb op; ring_run rb' ops'
  end.

Definition op_bytes (op : ring_op) : bytes :=
  match op with OpWrite _ p => p | _ => [] end.

Definition ring_ok (rb : RingBuffer) (h : bytes) : Prop :=
  rep rb h /\ hub_ok follow_cap (subs rb, ∅).

Lemma rep_with_subs rb h hb : rep rb h -> rep (with_subs rb hb) h.
Proof. by intros [????]; split. Qed.

Lemma Write_ok o rb h p :
  ring_ok rb h ->
  exists rb', Write o rb p = (rb', Ok (Z.of_nat (length p))) /\ ring_ok rb' (h ++ p) /\
    capacity rb' = capacity rb.
Proof.
  intros [Hr Hh]. unfold Write. case_decide as Hp.
  { subst p. exists rb. by rewrite app_nil_r. }
  assert (Hs : subs (write_data rb p) = subs rb) by (unfold write_data; by repeat case_match).
  destruct (publish_spec follow_cap o (subs rb) p (hub_ok_open _ _ Hh)) as (hb & Hp' & _).
  unfold broadcast. rewrite Hs, Hp'; simpl. eexists. split; [reflexivity|].
  split; [split|apply write_data_capacity].
  - apply (rep_with_subs _ _ hb), write_data_rep, Hr.
  - by eapply hub_ok_publish.
Qed.

Lemma ring_step_ok rb h op :
  ring_ok rb h ->
  exists rb', ring_step rb op = Ok rb' /\ ring_ok rb' (h ++ op_bytes op) /\
    capacity rb' = capacity rb.
Proof.
  intros Hok. destruct op as [o p | | id | id]; simpl; rewrite ?app_nil_r.
  - destruct (Write_ok o rb h p Hok) as (rb' & -> & ? & ?). eauto.
  - destruct Hok as [Hr Hh]. eexists; split; [reflexivity|]. unfold Follow; simpl.
    split; [split|done]; [by apply rep_with_subs | by apply hub_ok_subscribe].
  - destruct Hok as [Hr Hh]. unfold cancel_follow. case_decide as Hid; [|by exists rb].
    pose proof (hub_ok_unsubscribe _ _ _ _ Hh Hid) as Hu.
    assert (Hc : exists c, hub_chans (subs rb) !! id = Some c /\ ch_closed c = false)
      by (apply Hu; set_solver).
    destruct Hc as (c & Hc & Hcl).
    assert (Hcc : exists h', close_chan (unsubscribe (subs rb) id) id = Ok h')
      by (unfold close_chan; simpl in *; rewrite Hc, Hcl; eauto).
    destruct Hcc as [h' Hcc]. rewrite Hcc; simpl. eexists; split; [reflexivity|].
    split; [split|done]; [by apply rep_with_subs|]. simpl.
    assert (Hcl' := hub_ok_close follow_cap _ _ _ id Hu ltac:(set_solver) Hcc).
    by replace (({[id]} ∪ ∅) ∖ {[id]}) with (∅ : gset Z) in Hcl' by set_solver.
  - destruct Hok as [Hr Hh]. destruct (recv (subs rb) id) as [[e h']|] eqn:E; [|by exists rb].
    eexists; split; [reflexivity|]. split; [split|done]; [by apply rep_with_subs|].
    by eapply hub_ok_recv.
Qed.

Lemma ring_run_ok ops rb h :
  ring_ok rb h ->
  exists rb', ring_run rb ops = Ok rb' /\ ring_ok rb' (h ++ concat (op_bytes <$> ops)) /\
    capacity rb' = capacity rb.
Proof.
  revert rb h. induction ops as [|op ops IH]; intros rb h Hok; simpl.
  { exists rb. by rewrite app_nil_r. }
  destruct (ring_step_ok rb h op Hok) as (rb1 & -> & Hok1 & Hc1); simpl.
  destruct (IH _ _ Hok1) as (rb2 & -> & Hok2 & Hc2). exists rb2.
  rewrite <- app_assoc in Hok2. by rewrite Hc2.
Qed.

Lemma NewRingBuffer_ok c : ring_ok (NewRingBuffer c) [].
Proof. split; [apply NewRingBuffer_rep|]. split_and!; simpl; set_solver. Qed.

(** *** [TailLines] *)

(** Scanning down from [k], with [found] terminators seen below the last line. *)
Lemma tail_scan_spec all count found k :
  (0 <= found < count)%Z -> k < length all ->
  Z.of_nat (length (lines_of (drop k all))) = (found + 1)%Z ->
  tail_scan all count found k = concat (lastn (Z.to_nat count) (lines_of all)).
Proof.
  revert found. induction k as [|i IH]; intros found Hf Hk Hlen; simpl.
  { rewrite drop_0 in Hlen. rewrite lastn_all by lia. by rewrite lines_of_concat. }
  destruct (lookup_lt_is_Some_2 all i ltac:(lia)) as [c Hc].
  rewrite (drop_S _ _ _ Hc) in IH. rewrite length_lines_of_cons in IH.
  destruct (decide (all !! i = Some newline)) as [Hn|Hn]; rewrite Hc in Hn.
  - simplify_eq. rewrite decide_True in IH by done.
    destruct (count <=? found + 1)%Z eqn:Hcnt; bool_z; [|apply IH; lia].
    rewrite <- (take_drop i all) at 2. rewrite (drop_S _ _ _ Hc), lines_of_app_newline.
    rewrite lastn_app_r by lia. rewrite lastn_all by lia. by rewrite lines_of_concat.
  - rewrite decide_False in IH by congruence. apply IH; lia.
Qed.

Lemma tail_lines_all all count :
  (0 < count)%Z -> all <> [] ->
  tail_scan all count 0
    (if decide (all !! (length all - 1) = Some newline) then length all - 1
     else S (length all - 1))
  = concat (lastn (Z.to_nat count) (lines_of all)).
Proof.
  intros Hc Hne. assert (Hl : 0 < length all) by (destruct all; simpl; [done|lia]).
  set (i := length all - 1).
  destruct (lookup_lt_is_Some_2 all i ltac:(unfold i; lia)) as [c Hci].
  assert (Hd : drop i all = [c]).
  { rewrite (drop_S _ _ _ Hci). rewrite drop_ge by (unfold i; lia). done. }
  assert (Hone : Z.of_nat (length (lines_of (drop i all))) = (0 + 1)%Z).
  { rewrite Hd, length_lines_of_cons. by case_decide. }
  case_decide as Hn; [apply tail_scan_spec; try done; unfold i; lia|].
  simpl. rewrite decide_False by done. apply tail_scan_spec; try done; unfold i; lia.
Qed.

(** ** Properties *)

(** C14. The ring buffer is the last [capacity] bytes of everything written: after
    any sequence of writes (each shorter or longer than the buffer, wrapping or
    not), follows, cancellations and receives, no operation fails and [ReadAll]
    returns the suffix of length [capacity] of the concatenated writes. *)
Theorem ReadAll_is_last_bytes c ops :
  (Z.of_nat (length (concat (op_bytes <$> ops))) < 2 ^ 64)%Z ->
  exists rb, ring_run (NewRingBuffer c) ops = Ok rb /\
    ReadAll rb = lastn (capacity (NewRingBuffer c)) (concat (op_bytes <$> ops)).
Proof.
  intros Hb. destruct (ring_run_ok ops _ _ (NewRingBuffer_ok c)) as (rb & Hr & [Hrep _] & Hcap).
  exists rb. split; [done|]. by rewrite (ReadAll_rep _ _ Hrep Hb), Hcap.
Qed.

Lemma ReadAll_is_last_bytes_witness :
  exists rb, ring_run (NewRingBuffer 10)
      [OpWrite in_order (bytes_of "hello"); OpFollow; OpWrite in_order (bytes_of " world!")] = Ok rb /\
    ReadAll rb = bytes_of "llo world!".
Proof.
  apply (ReadAll_is_last_bytes 10
    [OpWrite in_order (bytes_of "hello"); OpFollow; OpWrite in_order (bytes_of " world!")]).
  vm_compute. reflexivity.
Defined.

(** C28. [TailLines] returns whole lines: for a positive count, the last [count]
    lines of what [ReadAll] returns, in the reference splitting [lines_of] (all of
    them when there are fewer), whether or not the last line is terminated; for a
    count that is not positive, everything. *)
Theorem TailLines_last_lines rb count :
  TailLines rb count =
    if (count <=? 0)%Z then ReadAll rb
    else concat (lastn (Z.to_nat count) (lines_of (ReadAll rb))).
Proof.
  unfold TailLines. destruct (count <=? 0)%Z eqn:Hc; simpl; [done|]. bool_z.
  destruct (length (ReadAll rb) =? 0)%nat eqn:Hl.
  - apply Nat.eqb_eq, length_zero_iff_nil in Hl. by rewrite Hl.
  - apply Nat.eqb_neq in Hl. apply tail_lines_all; [done|]. by intros E; rewrite E in Hl.
Qed.
End RingBuffer.

(** ** The prefix writer *)
Module PrefixWriter.

Section PrefixWriter.
Context {W : Type} `{WriterW : Writer W}.

Record PrefixWriter := mkPrefixWriter {
  dest : W;
  prefix : bytes;
  needPrefix : bool;
}.

Definition NewPrefixWriter (dest : W) (prefix : string) : PrefixWriter :=
  mkPrefixWriter dest (bytes_of prefix) true.

(** The loop [for _, b := range p]: the flag after it and the buffer. *)
Fixpoint prefix_loop (pfx : bytes) (need : bool) (p : bytes) : bool * bytes :=
  match p with
  | [] => (need, [])
  | b :: p' =>
      let '(need', out) := prefix_loop pfx (if decide (b = newline) then true else false) p' in
      (need', (if need then pfx else []) ++ b :: out)
  end.

(** The flag is updated even when the destination refuses the bytes. *)
Definition Write (pw : PrefixWriter) (p : bytes) : PrefixWriter * res write_error Z :=
  if decide (p = []) then (pw, Ok 0%Z)
  else
    let '(need', buf) := prefix_loop (prefix pw) (needPrefix pw) p in
    match Logs.Write (dest pw) buf with
    | (d', Ok _) => (mkPrefixWriter d' (prefix pw) need', Ok (Z.of_nat (length p)))
    | (d', Err e) => (mkPrefixWriter d' (prefix pw) need', Err e)
    | (d', Panic w) => (mkPrefixWriter d' (prefix pw) need', Panic w)
    end.

#[export] Instance PrefixWriter_Writer : Writer PrefixWriter := Write.

Lemma prefix_loop_app pfx need p q :
  prefix_loop pfx need (p ++ q) =
    let '(need1, out1) := prefix_loop pfx need p in
    let '(need2, out2) := prefix_loop pfx need1 q in
    (need2, out1 ++ out2).
Proof.
  revert need. induction p as [|b p IH]; intros need; simpl.
  { by destruct (prefix_loop pfx need q). }
  rewrite IH. destruct (prefix_loop pfx _ p) as [n1 o1].
  destruct (prefix_loop pfx n1 q) as [n2 o2]. by rewrite <- app_assoc.
Qed.

(** The output is the prefix before every line of the reference splitting; a
    first line that continues an earlier write gets none. *)
Lemma prefix_loop_lines pfx need p :
  (prefix_loop pfx need p).2 =
    match lines_of p with
    | [] => []
    | l :: ls => (if need then pfx else []) ++ l ++ concat ((fun l => pfx ++ l) <$> ls)
    end.
Proof.
  revert need. induction p as [|b p IH]; intros need; simpl; [done|].
  specialize (IH (if decide (b = newline) then true else false)).
  destruct (prefix_loop _ _ p) as [n o]; simpl in *. rewrite IH. f_equal.
  case_decide; destruct (lines_of p) eqn:E; simpl; try done.
  by rewrite <- app_assoc.
Qed.
End PrefixWriter.
Arguments PrefixWriter W : clear implicits.

(** A destination that never fails and keeps what it is given. *)
#[export] Instance buffer_Writer : Writer bytes :=
  fun b p => (b ++ p, Ok (Z.of_nat (length p))).

Lemma Write_buffer d x n p :
  Logs.Write (mkPrefixWriter d x n) p =
    let '(n', out) := prefix_loop x n p in
    (mkPrefixWriter (d ++ out) x n', Ok (Z.of_nat (length p))).
Proof.
  unfold Logs.Write, PrefixWriter_Writer, Write; simpl. case_decide as Hp.
  - subst p; simpl. by rewrite app_nil_r.
  - by destruct (prefix_loop x n p).
Qed.

Lemma write_all_prefix d x n ps :
  write_all (mkPrefixWriter d x n) ps =
    let '(n', out) := prefix_loop x n (concat ps) in (mkPrefixWriter (d ++ out) x n', Ok tt).
Proof.
  revert d n. induction ps as [|p ps IH]; intros d n; cbn [write_all concat].
  { simpl. by rewrite app_nil_r. }
  rewrite prefix_loop_app, Write_buffer. destruct (prefix_loop x n p) as [n1 o1].
  rewrite IH. destruct (prefix_loop x n1 (concat ps)). by rewrite <- app_assoc.
Qed.

(** However a stream is cut into writes, a new prefix writer over a
    destination that accepts everything leaves there the stream with the prefix
    before each of its lines, exactly once per line. *)
Theorem prefix_each_line pfx ps :
  exists pw, write_all (NewPrefixWriter ([] : bytes) pfx) ps = (pw, Ok tt) /\
    dest pw = concat ((fun l => bytes_of pfx ++ l) <$> lines_of (concat ps)).
Proof.
  unfold NewPrefixWriter. rewrite write_all_prefix.
  pose proof (prefix_loop_lines (bytes_of pfx) true (concat ps)) as Hl.
  destruct (prefix_loop _ _ _) as [n o]; simpl in *. eexists. split; [done|].
  rewrite Hl; simpl. destruct (lines_of (concat ps)); simpl; [done|].
  by rewrite <- app_assoc.
Qed.
End PrefixWriter.
