(* ===== verification/Types.v ===== *)
(** * The resource types (src/types/types.go)

    One [Record] per Go struct, a field per field.  A pointer to a struct or to an
    [int32] is an [option]; a Go map is a [gomap], [None] being the nil map; a Go
    string type with constants ([RestartPolicy], [PodPhase]) stays a string with
    named values, because a manifest can put any string there.  Times are
    nanoseconds since the zero [time.Time], which is [0]. *)

From S2P Require Import Prelude.

Abbreviation gomap V := (option (gmap string V)).

(** [m[k]] with its presence flag, and [m[k]] on a map to strings. *)
Definition go_get {V} (m : gomap V) (k : string) : option V :=
  match m with Some m => m !! k | None => None end.
Definition go_index (m : gomap string) (k : string) : string := default "" (go_get m k).

(** [m[k] = v] on a map known not to be nil. *)
Definition go_set {V} (m : gmap string V) (k : string) (v : V) : gmap string V := <[k := v]> m.

(** [for k, v := range src { dst[k] = v }]; the keys of [src] are distinct, so the
    order is immaterial: the result is the left-biased union. *)
Definition go_copy_into {V} (dst : gmap string V) (src : gomap V) : gmap string V :=
  match src with Some src => src ∪ dst | None => dst end.

Definition go_len {V} (m : gomap V) : nat :=
  match m with Some m => size m | None => 0 end.

Abbreviation Time := Z (only parsing).
Definition IsZero (t : Time) : bool := (t =? 0)%Z.

Record TypeMeta := mkTypeMeta { APIVersion : string; Kind : string }.

Record ObjectMeta := mkObjectMeta {
  Name : string;
  Namespace : string;
  UID : string;
  Annotations : gomap string;
  Labels : gomap string;
  CreationTimestamp : Time;
  ResourceVersion : string;
}.

Record EnvVar := mkEnvVar { envName : string; envValue : string }.

Record HTTPGetAction := mkHTTPGet { httpPath : string; httpPort : Z; httpScheme : string }.
Record TCPSocketAction := mkTCPSocket { tcpPort : Z }.
Record ExecAction := mkExec { execCommand : list string }.

Record Probe := mkProbe {
  HTTPGet : option HTTPGetAction;
  TCPSocket : option TCPSocketAction;
  Exec : option ExecAction;
  InitialDelaySeconds : Z;
  PeriodSeconds : Z;
  TimeoutSeconds : Z;
  FailureThreshold : Z;
  SuccessThreshold : Z;
}.

Record ContainerPort := mkContainerPort {
  cpName : string; cpContainerPort : Z; cpProtocol : string }.

Record VolumeMount := mkVolumeMount {
  vmName : string; vmMountPath : string; vmReadOnly : bool }.

Record Container := mkContainer {
  cName : string;
  cImage : string;
  cCommand : list string;
  cArgs : list string;
  cEnv : list EnvVar;
  cPorts : list ContainerPort;
  cVolumeMounts : list VolumeMount;
  cLivenessProbe : option Probe;
  cReadinessProbe : option Probe;
}.

Abbreviation RestartPolicy := string (only parsing).
Definition RestartAlways : RestartPolicy := "Always".
Definition RestartOnFailure : RestartPolicy := "OnFailure".
Definition RestartNever : RestartPolicy := "Never".

Record ConfigMapVolumeSource := mkConfigMapSource { cmvName : string }.
Record SecretVolumeSource := mkSecretSource { svSecretName : string }.

Record Volume := mkVolume {
  volName : string;
  volConfigMap : option ConfigMapVolumeSource;
  volSecret : option SecretVolumeSource;
}.

Record PodSpec := mkPodSpec {
  Containers : list Container;
  InitContainers : list Container;
  psRestartPolicy : RestartPolicy;
  Volumes : list Volume;
}.

Abbreviation PodPhase := string (only parsing).
Definition PodPending : PodPhase := "Pending".
Definition PodRunning : PodPhase := "Running".
Definition PodSucceeded : PodPhase := "Succeeded".
Definition PodFailed : PodPhase := "Failed".

Record ContainerStatus := mkContainerStatus {
  csName : string;
  csReady : bool;
  csRestartCount : Z;
  csState : string;
  csExitCode : option Z;
}.

Record PodCondition := mkPodCondition { pcType : string; pcStatus : string }.

Record PodStatus := mkPodStatus {
  Phase : PodPhase;
  Message : string;
  StartTime : string;
  RestartCount : Z;
  ContainerStatuses : list ContainerStatus;
  Conditions : list PodCondition;
  PodIP : string;
  HostPort : Z;
}.

(** [types.PodStatus{}] *)
Definition emptyPodStatus : PodStatus := mkPodStatus "" "" "" 0 [] [] "" 0.

Record Pod := mkPod {
  podType : TypeMeta;
  podMeta : ObjectMeta;
  podSpec : PodSpec;
  podStatus : PodStatus;
}.

Record ServicePort := mkServicePort {
  spName : string;
  spProtocol : string;
  spPort : Z;
  spTargetPort : Z;
  spNodePort : Z;
}.

Record ServiceSpec := mkServiceSpec {
  svcPorts : list ServicePort;
  svcSelector : gomap string;
  svcSpecType : string;
}.

(** [Status] is an [interface{}] nothing reads: its JSON text is carried along. *)
Record Service := mkService {
  svcType : TypeMeta;
  svcMeta : ObjectMeta;
  svcSpec : ServiceSpec;
  svcStatus : option string;
}.

Record ConfigMap := mkConfigMap {
  cmType : TypeMeta;
  cmMeta : ObjectMeta;
  cmData : gomap string;
}.

Record Secret := mkSecret {
  secTypeMeta : TypeMeta;
  secMeta : ObjectMeta;
  secData : gomap bytes;
  secStringData : gomap string;
  secType : string;
}.

Record WatchEvent := mkWatchEvent { weType : string; weObject : Pod }.

Record StatusResponse := mkStatusResponse {
  srKind : string;
  srStatus : string;
  srMessage : string;
  srReason : string;
  srCode : Z;
}.

Record LabelSelector := mkLabelSelector { MatchLabels : gomap string }.

Record PodTemplateSpec := mkPodTemplateSpec {
  tmplMeta : ObjectMeta;
  tmplSpec : PodSpec;
}.

Record DeploymentSpec := mkDeploymentSpec {
  depReplicas : option Z;
  depSelector : option LabelSelector;
  depTemplate : PodTemplateSpec;
}.

Record DeploymentStatus := mkDeploymentStatus {
  dsReplicas : Z;
  dsUpdatedReplicas : Z;
  dsReadyReplicas : Z;
  dsAvailableReplicas : Z;
  dsUnavailableReplicas : Z;
}.

Record Deployment := mkDeployment {
  depType : TypeMeta;
  depMeta : ObjectMeta;
  depSpec : DeploymentSpec;
  depStatus : DeploymentStatus;
}.

Record ReplicaSetSpec := mkReplicaSetSpec {
  rsReplicas : option Z;
  rsSelector : option LabelSelector;
  rsTemplate : PodTemplateSpec;
}.

Record ReplicaSetStatus := mkReplicaSetStatus {
  rssReplicas : Z;
  rssFullyLabeledReplicas : Z;
  rssReadyReplicas : Z;
  rssAvailableReplicas : Z;
}.

Record ReplicaSet := mkReplicaSet {
  rsType : TypeMeta;
  rsMeta : ObjectMeta;
  rsSpec : ReplicaSetSpec;
  rsStatus : ReplicaSetStatus;
}.

(** ** Decidable equality *)

#[export] Instance TypeMeta_eq_dec : EqDecision TypeMeta. Proof. solve_decision. Defined.
#[export] Instance ObjectMeta_eq_dec : EqDecision ObjectMeta. Proof. solve_decision. Defined.
#[export] Instance EnvVar_eq_dec : EqDecision EnvVar. Proof. solve_decision. Defined.
#[export] Instance HTTPGetAction_eq_dec : EqDecision HTTPGetAction. Proof. solve_decision. Defined.
#[export] Instance TCPSocketAction_eq_dec : EqDecision TCPSocketAction. Proof. solve_decision. Defined.
#[export] Instance ExecAction_eq_dec : EqDecision ExecAction. Proof. solve_decision. Defined.
#[export] Instance Probe_eq_dec : EqDecision Probe. Proof. solve_decision. Defined.
#[export] Instance ContainerPort_eq_dec : EqDecision ContainerPort. Proof. solve_decision. Defined.
#[export] Instance VolumeMount_eq_dec : EqDecision VolumeMount. Proof. solve_decision. Defined.
#[export] Instance Container_eq_dec : EqDecision Container. Proof. solve_decision. Defined.
#[export] Instance CMSource_eq_dec : EqDecision ConfigMapVolumeSource. Proof. solve_decision. Defined.
#[export] Instance SecSource_eq_dec : EqDecision SecretVolumeSource. Proof. solve_decision. Defined.
#[export] Instance Volume_eq_dec : EqDecision Volume. Proof. solve_decision. Defined.
#[export] Instance PodSpec_eq_dec : EqDecision PodSpec. Proof. solve_decision. Defined.
#[export] Instance ContainerStatus_eq_dec : EqDecision ContainerStatus. Proof. solve_decision. Defined.
#[export] Instance PodCondition_eq_dec : EqDecision PodCondition. Proof. solve_decision. Defined.
#[export] Instance PodStatus_eq_dec : EqDecision PodStatus. Proof. solve_decision. Defined.
#[export] Instance Pod_eq_dec : EqDecision Pod. Proof. solve_decision. Defined.
#[export] Instance LabelSelector_eq_dec : EqDecision LabelSelector. Proof. solve_decision. Defined.
#[export] Instance PodTemplateSpec_eq_dec : EqDecision PodTemplateSpec. Proof. solve_decision. Defined.
#[export] Instance ReplicaSetSpec_eq_dec : EqDecision ReplicaSetSpec. Proof. solve_decision. Defined.
#[export] Instance ReplicaSetStatus_eq_dec : EqDecision ReplicaSetStatus. Proof. solve_decision. Defined.
#[export] Instance ReplicaSet_eq_dec : EqDecision ReplicaSet. Proof. solve_decision. Defined.

(** ** Lists of resources *)

Record PodList := mkPodList { podListType : TypeMeta; podItems : list Pod }.
Record ServiceList := mkServiceList { svcListType : TypeMeta; svcItems : list Service }.
Record ConfigMapList := mkConfigMapList { cmListType : TypeMeta; cmItems : list ConfigMap }.
Record SecretList := mkSecretList { secListType : TypeMeta; secItems : list Secret }.
Record DeploymentList := mkDeploymentList { depListType : TypeMeta; depItems : list Deployment }.
Record ReplicaSetList := mkReplicaSetList { rsListType : TypeMeta; rsItems : list ReplicaSet }.

(** ** Field assignments the handlers and controllers perform *)

Definition set_podStatus (p : Pod) (s : PodStatus) : Pod :=
  mkPod (podType p) (podMeta p) (podSpec p) s.
Definition set_podMeta (p : Pod) (m : ObjectMeta) : Pod :=
  mkPod (podType p) m (podSpec p) (podStatus p).
Definition set_ResourceVersion (m : ObjectMeta) (rv : string) : ObjectMeta :=
  mkObjectMeta (Name m) (Namespace m) (UID m) (Annotations m) (Labels m)
    (CreationTimestamp m) rv.
Definition set_Phase (s : PodStatus) (ph : PodPhase) : PodStatus :=
  mkPodStatus ph (Message s) (StartTime s) (RestartCount s) (ContainerStatuses s)
    (Conditions s) (PodIP s) (HostPort s).
Definition set_Message (s : PodStatus) (msg : string) : PodStatus :=
  mkPodStatus (Phase s) msg (StartTime s) (RestartCount s) (ContainerStatuses s)
    (Conditions s) (PodIP s) (HostPort s).
Definition set_HostPort (s : PodStatus) (port : Z) (ip : string) : PodStatus :=
  mkPodStatus (Phase s) (Message s) (StartTime s) (RestartCount s) (ContainerStatuses s)
    (Conditions s) ip port.
Definition set_rsReplicas (rs : ReplicaSet) (n : Z) : ReplicaSet :=
  mkReplicaSet (rsType rs) (rsMeta rs)
    (mkReplicaSetSpec (Some n) (rsSelector (rsSpec rs)) (rsTemplate (rsSpec rs)))
    (rsStatus rs).
Definition set_rsStatus (rs : ReplicaSet) (s : ReplicaSetStatus) : ReplicaSet :=
  mkReplicaSet (rsType rs) (rsMeta rs) (rsSpec rs) s.
Definition set_depStatus (d : Deployment) (s : DeploymentStatus) : Deployment :=
  mkDeployment (depType d) (depMeta d) (depSpec d) s.

(** [if x != nil { d = *x }] *)
Definition deref_or (d : Z) (x : option Z) : Z := default d x.

Lemma go_copy_into_lookup {V} (dst : gmap string V) src k :
  go_copy_into dst src !! k = match go_get src k with Some v => Some v | None => dst !! k end.
Proof.
  destruct src as [src|]; simpl; [|done]. rewrite lookup_union.
  destruct (src !! k); simpl; [by destruct (dst !! k) | by destruct (dst !! k)].
Qed.
