(* ===== verification/GoStrings.v ===== *)
(** * The parts of Go's [strings] and [strconv] the program uses

    Go strings are byte strings, so a Rocq [string] (a list of 8-bit characters)
    represents them exactly.  [TrimSpace] recognises the UTF-8 encodings of the
    characters of [unicode.IsSpace]; [ToUpper]/[ToLower] are modelled on ASCII
    strings, with the case tables of Unicode (which are data, not code of this
    repository) as a parameter for the other strings. *)

From S2P Require Import Prelude.
From Stdlib Require Import DecimalString.

Abbreviation chars := (list ascii).
Definition code (c : ascii) : N := N_of_ascii c.

(** ** [HasPrefix], [TrimPrefix], [HasSuffix], [TrimSuffix], [Contains] *)

Definition HasPrefix (s p : string) : bool := String.prefix p s.
#[global] Arguments HasPrefix : simpl never.

Fixpoint drop_string (n : nat) (s : string) : string :=
  match n, s with
  | S n', String _ s' => drop_string n' s'
  | _, _ => s
  end.

Definition TrimPrefix (s p : string) : string :=
  if HasPrefix s p then drop_string (String.length p) s else s.

Definition string_rev (s : string) : string :=
  string_of_list_ascii (rev (list_ascii_of_string s)).

Definition HasSuffix (s p : string) : bool := HasPrefix (string_rev s) (string_rev p).

Definition TrimSuffix (s p : string) : string :=
  string_rev (TrimPrefix (string_rev s) (string_rev p)).

Fixpoint Contains (s sub : string) : bool :=
  HasPrefix s sub ||
  match s with
  | EmptyString => false
  | String _ s' => Contains s' sub
  end.

(** ** [Split], [Join], [ReplaceAll] *)

(** [strings.Split(s, sep)] for a separator that is not empty; [skip] counts the
    bytes of a separator just found that are still to be passed over. *)
Fixpoint split_from (sep : string) (s : string) (skip : nat) : list string :=
  match s with
  | EmptyString => [EmptyString]
  | String c s' =>
      match skip with
      | S skip' => split_from sep s' skip'
      | O =>
          if HasPrefix s sep
          then EmptyString :: split_from sep s' (String.length sep - 1)
          else match split_from sep s' 0 with
               | [] => []
               | p :: ps => String c p :: ps
               end
      end
  end.

Definition Split (s sep : string) : list string := split_from sep s 0.

Fixpoint Join (parts : list string) (sep : string) : string :=
  match parts with
  | [] => ""
  | [p] => p
  | p :: ps => p +:+ sep +:+ Join ps sep
  end.

(** Replacing every occurrence, left to right and without overlap, is splitting at
    them and joining with the replacement. *)
Definition ReplaceAll (s old new : string) : string := Join (Split s old) new.

(** ** [TrimSpace] *)

(** The UTF-8 encodings of the characters of [unicode.IsSpace]. *)
Definition space_encodings : list (list N) :=
  [[9]; [10]; [11]; [12]; [13]; [32]; [194; 133]; [194; 160]; [225; 154; 128];
   [226; 128; 128]; [226; 128; 129]; [226; 128; 130]; [226; 128; 131];
   [226; 128; 132]; [226; 128; 133]; [226; 128; 134]; [226; 128; 135];
   [226; 128; 136]; [226; 128; 137]; [226; 128; 138]; [226; 128; 168];
   [226; 128; 169]; [226; 128; 175]; [226; 129; 159]; [227; 128; 128]]%N.

Definition starts_with (l : chars) (enc : list N) : bool :=
  bool_decide (take (length enc) (code <$> l) = enc).

(** The length of the space at the start of [l], [0] when there is none. *)
Definition space_len (encs : list (list N)) (l : chars) : nat :=
  match List.find (starts_with l) encs with
  | Some enc => length enc
  | None => 0
  end.

Fixpoint trim_from (encs : list (list N)) (l : chars) (skip : nat) : chars :=
  match l with
  | [] => []
  | c :: l' =>
      match skip with
      | S skip' => trim_from encs l' skip'
      | O =>
          match space_len encs l with
          | O => l
          | S n => trim_from encs l' n
          end
      end
  end.

Definition TrimSpace (s : string) : string :=
  let left := trim_from space_encodings (list_ascii_of_string s) 0 in
  let right := trim_from (@rev N <$> space_encodings) (rev left) 0 in
  string_of_list_ascii (rev right).

(** ** Case mapping *)

Definition is_ascii (s : string) : bool :=
  forallb (fun c => (code c <? 128)%N) (list_ascii_of_string s).

Definition upper_char (c : ascii) : ascii :=
  if ((97 <=? code c)%N && (code c <=? 122)%N)%bool then ascii_of_N (code c - 32) else c.
Definition lower_char (c : ascii) : ascii :=
  if ((65 <=? code c)%N && (code c <=? 90)%N)%bool then ascii_of_N (code c + 32) else c.

Fixpoint map_string (f : ascii -> ascii) (s : string) : string :=
  match s with
  | EmptyString => EmptyString
  | String c s' => String (f c) (map_string f s')
  end.

(** The mapping of strings outside ASCII. *)
Class UnicodeCase := { unicode_upper : string -> string; unicode_lower : string -> string }.

Definition ToUpper `{UnicodeCase} (s : string) : string :=
  if is_ascii s then map_string upper_char s else unicode_upper s.
Definition ToLower `{UnicodeCase} (s : string) : string :=
  if is_ascii s then map_string lower_char s else unicode_lower s.

(** ** Numbers *)

(** [fmt.Sprintf("%d", z)] *)
Definition Itoa (z : Z) : string := NilZero.string_of_int (Z.to_int z).

Fixpoint digits_value (s : string) (acc : Z) : option Z :=
  match s with
  | EmptyString => Some acc
  | String c s' =>
      if ((48 <=? code c)%N && (code c <=? 57)%N)%bool
      then digits_value s' (10 * acc + (Z.of_N (code c) - 48))%Z
      else None
  end.

(** [strconv.Atoi]: an optional sign, at least one digit, a value of 64 bits. *)
Definition Atoi (s : string) : option Z :=
  let '(neg, ds) :=
    match s with
    | String "-" s' => (true, s')
    | String "+" s' => (false, s')
    | _ => (false, s)
    end in
  match ds with
  | EmptyString => None
  | _ =>
      match digits_value ds 0 with
      | Some v =>
          let v := (if neg : bool then - v else v)%Z in
          if ((- 2 ^ 63 <=? v) && (v <? 2 ^ 63))%Z%bool then Some v else None
      | None => None
      end
  end.

(** ** Lemmas *)

Lemma prefix_char_ne c d p s : c <> d -> HasPrefix (String d s) (String c p) = false.
Proof. intros H. unfold HasPrefix; simpl. by destruct (ascii_dec c d). Qed.

Lemma append_cons c s t : String c s +:+ t = String c (s +:+ t).
Proof. done. Qed.

Lemma HasPrefix_cons c s p :
  HasPrefix (String c s) (String c p) = HasPrefix s p.
Proof. unfold HasPrefix; simpl. destruct (ascii_dec c c); [done|congruence]. Qed.

Lemma HasPrefix_empty s : HasPrefix s "" = true.
Proof. by destruct s. Qed.

(** The characters of a string. *)
Fixpoint all_chars (P : ascii -> bool) (s : string) : bool :=
  match s with
  | EmptyString => true
  | String c s' => P c && all_chars P s'
  end.

Definition lacks (c : ascii) (s : string) : bool := all_chars (fun d => negb (Ascii.eqb c d)) s.

Lemma lacks_cons c d s : lacks c (String d s) = true <-> c <> d /\ lacks c s = true.
Proof.
  unfold lacks; simpl. rewrite andb_true_iff, negb_true_iff, Ascii.eqb_neq. done.
Qed.

Lemma all_chars_app P s t : all_chars P (s +:+ t) = all_chars P s && all_chars P t.
Proof. induction s as [|c s IH]; simpl; [done|]. by rewrite IH, andb_assoc. Qed.

Lemma all_chars_impl P Q s :
  (forall c, P c = true -> Q c = true) -> all_chars P s = true -> all_chars Q s = true.
Proof.
  intros HPQ. induction s as [|c s IH]; simpl; [done|].
  rewrite !andb_true_iff. intros [??]; auto.
Qed.

(** A string without the first byte of [sub] does not contain [sub]. *)
Lemma Contains_lacks c p s : lacks c s = true -> Contains s (String c p) = false.
Proof.
  induction s as [|d s IH]; [done|].
  rewrite lacks_cons. intros [Hne Hl]. simpl.
  rewrite prefix_char_ne by done. by apply IH.
Qed.

Lemma Contains_found s t p : Contains (s +:+ p +:+ t) p = true.
Proof.
  assert (Hp : forall p, HasPrefix (p +:+ t) p = true).
  { clear. intros p. induction p as [|c p IH]; [apply HasPrefix_empty|].
    by rewrite append_cons, HasPrefix_cons. }
  induction s as [|c s IH]; simpl.
  - specialize (Hp p). destruct (p +:+ t); simpl; by rewrite Hp.
  - rewrite IH. apply orb_true_r.
Qed.

(** Splitting at a single character. *)
Lemma Split_char_app c a b :
  Split (a +:+ String c EmptyString +:+ b) (String c EmptyString) =
  Split a (String c EmptyString) ++ Split b (String c EmptyString).
Proof.
  unfold Split. induction a as [|d a IH]; simpl.
  - rewrite HasPrefix_cons, HasPrefix_empty. done.
  - destruct (ascii_dec c d) as [->|Hne].
    + rewrite !HasPrefix_cons, !HasPrefix_empty. simpl. by rewrite IH.
    + rewrite !prefix_char_ne by done. rewrite IH.
      assert (Hne' : split_from (String c "") a 0 <> []).
      { clear. destruct a as [|x a]; simpl; [done|].
        destruct (HasPrefix _ _); [done|].
        assert (G : forall s, split_from (String c "") s 0 <> []).
        { clear. intros s. induction s as [|y s IH]; simpl; [done|].
          destruct (HasPrefix _ _); [done|]. by destruct (split_from _ s 0). }
        specialize (G a). by destruct (split_from _ a 0). }
      by destruct (split_from (String c "") a 0).
Qed.

Lemma Split_lacks c p s : lacks c s = true -> Split s (String c p) = [s].
Proof.
  unfold Split. induction s as [|d s IH]; [done|].
  rewrite lacks_cons. intros [Hne Hl]. simpl.
  rewrite prefix_char_ne by done. by rewrite IH.
Qed.

Lemma split_skip sep p v : split_from sep (p +:+ v) (String.length p) = split_from sep v 0.
Proof. induction p as [|c p IH]; [done|]. rewrite append_cons. exact IH. Qed.

Lemma HasPrefix_app p v : HasPrefix (p +:+ v) p = true.
Proof.
  induction p as [|c p IH]; [apply HasPrefix_empty|]. by rewrite append_cons, HasPrefix_cons.
Qed.

(** Splitting at the only occurrence of a separator. *)
Lemma Split_once c p k v :
  lacks c k = true -> lacks c v = true ->
  Split (k +:+ String c p +:+ v) (String c p) = [k; v].
Proof.
  intros Hk Hv. unfold Split. induction k as [|d k IH].
  - change ("" +:+ String c p +:+ v) with (String c (p +:+ v)). cbn [split_from].
    rewrite HasPrefix_cons, HasPrefix_app. simpl. rewrite Nat.sub_0_r, split_skip.
    f_equal. by apply (Split_lacks c).
  - apply lacks_cons in Hk as [Hne Hk]. rewrite append_cons. cbn [split_from].
    rewrite prefix_char_ne by done. by rewrite IH.
Qed.

(** A doubled character does not occur around a single one. *)
Lemma Contains_double c k v :
  lacks c k = true -> lacks c v = true ->
  Contains (k +:+ String c v) (String c (String c EmptyString)) = false.
Proof.
  intros Hk Hv. induction k as [|d k IH].
  - change ("" +:+ String c v) with (String c v). cbn [Contains].
    rewrite HasPrefix_cons, (Contains_lacks c) by done.
    destruct v as [|d v]; [done|]. apply lacks_cons in Hv as [Hne _].
    by rewrite prefix_char_ne.
  - apply lacks_cons in Hk as [Hne Hk]. rewrite append_cons. cbn [Contains].
    by rewrite prefix_char_ne, IH.
Qed.

Lemma Split_Join c parts :
  Forall (fun p => lacks c p = true) parts -> parts <> [] ->
  Split (Join parts (String c EmptyString)) (String c EmptyString) = parts.
Proof.
  induction parts as [|p ps IH]; [done|]. intros [Hp Hps]%Forall_cons _.
  destruct ps as [|q ps]; [by apply (Split_lacks c)|].
  change (Join (p :: q :: ps) (String c "")) with
    (p +:+ String c "" +:+ Join (q :: ps) (String c "")).
  rewrite Split_char_app, IH, (Split_lacks c) by done. done.
Qed.

Lemma append_assoc s t u : (s +:+ t) +:+ u = s +:+ t +:+ u.
Proof. induction s as [|c s IH]; [done|]. by rewrite !append_cons, IH. Qed.

Lemma append_eq_empty s t : s +:+ t = "" -> s = "" /\ t = "".
Proof. by destruct s. Qed.
