(* ===== verification/Selector.v ===== *)
(** * Label and field selectors (src/discovery/selector.go)

    Every function here is a loop over the comma-separated parts of a selector
    with early [return false] and [continue]; the loop body is a Boolean function
    and the loop is [forallb] of it. *)

From S2P Require Import Prelude Types GoStrings.

(** The body of the loop of [MatchLabels]. *)
Definition match_label_part (labels : gomap string) (part : string) : bool :=
  let part := TrimSpace part in
  if String.eqb part "" then true
  else if Contains part "!=" then
    match Split part "!=" with
    | [k; v] => negb (String.eqb (go_index labels (TrimSpace k)) (TrimSpace v))
    | _ => false
    end
  else if Contains part "==" then
    match Split part "==" with
    | [k; v] => String.eqb (go_index labels (TrimSpace k)) (TrimSpace v)
    | _ => false
    end
  else if Contains part "=" then
    match Split part "=" with
    | [k; v] => String.eqb (go_index labels (TrimSpace k)) (TrimSpace v)
    | _ => false
    end
  else
    match go_get labels part with
    | Some _ => true
    | None => false
    end.

Definition MatchLabels (labels : gomap string) (selector : string) : bool :=
  if String.eqb selector "" then true
  else forallb (match_label_part labels) (Split selector ",").

(** The body of the loop of [MatchFields]. *)
Definition match_field_part (pod : Pod) (part : string) : bool :=
  let part := TrimSpace part in
  if String.eqb part "" then true
  else
    let parsed :=
      if Contains part "!=" then Some (true, Split part "!=")
      else if Contains part "==" then Some (false, Split part "==")
      else if Contains part "=" then Some (false, Split part "=")
      else None in
    match parsed with
    | Some (isNot, [f; v]) =>
        let field := TrimSpace f in
        let val := TrimSpace v in
        let actual :=
          if String.eqb field "metadata.name" then Some (Name (podMeta pod))
          else if String.eqb field "metadata.namespace" then Some (Namespace (podMeta pod))
          else if String.eqb field "status.phase" then Some (Phase (podStatus pod))
          else None in
        match actual with
        | None => true
        | Some actualVal =>
            if isNot : bool then negb (String.eqb actualVal val) else String.eqb actualVal val
        end
    | _ => false
    end.

Definition MatchFields (pod : Pod) (selector : string) : bool :=
  if String.eqb selector "" then true
  else forallb (match_field_part pod) (Split selector ",").

(** The body of the loop of [MatchMetadataFields]. *)
Definition match_metadata_part (name namespace part : string) : bool :=
  let part := TrimSpace part in
  if String.eqb part "" then true
  else
    let parsed :=
      if Contains part "!=" then Some (true, Split part "!=")
      else if Contains part "==" then Some (false, Split part "==")
      else if Contains part "=" then Some (false, Split part "=")
      else None in
    match parsed with
    | Some (isNot, [f; v]) =>
        let field := TrimSpace f in
        let val := TrimSpace v in
        let actual :=
          if String.eqb field "metadata.name" then Some name
          else if String.eqb field "metadata.namespace" then Some namespace
          else None in
        match actual with
        | None => true
        | Some actualVal =>
            if isNot : bool then negb (String.eqb actualVal val) else String.eqb actualVal val
        end
    | _ => false
    end.

Definition MatchMetadataFields (name namespace selector : string) : bool :=
  if String.eqb selector "" then true
  else forallb (match_metadata_part name namespace) (Split selector ",").

Definition MatchPod (pod : Pod) (labelSelector fieldSelector : string) : bool :=
  if negb (MatchLabels (Labels (podMeta pod)) labelSelector) then false
  else if negb (MatchFields pod fieldSelector) then false
  else true.

Definition MatchService (svc : Service) (labelSelector fieldSelector : string) : bool :=
  if negb (MatchLabels (Labels (svcMeta svc)) labelSelector) then false
  else MatchMetadataFields (Name (svcMeta svc)) (Namespace (svcMeta svc)) fieldSelector.

Definition MatchConfigMap (cm : ConfigMap) (labelSelector fieldSelector : string) : bool :=
  if negb (MatchLabels (Labels (cmMeta cm)) labelSelector) then false
  else MatchMetadataFields (Name (cmMeta cm)) (Namespace (cmMeta cm)) fieldSelector.

Definition MatchSecret (sec : Secret) (labelSelector fieldSelector : string) : bool :=
  if negb (MatchLabels (Labels (secMeta sec)) labelSelector) then false
  else MatchMetadataFields (Name (secMeta sec)) (Namespace (secMeta sec)) fieldSelector.

(** ** Well-formed keys and values

    The characters a label key or value is made of in practice: printable ASCII
    without the selector punctuation. *)

Definition label_char (c : ascii) : bool :=
  ((33 <=? code c)%N && (code c <=? 126)%N && negb (Ascii.eqb c ",") &&
   negb (Ascii.eqb c "!") && negb (Ascii.eqb c "="))%bool.

Definition label_string (s : string) : bool := all_chars label_char s.

(** Printable characters other than the space. *)
Definition graph_char (c : ascii) : bool := ((33 <=? code c)%N && (code c <=? 126)%N)%bool.

Lemma label_char_graph c : label_char c = true -> graph_char c = true.
Proof. unfold label_char, graph_char. rewrite !andb_true_iff. naive_solver. Qed.

Lemma label_string_lacks s c :
  label_string s = true -> c = ","%char \/ c = "!"%char \/ c = "="%char -> lacks c s = true.
Proof.
  intros Hs Hc. eapply all_chars_impl; [|exact Hs]. intros d Hd. simpl.
  apply negb_true_iff, Ascii.eqb_neq. intros <-. unfold label_char in Hd.
  rewrite !andb_true_iff, !negb_true_iff, !Ascii.eqb_neq in Hd. naive_solver.
Qed.

(** *** [TrimSpace] leaves text alone that starts and ends with a graphic character *)

Definition head_ok (encs : list (list N)) : Prop :=
  Forall (fun e => match e with h :: _ => (h < 33 \/ 126 < h)%N | [] => False end) encs.

Lemma spaces_head_ok : head_ok space_encodings.
Proof. repeat (constructor; [simpl; lia|]). constructor. Qed.

Lemma spaces_rev_head_ok : head_ok (@rev N <$> space_encodings).
Proof. repeat (constructor; [simpl; lia|]). constructor. Qed.

Lemma space_len_graph encs c l : head_ok encs -> graph_char c = true -> space_len encs (c :: l) = 0.
Proof.
  intros Hh Hc. unfold space_len.
  destruct (List.find _ encs) as [e|] eqn:E; [|done].
  apply List.find_some in E as [Hin Hst%bool_decide_eq_true].
  apply list_elem_of_In in Hin. eapply Forall_forall in Hh; [|exact Hin].
  destruct e as [|h e]; [done|]. simpl in Hst. injection Hst as Hch _.
  unfold graph_char in Hc. rewrite andb_true_iff, !N.leb_le in Hc. lia.
Qed.

Lemma trim_from_graph encs l :
  head_ok encs -> (match l with [] => True | c :: _ => graph_char c = true end) ->
  trim_from encs l 0 = l.
Proof.
  intros Hh Hl. destruct l as [|c l]; [done|]. simpl. by rewrite (space_len_graph encs).
Qed.

(** First and last character are graphic. *)
Definition graph_ends (s : string) : Prop :=
  (match list_ascii_of_string s with [] => True | c :: _ => graph_char c = true end) /\
  (match rev (list_ascii_of_string s) with [] => True | c :: _ => graph_char c = true end).

Lemma TrimSpace_id s : graph_ends s -> TrimSpace s = s.
Proof.
  intros [H1 H2]. unfold TrimSpace.
  rewrite (trim_from_graph space_encodings) by (done || apply spaces_head_ok).
  rewrite (trim_from_graph (@rev N <$> space_encodings))
    by (done || apply spaces_rev_head_ok).
  by rewrite rev_involutive, string_of_list_ascii_of_string.
Qed.

Lemma all_chars_list P s : all_chars P s = forallb P (list_ascii_of_string s).
Proof. induction s as [|c s IH]; simpl; [done|]. by rewrite IH. Qed.

Lemma graph_ends_all s : all_chars graph_char s = true -> graph_ends s.
Proof.
  rewrite all_chars_list, forallb_forall. intros H. split.
  - destruct (list_ascii_of_string s); [done|]. apply H. by left.
  - destruct (rev (list_ascii_of_string s)) eqn:E; [done|]. apply H.
    apply in_rev. rewrite E. by left.
Qed.

Lemma label_string_trim s : label_string s = true -> TrimSpace s = s.
Proof.
  intros H. apply TrimSpace_id, graph_ends_all.
  eapply all_chars_impl; [|exact H]. apply label_char_graph.
Qed.

(** ** Requirements *)

Lemma MatchLabels_forallb labels selector :
  MatchLabels labels selector = forallb (match_label_part labels) (Split selector ",").
Proof.
  unfold MatchLabels. destruct (String.eqb selector "") eqn:E; [|done].
  apply String.eqb_eq in E as ->. done.
Qed.

Lemma MatchFields_forallb pod selector :
  MatchFields pod selector = forallb (match_field_part pod) (Split selector ",").
Proof.
  unfold MatchFields. destruct (String.eqb selector "") eqn:E; [|done].
  apply String.eqb_eq in E as ->. done.
Qed.

Lemma MatchMetadataFields_forallb name ns selector :
  MatchMetadataFields name ns selector =
    forallb (match_metadata_part name ns) (Split selector ",").
Proof.
  unfold MatchMetadataFields. destruct (String.eqb selector "") eqn:E; [|done].
  apply String.eqb_eq in E as ->. done.
Qed.

(** The requirement [k op v] with [op] one of [=], [==], [!=]. *)
Inductive sel_op := OpEq | OpEqEq | OpNe.
#[export] Instance sel_op_eq_dec : EqDecision sel_op. Proof. solve_decision. Defined.
Definition op_text (o : sel_op) : string :=
  match o with OpEq => "=" | OpEqEq => "==" | OpNe => "!=" end.
Definition requirement (k : string) (o : sel_op) (v : string) : string := k +:+ op_text o +:+ v.
Definition op_holds (o : sel_op) (a b : string) : bool :=
  match o with OpNe => negb (String.eqb a b) | _ => String.eqb a b end.

Lemma requirement_graph k o v :
  label_string k = true -> label_string v = true ->
  all_chars graph_char (requirement k o v) = true.
Proof.
  intros Hk Hv. unfold requirement. rewrite !all_chars_app.
  rewrite (all_chars_impl label_char graph_char k), (all_chars_impl label_char graph_char v)
    by (apply label_char_graph || done).
  by destruct o.
Qed.

Lemma requirement_nonempty k o v : String.eqb (requirement k o v) "" = false.
Proof.
  apply String.eqb_neq. intros [_ [H _]%append_eq_empty]%append_eq_empty. by destruct o.
Qed.

Lemma requirement_split k o v :
  label_string k = true -> label_string v = true ->
  Split (requirement k o v) (op_text o) = [k; v].
Proof.
  intros Hk Hv. destruct o; apply Split_once; apply label_string_lacks; auto.
Qed.

Lemma requirement_bang k o v :
  label_string k = true -> label_string v = true ->
  Contains (requirement k o v) "!=" = bool_decide (o = OpNe).
Proof.
  intros Hk Hv.
  assert (Hk' : lacks "!" k = true) by (apply label_string_lacks; auto).
  assert (Hv' : lacks "!" v = true) by (apply label_string_lacks; auto).
  destruct o.
  1,2: rewrite bool_decide_eq_false_2 by done; apply Contains_lacks;
    unfold requirement, lacks in *; by rewrite !all_chars_app, Hk', Hv'.
  rewrite bool_decide_eq_true_2 by done. apply Contains_found.
Qed.

Lemma requirement_eq k v :
  label_string k = true -> label_string v = true ->
  Contains (requirement k OpEq v) "==" = false /\ Contains (requirement k OpEq v) "=" = true.
Proof.
  intros Hk Hv. split; [|apply Contains_found].
  apply (Contains_double "="); apply label_string_lacks; auto.
Qed.

Lemma requirement_eqeq k v : Contains (requirement k OpEqEq v) "==" = true.
Proof. apply Contains_found. Qed.

(** A well-formed requirement means the comparison it denotes. *)
Lemma match_requirement labels k o v :
  label_string k = true -> label_string v = true ->
  match_label_part labels (requirement k o v) = op_holds o (go_index labels k) v.
Proof.
  intros Hk Hv. unfold match_label_part.
  rewrite TrimSpace_id by by apply graph_ends_all, requirement_graph.
  rewrite requirement_nonempty, requirement_bang by done.
  pose proof (requirement_split k o v Hk Hv) as Hs.
  destruct (requirement_eq k v Hk Hv) as [He1 He2].
  destruct o; simpl in *.
  - rewrite He1, He2, Hs, !label_string_trim by done. done.
  - rewrite requirement_eqeq, Hs, !label_string_trim by done. done.
  - rewrite Hs, !label_string_trim by done. done.
Qed.

(** A bare key asks for the label to be present, whatever its value. *)
Lemma match_exists labels k :
  label_string k = true -> k <> "" ->
  match_label_part labels k = bool_decide (is_Some (go_get labels k)).
Proof.
  intros Hk Hne. unfold match_label_part. rewrite label_string_trim by done.
  rewrite (proj2 (String.eqb_neq k "")) by done.
  rewrite (Contains_lacks "!"), !(Contains_lacks "=") by (apply label_string_lacks; auto).
  destruct (go_get labels k); symmetry.
  - by apply bool_decide_eq_true_2.
  - by apply bool_decide_eq_false_2.
Qed.

(** ** A reference semantics

    A selector as a list of requirements, its text, and its meaning. *)

Inductive req :=
| ReqOp (k : string) (o : sel_op) (v : string)
| ReqExists (k : string).

Definition req_text (r : req) : string :=
  match r with ReqOp k o v => requirement k o v | ReqExists k => k end.
Definition req_wf (r : req) : Prop :=
  match r with
  | ReqOp k o v => label_string k = true /\ label_string v = true
  | ReqExists k => label_string k = true /\ k <> ""
  end.
Definition req_holds (labels : gomap string) (r : req) : bool :=
  match r with
  | ReqOp k o v => op_holds o (go_index labels k) v
  | ReqExists k => bool_decide (is_Some (go_get labels k))
  end.

Lemma match_req labels r :
  req_wf r -> match_label_part labels (req_text r) = req_holds labels r.
Proof. destruct r; simpl; intros [??]; auto using match_requirement, match_exists. Qed.

Lemma req_text_lacks r : req_wf r -> lacks "," (req_text r) = true.
Proof.
  assert (Hl : forall s, label_string s = true -> lacks "," s = true)
    by (intros; apply label_string_lacks; auto).
  destruct r; simpl; intros [H1 H2]; [|auto].
  unfold requirement, lacks. rewrite !all_chars_app. fold (lacks "," k) (lacks "," v).
  rewrite !Hl by done. by destruct o.
Qed.

Lemma MatchLabels_reqs labels reqs :
  Forall req_wf reqs ->
  MatchLabels labels (Join (req_text <$> reqs) ",") = forallb (req_holds labels) reqs.
Proof.
  intros Hwf. destruct (decide (reqs = [])) as [->|Hne]; [done|].
  rewrite MatchLabels_forallb, Split_Join.
  - clear Hne. induction Hwf as [|r rs Hr _ IH]; [done|].
    rewrite fmap_cons. cbn [forallb]. by rewrite IH, match_req.
  - apply Forall_fmap. eapply Forall_impl; [exact Hwf|]. apply req_text_lacks.
  - by destruct reqs.
Qed.

(** ** Properties *)

(** A selector is the conjunction of its comma-separated requirements: joining
    any two selectors with a comma matches exactly the labels both match. *)
Theorem MatchLabels_conj labels a b :
  MatchLabels labels (a +:+ "," +:+ b) = MatchLabels labels a && MatchLabels labels b.
Proof. rewrite !MatchLabels_forallb, Split_char_app. apply forallb_app. Qed.

(** C27. [MatchLabels] implements the reference semantics: on the text of any list
    of well-formed requirements ([k=v], [k==v], [k!=v] or a bare key) it decides
    whether every requirement holds of the labels; a label that is absent compares
    as the empty string. *)
Theorem MatchLabels_requirements labels reqs :
  Forall req_wf reqs ->
  MatchLabels labels (Join (req_text <$> reqs) ",") = forallb (req_holds labels) reqs.
Proof. apply MatchLabels_reqs. Qed.

Lemma MatchLabels_requirements_witness :
  MatchLabels (Some {["app" := "web"; "tier" := "front"]}) "app=web,env!=prod,tier" = true.
Proof.
  refine (MatchLabels_requirements (Some {["app" := "web"; "tier" := "front"]})
    [ReqOp "app" OpEq "web"; ReqOp "env" OpNe "prod"; ReqExists "tier"] _).
  repeat (constructor; [split; [reflexivity | done] |]). constructor.
Defined.

(** *** Fields *)

(** The field a part of a field selector names, if it parses. *)
Definition part_field (part : string) : option string :=
  let part := TrimSpace part in
  let kv := if Contains part "!=" then Split part "!="
            else if Contains part "==" then Split part "=="
            else if Contains part "=" then Split part "="
            else [] in
  match kv with [f; _] => Some (TrimSpace f) | _ => None end.

Definition pod_field (pod : Pod) (f : string) : option string :=
  if String.eqb f "metadata.name" then Some (Name (podMeta pod))
  else if String.eqb f "metadata.namespace" then Some (Namespace (podMeta pod))
  else if String.eqb f "status.phase" then Some (Phase (podStatus pod))
  else None.

(** A requirement on a field the program does not know is ignored. *)
Definition field_holds (pod : Pod) (r : string * sel_op * string) : bool :=
  let '(f, o, v) := r in
  match pod_field pod f with Some a => op_holds o a v | None => true end.

Definition field_text (r : string * sel_op * string) : string :=
  let '(f, o, v) := r in requirement f o v.
Definition field_wf (r : string * sel_op * string) : Prop :=
  let '(f, o, v) := r in label_string f = true /\ label_string v = true.

Lemma match_field_requirement pod f o v :
  label_string f = true -> label_string v = true ->
  match_field_part pod (requirement f o v) = field_holds pod (f, o, v).
Proof.
  intros Hk Hv. unfold match_field_part, field_holds, pod_field.
  rewrite TrimSpace_id by by apply graph_ends_all, requirement_graph.
  rewrite requirement_nonempty, requirement_bang by done.
  pose proof (requirement_split f o v Hk Hv) as Hs.
  destruct (requirement_eq f v Hk Hv) as [He1 He2].
  destruct o; simpl in *.
  - rewrite He1, He2, Hs, !label_string_trim by done. by repeat case_match.
  - rewrite requirement_eqeq, Hs, !label_string_trim by done. by repeat case_match.
  - rewrite Hs, !label_string_trim by done. by repeat case_match.
Qed.

(** [MatchFields] decides the comparisons of a field selector on
    [metadata.name], [metadata.namespace] and [status.phase]; a well-formed
    requirement on any other field is ignored: it constrains nothing. *)
Theorem MatchFields_requirements pod reqs :
  Forall field_wf reqs ->
  MatchFields pod (Join (field_text <$> reqs) ",") = forallb (field_holds pod) reqs.
Proof.
  intros Hwf. destruct (decide (reqs = [])) as [->|Hne]; [done|].
  rewrite MatchFields_forallb, Split_Join.
  - clear Hne. induction Hwf as [|[[f o] v] rs [Hf Hv] _ IH]; [done|].
    rewrite fmap_cons. cbn [forallb]. rewrite IH. f_equal. by apply match_field_requirement.
  - apply Forall_fmap. eapply Forall_impl; [exact Hwf|]. intros [[f o] v] Hr.
    exact (req_text_lacks (ReqOp f o v) Hr).
  - by destruct reqs.
Qed.

Lemma MatchFields_requirements_witness :
  MatchFields (mkPod (mkTypeMeta "v1" "Pod") (mkObjectMeta "web" "default" "" None None 0 "")
                 (mkPodSpec [] [] "" []) (set_Phase emptyPodStatus PodRunning))
    "metadata.name=web,status.phase!=Failed,spec.nodeName=none" = true.
Proof.
  refine (MatchFields_requirements _
    [("metadata.name", OpEq, "web"); ("status.phase", OpNe, "Failed");
     ("spec.nodeName", OpEq, "none")] _).
  repeat (constructor; [split; reflexivity |]). constructor.
Defined.

Lemma match_part_agree pod part :
  part_field part <> Some "status.phase" ->
  match_field_part pod part =
    match_metadata_part (Name (podMeta pod)) (Namespace (podMeta pod)) part.
Proof.
  unfold part_field, match_field_part, match_metadata_part.
  set (p := TrimSpace part). intros Hne. destruct (String.eqb p ""); [done|].
  assert (H : forall isNot kv,
    match kv with [f; _] => Some (TrimSpace f) | _ => None end <> Some "status.phase" ->
    match kv with
    | [f; v] =>
        match pod_field pod (TrimSpace f) with
        | None => true
        | Some a => if isNot : bool then negb (String.eqb a (TrimSpace v))
                    else String.eqb a (TrimSpace v)
        end
    | _ => false
    end =
    match kv with
    | [f; v] =>
        match (if String.eqb (TrimSpace f) "metadata.name" then Some (Name (podMeta pod))
               else if String.eqb (TrimSpace f) "metadata.namespace"
                    then Some (Namespace (podMeta pod)) else None) with
        | None => true
        | Some a => if isNot then negb (String.eqb a (TrimSpace v))
                    else String.eqb a (TrimSpace v)
        end
    | _ => false
    end).
  { intros isNot [|f [|v [|? ?]]] Hf; try done. unfold pod_field.
    rewrite (proj2 (String.eqb_neq (TrimSpace f) "status.phase")) by congruence. done. }
  unfold pod_field in H.
  destruct (Contains p "!="); [exact (H true _ Hne)|].
  destruct (Contains p "=="); [exact (H false _ Hne)|].
  destruct (Contains p "="); [exact (H false _ Hne)|]. done.
Qed.

(** The field matcher for pods and the one for the other resources are the
    same function on selectors that do not name [status.phase]. *)
Theorem MatchFields_agrees pod selector :
  Forall (fun part => part_field part <> Some "status.phase") (Split selector ",") ->
  MatchFields pod selector =
    MatchMetadataFields (Name (podMeta pod)) (Namespace (podMeta pod)) selector.
Proof.
  intros H. rewrite MatchFields_forallb, MatchMetadataFields_forallb.
  induction H as [|part parts Hp _ IH]; simpl; [done|]. by rewrite IH, match_part_agree.
Qed.

Lemma MatchFields_agrees_witness :
  MatchFields (mkPod (mkTypeMeta "v1" "Pod") (mkObjectMeta "web" "default" "" None None 0 "")
                 (mkPodSpec [] [] "" []) emptyPodStatus) " metadata.name == web , bad"
  = MatchMetadataFields "web" "default" " metadata.name == web , bad".
Proof. apply MatchFields_agrees. repeat constructor; vm_compute; discriminate. Defined.
