(* ===== verification/Health.v ===== *)
(** * Probes (src/engine/health.go)

    [ProbeRunner.Run] is a loop over timer ticks; a tick runs the probe and moves
    a small state machine that calls [onThresholdReached] or [onRecovered].  The
    outcome of a tick's probe is the parameter of a step; what the probe does to
    find it (HTTP, TCP, a command) goes through [ProbeNet]. *)

From S2P Require Import Prelude Types GoStrings.

Definition Second : Z := 1000000000.

(** ** One probe *)

(** The outside world of a probe: the status code of a GET, a TCP dial, the exit
    of a command ([cmd.Run() == nil]). *)
Class ProbeNet := {
  http_status : string -> option Z;
  tcp_dial : string -> bool;
  run_command : string -> list string -> bool;
}.

Section Probe.
Context `{Net : ProbeNet}.

Definition runHTTPProbe (action : HTTPGetAction) : bool :=
  let scheme := if String.eqb (httpScheme action) "" then "http" else httpScheme action in
  let url := scheme +:+ "://127.0.0.1:" +:+ Itoa (httpPort action) +:+ httpPath action in
  match http_status url with
  | None => false
  | Some code => (200 <=? code)%Z && (code <? 400)%Z
  end.

Definition runTCPProbe (action : TCPSocketAction) : bool :=
  tcp_dial ("127.0.0.1:" +:+ Itoa (tcpPort action)).

Definition runExecProbe (action : ExecAction) : bool :=
  match execCommand action with
  | [] => false
  | prog :: args => run_command prog args
  end.

Definition probe_timeout (probe : Probe) : Z :=
  if (TimeoutSeconds probe <=? 0)%Z then 1 else TimeoutSeconds probe.

(** The first action that is set decides. *)
Definition execute (probe : Probe) : bool :=
  match HTTPGet probe, TCPSocket probe, Exec probe with
  | Some a, _, _ => runHTTPProbe a
  | None, Some a, _ => runTCPProbe a
  | None, None, Some a => runExecProbe a
  | None, None, None => true
  end.
End Probe.

(** ** The runner *)

Definition initial_delay (probe : Probe) : Z := i64 (InitialDelaySeconds probe * Second).
Definition probe_period (probe : Probe) : Z :=
  if (PeriodSeconds probe <=? 0)%Z then 10 else PeriodSeconds probe.
Definition failThreshold (probe : Probe) : Z :=
  if (FailureThreshold probe <=? 0)%Z then 3 else FailureThreshold probe.
Definition successThreshold (probe : Probe) : Z :=
  if (SuccessThreshold probe <=? 0)%Z then 1 else SuccessThreshold probe.

(** The local variables of [Run]. The counters are bounded by the number of ticks,
    one a second at most, so they stay far from the limits of [int]. *)
Record runner := mkRunner {
  consecutiveFails : Z;
  consecutiveSuccesses : Z;
  failed : bool;
}.

Definition runner_init : runner := mkRunner 0 0 false.

Inductive probe_event := OnThresholdReached | OnRecovered.

#[export] Instance probe_event_eq_dec : EqDecision probe_event.
Proof. solve_decision. Defined.

(** The body of [case <-ticker.C], with the callback it makes, if any. *)
Definition probe_tick (probe : Probe) (st : runner) (ok : bool) : runner * option probe_event :=
  if ok then
    let succ := (consecutiveSuccesses st + 1)%Z in
    if failed st && (successThreshold probe <=? succ)%Z
    then (mkRunner 0 succ false, Some OnRecovered)
    else (mkRunner 0 succ (failed st), None)
  else
    let fails := (consecutiveFails st + 1)%Z in
    if negb (failed st) && (failThreshold probe <=? fails)%Z
    then (mkRunner 0 0 true, Some OnThresholdReached)
    else (mkRunner fails 0 (failed st), None).

(** [Run] over the outcomes of its ticks, oldest first: the final state and the
    callbacks made. *)
Fixpoint probe_run (probe : Probe) (st : runner) (oks : list bool) :
    runner * list (option probe_event) :=
  match oks with
  | [] => (st, [])
  | ok :: oks' =>
      let '(st1, ev) := probe_tick probe st ok in
      let '(st2, evs) := probe_run probe st1 oks' in
      (st2, ev :: evs)
  end.

(** ** Reference semantics

    The probe is a hysteresis on its history of outcomes (newest first): it turns
    failed when the last [F] outcomes are failures, and recovers when the last [S]
    are successes. *)

(** The number of outcomes equal to [b] since the last that is not. *)
Fixpoint streak (b : bool) (h : list bool) : Z :=
  match h with
  | [] => 0
  | r :: h' => if Bool.eqb r b then (1 + streak b h')%Z else 0
  end.

Fixpoint spec_failed (F S : Z) (h : list bool) : bool :=
  match h with
  | [] => false
  | _ :: h' =>
      if spec_failed F S h' then negb (S <=? streak true h)%Z else (F <=? streak false h)%Z
  end.

(** The callback of the newest tick: the edges of the reference. *)
Definition spec_event (F S : Z) (h : list bool) : option probe_event :=
  match h with
  | [] => None
  | _ :: h' =>
      match spec_failed F S h', spec_failed F S h with
      | false, true => Some OnThresholdReached
      | true, false => Some OnRecovered
      | _, _ => None
      end
  end.

(** The callbacks along a history, newest first. *)
Fixpoint spec_events (F S : Z) (h : list bool) : list (option probe_event) :=
  match h with
  | [] => []
  | _ :: h' => spec_event F S h :: spec_events F S h'
  end.

Lemma streak_nonneg b h : (0 <= streak b h)%Z.
Proof. induction h as [|r h IH]; simpl; [lia|]. destruct (Bool.eqb r b); lia. Qed.

Lemma thresholds_pos probe : (0 < failThreshold probe)%Z /\ (0 < successThreshold probe)%Z.
Proof.
  unfold failThreshold, successThreshold.
  destruct (FailureThreshold probe <=? 0)%Z eqn:?, (SuccessThreshold probe <=? 0)%Z eqn:?;
    bool_z; lia.
Qed.

(** The state after a history. While healthy the failure counter is the streak of
    failures; the success counter always is the streak of successes. *)
Definition runner_at (probe : Probe) (h : list bool) (st : runner) : Prop :=
  failed st = spec_failed (failThreshold probe) (successThreshold probe) h /\
  consecutiveSuccesses st = streak true h /\
  (failed st = false -> consecutiveFails st = streak false h).

Lemma probe_tick_at probe h st ok :
  runner_at probe h st ->
  runner_at probe (ok :: h) (probe_tick probe st ok).1 /\
  (probe_tick probe st ok).2 =
    spec_event (failThreshold probe) (successThreshold probe) (ok :: h).
Proof.
  intros (Hf & Hs & Hc). pose proof (thresholds_pos probe) as [HF HS].
  unfold runner_at, spec_event, probe_tick; simpl. rewrite <- Hf, Hs.
  destruct ok; simpl.
  - destruct (failed st) eqn:E; simpl.
    + replace (1 + streak true h)%Z with (streak true h + 1)%Z by lia.
      destruct (successThreshold probe <=? streak true h + 1)%Z; simpl; done.
    + destruct (failThreshold probe <=? 0)%Z eqn:?; bool_z; [lia|]. simpl.
      split_and!; try done; lia.
  - destruct (failed st) eqn:E; simpl.
    + destruct (successThreshold probe <=? 0)%Z eqn:?; bool_z; [lia|]. done.
    + rewrite Hc by done.
      replace (1 + streak false h)%Z with (streak false h + 1)%Z by lia.
      destruct (failThreshold probe <=? streak false h + 1)%Z; simpl; done.
Qed.

Lemma probe_run_at probe h st oks :
  runner_at probe h st ->
  runner_at probe (rev oks ++ h) (probe_run probe st oks).1 /\
  rev (probe_run probe st oks).2 ++ spec_events (failThreshold probe) (successThreshold probe) h =
    spec_events (failThreshold probe) (successThreshold probe) (rev oks ++ h).
Proof.
  revert h st. induction oks as [|ok oks IH]; intros h st Hat; [done|]. simpl.
  destruct (probe_tick_at probe h st ok Hat) as [H1 H2].
  destruct (probe_tick probe st ok) as [st1 ev]; simpl in *.
  destruct (IH _ _ H1) as [H3 H4].
  destruct (probe_run probe st1 oks) as [st2 evs]; simpl in *.
  rewrite <- !app_assoc. split; [exact H3|]. simpl. rewrite <- H4, H2. done.
Qed.

(** ** Properties *)

(** C20. The probe runner is the hysteresis its thresholds describe: for every
    sequence of probe outcomes the final [failed] flag is the reference's, and the
    callbacks are exactly its edges, each at the tick where it happens
    ([onThresholdReached] when the failure streak reaches the threshold,
    [onRecovered] when the success streak does). *)
Theorem probe_run_hysteresis probe oks :
  failed (probe_run probe runner_init oks).1 =
    spec_failed (failThreshold probe) (successThreshold probe) (rev oks) /\
  rev (probe_run probe runner_init oks).2 =
    spec_events (failThreshold probe) (successThreshold probe) (rev oks).
Proof.
  assert (H0 : runner_at probe [] runner_init) by done.
  destruct (probe_run_at probe [] runner_init oks H0) as [[H1 _] H2].
  rewrite !app_nil_r in *. done.
Qed.

(** Callbacks alternate, a failure first when the runner is healthy. *)
Fixpoint alternating (failed : bool) (evs : list (option probe_event)) : bool :=
  match evs with
  | [] => true
  | None :: evs' => alternating failed evs'
  | Some OnThresholdReached :: evs' => negb failed && alternating true evs'
  | Some OnRecovered :: evs' => failed && alternating false evs'
  end.

(** The two callbacks strictly alternate: no container is declared failed twice
    without having recovered in between, nor recovered without having failed. *)
Theorem probe_callbacks_alternate probe st oks :
  alternating (failed st) (probe_run probe st oks).2 = true.
Proof.
  revert st. induction oks as [|ok oks IH]; intros st; [done|]. simpl.
  destruct (probe_tick probe st ok) as [st1 ev] eqn:E.
  specialize (IH st1). destruct (probe_run probe st1 oks) as [st2 evs]; simpl in *.
  unfold probe_tick in E.
  destruct ok, (failed st) eqn:Hf; simpl in *; repeat case_match; simplify_eq/=; done.
Qed.
