(* ===== verification/Store.v ===== *)
(** * Persistence (src/store/db.go) and the resource stores over it

    The database is a bbolt file of buckets; bbolt itself and [encoding/json] are
    interfaces ([Bolt], [Codec]) with their documented behaviour as laws.  The
    resource stores (src/config/store.go, src/controller/store.go,
    src/service/store.go and the pods of src/api/server.go) are maps in memory,
    keyed by ["namespace/name"], written through to a bucket; [Section KV] is
    their common shape. *)

From S2P Require Import Prelude Types.

(** ** bbolt *)

(** A transaction either commits ([Some]) or leaves the file as it was ([None]). *)
Class Bolt (T : Type) := {
  CreateBucketIfNotExists : T -> string -> option T;
  has_bucket : T -> string -> bool;
  bolt_Put : T -> string -> string -> bytes -> option T;
  bolt_Get : T -> string -> string -> option bytes;
  bolt_Delete : T -> string -> string -> option T;
  bolt_ForEach : T -> string -> list (string * bytes);
}.

(** What the stores rely on for commits that succeed. *)
Class BoltLaws (T : Type) `{Bolt T} := {
  Get_Put t b k v t' b' k' :
    bolt_Put t b k v = Some t' ->
    bolt_Get t' b' k' = if decide (b' = b /\ k' = k) then Some v else bolt_Get t b' k';
  Get_Delete t b k t' b' k' :
    bolt_Delete t b k = Some t' ->
    bolt_Get t' b' k' = if decide (b' = b /\ k' = k) then None else bolt_Get t b' k';
  ForEach_Get t b k v :
    (k, v) ∈ bolt_ForEach t b <-> bolt_Get t b k = Some v;
  ForEach_NoDup t b : NoDup (bolt_ForEach t b).*1;
  has_bucket_Put t b k v t' b' : bolt_Put t b k v = Some t' -> has_bucket t' b' = has_bucket t b';
  has_bucket_Delete t b k t' b' : bolt_Delete t b k = Some t' -> has_bucket t' b' = has_bucket t b';
}.

(** [json.Marshal] and [json.Unmarshal] at a type. *)
Class Codec (A : Type) := {
  marshal : A -> option bytes;
  unmarshal : bytes -> option A;
}.

Inductive store_error :=
| ErrOpen
| ErrCreateBucket (bucket : string)
| ErrMarshal
| ErrBucketNotFound (bucket : string)
| ErrUnmarshal
| ErrCommit.

Definition buckets : list string :=
  ["pods"; "services"; "configmaps"; "secrets"; "deployments"; "replicasets"].

Section DB.
Context {T : Type} `{Bolt T}.

Fixpoint create_buckets (t : T) (names : list string) : res store_error T :=
  match names with
  | [] => Ok t
  | b :: names' =>
      match CreateBucketIfNotExists t b with
      | Some t' => create_buckets t' names'
      | None => Err (ErrCreateBucket b)
      end
  end.

(** [bolt.Open] is the parameter: the file, or an error. *)
Definition Open (bolt_Open : string -> option T) (path : string) : res store_error T :=
  match bolt_Open path with
  | None => Err ErrOpen
  | Some t => create_buckets t buckets
  end.

Definition Put {A} `{Codec A} (t : T) (bucketName key : string) (val : A) :
    T * res store_error unit :=
  match marshal val with
  | None => (t, Err ErrMarshal)
  | Some data =>
      if negb (has_bucket t bucketName) then (t, Err (ErrBucketNotFound bucketName))
      else match bolt_Put t bucketName key data with
           | Some t' => (t', Ok tt)
           | None => (t, Err ErrCommit)
           end
  end.

(** [false] when there is no such key (or an empty value). *)
Definition Get {A} `{Codec A} (t : T) (bucketName key : string) : res store_error (option A) :=
  if negb (has_bucket t bucketName) then Err (ErrBucketNotFound bucketName)
  else match bolt_Get t bucketName key with
       | None | Some [] => Ok None
       | Some data =>
           match unmarshal data with
           | Some a => Ok (Some a)
           | None => Err ErrUnmarshal
           end
       end.

Definition Delete (t : T) (bucketName key : string) : T * res store_error unit :=
  if negb (has_bucket t bucketName) then (t, Err (ErrBucketNotFound bucketName))
  else match bolt_Delete t bucketName key with
       | Some t' => (t', Ok tt)
       | None => (t, Err ErrCommit)
       end.

(** [scanFn] of the callers never fails: the scan is a fold over the entries. *)
Definition List_ {S} (t : T) (bucketName : string) (scanFn : S -> string -> bytes -> S)
    (s : S) : S :=
  if negb (has_bucket t bucketName) then s
  else foldl (fun s '(k, v) => scanFn s k v) s (bolt_ForEach t bucketName).
End DB.

(** ** Keys *)

(** [namespace + "/" + name]; [podKey] of src/engine/lifecycle.go is the same. *)
Definition key (namespace name : string) : string := namespace +:+ "/" +:+ name.
Definition key_of (m : ObjectMeta) : string := key (Namespace m) (Name m).

Fixpoint no_slash (s : string) : bool :=
  match s with
  | EmptyString => true
  | String c s' => negb (Ascii.eqb c "/") && no_slash s'
  end.

Lemma key_inj ns ns' name name' :
  no_slash ns = true -> no_slash ns' = true ->
  key ns name = key ns' name' -> ns = ns' /\ name = name'.
Proof.
  unfold key. revert ns'. induction ns as [|c ns IH]; intros [|c' ns'] H H' E.
  - split; [done|]. by injection E.
  - simpl in *. injection E as <- E. by rewrite Ascii.eqb_refl in H'.
  - simpl in *. injection E as -> E. by rewrite Ascii.eqb_refl in H.
  - simpl in *. apply andb_true_iff in H as [_ H], H' as [_ H'].
    injection E as -> E. destruct (IH ns' H H' E). by subst.
Qed.

(** ** A store written through to a bucket *)

Section KV.
Context {T : Type} `{Bolt T} {A : Type} `{Codec A}.
Context (bucket : string) (meta : A -> ObjectMeta).

(** The map in memory and the handle of the database ([nil] when there is none). *)
Abbreviation kv := (gmap string A * option T)%type.

Definition kv_load_all (db : option T) : gmap string A :=
  match db with
  | None => ∅
  | Some t =>
      List_ t bucket (fun m k v => match unmarshal v with Some a => <[k := a]> m | None => m end) ∅
  end.

(** The error of the database is dropped: [_ = s.db.Put(...)]. *)
Definition kv_store (s : kv) (a : A) : kv :=
  let k := key_of (meta a) in
  (<[k := a]> s.1,
   match s.2 with Some t => Some (Put t bucket k a).1 | None => None end).

Definition kv_load (m : gmap string A) (namespace name : string) : option A :=
  m !! key namespace name.

Definition kv_delete (s : kv) (namespace name : string) : kv :=
  let k := key namespace name in
  (delete k s.1, match s.2 with Some t => Some (Delete t bucket k).1 | None => None end).

Definition in_namespace (namespace : string) (a : A) : bool :=
  String.eqb namespace "" || String.eqb (Namespace (meta a)) namespace.

(** The values of the map, in the order the range visits them. *)
Definition map_values (m : gmap string A) : list A := (map_to_list m).*2.

Definition kv_list (o : shuffle A) (m : gmap string A) (namespace : string) : list A :=
  List.filter (in_namespace namespace) (o (map_values m)).

(** *** Lemmas *)

Lemma elem_of_map_values (m : gmap string A) a :
  a ∈ map_values m <-> exists k, m !! k = Some a.
Proof.
  unfold map_values. rewrite list_elem_of_fmap. split.
  - intros ([k x] & -> & Hk%elem_of_map_to_list). eauto.
  - intros [k Hk]. exists (k, a). split; [done|]. by apply elem_of_map_to_list.
Qed.

Lemma elem_of_kv_list o m ns a :
  a ∈ kv_list o m ns <-> in_namespace ns a = true /\ exists k, m !! k = Some a.
Proof.
  unfold kv_list. rewrite list_elem_of_In, filter_In, <- list_elem_of_In,
    elem_of_shuffle, elem_of_map_values. tauto.
Qed.

(** The entries sit under their own key. *)
Definition keyed (m : gmap string A) : Prop :=
  forall k a, m !! k = Some a -> k = key_of (meta a).

Lemma keyed_store s a : keyed s.1 -> keyed (kv_store s a).1.
Proof.
  intros Hk k x. simpl. destruct (decide (key_of (meta a) = k)) as [<-|Hne].
  - rewrite lookup_insert_eq. by intros [= <-].
  - rewrite lookup_insert_ne by done. apply Hk.
Qed.

Lemma keyed_delete s ns name : keyed s.1 -> keyed (kv_delete s ns name).1.
Proof. intros Hk k x. simpl. rewrite lookup_delete_Some. intros [_ ?]. by apply Hk. Qed.

Lemma keyed_empty : keyed ∅.
Proof. intros k a. by rewrite lookup_empty. Qed.

Lemma kv_load_store_eq s a ns name :
  Namespace (meta a) = ns -> Name (meta a) = name ->
  kv_load (kv_store s a).1 ns name = Some a.
Proof. intros <- <-. apply lookup_insert_eq. Qed.

Lemma kv_load_store_ne s a ns name :
  key ns name <> key_of (meta a) ->
  kv_load (kv_store s a).1 ns name = kv_load s.1 ns name.
Proof. intros Hne. unfold kv_load; simpl. by rewrite lookup_insert_ne. Qed.

Lemma kv_load_delete_eq s ns name : kv_load (kv_delete s ns name).1 ns name = None.
Proof. apply lookup_delete_eq. Qed.

Lemma kv_load_delete_ne s ns name ns' name' :
  key ns' name' <> key ns name ->
  kv_load (kv_delete s ns name).1 ns' name' = kv_load s.1 ns' name'.
Proof. intros Hne. unfold kv_load; simpl. by rewrite lookup_delete_ne. Qed.

(** *** Recovery *)

(** What the bucket says about a key. *)
Definition db_view (t : T) (k : string) : option A := bolt_Get t bucket k ≫= unmarshal.

Context `{!BoltLaws T}.

Lemma scan_lookup (l : list (string * bytes)) (m : gmap string A) k :
  NoDup l.*1 ->
  foldl (fun m '(k, v) => match unmarshal v with Some a => <[k := a]> m | None => m end) m l !! k
  = match list_find (fun p => p.1 = k) l with
    | Some (_, (_, v)) => match unmarshal v with Some a => Some a | None => m !! k end
    | None => m !! k
    end.
Proof.
  revert m. induction l as [|[k' v] l IH]; intros m Hnd; [done|].
  cbn [foldl]. rewrite fmap_cons in Hnd. apply NoDup_cons in Hnd as [Hni Hnd].
  rewrite IH by done. cbn [list_find]. simpl. destruct (decide (k' = k)) as [->|Hne].
  - assert (Hnone : list_find (fun p : string * bytes => p.1 = k) l = None).
    { apply list_find_None, Forall_forall. intros [k2 v2] Hin; simpl; intros ->.
      apply Hni, list_elem_of_fmap. by exists (k, v2). }
    rewrite Hnone. destruct (unmarshal v); [by rewrite lookup_insert_eq|done].
  - assert (Hm : forall a, <[k' := a]> m !! k = m !! k)
      by (intros; by rewrite lookup_insert_ne).
    destruct (list_find _ l) as [[i [k2 v2]]|]; simpl;
      destruct (unmarshal v) as [a|]; rewrite ?Hm; done.
Qed.

Lemma kv_load_all_view t :
  has_bucket t bucket = true -> forall k, kv_load_all (Some t) !! k = db_view t k.
Proof.
  intros Hb k. unfold kv_load_all, List_, db_view. rewrite Hb; simpl.
  rewrite scan_lookup by apply ForEach_NoDup. rewrite lookup_empty.
  destruct (list_find _ _) as [[i [k2 v2]]|] eqn:E.
  - apply list_find_Some in E as (Hi & ? & _); simpl in *; subst.
    apply list_elem_of_lookup_2, ForEach_Get in Hi. rewrite Hi; simpl.
    by destruct (unmarshal v2).
  - destruct (bolt_Get t bucket k) as [v|] eqn:Hg; [|done].
    apply ForEach_Get in Hg. apply list_find_None in E.
    eapply Forall_forall in E; [|exact Hg]. by simpl in E.
Qed.

(** What is left of an object after a trip through JSON. *)
Definition image (a : A) : option A := marshal a ≫= unmarshal.

(** The object can be read back, under the key it had. *)
Definition readable (a : A) : Prop :=
  exists a', image a = Some a' /\ key_of (meta a') = key_of (meta a).

(** A store or a deletion; each is a write of the map and, after it and without a lock
    over both, a transaction of the database. *)
Inductive kv_op := KStore (a : A) | KDelete (namespace name : string).

Definition kv_step (s : kv) (op : kv_op) : kv :=
  match op with KStore a => kv_store s a | KDelete ns name => kv_delete s ns name end.

Definition kv_mem (m : gmap string A) (op : kv_op) : gmap string A := (kv_step (m, None) op).1.
Definition kv_db (t : T) (op : kv_op) : T := default t (kv_step (∅, Some t) op).2.

Lemma kv_step_halves m t op : kv_step (m, Some t) op = (kv_mem m op, Some (kv_db t op)).
Proof. by destruct op. Qed.

Definition op_key (op : kv_op) : string :=
  match op with KStore a => key_of (meta a) | KDelete ns name => key ns name end.
Definition op_value (op : kv_op) : option A :=
  match op with KStore a => Some a | KDelete _ _ => None end.
Definition op_readable (op : kv_op) : Prop :=
  match op with KStore a => readable a | KDelete _ _ => True end.

(** The database commits the write. *)
Definition op_ok (t : T) (op : kv_op) : Prop :=
  match op with
  | KStore a => (Put t bucket (key_of (meta a)) a).2 = Ok tt
  | KDelete ns name => (Delete t bucket (key ns name)).2 = Ok tt
  end.

Lemma kv_mem_lookup m op k :
  kv_mem m op !! k = if decide (k = op_key op) then op_value op else m !! k.
Proof.
  unfold kv_mem; destruct op as [a|ns name]; simpl.
  - case_decide; subst; [by rewrite lookup_insert_eq|by rewrite lookup_insert_ne].
  - case_decide; subst; [by rewrite lookup_delete_eq|by rewrite lookup_delete_ne].
Qed.

Lemma keyed_mem m op : keyed m -> keyed (kv_mem m op).
Proof.
  intros Hk k a. rewrite kv_mem_lookup. case_decide; [|by apply Hk].
  destruct op; [|done]. by intros [= <-].
Qed.

(** A committed transaction, seen from any bucket. *)
Lemma kv_db_Get t op b k :
  op_ok t op ->
  (forall b', has_bucket (kv_db t op) b' = has_bucket t b') /\
  bolt_Get (kv_db t op) b k =
    if decide (b = bucket /\ k = op_key op)
    then match op with KStore a => marshal a | KDelete _ _ => None end else bolt_Get t b k.
Proof.
  unfold op_ok, kv_db. destruct op as [a|ns name]; simpl.
  - unfold Put. destruct (marshal a) as [v|]; [|done]. destruct (has_bucket t bucket); [|done]. simpl.
    destruct (bolt_Put _ _ _ _) as [t'|] eqn:E; [|done]. intros _. simpl.
    split; [intros b'; by apply (has_bucket_Put _ _ _ _ _ _ E)|]. by apply Get_Put.
  - unfold Delete. destruct (has_bucket t bucket); [|done]. simpl.
    destruct (bolt_Delete _ _ _) as [t'|] eqn:E; [|done]. intros _. simpl.
    split; [intros b'; by apply (has_bucket_Delete _ _ _ _ _ E)|]. by apply Get_Delete.
Qed.

(** The map and its bucket while writes are in flight, their first half done: the
    bucket has the image of the map, except under the keys of those writes. *)
Record in_step (m : gmap string A) (t : T) (fl : list kv_op) : Prop := {
  is_bucket : has_bucket t bucket = true;
  is_keyed : keyed m;
  is_readable : forall k a, m !! k = Some a -> readable a;
  is_apart : NoDup (op_key <$> fl);
  is_written : forall op, op ∈ fl -> m !! op_key op = op_value op;
  is_image : forall k, k ∉ (op_key <$> fl) -> db_view t k = m !! k ≫= image;
  is_db_keyed : forall k a, db_view t k = Some a -> k = key_of (meta a);
}.

Lemma in_step_begin m t fl op :
  in_step m t fl -> op_readable op -> op_key op ∉ (op_key <$> fl) -> in_step (kv_mem m op) t (op :: fl).
Proof.
  intros [Hb Hk Hr Hn Hw Hi Hd] Hop Hnew. split; [done|by apply keyed_mem| | | | |done].
  - intros k a. rewrite kv_mem_lookup. case_decide; [|by apply Hr].
    destruct op; [|done]. by intros [= <-].
  - rewrite fmap_cons. by constructor.
  - intros op' [->|Hin]%elem_of_cons; rewrite kv_mem_lookup; [by rewrite decide_True|].
    rewrite decide_False; [by apply Hw|]. intros E. apply Hnew. rewrite <- E. by apply list_elem_of_fmap_2.
  - intros k. rewrite fmap_cons, not_elem_of_cons. intros [Hne Hni].
    rewrite kv_mem_lookup, decide_False by done. by apply Hi.
Qed.

Lemma in_step_commit m t fl1 op fl2 :
  in_step m t (fl1 ++ op :: fl2) -> op_ok t op -> in_step m (kv_db t op) (fl1 ++ fl2).
Proof.
  intros [Hb Hk Hr Hn Hw Hi Hd] Hok.
  assert (Hop : op ∈ fl1 ++ op :: fl2) by set_solver.
  assert (Hp : fl1 ++ op :: fl2 ≡ₚ op :: (fl1 ++ fl2)) by (symmetry; apply Permutation_middle).
  assert (Hview : forall k, db_view (kv_db t op) k =
    if decide (k = op_key op) then op_value op ≫= image else db_view t k).
  { intros k. unfold db_view. rewrite (proj2 (kv_db_Get t op bucket k Hok)).
    destruct (decide (k = op_key op)) as [->|Hne].
    - rewrite decide_True by done. by destruct op.
    - by rewrite decide_False by naive_solver. }
  assert (Hok' : op_readable op).
  { destruct op as [a|]; [|done]. apply (Hr (op_key (KStore a))), (Hw _ Hop). }
  rewrite Hp, fmap_cons in Hn. apply NoDup_cons in Hn as [Hni Hn].
  split; [by rewrite (proj1 (kv_db_Get t op bucket "" Hok))|done|done|done| | |].
  - intros op' Hin. apply Hw. rewrite Hp. by right.
  - intros k Hnk. rewrite Hview. case_decide as E; [subst; by rewrite (Hw _ Hop)|].
    apply Hi. rewrite Hp, fmap_cons, not_elem_of_cons. done.
  - intros k a'. rewrite Hview. case_decide as E; [|by apply Hd]. subst.
    destruct op as [a|]; [|done]. simpl. destruct Hok' as (a2 & E1 & E2). rewrite E1. intros [= <-]. done.
Qed.

(** A transaction on another bucket. *)
Lemma in_step_other m t t' fl :
  (forall b', has_bucket t' b' = has_bucket t b') ->
  (forall k, bolt_Get t' bucket k = bolt_Get t bucket k) -> in_step m t fl -> in_step m t' fl.
Proof.
  intros Hb' Hg [Hb Hk Hr Hn Hw Hi Hd].
  assert (Hv : forall k, db_view t' k = db_view t k) by (intros k; unfold db_view; by rewrite Hg).
  split; [by rewrite Hb'|done..| |]; intros k; rewrite Hv; auto.
Qed.

(** What a new store finds. *)
Lemma in_step_load m t fl :
  in_step m t fl ->
  keyed (kv_load_all (Some t)) /\
  forall k, k ∉ (op_key <$> fl) -> kv_load_all (Some t) !! k = omap image m !! k.
Proof.
  intros [Hb Hk Hr Hn Hw Hi Hd]. split.
  - intros k a. rewrite kv_load_all_view by done. apply Hd.
  - intros k Hni. rewrite kv_load_all_view, lookup_omap by done. by apply Hi.
Qed.
End KV.
Arguments KStore {A} a.
Arguments KDelete {A} namespace name.

(** ** A database in memory, for the witnesses *)

Abbreviation memdb := (gmap string (gmap string bytes)).

#[export] Instance memdb_Bolt : Bolt memdb := {
  CreateBucketIfNotExists t b :=
    Some (match t !! b with Some _ => t | None => <[b := ∅]> t end);
  has_bucket t b := bool_decide (is_Some (t !! b));
  bolt_Put t b k v := m ← t !! b; Some (<[b := <[k := v]> m]> t);
  bolt_Get t b k := m ← t !! b; m !! k;
  bolt_Delete t b k := m ← t !! b; Some (<[b := delete k m]> t);
  bolt_ForEach t b := match t !! b with Some m => map_to_list m | None => [] end;
}.

Lemma bucket_lookup (t : memdb) b b' m :
  <[b := m]> t !! b' = if decide (b' = b) then Some m else t !! b'.
Proof.
  case_decide; subst; [by rewrite lookup_insert_eq | by rewrite lookup_insert_ne].
Qed.

Lemma bucket_present (t : memdb) b b' m0 m :
  t !! b = Some m0 -> is_Some (<[b := m]> t !! b') <-> is_Some (t !! b').
Proof.
  intros E. rewrite bucket_lookup. case_decide; subst; [rewrite E; split; eauto | done].
Qed.

#[export] Instance memdb_laws : BoltLaws memdb.
Proof.
  split; simpl.
  - intros t b k v t' b' k' Hp. destruct (t !! b) as [m|] eqn:E; simplify_eq/=.
    rewrite bucket_lookup. destruct (decide (b' = b)) as [->|]; simpl.
    + rewrite E; simpl. destruct (decide (k' = k)) as [->|].
      * by rewrite lookup_insert_eq, decide_True.
      * rewrite lookup_insert_ne by done. by rewrite decide_False by naive_solver.
    + by rewrite decide_False by naive_solver.
  - intros t b k t' b' k' Hp. destruct (t !! b) as [m|] eqn:E; simplify_eq/=.
    rewrite bucket_lookup. destruct (decide (b' = b)) as [->|]; simpl.
    + rewrite E; simpl. destruct (decide (k' = k)) as [->|].
      * by rewrite lookup_delete_eq, decide_True.
      * rewrite lookup_delete_ne by done. by rewrite decide_False by naive_solver.
    + by rewrite decide_False by naive_solver.
  - intros t b k v. destruct (t !! b) as [m|]; simpl; [apply elem_of_map_to_list|].
    by rewrite elem_of_nil.
  - intros t b. destruct (t !! b); [apply NoDup_fst_map_to_list | constructor].
  - intros t b k v t' b' Hp. destruct (t !! b) as [m|] eqn:E; simplify_eq/=.
    apply bool_decide_ext. by apply (bucket_present t b b' m).
  - intros t b k t' b' Hp. destruct (t !! b) as [m|] eqn:E; simplify_eq/=.
    apply bool_decide_ext. by apply (bucket_present t b b' m).
Qed.
