(* ===== verification/Stores.v ===== *)
(** * The resource stores (src/controller/store.go, src/config/store.go,
    src/service/store.go)

    Each store is one or two instances of [Store.KV] sharing the database
    handle.  [sync.Map] operations are atomic, so each method is one step of the
    map in memory followed by the write to the database. *)

From S2P Require Import Prelude Types Store.

Section Stores.
Context {T : Type} `{Bolt T}.
Context `{Codec Deployment, Codec ReplicaSet, Codec ConfigMap, Codec Secret, Codec Service}.

(** ** controller.Store *)

Record ControllerStore := mkControllerStore {
  deployments : gmap string Deployment;
  replicaSets : gmap string ReplicaSet;
  cs_db : option T;
}.

Definition NewControllerStore (db : option T) : ControllerStore :=
  mkControllerStore (kv_load_all "deployments" db) (kv_load_all "replicasets" db) db.

Definition StoreDeployment (s : ControllerStore) (dep : Deployment) : ControllerStore :=
  let '(m, db) := kv_store "deployments" depMeta (deployments s, cs_db s) dep in
  mkControllerStore m (replicaSets s) db.

Definition LoadDeployment (s : ControllerStore) (namespace name : string) : option Deployment :=
  kv_load (deployments s) namespace name.

Definition DeleteDeployment (s : ControllerStore) (namespace name : string) : ControllerStore :=
  let '(m, db) := kv_delete "deployments" (deployments s, cs_db s) namespace name in
  mkControllerStore m (replicaSets s) db.

Definition ListDeployments (o : shuffle Deployment) (s : ControllerStore) (namespace : string)
    : list Deployment :=
  kv_list depMeta o (deployments s) namespace.

Definition StoreReplicaSet (s : ControllerStore) (rs : ReplicaSet) : ControllerStore :=
  let '(m, db) := kv_store "replicasets" rsMeta (replicaSets s, cs_db s) rs in
  mkControllerStore (deployments s) m db.

Definition LoadReplicaSet (s : ControllerStore) (namespace name : string) : option ReplicaSet :=
  kv_load (replicaSets s) namespace name.

Definition DeleteReplicaSet (s : ControllerStore) (namespace name : string) : ControllerStore :=
  let '(m, db) := kv_delete "replicasets" (replicaSets s, cs_db s) namespace name in
  mkControllerStore (deployments s) m db.

Definition ListReplicaSets (o : shuffle ReplicaSet) (s : ControllerStore) (namespace : string)
    : list ReplicaSet :=
  kv_list rsMeta o (replicaSets s) namespace.

(** ** config.Store *)

Record ConfigStore := mkConfigStore {
  configMaps : gmap string ConfigMap;
  secrets : gmap string Secret;
  cfg_db : option T;
}.

Definition NewConfigStore (db : option T) : ConfigStore :=
  mkConfigStore (kv_load_all "configmaps" db) (kv_load_all "secrets" db) db.

Definition StoreConfigMap (s : ConfigStore) (cm : ConfigMap) : ConfigStore :=
  let '(m, db) := kv_store "configmaps" cmMeta (configMaps s, cfg_db s) cm in
  mkConfigStore m (secrets s) db.

Definition LoadConfigMap (s : ConfigStore) (namespace name : string) : option ConfigMap :=
  kv_load (configMaps s) namespace name.

Definition DeleteConfigMap (s : ConfigStore) (namespace name : string) : ConfigStore :=
  let '(m, db) := kv_delete "configmaps" (configMaps s, cfg_db s) namespace name in
  mkConfigStore m (secrets s) db.

Definition ListConfigMaps (o : shuffle ConfigMap) (s : ConfigStore) (namespace : string)
    : list ConfigMap :=
  kv_list cmMeta o (configMaps s) namespace.

(** [StringData] is folded into [Data] and dropped. *)
Definition merge_string_data (sec : Secret) : Secret :=
  let data := match secData sec with None => ∅ | Some d => d end in
  let data := go_copy_into data (fmap (M := gmap string) bytes_of <$> secStringData sec) in
  mkSecret (secTypeMeta sec) (secMeta sec) (Some data) None (secType sec).

(** [sec] is passed by value but its [Data] map is shared with the caller: the
    second result is the caller's secret after the call, which sees the merged
    entries exactly when its [Data] was not nil. *)
Definition StoreSecret (s : ConfigStore) (sec : Secret) : ConfigStore * Secret :=
  let sec' := merge_string_data sec in
  let '(m, db) := kv_store "secrets" secMeta (secrets s, cfg_db s) sec' in
  (mkConfigStore (configMaps s) m db,
   match secData sec with
   | None => sec
   | Some _ => mkSecret (secTypeMeta sec) (secMeta sec) (secData sec') (secStringData sec) (secType sec)
   end).

Definition LoadSecret (s : ConfigStore) (namespace name : string) : option Secret :=
  kv_load (secrets s) namespace name.

Definition DeleteSecret (s : ConfigStore) (namespace name : string) : ConfigStore :=
  let '(m, db) := kv_delete "secrets" (secrets s, cfg_db s) namespace name in
  mkConfigStore (configMaps s) m db.

Definition ListSecrets (o : shuffle Secret) (s : ConfigStore) (namespace : string) : list Secret :=
  kv_list secMeta o (secrets s) namespace.

(** ** service.Store *)

Record ServiceStore := mkServiceStore { services : gmap string Service; svc_db : option T }.

Definition NewServiceStore (db : option T) : ServiceStore :=
  mkServiceStore (kv_load_all "services" db) db.

Definition StoreService (s : ServiceStore) (svc : Service) : ServiceStore :=
  let '(m, db) := kv_store "services" svcMeta (services s, svc_db s) svc in
  mkServiceStore m db.

Definition LoadService (s : ServiceStore) (namespace name : string) : option Service :=
  kv_load (services s) namespace name.

Definition DeleteService (s : ServiceStore) (namespace name : string) : ServiceStore :=
  let '(m, db) := kv_delete "services" (services s, svc_db s) namespace name in
  mkServiceStore m db.

Definition ListServices (o : shuffle Service) (s : ServiceStore) (namespace : string)
    : list Service :=
  kv_list svcMeta o (services s) namespace.

(** ** The lookups of a secret *)

Lemma merge_string_data_lookup sec k :
  go_get (secData (merge_string_data sec)) k =
    match go_get (secStringData sec) k with
    | Some v => Some (bytes_of v)
    | None => go_get (secData sec) k
    end.
Proof.
  unfold merge_string_data; cbn [secData]. cbn [go_get]. rewrite go_copy_into_lookup.
  destruct (secStringData sec) as [sd|]; simpl.
  - rewrite lookup_fmap. destruct (sd !! k); simpl; [done|].
    destruct (secData sec); simpl; [done|]. apply lookup_empty.
  - destruct (secData sec); simpl; [done|]. apply lookup_empty.
Qed.

(** A stored secret holds the text of [stringData] as bytes, over what its
    [data] had for the other keys, and no [stringData]; loading it under its
    namespace and name returns that. *)
Theorem StoreSecret_load s sec :
  exists sec', LoadSecret (StoreSecret s sec).1 (Namespace (secMeta sec)) (Name (secMeta sec))
      = Some sec' /\
    secMeta sec' = secMeta sec /\ secType sec' = secType sec /\ secStringData sec' = None /\
    forall k, go_get (secData sec') k =
      match go_get (secStringData sec) k with
      | Some v => Some (bytes_of v)
      | None => go_get (secData sec) k
      end.
Proof.
  exists (merge_string_data sec). split_and!; try done.
  - unfold LoadSecret, StoreSecret. by apply lookup_insert_eq.
  - apply merge_string_data_lookup.
Qed.
End Stores.
Arguments ControllerStore T : clear implicits.
Arguments ConfigStore T : clear implicits.
Arguments ServiceStore T : clear implicits.
