(* ===== verification/Deployment.v ===== *)
(** * The deployment controller (src/controller/deployment.go)

    [Reconcile] drives the replica sets of a deployment towards its template: it
    finds or creates the one for the current template hash, scales it up by one a
    tick while there are older ones, scales those down as the new pods become
    ready, and writes the status back.  The two listings of the store are separate
    loops over a [sync.Map], so each has a [shuffle] of its own. *)

From S2P Require Import Prelude Types GoStrings Store Stores.

(** ** The template hash *)

Definition fnv_offset : Z := 2166136261.
Definition fnv_prime : Z := 16777619.

(** [hash/fnv] 32-bit FNV-1a. *)
Definition fnv32a (b : bytes) : Z :=
  foldl (fun h c => u32 (Z.lxor h (Z.of_N (Byte.to_N c)) * fnv_prime)) fnv_offset b.

(** [%x] of a [uint32]. *)
Definition hex_digit (d : Z) : ascii :=
  ascii_of_N (Z.to_N (if (d <? 10)%Z then 48 + d else 87 + d)).

Fixpoint hex_from (fuel : nat) (z : Z) (acc : string) : string :=
  match fuel with
  | O => acc
  | S fuel' =>
      let acc' := String (hex_digit (z mod 16)) acc in
      if (z <? 16)%Z then acc' else hex_from fuel' (z / 16) acc'
  end.

Definition hex_u32 (z : Z) : string := hex_from 8 z "".

Definition hashTemplateSpec `{Codec PodSpec} (template : PodTemplateSpec) : string :=
  hex_u32 (fnv32a (default [] (marshal (tmplSpec template)))).

(** ** Ownership *)

Definition owner_annotation : string := "lok8s.io/owner".
Definition hash_label : string := "pod-template-hash".

(** [m != nil && m[k] == v] *)
Definition annotated (m : gomap string) (k v : string) : bool :=
  match m with
  | Some m => String.eqb (default "" (m !! k)) v
  | None => false
  end.

Definition owned_by (dep : Deployment) (rs : ReplicaSet) : bool :=
  annotated (Annotations (rsMeta rs)) owner_annotation ("Deployment/" +:+ Name (depMeta dep)).

Definition has_hash (hash : string) (rs : ReplicaSet) : bool :=
  annotated (Labels (rsMeta rs)) hash_label hash.

Definition desired_replicas (dep : Deployment) : Z := deref_or 1 (depReplicas (depSpec dep)).

(** The loop that sorts the listed replica sets: the last one with the current
    hash, and those with another. *)
Definition classify (dep : Deployment) (hash : string) (allRSs : list ReplicaSet)
    : option ReplicaSet * list ReplicaSet :=
  foldl (fun '(newRS, oldRSs) rs =>
    if owned_by dep rs
    then if has_hash hash rs then (Some rs, oldRSs) else (newRS, oldRSs ++ [rs])
    else (newRS, oldRSs)) (None, []) allRSs.

(** The replica set made for a new hash. *)
Definition make_rs (now : Time) (dep : Deployment) (hash : string) (initReplicas : Z) : ReplicaSet :=
  let labels : gmap string string := {[hash_label := hash]} in
  let labels :=
    match depSelector (depSpec dep) with
    | Some sel => go_copy_into labels (MatchLabels sel)
    | None => labels
    end in
  mkReplicaSet (mkTypeMeta "apps/v1" "ReplicaSet")
    (mkObjectMeta (Name (depMeta dep) +:+ "-" +:+ hash) (Namespace (depMeta dep)) ""
       (Some {[owner_annotation := "Deployment/" +:+ Name (depMeta dep)]})
       (Some labels) now "")
    (mkReplicaSetSpec (Some initReplicas) (depSelector (depSpec dep)) (depTemplate (depSpec dep)))
    (mkReplicaSetStatus 0 0 0 0).

Section Controller.
Context {T : Type} `{Bolt T}.
Context `{Codec Deployment, Codec ReplicaSet, Codec PodSpec}.
Implicit Types s : ControllerStore T.

(** The loop [for i := range oldRSs] with its running [remainingOld]. *)
Fixpoint scale_down s (remainingOld : Z) (oldRSs : list ReplicaSet) : ControllerStore T :=
  match oldRSs with
  | [] => s
  | oldRS :: rest =>
      let currentOldDesired := deref_or 0 (rsReplicas (rsSpec oldRS)) in
      let currentOldDesired :=
        if (remainingOld <? currentOldDesired)%Z then remainingOld else currentOldDesired in
      let s := StoreReplicaSet s (set_rsReplicas oldRS currentOldDesired) in
      let remainingOld := i32 (remainingOld - currentOldDesired) in
      let remainingOld := if (remainingOld <? 0)%Z then 0%Z else remainingOld in
      scale_down s remainingOld rest
  end.

(** [if newRS == nil { ... }] *)
Definition ensure_new_rs (now : Time) s (dep : Deployment) (hash : string)
    (newRS : option ReplicaSet) (oldRSs : list ReplicaSet) : ControllerStore T * ReplicaSet :=
  match newRS with
  | Some rs => (s, rs)
  | None =>
      let initReplicas := match oldRSs with [] => desired_replicas dep | _ => 0%Z end in
      let rs := make_rs now dep hash initReplicas in
      (StoreReplicaSet s rs, rs)
  end.

(** [if len(oldRSs) > 0 { ... } else { ... }] *)
Definition scale s (desired : Z) (newRS : ReplicaSet) (oldRSs : list ReplicaSet)
    : ControllerStore T :=
  let currentNewReplicas := deref_or 0 (rsReplicas (rsSpec newRS)) in
  match oldRSs with
  | _ :: _ =>
      let s :=
        if (currentNewReplicas <? desired)%Z
        then StoreReplicaSet s (set_rsReplicas newRS (i32 (currentNewReplicas + 1)))
        else s in
      let readyNew := rssReadyReplicas (rsStatus newRS) in
      let maxOldReplicas := i32 (desired - readyNew) in
      let maxOldReplicas := if (maxOldReplicas <? 0)%Z then 0%Z else maxOldReplicas in
      scale_down s maxOldReplicas oldRSs
  | [] =>
      if negb (currentNewReplicas =? desired)%Z
      then StoreReplicaSet s (set_rsReplicas newRS desired)
      else s
  end.

(** The loop over the refreshed listing: total, ready and updated replicas. *)
Definition count_replicas (dep : Deployment) (hash : string) (allRSs : list ReplicaSet)
    : Z * Z * Z :=
  foldl (fun '(totalReplicas, totalReady, updatedReplicas) rs =>
    if owned_by dep rs then
      (i32 (totalReplicas + rssReplicas (rsStatus rs)),
       i32 (totalReady + rssReadyReplicas (rsStatus rs)),
       if has_hash hash rs then rssReplicas (rsStatus rs) else updatedReplicas)
    else (totalReplicas, totalReady, updatedReplicas)) (0%Z, 0%Z, 0%Z) allRSs.

Definition reconciled_status (dep : Deployment) (hash : string) (allRSs : list ReplicaSet)
    : DeploymentStatus :=
  let '(totalReplicas, totalReady, updatedReplicas) := count_replicas dep hash allRSs in
  let unavailable := i32 (desired_replicas dep - totalReady) in
  mkDeploymentStatus totalReplicas updatedReplicas totalReady totalReady
    (if (unavailable <? 0)%Z then 0%Z else unavailable).

(** [DeploymentController.Reconcile]; it always returns nil. *)
Definition Reconcile (o1 o2 : shuffle ReplicaSet) (now : Time) s (dep : Deployment)
    : ControllerStore T :=
  let hash := hashTemplateSpec (depTemplate (depSpec dep)) in
  let desired := desired_replicas dep in
  let '(newRS, oldRSs) := classify dep hash (ListReplicaSets o1 s (Namespace (depMeta dep))) in
  let '(s, newRS) := ensure_new_rs now s dep hash newRS oldRSs in
  let s := scale s desired newRS oldRSs in
  let status := reconciled_status dep hash (ListReplicaSets o2 s (Namespace (depMeta dep))) in
  StoreDeployment s (set_depStatus dep status).

(** [ReconcileAll]: each deployment of one listing, as it was listed. *)
Definition ReconcileAll (o : shuffle Deployment) (o1 o2 : Deployment -> shuffle ReplicaSet)
    (now : Deployment -> Time) s : ControllerStore T :=
  foldl (fun s dep => Reconcile (o1 dep) (o2 dep) (now dep) s dep) s
    (ListDeployments o s "").

(** ** Sorting the replica sets *)

Definition is_new (dep : Deployment) (hash : string) (rs : ReplicaSet) : bool :=
  owned_by dep rs && has_hash hash rs.
Definition is_old (dep : Deployment) (hash : string) (rs : ReplicaSet) : bool :=
  owned_by dep rs && negb (has_hash hash rs).

Lemma classify_filter dep hash l :
  classify dep hash l = (last (List.filter (is_new dep hash) l), List.filter (is_old dep hash) l).
Proof.
  unfold classify. induction l as [|rs l IH] using rev_ind; [done|].
  rewrite foldl_app, IH, !List.filter_app. simpl.
  unfold is_new, is_old. simpl. destruct (owned_by dep rs); simpl; [|by rewrite ?app_nil_r].
  destruct (has_hash hash rs); simpl; rewrite ?app_nil_r; [|done].
  by rewrite last_snoc.
Qed.

(** ** The replica sets after a reconciliation *)

Definition rs_key (rs : ReplicaSet) : string := key_of (rsMeta rs).
Definition insert_rs (m : gmap string ReplicaSet) (rs : ReplicaSet) : gmap string ReplicaSet :=
  <[rs_key rs := rs]> m.
Definition replicas (rs : ReplicaSet) : Z := deref_or 0 (rsReplicas (rsSpec rs)).

(** What [scale_down] stores, in order. *)
Fixpoint plan_old (remainingOld : Z) (oldRSs : list ReplicaSet) : list ReplicaSet :=
  match oldRSs with
  | [] => []
  | rs :: rest =>
      let d := if (remainingOld <? replicas rs)%Z then remainingOld else replicas rs in
      let r := i32 (remainingOld - d) in
      set_rsReplicas rs d :: plan_old (if (r <? 0)%Z then 0%Z else r) rest
  end.

Lemma StoreReplicaSet_map s rs :
  replicaSets (StoreReplicaSet s rs) = insert_rs (replicaSets s) rs.
Proof. done. Qed.

Lemma scale_down_map s r olds :
  replicaSets (scale_down s r olds) = foldl insert_rs (replicaSets s) (plan_old r olds).
Proof. revert s r. induction olds as [|rs olds IH]; intros s r; [done|]. apply IH. Qed.

Lemma plan_old_keys r olds : rs_key <$> plan_old r olds = rs_key <$> olds.
Proof.
  revert r. induction olds as [|rs olds IH]; intros r; [done|].
  cbn [plan_old]. rewrite !fmap_cons. f_equal. apply IH.
Qed.

(** The new replica set before and after scaling. *)
Definition new_before (now : Time) (dep : Deployment) (hash : string) (newRS : option ReplicaSet)
    (olds : list ReplicaSet) : ReplicaSet :=
  default (make_rs now dep hash (match olds with [] => desired_replicas dep | _ => 0%Z end)) newRS.

Definition new_after (dep : Deployment) (nr : ReplicaSet) (olds : list ReplicaSet) : ReplicaSet :=
  match olds with
  | [] => if (replicas nr =? desired_replicas dep)%Z then nr
          else set_rsReplicas nr (desired_replicas dep)
  | _ :: _ => if (replicas nr <? desired_replicas dep)%Z
              then set_rsReplicas nr (i32 (replicas nr + 1)) else nr
  end.

Definition max_old (dep : Deployment) (nr : ReplicaSet) : Z :=
  let m := i32 (desired_replicas dep - rssReadyReplicas (rsStatus nr)) in
  if (m <? 0)%Z then 0%Z else m.

Lemma insert_all_lookup_ne l (m : gmap string ReplicaSet) k :
  k ∉ (rs_key <$> l) -> foldl insert_rs m l !! k = m !! k.
Proof.
  revert m. induction l as [|rs l IH]; intros m Hk; [done|].
  rewrite fmap_cons, not_elem_of_cons in Hk. destruct Hk as [Hne Hk].
  cbn [foldl]. rewrite IH by done. by apply lookup_insert_ne.
Qed.

Lemma insert_all_lookup l (m : gmap string ReplicaSet) rs :
  NoDup (rs_key <$> l) -> rs ∈ l -> foldl insert_rs m l !! rs_key rs = Some rs.
Proof.
  revert m. induction l as [|x l IH]; intros m Hnd Hin; [by apply elem_of_nil in Hin|].
  rewrite fmap_cons in Hnd. apply NoDup_cons in Hnd as [Hni Hnd]. cbn [foldl].
  apply elem_of_cons in Hin as [->|Hin]; [|by apply IH].
  rewrite insert_all_lookup_ne by done. apply lookup_insert_eq.
Qed.

(** The whole effect on the replica sets: the new one and the planned old ones
    are inserted, nothing else changes. *)
Lemma Reconcile_map o1 o2 now s dep :
  keyed rsMeta (replicaSets s) ->
  let hash := hashTemplateSpec (depTemplate (depSpec dep)) in
  let L := ListReplicaSets o1 s (Namespace (depMeta dep)) in
  let newRS := last (List.filter (is_new dep hash) L) in
  let olds := List.filter (is_old dep hash) L in
  let nr := new_before now dep hash newRS olds in
  replicaSets (Reconcile o1 o2 now s dep) =
    foldl insert_rs (replicaSets s)
      (new_after dep nr olds :: match olds with [] => [] | _ => plan_old (max_old dep nr) olds end).
Proof.
  intros Hk hash L newRS olds nr. unfold Reconcile. fold hash. fold L.
  rewrite classify_filter. fold newRS olds. unfold ensure_new_rs.
  assert (Hin : forall rs, newRS = Some rs -> insert_rs (replicaSets s) rs = replicaSets s).
  { intros rs E. apply insert_id. assert (Hl : rs ∈ L).
    { apply last_Some_elem_of in E. apply list_elem_of_In, filter_In in E as [E _].
      by apply list_elem_of_In. }
    apply elem_of_kv_list in Hl as [_ [k Hl]]. unfold rs_key. by rewrite <- (Hk k rs Hl). }
  assert (Hself : forall rs, rs_key (new_after dep rs olds) = rs_key rs).
  { intros rs. unfold new_after. by repeat case_match. }
  unfold nr, new_before, scale, new_after. destruct newRS as [rs|]; simpl.
  - specialize (Hin rs eq_refl). destruct olds as [|old olds'].
    + unfold replicas. destruct (_ =? _)%Z; simpl; by rewrite ?Hin.
    + unfold replicas. destruct (_ <? _)%Z eqn:E; cbn [foldl];
        rewrite scale_down_map; unfold max_old, replicas; simpl; by rewrite ?Hin.
  - destruct olds as [|old olds'].
    + unfold replicas; simpl. rewrite Z.eqb_refl; done.
    + unfold replicas. destruct (_ <? _)%Z eqn:E; cbn [foldl];
        rewrite scale_down_map; unfold max_old, replicas; simpl; [|done].
      f_equal. f_equal. unfold insert_rs, rs_key; simpl. by rewrite insert_insert_eq.
Qed.

(** ** The rolling update as arithmetic *)

(** Where the replica set of the current hash lives. *)
Definition new_name (dep : Deployment) (hash : string) : string :=
  Name (depMeta dep) +:+ "-" +:+ hash.
Definition new_key (dep : Deployment) (hash : string) : string :=
  key (Namespace (depMeta dep)) (new_name dep hash).

Definition new_rs (m : gmap string ReplicaSet) (dep : Deployment) (hash : string)
    : option ReplicaSet := m !! new_key dep hash.

(** The older replica sets of the deployment. *)
Definition old_list (o : shuffle ReplicaSet) s (dep : Deployment) (hash : string)
    : list ReplicaSet :=
  List.filter (is_old dep hash) (ListReplicaSets o s (Namespace (depMeta dep))).

(** The replica sets of a deployment carry the hash their name ends in, and its
    selector does not touch that label. *)
Record dep_wf s (dep : Deployment) (hash : string) : Prop := {
  wf_keyed : keyed rsMeta (replicaSets s);
  wf_namespace : Namespace (depMeta dep) <> "" /\ no_slash (Namespace (depMeta dep)) = true;
  wf_slash : forall k rs, replicaSets s !! k = Some rs -> no_slash (Namespace (rsMeta rs)) = true;
  wf_named : forall k rs, replicaSets s !! k = Some rs ->
    Namespace (rsMeta rs) = Namespace (depMeta dep) ->
    (owned_by dep rs = true ->
      exists h, has_hash h rs = true /\ Name (rsMeta rs) = new_name dep h) /\
    (Name (rsMeta rs) = new_name dep hash -> is_new dep hash rs = true);
  wf_selector : forall sel, depSelector (depSpec dep) = Some sel ->
    go_get (MatchLabels sel) hash_label = None;
}.

Lemma new_name_inj dep h h' : new_name dep h = new_name dep h' -> h = h'.
Proof.
  unfold new_name. induction (Name (depMeta dep)) as [|c n IH]; simpl; intros E.
  - by injection E.
  - injection E as E. auto.
Qed.

Lemma has_hash_inj h h' rs : has_hash h rs = true -> has_hash h' rs = true -> h = h'.
Proof.
  unfold has_hash, annotated. destruct (Labels (rsMeta rs)); [|done].
  rewrite !String.eqb_eq. congruence.
Qed.

Lemma elem_of_ListReplicaSets o s ns rs :
  keyed rsMeta (replicaSets s) -> ns <> "" ->
  rs ∈ ListReplicaSets o s ns <->
    Namespace (rsMeta rs) = ns /\ replicaSets s !! rs_key rs = Some rs.
Proof.
  intros Hk Hns. unfold ListReplicaSets. rewrite elem_of_kv_list. unfold in_namespace.
  apply String.eqb_neq in Hns as ->. simpl. rewrite String.eqb_eq. split.
  - intros [E [k Hl]]. split; [done|]. unfold rs_key. by rewrite <- (Hk k rs Hl).
  - intros [E Hl]. eauto.
Qed.

Lemma NoDup_ListReplicaSets o s ns :
  keyed rsMeta (replicaSets s) -> NoDup (rs_key <$> ListReplicaSets o s ns).
Proof.
  intros Hk. unfold ListReplicaSets, kv_list.
  assert (Hnd : NoDup (rs_key <$> o (map_values (replicaSets s)))).
  { rewrite (shuffle_perm o). unfold map_values. rewrite <- list_fmap_compose.
    rewrite (list_fmap_ext _ fst); [apply NoDup_fst_map_to_list|].
    intros i [k rs] Hi; simpl. apply list_elem_of_lookup_2, elem_of_map_to_list in Hi.
    symmetry. by apply (Hk k rs). }
  by apply NoDup_fmap_bool_filter.
Qed.

Lemma new_key_inv s dep hash rs :
  dep_wf s dep hash -> replicaSets s !! rs_key rs = Some rs ->
  rs_key rs = new_key dep hash ->
  Namespace (rsMeta rs) = Namespace (depMeta dep) /\ Name (rsMeta rs) = new_name dep hash.
Proof.
  intros Hwf Hl E. apply key_inj; [by eapply wf_slash|apply (wf_namespace _ _ _ Hwf)|done].
Qed.

Lemma is_new_key s dep hash rs :
  dep_wf s dep hash -> replicaSets s !! rs_key rs = Some rs ->
  Namespace (rsMeta rs) = Namespace (depMeta dep) ->
  is_new dep hash rs = true <-> rs_key rs = new_key dep hash.
Proof.
  intros Hwf Hl Hns. destruct (wf_named _ _ _ Hwf _ _ Hl Hns) as [Hn1 Hn2]. split.
  - unfold is_new, new_key, rs_key, key_of. intros [Ho Hh]%andb_true_iff.
    destruct (Hn1 Ho) as (h & Hh' & ->). by rewrite Hns, (has_hash_inj hash h rs).
  - intros E. by apply Hn2, (new_key_inv s).
Qed.

Lemma last_new o s dep hash :
  dep_wf s dep hash ->
  last (List.filter (is_new dep hash) (ListReplicaSets o s (Namespace (depMeta dep))))
  = new_rs (replicaSets s) dep hash.
Proof.
  intros Hwf. pose proof (wf_keyed _ _ _ Hwf) as Hk.
  destruct (wf_namespace _ _ _ Hwf) as [Hns _].
  destruct (last _) as [rs|] eqn:E.
  - apply last_Some_elem_of, elem_of_bool_filter in E as [Hin Hnew].
    apply elem_of_ListReplicaSets in Hin as [Hn Hl]; [|done..].
    apply (is_new_key s) in Hnew; [|done..]. unfold new_rs. by rewrite <- Hnew.
  - apply last_None in E. unfold new_rs.
    destruct (replicaSets s !! new_key dep hash) as [rs|] eqn:El; [|done]. exfalso.
    pose proof (Hk _ _ El) as Ekey. rewrite Ekey in El.
    destruct (new_key_inv s dep hash rs) as [Hn Hname]; [done..|].
    apply (not_elem_of_nil rs). rewrite <- E. apply elem_of_bool_filter. split.
    + by apply elem_of_ListReplicaSets.
    + by apply (is_new_key s).
Qed.

(** After a reconciliation the older replica sets are the planned ones. *)
Lemma old_not_new s dep hash o :
  dep_wf s dep hash -> new_key dep hash ∉ (rs_key <$> old_list o s dep hash).
Proof.
  intros Hwf Hin. apply list_elem_of_fmap in Hin as (rs & E & Hin).
  unfold old_list in Hin. apply elem_of_bool_filter in Hin as [Hin Hold].
  apply elem_of_ListReplicaSets in Hin as [Hn Hl]; [|apply Hwf..].
  pose proof (is_new_key s dep hash rs Hwf Hl Hn) as [_ Hnew]. rewrite E in Hnew.
  unfold is_old, is_new in *. specialize (Hnew eq_refl). bool_z. congruence.
Qed.

(** The new replica set a tick works on, and the plan for the older ones. *)
Definition tick_new (o : shuffle ReplicaSet) (now : Time) s (dep : Deployment) (hash : string)
    : ReplicaSet :=
  new_before now dep hash (new_rs (replicaSets s) dep hash) (old_list o s dep hash).

Definition tick_old (o : shuffle ReplicaSet) (now : Time) s (dep : Deployment) (hash : string)
    : list ReplicaSet :=
  plan_old (max_old dep (tick_new o now s dep hash)) (old_list o s dep hash).

Definition tick (o : shuffle ReplicaSet) (now : Time) s (dep : Deployment) (hash : string)
    : list ReplicaSet :=
  new_after dep (tick_new o now s dep hash) (old_list o s dep hash) :: tick_old o now s dep hash.

Lemma Reconcile_tick o1 o2 now s dep :
  let hash := hashTemplateSpec (depTemplate (depSpec dep)) in
  dep_wf s dep hash ->
  replicaSets (Reconcile o1 o2 now s dep) =
    foldl insert_rs (replicaSets s) (tick o1 now s dep hash).
Proof.
  intros hash Hwf. rewrite Reconcile_map by apply Hwf. fold hash.
  rewrite last_new by done. unfold tick, tick_old, tick_new, old_list.
  by destruct (List.filter _ _).
Qed.

Lemma tick_new_facts o now s dep hash :
  dep_wf s dep hash ->
  rs_key (tick_new o now s dep hash) = new_key dep hash /\
  Namespace (rsMeta (tick_new o now s dep hash)) = Namespace (depMeta dep) /\
  Name (rsMeta (tick_new o now s dep hash)) = new_name dep hash /\
  is_new dep hash (tick_new o now s dep hash) = true.
Proof.
  intros Hwf. unfold tick_new, new_before, new_rs.
  destruct (replicaSets s !! new_key dep hash) as [rs|] eqn:El; simpl.
  - pose proof (wf_keyed _ _ _ Hwf _ _ El) as Ekey. rewrite Ekey in El.
    destruct (new_key_inv s dep hash rs) as [Hn Hname]; [done..|].
    split_and!; try done. by apply (is_new_key s).
  - split_and!; try done. unfold is_new, owned_by, has_hash; simpl.
    rewrite lookup_singleton_eq; simpl. rewrite String.eqb_refl; simpl.
    destruct (depSelector (depSpec dep)) as [sel|] eqn:Es; simpl.
    + rewrite go_copy_into_lookup, (wf_selector _ _ _ Hwf sel Es), lookup_singleton_eq.
      apply String.eqb_refl.
    + rewrite lookup_singleton_eq. apply String.eqb_refl.
Qed.

Lemma new_after_same dep hash nr olds :
  rs_key (new_after dep nr olds) = rs_key nr /\
  rsMeta (new_after dep nr olds) = rsMeta nr /\
  rsStatus (new_after dep nr olds) = rsStatus nr /\
  is_new dep hash (new_after dep nr olds) = is_new dep hash nr.
Proof. unfold new_after. by repeat case_match. Qed.

Lemma plan_old_same r olds x :
  x ∈ plan_old r olds -> exists y d, y ∈ olds /\ x = set_rsReplicas y d.
Proof.
  revert r. induction olds as [|rs olds IH]; intros r Hx; simpl in Hx.
  - by apply elem_of_nil in Hx.
  - apply elem_of_cons in Hx as [->|Hx].
    + do 2 eexists. split; [by left|done].
    + apply IH in Hx as (y & d & Hy & ->). do 2 eexists. split; [by right|done].
Qed.

Lemma NoDup_tick o now s dep hash :
  dep_wf s dep hash -> NoDup (rs_key <$> tick o now s dep hash).
Proof.
  intros Hwf. unfold tick. rewrite fmap_cons. destruct (tick_new_facts o now s dep hash Hwf) as [E _].
  destruct (new_after_same dep hash (tick_new o now s dep hash) (old_list o s dep hash)) as [-> _].
  rewrite E. unfold tick_old. rewrite plan_old_keys. constructor; [by apply old_not_new|].
  pose proof (NoDup_ListReplicaSets o s (Namespace (depMeta dep)) (wf_keyed _ _ _ Hwf)) as Hnd.
  by apply NoDup_fmap_bool_filter.
Qed.

(** What is in the store afterwards: an entry of the tick, or an untouched one. *)
Lemma insert_all_inv l (m : gmap string ReplicaSet) k rs :
  NoDup (rs_key <$> l) -> foldl insert_rs m l !! k = Some rs ->
  rs ∈ l /\ k = rs_key rs \/ k ∉ (rs_key <$> l) /\ m !! k = Some rs.
Proof.
  intros Hnd Hl. destruct (decide (k ∈ (rs_key <$> l))) as [Hin|Hni].
  - apply list_elem_of_fmap in Hin as (x & -> & Hx).
    rewrite insert_all_lookup in Hl by done. simplify_eq. by left.
  - rewrite insert_all_lookup_ne in Hl by done. by right.
Qed.

(** Every entry of a tick belongs to the deployment and lies in its namespace. *)
Lemma tick_entry o now s dep hash rs :
  dep_wf s dep hash -> rs ∈ tick o now s dep hash ->
  Namespace (rsMeta rs) = Namespace (depMeta dep) /\
  (is_new dep hash rs = true /\ Name (rsMeta rs) = new_name dep hash /\
     rs = new_after dep (tick_new o now s dep hash) (old_list o s dep hash) \/
   is_old dep hash rs = true /\ rs ∈ tick_old o now s dep hash /\
     exists h, has_hash h rs = true /\ Name (rsMeta rs) = new_name dep h).
Proof.
  intros Hwf Hin. apply elem_of_cons in Hin as [->|Hin].
  - destruct (tick_new_facts o now s dep hash Hwf) as (_ & Hn & Hname & Hnew).
    destruct (new_after_same dep hash (tick_new o now s dep hash) (old_list o s dep hash))
      as (_ & E & _ & E').
    rewrite E, E'. auto.
  - pose proof Hin as Hin'. unfold tick_old in Hin'.
    apply plan_old_same in Hin' as (y & d & Hy & ->).
    apply elem_of_bool_filter in Hy as [Hy Hold].
    apply elem_of_ListReplicaSets in Hy as [Hn Hl]; [|apply Hwf..].
    split; [done|]. right. split_and!; [done..|].
    destruct (wf_named _ _ _ Hwf _ _ Hl Hn) as [Hh _]. apply Hh.
    unfold is_old in Hold. by apply andb_true_iff in Hold as [? _].
Qed.

Lemma dep_wf_tick o now s s' dep hash :
  dep_wf s dep hash ->
  replicaSets s' = foldl insert_rs (replicaSets s) (tick o now s dep hash) ->
  dep_wf s' dep hash.
Proof.
  intros Hwf E. pose proof (NoDup_tick o now s dep hash Hwf) as Hnd.
  assert (Hinv : forall k rs, replicaSets s' !! k = Some rs ->
    rs ∈ tick o now s dep hash /\ k = rs_key rs \/ replicaSets s !! k = Some rs).
  { intros k rs Hl. rewrite E in Hl. apply insert_all_inv in Hl; naive_solver. }
  split; try apply Hwf.
  - intros k rs [[_ ->]|Hl]%Hinv; [done|]. by apply (wf_keyed _ _ _ Hwf).
  - intros k rs [[Hin _]|Hl]%Hinv; [|by eapply wf_slash].
    apply tick_entry in Hin as [-> _]; [|done]. apply Hwf.
  - intros k rs [[Hin ->]|Hl]%Hinv Hns; [|by eapply wf_named].
    apply tick_entry in Hin as [_ [(Hnew & Hname & _)|(Hold & _ & h & Hh & Hname)]]; [..|done].
    + unfold is_new in *. bool_z. split; [eauto|]. intros _. apply andb_true_iff. auto.
    + split; [eauto|]. intros En. rewrite Hname in En. apply new_name_inj in En as ->.
      unfold is_old in Hold. bool_z. congruence.
Qed.

Lemma Reconcile_new_rs o1 o2 now s dep :
  let hash := hashTemplateSpec (depTemplate (depSpec dep)) in
  dep_wf s dep hash ->
  new_rs (replicaSets (Reconcile o1 o2 now s dep)) dep hash =
    Some (new_after dep (tick_new o1 now s dep hash) (old_list o1 s dep hash)).
Proof.
  intros hash Hwf. unfold new_rs. rewrite Reconcile_tick by done.
  destruct (tick_new_facts o1 now s dep hash Hwf) as [E _].
  destruct (new_after_same dep hash (tick_new o1 now s dep hash) (old_list o1 s dep hash)) as [E' _].
  rewrite <- E, <- E'. apply insert_all_lookup; [by apply NoDup_tick | by left].
Qed.

Lemma Reconcile_old_list o1 o2 o3 now s dep :
  let hash := hashTemplateSpec (depTemplate (depSpec dep)) in
  dep_wf s dep hash ->
  old_list o3 (Reconcile o1 o2 now s dep) dep hash ≡ₚ tick_old o1 now s dep hash.
Proof.
  intros hash Hwf. pose proof (Reconcile_tick o1 o2 now s dep Hwf) as E. fold hash in E.
  pose proof (dep_wf_tick _ _ _ _ _ _ Hwf E) as Hwf'.
  pose proof (NoDup_tick o1 now s dep hash Hwf) as Hnd.
  apply NoDup_Permutation.
  - apply NoDup_bool_filter, (NoDup_fmap_1 rs_key), NoDup_ListReplicaSets, Hwf'.
  - apply (NoDup_fmap_1 rs_key). unfold tick in Hnd. rewrite fmap_cons in Hnd.
    by apply NoDup_cons in Hnd as [_ ?].
  - intros rs. unfold old_list. rewrite elem_of_bool_filter, elem_of_ListReplicaSets by apply Hwf'.
    rewrite E. split.
    + intros [[Hns Hl] Hold]. apply insert_all_inv in Hl as [[Hin _]|[Hni Hl]]; [..|done].
      * apply tick_entry in Hin as [_ [(Hnew & _)|(_ & Hin & _)]]; [..|done]; [|done].
        unfold is_old, is_new in *. bool_z. congruence.
      * exfalso. apply Hni. unfold tick, tick_old. rewrite fmap_cons, plan_old_keys.
        right. apply list_elem_of_fmap_2, elem_of_bool_filter. split; [|done].
        apply elem_of_ListReplicaSets; [apply Hwf..|done].
    + intros Hin. assert (Hin' : rs ∈ tick o1 now s dep hash) by by right.
      pose proof Hin' as He. apply tick_entry in He as [Hns [(_ & _ & ->)|(Hold & _)]]; [..|done].
      * exfalso. unfold tick in Hnd. rewrite fmap_cons in Hnd.
        apply NoDup_cons in Hnd as [Hni _]. apply Hni. by apply list_elem_of_fmap_2.
      * split_and!; [done| |done]. by apply insert_all_lookup.
Qed.

(** ** Counting *)

Definition ready (rs : ReplicaSet) : Z := rssReadyReplicas (rsStatus rs).

Definition old_total o s (dep : Deployment) (hash : string) : Z :=
  zsum (replicas <$> old_list o s dep hash).

Definition sized_rs (rs : ReplicaSet) : Prop :=
  (exists n, rsReplicas (rsSpec rs) = Some n) /\ (0 <= replicas rs < 2 ^ 31)%Z /\
  (0 <= ready rs < 2 ^ 31)%Z.

(** Every replica set has a replica count, and counts are what they should be. *)
Definition sized s : Prop := forall k rs, replicaSets s !! k = Some rs -> sized_rs rs.

Definition desired_ok (dep : Deployment) : Prop := (0 <= desired_replicas dep < 2 ^ 31)%Z.

Lemma replicas_set rs n : replicas (set_rsReplicas rs n) = n.
Proof. done. Qed.

Lemma sized_set rs n :
  (0 <= n < 2 ^ 31)%Z -> (0 <= ready rs < 2 ^ 31)%Z -> sized_rs (set_rsReplicas rs n).
Proof. intros Hn Hr. split; [simpl; eauto|done]. Qed.

Lemma plan_old_sum r olds :
  (0 <= r < 2 ^ 31)%Z -> Forall sized_rs olds ->
  zsum (replicas <$> plan_old r olds) = Z.min r (zsum (replicas <$> olds)) /\
  Forall2 (fun x y => (0 <= replicas x <= replicas y)%Z /\ sized_rs x) (plan_old r olds) olds.
Proof.
  intros Hr Hs. revert r Hr. induction Hs as [|rs olds Hrs Hs IH]; intros r Hr.
  - split; [simpl; lia | constructor].
  - cbn [plan_old]. rewrite !fmap_cons. cbn [zsum foldr].
    destruct Hrs as (Hsome & Hn & Hrdy).
    set (d := if (r <? replicas rs)%Z then r else replicas rs).
    assert (Hd : (0 <= d <= replicas rs /\ d <= r /\ (d = r \/ d = replicas rs))%Z)
      by (unfold d; destruct (r <? replicas rs)%Z eqn:E; bool_z; lia).
    rewrite i32_id by range_lia.
    destruct (r - d <? 0)%Z eqn:E; bool_z; [lia|].
    destruct (IH (r - d)%Z ltac:(lia)) as [Hsum Hle].
    assert (Hnn : (0 <= zsum (replicas <$> olds))%Z).
    { apply zsum_nonneg, Forall_fmap, (Forall_impl _ _ _ Hs). intros x (_ & Hx & _). simpl. lia. }
    fold (zsum (replicas <$> plan_old (r - d) olds)) (zsum (replicas <$> olds)).
    fold d. rewrite Hsum, replicas_set. split; [lia|].
    constructor; [|done]. rewrite replicas_set. split; [lia|].
    apply sized_set; [lia|done].
Qed.

Lemma sized_old o s dep hash : dep_wf s dep hash -> sized s -> Forall sized_rs (old_list o s dep hash).
Proof.
  intros Hwf Hs. apply Forall_forall. intros rs Hin.
  apply elem_of_bool_filter in Hin as [Hin _].
  apply elem_of_ListReplicaSets in Hin as [_ Hl]; [by apply (Hs _ _ Hl)|apply Hwf..].
Qed.

Lemma sized_tick_new o now s dep hash :
  sized s -> desired_ok dep -> sized_rs (tick_new o now s dep hash).
Proof.
  intros Hs Hd. unfold tick_new, new_before, new_rs.
  destruct (replicaSets s !! _) as [rs|] eqn:El; simpl; [by apply (Hs _ _ El)|].
  unfold sized_rs, replicas, ready; simpl. split_and!; [eauto|..]; try lia;
    by destruct (old_list _ _ _ _); simpl; unfold desired_ok in *; lia.
Qed.

Lemma max_old_eq dep nr :
  desired_ok dep -> sized_rs nr -> max_old dep nr = Z.max 0 (desired_replicas dep - ready nr).
Proof.
  unfold desired_ok, sized_rs, max_old, ready. intros Hd (_ & _ & Hr).
  rewrite i32_id by range_lia. destruct (_ <? 0)%Z eqn:E; bool_z; lia.
Qed.

Lemma old_total_shuffle o o' s dep hash : old_total o s dep hash = old_total o' s dep hash.
Proof.
  unfold old_total, old_list, ListReplicaSets, kv_list.
  by rewrite (shuffle_perm o), (shuffle_perm o').
Qed.

Lemma replicas_new_after dep nr olds :
  desired_ok dep -> sized_rs nr ->
  replicas (new_after dep nr olds) =
    match olds with
    | [] => desired_replicas dep
    | _ => if (replicas nr <? desired_replicas dep)%Z then (replicas nr + 1)%Z else replicas nr
    end.
Proof.
  intros Hd (_ & Hn & _). unfold new_after, desired_ok in *. destruct olds as [|old olds].
  - destruct (_ =? _)%Z eqn:E; bool_z; [done|]. by unfold replicas.
  - destruct (_ <? _)%Z eqn:E; bool_z; [|done]. unfold replicas at 1; simpl.
    apply i32_id. range_lia.
Qed.

Lemma sized_new_after dep nr olds :
  desired_ok dep -> sized_rs nr -> sized_rs (new_after dep nr olds).
Proof.
  intros Hd Hs. pose proof (replicas_new_after dep nr olds Hd Hs) as E.
  destruct Hs as (Hsome & Hn & Hr). unfold desired_ok in Hd.
  destruct (new_after_same dep "" nr olds) as (_ & _ & Est & _).
  unfold sized_rs. rewrite E. unfold ready in *. rewrite Est. split; [|split; [|done]].
  - unfold new_after. repeat case_match; simpl; eauto.
  - destruct olds; [lia|]. destruct (_ <? _)%Z eqn:E'; bool_z; lia.
Qed.

(** One reconciliation of a rolling update: the replica set of the current
    template gains at most one replica and never goes past the desired number
    by doing so, and the older ones are cut down to what is missing of the
    desired number in ready new pods, together and each of them; the total never
    grows.  With no older replica set the new one is set to the desired number. *)
Lemma Reconcile_rolling_step o1 o2 o3 now s dep :
  let hash := hashTemplateSpec (depTemplate (depSpec dep)) in
  let s' := Reconcile o1 o2 now s dep in
  let nr := tick_new o1 now s dep hash in
  dep_wf s dep hash -> sized s -> desired_ok dep ->
  option_map replicas (new_rs (replicaSets s') dep hash) = Some
    (match old_list o1 s dep hash with
     | [] => desired_replicas dep
     | _ => if (replicas nr <? desired_replicas dep)%Z then (replicas nr + 1)%Z else replicas nr
     end) /\
  old_total o3 s' dep hash =
    Z.min (Z.max 0 (desired_replicas dep - ready nr)) (old_total o3 s dep hash) /\
  dep_wf s' dep hash /\ sized s'.
Proof.
  intros hash s' nr Hwf Hs Hd. pose proof (sized_tick_new o1 now s dep hash Hs Hd) as Hnr.
  fold nr in Hnr. pose proof (sized_old o1 s dep hash Hwf Hs) as Hold.
  destruct (plan_old_sum (max_old dep nr) (old_list o1 s dep hash)) as [Hsum Hle]; [|done|].
  { rewrite max_old_eq by done. destruct Hnr as (_ & _ & ?). unfold desired_ok in Hd. lia. }
  split_and!.
  - unfold s'. rewrite Reconcile_new_rs by done. simpl. f_equal. by apply replicas_new_after.
  - pose proof (Reconcile_old_list o1 o2 o3 now s dep Hwf) as E. fold hash s' in E.
    unfold old_total at 1. rewrite E. unfold tick_old. fold nr. rewrite Hsum, max_old_eq by done.
    by rewrite (old_total_shuffle o3 o1).
  - by apply (dep_wf_tick o1 now s), Reconcile_tick.
  - intros k rs Hl. unfold s' in Hl. rewrite Reconcile_tick in Hl by done.
    apply insert_all_inv in Hl as [[Hin _]|[_ Hl]]; [|by apply (Hs k)|by apply NoDup_tick].
    apply elem_of_cons in Hin as [->|Hin]; [by apply sized_new_after|].
    apply list_elem_of_lookup in Hin as [i Hi].
    destruct (Forall2_lookup_l _ _ _ _ _ Hle Hi) as (y & _ & _ & ?). done.
Qed.

(** ** Rollouts

    The environment of a rollout: between two ticks the replica set controller
    brings every replica set to its count and the pods become ready. *)

Definition settle_rs (rs : ReplicaSet) : ReplicaSet :=
  set_rsStatus rs (mkReplicaSetStatus (replicas rs)
    (rssFullyLabeledReplicas (rsStatus rs)) (replicas rs) (replicas rs)).

Definition settle s : ControllerStore T :=
  mkControllerStore (deployments s) (settle_rs <$> replicaSets s) (cs_db s).

(** [n] rounds, each with iteration orders and a clock of its own. *)
Fixpoint rollout (o1 o2 : nat -> shuffle ReplicaSet) (now : nat -> Time) (dep : Deployment)
    (n : nat) s : ControllerStore T :=
  match n with
  | O => s
  | S n => settle (Reconcile (o1 n) (o2 n) (now n) (rollout o1 o2 now dep n s) dep)
  end.

Lemma new_rs_settle s dep hash :
  new_rs (replicaSets (settle s)) dep hash = settle_rs <$> new_rs (replicaSets s) dep hash.
Proof. apply lookup_fmap. Qed.

Lemma dep_wf_settle s dep hash : dep_wf s dep hash -> dep_wf (settle s) dep hash.
Proof.
  intros Hwf. split; try apply Hwf; simpl; intros k rs Hl;
    rewrite lookup_fmap in Hl; destruct (replicaSets s !! k) as [x|] eqn:El;
    simplify_eq/=.
  - exact (wf_keyed _ _ _ Hwf _ _ El).
  - exact (wf_slash _ _ _ Hwf _ _ El).
  - exact (wf_named _ _ _ Hwf _ _ El).
Qed.

Lemma sized_settle s : sized s -> sized (settle s).
Proof.
  intros Hs k rs Hl. simpl in Hl. rewrite lookup_fmap in Hl.
  destruct (replicaSets s !! k) as [x|] eqn:El; simplify_eq/=.
  destruct (Hs _ _ El) as (Hsome & Hn & _). split; [exact Hsome|]. split; exact Hn.
Qed.

Lemma old_list_settle o s dep hash :
  dep_wf s dep hash -> old_list o (settle s) dep hash ≡ₚ settle_rs <$> old_list o s dep hash.
Proof.
  intros Hwf. pose proof (dep_wf_settle _ _ _ Hwf) as Hwf'. apply NoDup_Permutation.
  - apply NoDup_bool_filter, (NoDup_fmap_1 rs_key), NoDup_ListReplicaSets, Hwf'.
  - apply (NoDup_fmap_1 rs_key). rewrite <- list_fmap_compose.
    rewrite (list_fmap_ext _ rs_key) by done.
    pose proof (NoDup_tick o 0 s dep hash Hwf) as Hnd. unfold tick, tick_old in Hnd.
    rewrite fmap_cons, plan_old_keys in Hnd. by apply NoDup_cons in Hnd as [_ ?].
  - intros rs. rewrite list_elem_of_fmap. unfold old_list.
    rewrite elem_of_bool_filter, elem_of_ListReplicaSets by apply Hwf'. simpl.
    rewrite lookup_fmap, fmap_Some. setoid_rewrite elem_of_bool_filter.
    setoid_rewrite (elem_of_ListReplicaSets o s); [|apply Hwf..]. split.
    + intros [[Hns (x & Hx & ->)] Hold]. exists x. split_and!; auto.
    + intros (x & -> & [Hns Hx] & Hold). split_and!; eauto.
Qed.

Lemma old_total_settle o s dep hash :
  dep_wf s dep hash -> old_total o (settle s) dep hash = old_total o s dep hash.
Proof.
  intros Hwf. unfold old_total. rewrite old_list_settle by done.
  by rewrite <- list_fmap_compose, (list_fmap_ext _ replicas).
Qed.

(** What a round does to the numbers. *)
Lemma round_numbers o1 o2 o3 now s dep :
  let hash := hashTemplateSpec (depTemplate (depSpec dep)) in
  let s' := settle (Reconcile o1 o2 now s dep) in
  let nr := tick_new o1 now s dep hash in
  dep_wf s dep hash -> sized s -> desired_ok dep ->
  (exists rs, new_rs (replicaSets s') dep hash = Some rs /\ ready rs = replicas rs /\
    replicas rs = match old_list o1 s dep hash with
       | [] => desired_replicas dep
       | _ => if (replicas nr <? desired_replicas dep)%Z then (replicas nr + 1)%Z else replicas nr
       end) /\
  old_total o3 s' dep hash =
    Z.min (Z.max 0 (desired_replicas dep - ready nr)) (old_total o3 s dep hash) /\
  dep_wf s' dep hash /\ sized s'.
Proof.
  intros hash s' nr Hwf Hs Hd.
  destruct (Reconcile_rolling_step o1 o2 o3 now s dep Hwf Hs Hd) as (E & Et & Hwf' & Hs').
  split_and!.
  - destruct (new_rs _ dep _) as [rs|] eqn:En in E; [|done]. simpl in E. injection E as E.
    exists (settle_rs rs). unfold s'. fold hash in En. rewrite new_rs_settle, En. by split_and!.
  - unfold s'. by rewrite old_total_settle.
  - by apply dep_wf_settle.
  - by apply sized_settle.
Qed.

Lemma tick_new_Some o now s dep hash rs :
  new_rs (replicaSets s) dep hash = Some rs -> tick_new o now s dep hash = rs.
Proof. unfold tick_new, new_before. by intros ->. Qed.

Lemma tick_new_le o now s dep hash :
  desired_ok dep ->
  (forall rs, new_rs (replicaSets s) dep hash = Some rs -> (replicas rs <= desired_replicas dep)%Z) ->
  (replicas (tick_new o now s dep hash) <= desired_replicas dep)%Z.
Proof.
  unfold tick_new, new_before, desired_ok. intros Hd Hle.
  destruct (new_rs _ _ _) as [rs|]; simpl; [auto|].
  destruct (old_list _ _ _ _); unfold replicas; simpl; lia.
Qed.

(** How far a rollout is after [n] rounds. *)
Record progress (n : nat) s (dep : Deployment) (hash : string) : Prop := {
  pr_wf : dep_wf s dep hash;
  pr_sized : sized s;
  pr_le : forall rs, new_rs (replicaSets s) dep hash = Some rs ->
    (replicas rs <= desired_replicas dep)%Z;
  pr_new : 1 <= n -> exists rs, new_rs (replicaSets s) dep hash = Some rs /\
    ready rs = replicas rs /\ (Z.min (desired_replicas dep) (Z.of_nat n) <= replicas rs)%Z;
  pr_old : 1 <= n ->
    (old_total in_order s dep hash <= Z.max 0 (desired_replicas dep - (Z.of_nat n - 1)))%Z;
}.

Lemma progress_round o1 o2 now n s dep :
  let hash := hashTemplateSpec (depTemplate (depSpec dep)) in
  desired_ok dep -> progress n s dep hash ->
  progress (S n) (settle (Reconcile o1 o2 now s dep)) dep hash.
Proof.
  intros hash Hd [Hwf Hs Hle Hnew Hold].
  destruct (round_numbers o1 o2 in_order now s dep Hwf Hs Hd)
    as ((rs & En & Er & Ern) & Eo & Hwf' & Hs').
  fold hash in En, Er, Ern, Eo, Hwf'. set (nr := tick_new o1 now s dep hash) in *.
  pose proof (tick_new_le o1 now s dep hash Hd Hle) as Hnr. fold nr in Hnr.
  destruct (sized_tick_new o1 now s dep hash Hs Hd) as (_ & Hn0 & Hr0).
  assert (Hmin : (Z.min (desired_replicas dep) (Z.of_nat n) <= replicas nr /\
                  Z.min (desired_replicas dep) (Z.of_nat n) <= ready nr)%Z).
  { destruct (decide (1 <= n)) as [Hn|]; [|split; fold nr in Hn0, Hr0; lia].
    destruct (Hnew Hn) as (x & Ex & Erx & Hx). unfold nr.
    rewrite (tick_new_Some _ _ _ _ _ _ Ex). lia. }
  assert (Hge : (Z.min (desired_replicas dep) (Z.of_nat (S n)) <= replicas rs <= desired_replicas dep)%Z).
  { rewrite Ern. destruct (old_list _ _ _ _); [lia|]. destruct (_ <? _)%Z eqn:E; bool_z; lia. }
  split; [done|done| | |].
  - intros x Ex. rewrite En in Ex. simplify_eq. lia.
  - intros _. exists rs. split_and!; [done..|lia].
  - intros _. rewrite Eo. unfold desired_ok in Hd. lia.
Qed.

Lemma rollout_progress o1 o2 now dep n s :
  let hash := hashTemplateSpec (depTemplate (depSpec dep)) in
  desired_ok dep -> progress 0 s dep hash -> progress n (rollout o1 o2 now dep n s) dep hash.
Proof. intros hash Hd Hp0. induction n as [|n IH]; [done|]. by apply progress_round. Qed.

(** C7. A rolling update terminates, if the replica set of the current template does not
    already have more replicas than desired (it would keep them all, see
    [rollout_never_scales_down]), and no other writer interferes: whatever the
    iteration orders, after as many rounds as desired replicas and one more, with the
    pods becoming ready between the ticks, the replica set of the current template has
    exactly the desired number of replicas, all ready, and the older ones together have
    none.  The records are well formed: under their own keys, named as the controller
    names them, every replica set with a replica count, no count negative. *)
Theorem rollout_converges o1 o2 now dep n s :
  let hash := hashTemplateSpec (depTemplate (depSpec dep)) in
  desired_ok dep -> dep_wf s dep hash -> sized s ->
  (forall rs, new_rs (replicaSets s) dep hash = Some rs -> (replicas rs <= desired_replicas dep)%Z) ->
  Z.to_nat (desired_replicas dep) + 1 <= n ->
  exists rs, new_rs (replicaSets (rollout o1 o2 now dep n s)) dep hash = Some rs /\
    replicas rs = desired_replicas dep /\ ready rs = desired_replicas dep /\
    old_total in_order (rollout o1 o2 now dep n s) dep hash = 0%Z.
Proof.
  intros hash Hd Hwf0 Hs0 Hle0 Hn.
  assert (Hp0 : progress 0 s dep hash) by (split; [done..|lia|lia]).
  destruct (rollout_progress o1 o2 now dep n s Hd Hp0) as [Hwf Hs Hle Hnew Hold].
  fold hash in Hwf, Hs, Hle, Hnew, Hold.
  destruct Hnew as (rs & E & Er & Hrs); [lia|]. exists rs.
  specialize (Hle _ E). specialize (Hold ltac:(lia)). unfold desired_ok in Hd.
  assert (0 <= old_total in_order (rollout o1 o2 now dep n s) dep hash)%Z.
  { apply zsum_nonneg, Forall_fmap. apply (Forall_impl sized_rs); [by apply sized_old|].
    intros x (_ & Hx & _). simpl. lia. }
  split_and!; [done|lia..].
Qed.

(** C38. Once a deployment has an older replica set, which no reconciliation ever
    removes, lowering its replica count has no effect: however many rounds pass,
    the replica set of the current template keeps all its replicas. *)
Theorem rollout_never_scales_down o1 o2 now dep n s rs :
  let hash := hashTemplateSpec (depTemplate (depSpec dep)) in
  dep_wf s dep hash -> sized s -> desired_ok dep ->
  old_list in_order s dep hash <> [] ->
  new_rs (replicaSets s) dep hash = Some rs -> (desired_replicas dep <= replicas rs)%Z ->
  option_map replicas (new_rs (replicaSets (rollout o1 o2 now dep n s)) dep hash) =
    Some (replicas rs).
Proof.
  intros hash Hwf Hs Hd Hne Hrs Hle. set (r := replicas rs) in *.
  assert (Hinv : dep_wf (rollout o1 o2 now dep n s) dep hash /\
    sized (rollout o1 o2 now dep n s) /\
    (forall o, old_list o (rollout o1 o2 now dep n s) dep hash <> []) /\
    exists x, new_rs (replicaSets (rollout o1 o2 now dep n s)) dep hash = Some x /\ replicas x = r);
    [|by destruct Hinv as (_ & _ & _ & x & -> & <-)].
  induction n as [|n (Hwf' & Hs' & Hne' & x & Ex & Exr)]; cbn [rollout].
  - split_and!; [done..| |eauto]. intros o E. apply Hne, Permutation_nil_r.
    rewrite <- E. unfold old_list, ListReplicaSets, kv_list.
    by rewrite (shuffle_perm o), (shuffle_perm in_order).
  - destruct (round_numbers (o1 n) (o2 n) in_order (now n) _ dep Hwf' Hs' Hd)
      as ((y & En & Er & Ern) & _ & Hwf2 & Hs2).
    split_and!; [done..| |].
    + intros o E. apply (Hne' (o1 n)).
      assert (Hl : length (old_list o (settle (Reconcile (o1 n) (o2 n) (now n)
        (rollout o1 o2 now dep n s) dep)) dep hash) = 0) by by rewrite E.
      destruct (Reconcile_rolling_step (o1 n) (o2 n) in_order (now n) _ dep Hwf' Hs' Hd)
        as (_ & _ & Hwf3 & _). fold hash in Hwf3.
      rewrite old_list_settle in Hl by done.
      pose proof (Reconcile_old_list (o1 n) (o2 n) o (now n) _ dep Hwf') as Ep. fold hash in Ep.
      rewrite Ep, length_fmap in Hl. unfold tick_old in Hl.
      rewrite <- (length_fmap rs_key), plan_old_keys, length_fmap in Hl. by apply length_zero_iff_nil.
    + exists y. fold hash in En, Ern. split; [done|]. rewrite Ern.
      rewrite (tick_new_Some _ _ _ _ _ _ Ex), Exr.
      destruct (old_list (o1 n) (rollout o1 o2 now dep n s) dep hash) eqn:E; [by apply Hne' in E|].
      destruct (Z.ltb_spec r (desired_replicas dep)); [lia|done].
Qed.

(** ** What a reconciliation writes *)

Lemma scale_down_deployments s r olds : deployments (scale_down s r olds) = deployments s.
Proof. revert s r. induction olds as [|rs olds IH]; intros s r; [done|]. simpl. by rewrite IH. Qed.

Lemma scale_deployments s d nr olds : deployments (scale s d nr olds) = deployments s.
Proof.
  unfold scale. destruct olds as [|old olds].
  - by destruct (negb _).
  - rewrite scale_down_deployments. by destruct (_ <? _)%Z.
Qed.

Lemma ensure_new_deployments now s dep hash newRS olds :
  deployments (ensure_new_rs now s dep hash newRS olds).1 = deployments s.
Proof. by destruct newRS. Qed.

(** The deployments afterwards: the reconciled one, written over whatever its key held. *)
Lemma Reconcile_deployments o1 o2 now s dep :
  exists status,
    deployments (Reconcile o1 o2 now s dep) =
      <[key_of (depMeta dep) := set_depStatus dep status]> (deployments s) /\
    status = reconciled_status dep (hashTemplateSpec (depTemplate (depSpec dep)))
      (ListReplicaSets o2 (Reconcile o1 o2 now s dep) (Namespace (depMeta dep))).
Proof.
  unfold Reconcile. destruct (classify _ _ _) as [newRS olds].
  pose proof (ensure_new_deployments now s dep
    (hashTemplateSpec (depTemplate (depSpec dep))) newRS olds) as E.
  destruct (ensure_new_rs _ _ _ _ _ _) as [s1 nr]. simpl in E.
  eexists. split; [|reflexivity]. simpl. by rewrite scale_deployments, E.
Qed.

(** A reconciliation works on the deployment as it was listed and writes that
    back whole: an update or a deletion that reaches the store between the
    listing and the write is lost — the stale specification replaces the new one,
    and a deleted deployment comes back. *)
Theorem Reconcile_writes_back_snapshot o1 o2 now s dep newer :
  let ns := Namespace (depMeta dep) in
  let name := Name (depMeta dep) in
  option_map depSpec (LoadDeployment (Reconcile o1 o2 now (DeleteDeployment s ns name) dep) ns name)
    = Some (depSpec dep) /\
  option_map depSpec (LoadDeployment
      (Reconcile o1 o2 now (StoreDeployment s (mkDeployment (depType dep) (depMeta dep) newer
         (depStatus dep))) dep) ns name)
    = Some (depSpec dep).
Proof.
  intros ns name. unfold LoadDeployment, kv_load.
  split; edestruct Reconcile_deployments as (st & -> & _); by rewrite lookup_insert_eq.
Qed.

Lemma count_replicas_sum dep hash l :
  count_replicas dep hash l =
    (i32 (zsum ((fun rs => rssReplicas (rsStatus rs)) <$> List.filter (owned_by dep) l)),
     i32 (zsum (ready <$> List.filter (owned_by dep) l)),
     default 0%Z ((fun rs => rssReplicas (rsStatus rs)) <$> last (List.filter (is_new dep hash) l))).
Proof.
  unfold count_replicas. induction l as [|rs l IH] using rev_ind; [done|].
  rewrite foldl_app, IH, !List.filter_app, !fmap_app, !zsum_app. cbn [foldl List.filter].
  unfold is_new, ready. destruct (owned_by dep rs); cbn [andb].
  - rewrite !i32_add, !fmap_cons. cbn [zsum foldr]. rewrite !Z.add_0_r.
    destruct (has_hash hash rs); [by rewrite last_snoc | by rewrite app_nil_r].
  - cbn [zsum foldr fmap list_fmap]. by rewrite !Z.add_0_r, app_nil_r.
Qed.

(** The replica sets of the deployment. *)
Definition owned_list s (dep : Deployment) : list ReplicaSet :=
  List.filter (owned_by dep) (ListReplicaSets in_order s (Namespace (depMeta dep))).

Lemma Reconcile_stored_status o1 o2 now s dep :
  let hash := hashTemplateSpec (depTemplate (depSpec dep)) in
  let s' := Reconcile o1 o2 now s dep in
  dep_wf s dep hash ->
  exists st, LoadDeployment s' (Namespace (depMeta dep)) (Name (depMeta dep)) =
      Some (set_depStatus dep st) /\
    dsReplicas st = i32 (zsum ((fun rs => rssReplicas (rsStatus rs)) <$> owned_list s' dep)) /\
    dsReadyReplicas st = i32 (zsum (ready <$> owned_list s' dep)) /\
    dsAvailableReplicas st = dsReadyReplicas st /\
    option_map (fun rs => rssReplicas (rsStatus rs)) (new_rs (replicaSets s') dep hash) =
      Some (dsUpdatedReplicas st) /\
    dsUnavailableReplicas st = Z.max 0 (i32 (desired_replicas dep - dsReadyReplicas st)).
Proof.
  intros hash s' Hwf. destruct (Reconcile_deployments o1 o2 now s dep) as (st & E & Est).
  exists st. fold s' hash in E, Est. unfold LoadDeployment, kv_load. rewrite E.
  split; [apply lookup_insert_eq|].
  assert (Hwf' : dep_wf s' dep hash) by by apply (dep_wf_tick o1 now s), Reconcile_tick.
  unfold reconciled_status in Est. rewrite count_replicas_sum, last_new in Est by done.
  assert (Ep : List.filter (owned_by dep) (ListReplicaSets o2 s' (Namespace (depMeta dep)))
    ≡ₚ owned_list s' dep).
  { unfold owned_list, ListReplicaSets, kv_list. by rewrite (shuffle_perm o2). }
  assert (Ef : forall f : ReplicaSet -> Z, zsum (f <$> List.filter (owned_by dep)
      (ListReplicaSets o2 s' (Namespace (depMeta dep)))) = zsum (f <$> owned_list s' dep))
    by (intros f; by rewrite Ep).
  rewrite !Ef in Est. rewrite Est; simpl. clear E Est st.
  split_and!; [done..| |].
  - unfold s'. rewrite Reconcile_new_rs by done. done.
  - destruct (Z.ltb_spec (i32 (desired_replicas dep - i32 (zsum (ready <$> owned_list s' dep)))) 0);
      lia.
Qed.

(** The status a reconciliation stores adds up what the replica sets of the
    deployment report, at the width of [int32] and independently of the order they
    are visited in; the updated replicas are those of the current template and the
    unavailable ones what is missing, never negative. *)
Theorem Reconcile_status o1 o2 now s dep :
  let hash := hashTemplateSpec (depTemplate (depSpec dep)) in
  let s' := Reconcile o1 o2 now s dep in
  dep_wf s dep hash ->
  exists st, LoadDeployment s' (Namespace (depMeta dep)) (Name (depMeta dep)) =
      Some (set_depStatus dep st) /\
    dsReplicas st = i32 (zsum ((fun rs => rssReplicas (rsStatus rs)) <$> owned_list s' dep)) /\
    dsReadyReplicas st = i32 (zsum (ready <$> owned_list s' dep)) /\
    dsAvailableReplicas st = dsReadyReplicas st /\
    option_map (fun rs => rssReplicas (rsStatus rs)) (new_rs (replicaSets s') dep hash) =
      Some (dsUpdatedReplicas st) /\
    dsUnavailableReplicas st = Z.max 0 (i32 (desired_replicas dep - dsReadyReplicas st)).
Proof. apply Reconcile_stored_status. Qed.

(** C37. A reconciliation leaves every replica set alone that is neither owned by the
    deployment nor named after its current hash, and every other deployment. *)
Theorem Reconcile_frame o1 o2 now s dep k :
  let hash := hashTemplateSpec (depTemplate (depSpec dep)) in
  dep_wf s dep hash ->
  (k <> key_of (depMeta dep) ->
     deployments (Reconcile o1 o2 now s dep) !! k = deployments s !! k) /\
  (k <> new_key dep hash -> option_map (owned_by dep) (replicaSets s !! k) <> Some true ->
     replicaSets (Reconcile o1 o2 now s dep) !! k = replicaSets s !! k).
Proof.
  intros hash Hwf. split.
  - intros Hne. destruct (Reconcile_deployments o1 o2 now s dep) as (st & -> & _).
    by apply lookup_insert_ne.
  - intros Hne Hno. rewrite Reconcile_tick by done. apply insert_all_lookup_ne.
    unfold tick. rewrite fmap_cons, not_elem_of_cons.
    destruct (tick_new_facts o1 now s dep hash Hwf) as [E _].
    destruct (new_after_same dep hash (tick_new o1 now s dep hash) (old_list o1 s dep hash)) as [E' _].
    fold hash. rewrite E', E. split; [done|]. unfold tick_old. rewrite plan_old_keys.
    rewrite list_elem_of_fmap. intros (rs & -> & Hin).
    apply elem_of_bool_filter in Hin as [Hin Hold].
    apply elem_of_ListReplicaSets in Hin as [_ Hl]; [|apply Hwf..].
    apply Hno. rewrite Hl. simpl. unfold is_old in Hold. by apply andb_true_iff in Hold as [-> _].
Qed.

(** C8. One reconciliation of a rolling update: the replica set of the current
    template gains at most one replica, and only below the desired number; the
    older ones are cut down, together, to what is missing of the desired number in
    ready new pods, and never grow.  With no older replica set the new one is set
    to the desired number.  The store stays well-formed. *)
Theorem Reconcile_rolling_update o1 o2 o3 now s dep :
  let hash := hashTemplateSpec (depTemplate (depSpec dep)) in
  let s' := Reconcile o1 o2 now s dep in
  let nr := tick_new o1 now s dep hash in
  dep_wf s dep hash -> sized s -> desired_ok dep ->
  option_map replicas (new_rs (replicaSets s') dep hash) = Some
    (match old_list o1 s dep hash with
     | [] => desired_replicas dep
     | _ => if (replicas nr <? desired_replicas dep)%Z then (replicas nr + 1)%Z else replicas nr
     end) /\
  old_total o3 s' dep hash =
    Z.min (Z.max 0 (desired_replicas dep - ready nr)) (old_total o3 s dep hash) /\
  dep_wf s' dep hash /\ sized s'.
Proof. apply Reconcile_rolling_step. Qed.
End Controller.

(** ** A rollout to run *)

#[local] Instance policy_Codec : Codec PodSpec := {
  marshal ps := Some (bytes_of (psRestartPolicy ps));
  unmarshal _ := None;
}.
#[local] Instance dep_Codec : Codec Deployment := { marshal _ := None; unmarshal _ := None }.
#[local] Instance rs_Codec : Codec ReplicaSet := { marshal _ := None; unmarshal _ := None }.

Definition ex_template : PodTemplateSpec :=
  mkPodTemplateSpec (mkObjectMeta "" "" "" None None 0 "") (mkPodSpec [] [] RestartAlways []).
Definition ex_web (n : Z) : Deployment :=
  mkDeployment (mkTypeMeta "apps/v1" "Deployment") (mkObjectMeta "web" "default" "" None None 0 "")
    (mkDeploymentSpec (Some n) None ex_template) (mkDeploymentStatus 0 0 0 0 0).
Definition ex_hash : string := "ad4bbd04".
Definition ex_rs (hash : string) (n : Z) : ReplicaSet :=
  mkReplicaSet (mkTypeMeta "apps/v1" "ReplicaSet")
    (mkObjectMeta ("web-" +:+ hash) "default" "" (Some {[owner_annotation := "Deployment/web"]})
       (Some {[hash_label := hash]}) 0 "")
    (mkReplicaSetSpec (Some n) None ex_template) (mkReplicaSetStatus n 0 n n).

(** Two replicas of an older template; a finished rollout. *)
Definition ex_before : ControllerStore memdb :=
  mkControllerStore ∅ {["default/web-abc" := ex_rs "abc" 2]} None.
Definition ex_after (n : Z) : ControllerStore memdb :=
  mkControllerStore ∅ (<["default/web-ad4bbd04" := ex_rs ex_hash n]>
    {["default/web-abc" := ex_rs "abc" 0]}) None.

Lemma ex_hash_eq n : hashTemplateSpec (depTemplate (depSpec (ex_web n))) = ex_hash.
Proof. vm_compute. reflexivity. Qed.

Lemma ex_before_wf n : dep_wf ex_before (ex_web n) ex_hash /\ sized ex_before.
Proof.
  split; [split; try done|]; simpl.
  - intros k rs. rewrite lookup_singleton_Some. by intros [<- <-].
  - intros k rs. rewrite lookup_singleton_Some. by intros [<- <-].
  - intros k rs. rewrite lookup_singleton_Some. intros [<- <-] _. split; [|done].
    intros _. by exists "abc".
  - intros k rs. simpl. rewrite lookup_singleton_Some. intros [<- <-].
    split; [simpl; eauto|]. unfold replicas, ready; simpl. lia.
Qed.

Lemma ex_after_wf n m :
  (0 <= m < 2 ^ 31)%Z -> dep_wf (ex_after m) (ex_web n) ex_hash /\ sized (ex_after m).
Proof.
  intros Hm.
  assert (Hinv : forall k rs, replicaSets (ex_after m) !! k = Some rs ->
    k = "default/web-ad4bbd04" /\ rs = ex_rs ex_hash m \/
    k = "default/web-abc" /\ rs = ex_rs "abc" 0).
  { intros k rs. simpl. rewrite lookup_insert_Some, lookup_singleton_Some. naive_solver. }
  split; [split; try done|].
  - intros k rs [[-> ->]|[-> ->]]%Hinv; done.
  - intros k rs [[-> ->]|[-> ->]]%Hinv; done.
  - intros k rs [[-> ->]|[-> ->]]%Hinv _; (split; [|done]); intros _;
      [by exists ex_hash | by exists "abc"].
  - intros k rs [[-> ->]|[-> ->]]%Hinv; (split; [simpl; eauto|]);
      unfold replicas, ready; simpl; lia.
Qed.

Lemma Reconcile_rolling_update_witness :
  old_total in_order (Reconcile in_order in_reverse 7 ex_before (ex_web 2)) (ex_web 2) ex_hash = 2%Z.
Proof.
  pose proof (Reconcile_rolling_update in_order in_reverse in_order 7 ex_before (ex_web 2)) as E.
  cbv zeta in E. rewrite ex_hash_eq in E. destruct E as (_ & E & _); [apply (ex_before_wf 2)|apply (ex_before_wf 2)|by split|].
  rewrite E. vm_compute. reflexivity.
Defined.

Lemma rollout_converges_witness :
  exists rs, new_rs (replicaSets (rollout (fun _ => in_order) (fun _ => in_reverse) Z.of_nat
      (ex_web 2) 3 ex_before)) (ex_web 2) ex_hash = Some rs /\ replicas rs = 2%Z.
Proof.
  pose proof (rollout_converges (fun _ => in_order) (fun _ => in_reverse) Z.of_nat (ex_web 2) 3
    ex_before) as E.
  cbv zeta in E. rewrite ex_hash_eq in E. destruct E as (rs & E & Er & _).
  - by split.
  - apply (ex_before_wf 2).
  - apply (ex_before_wf 2).
  - intros rs. unfold new_rs. by vm_compute.
  - done.
  - exists rs. auto.
Defined.

Lemma rollout_never_scales_down_witness :
  option_map replicas (new_rs (replicaSets (rollout (fun _ => in_order) (fun _ => in_order)
    Z.of_nat (ex_web 2) 50 (ex_after 3))) (ex_web 2) ex_hash) = Some 3%Z.
Proof.
  pose proof (rollout_never_scales_down (fun _ => in_order) (fun _ => in_order) Z.of_nat (ex_web 2)
    50 (ex_after 3) (ex_rs ex_hash 3)) as E.
  cbv zeta in E. rewrite ex_hash_eq in E.
  destruct (ex_after_wf 2 3 ltac:(lia)) as [Hwf Hs].
  assert (Hd : desired_ok (ex_web 2)) by by split.
  assert (Hne : old_list in_order (ex_after 3) (ex_web 2) ex_hash <> []).
  { intros Eo. apply (f_equal length) in Eo. vm_compute in Eo. discriminate Eo. }
  assert (Hn : new_rs (replicaSets (ex_after 3)) (ex_web 2) ex_hash = Some (ex_rs ex_hash 3))
    by reflexivity.
  assert (Hle : (desired_replicas (ex_web 2) <= replicas (ex_rs ex_hash 3))%Z) by by vm_compute.
  rewrite (E Hwf Hs Hd Hne Hn Hle). reflexivity.
Defined.

Lemma Reconcile_status_witness :
  option_map depStatus (LoadDeployment (Reconcile in_order in_order 7 (ex_after 3) (ex_web 2))
    (Namespace (depMeta (ex_web 2))) (Name (depMeta (ex_web 2)))) = Some (mkDeploymentStatus 3 3 3 3 0).
Proof.
  pose proof (Reconcile_status in_order in_order 7 (ex_after 3) (ex_web 2)) as E.
  cbv zeta in E. rewrite ex_hash_eq in E. destruct E as (st & E & E1 & E2 & E3 & E4 & E5); [by apply ex_after_wf|].
  rewrite E. clear E. destruct st as [r u rd av un]. simpl in E1, E2, E3, E4, E5 |- *.
  vm_compute in E1. vm_compute in E2. subst rd. vm_compute in E5. vm_compute in E4.
  by simplify_eq.
Defined.

Lemma Reconcile_frame_witness :
  replicaSets (Reconcile in_order in_order 7 (ex_after 3) (ex_web 2)) !! "default/other" = None.
Proof.
  pose proof (Reconcile_frame in_order in_order 7 (ex_after 3) (ex_web 2) "default/other") as E.
  cbv zeta in E. rewrite ex_hash_eq in E. destruct E as [_ E]; [by apply ex_after_wf|]. by apply E.
Defined.
