(* ===== verification/ReplicaSetCtl.v ===== *)
(** * The replica set controller (src/controller/replicaset.go)

    [Reconcile] compares the pods a replica set owns with the number it should
    have and launches or deletes the difference through the [PodManager]
    interface, which the API server implements.  Names and identifiers come from
    random bytes, which are arguments. *)

From S2P Require Import Prelude Types GoStrings Store Stores Deployment.

(** ** The interface to the pods *)

Class PodManager (W : Type) := {
  LaunchPod : W -> Pod -> W * option string;
  DeletePod : W -> string -> string -> W * option string;
  ListPods : shuffle Pod -> W -> string -> list Pod;
}.

(** ** Names *)

Definition hex_byte (b : Byte.byte) : string :=
  let z := Z.of_N (Byte.to_N b) in
  String (hex_digit (z / 16)) (String (hex_digit (z mod 16)) "").

(** [hex.EncodeToString] *)
Fixpoint EncodeToString (b : bytes) : string :=
  match b with [] => "" | x :: b => hex_byte x +:+ EncodeToString b end.

Fixpoint str_take (n : nat) (s : string) : string :=
  match n, s with
  | S n, String c s => String c (str_take n s)
  | _, _ => ""
  end.

(** [rand.Read] of [n] bytes, or its failure, is the argument. *)
Definition randString (n : nat) (read : option bytes) : string :=
  match read with
  | None => "abcde"
  | Some b => str_take n (EncodeToString b)
  end.

(** What one launch draws from outside: random bytes, a UUID and the time. *)
Record draw := mkDraw { dr_rand : option bytes; dr_uuid : string; dr_now : Time }.

(** ** The pods of a replica set *)

Definition rs_owner (rs : ReplicaSet) : string := "ReplicaSet/" +:+ Name (rsMeta rs).

Definition owns_pod (rs : ReplicaSet) (pod : Pod) : bool :=
  annotated (Annotations (podMeta pod)) owner_annotation (rs_owner rs).

Definition pod_active (pod : Pod) : bool :=
  negb (String.eqb (Phase (podStatus pod)) PodSucceeded) &&
  negb (String.eqb (Phase (podStatus pod)) PodFailed).

Definition pod_ready (pod : Pod) : bool :=
  match ContainerStatuses (podStatus pod) with cs :: _ => csReady cs | [] => false end.

(** The loop over the listed pods: the active ones and how many are ready. *)
Definition observe (rs : ReplicaSet) (pods : list Pod) : list Pod * Z :=
  foldl (fun '(activePods, readyCount) pod =>
    if owns_pod rs pod then
      if pod_active pod then
        (activePods ++ [pod], if pod_ready pod then i32 (readyCount + 1) else readyCount)
      else (activePods, readyCount)
    else (activePods, readyCount)) ([], 0%Z) pods.

(** The pod a replica set launches. *)
Definition make_pod (rs : ReplicaSet) (d : draw) : Pod :=
  let tmpl := rsTemplate (rsSpec rs) in
  let labels := go_copy_into ∅ (Labels (tmplMeta tmpl)) in
  let annotations := go_copy_into ∅ (Annotations (tmplMeta tmpl)) in
  mkPod (mkTypeMeta "v1" "Pod")
    (mkObjectMeta (Name (rsMeta rs) +:+ "-" +:+ randString 5 (dr_rand d))
       (Namespace (rsMeta rs)) (dr_uuid d)
       (Some (go_set annotations owner_annotation (rs_owner rs))) (Some labels) (dr_now d) "")
    (tmplSpec tmpl) emptyPodStatus.

Section Controller.
Context {T : Type} `{Bolt T} {W : Type} `{PodManager W}.
Context `{Codec Deployment, Codec ReplicaSet}.

(** The scale-up loop, one launch per draw; it stops at the first failure. *)
Fixpoint launch_pods (w : W) (rs : ReplicaSet) (draws : list draw) : W * option string :=
  match draws with
  | [] => (w, None)
  | d :: draws =>
      match LaunchPod w (make_pod rs d) with
      | (w, Some err) =>
          (w, Some ("failed to launch pod " +:+ Name (podMeta (make_pod rs d)) +:+ ": " +:+ err))
      | (w, None) => launch_pods w rs draws
      end
  end.

(** The scale-down loop: iteration [i] of [n] deletes
    [activePods[len(activePods)-1-i]], and panics below index 0. *)
Fixpoint delete_pods (w : W) (activePods : list Pod) (i n : nat) : W * res string unit :=
  match n with
  | O => (w, Ok tt)
  | S n =>
      let idx := (Z.of_nat (length activePods) - 1 - Z.of_nat i)%Z in
      match (if (idx <? 0)%Z then None else activePods !! Z.to_nat idx) with
      | None => (w, Panic "index out of range")
      | Some podToDelete =>
          match DeletePod w (Namespace (podMeta podToDelete)) (Name (podMeta podToDelete)) with
          | (w, Some err) =>
              (w, Err ("failed to delete pod " +:+ Name (podMeta podToDelete) +:+ ": " +:+ err))
          | (w, None) => delete_pods w activePods (S i) n
          end
      end
  end.

Definition rs_desired (rs : ReplicaSet) : Z := deref_or 1 (rsReplicas (rsSpec rs)).

Definition with_counts (rs : ReplicaSet) (currentCount readyCount : Z) : ReplicaSet :=
  set_rsStatus rs (mkReplicaSetStatus currentCount (rssFullyLabeledReplicas (rsStatus rs))
    readyCount readyCount).

(** [ReplicaSetController.Reconcile].  [draws i] is what the [i]-th launch draws;
    [o1] and [o2] order the two listings. *)
Definition RSReconcile (o1 o2 : shuffle Pod) (draws : nat -> draw) (w : W)
    (s : ControllerStore T) (rs : ReplicaSet) : (W * ControllerStore T) * res string unit :=
  let '(activePods, readyCount) := observe rs (ListPods o1 w (Namespace (rsMeta rs))) in
  let desired := rs_desired rs in
  let currentCount := i32 (Z.of_nat (length activePods)) in
  if (currentCount <? desired)%Z then
    let diff := i32 (desired - currentCount) in
    match launch_pods w rs (draws <$> seq 0 (Z.to_nat diff)) with
    | (w, Some err) => ((w, s), Err err)
    | (w, None) =>
        let '(activePods, readyCount) := observe rs (ListPods o2 w (Namespace (rsMeta rs))) in
        let currentCount := i32 (Z.of_nat (length activePods)) in
        ((w, StoreReplicaSet s (with_counts rs currentCount readyCount)), Ok tt)
    end
  else if (desired <? currentCount)%Z then
    let diff := i32 (currentCount - desired) in
    match delete_pods w activePods 0 (Z.to_nat diff) with
    | (w, Ok _) => ((w, StoreReplicaSet s (with_counts rs desired readyCount)), Ok tt)
    | (w, Err e) => ((w, s), Err e)
    | (w, Panic p) => ((w, s), Panic p)
    end
  else ((w, StoreReplicaSet s (with_counts rs currentCount readyCount)), Ok tt).

(** [ReconcileAll]: an error of one replica set is logged, a panic ends the daemon. *)
Fixpoint RSReconcileList (o1 o2 : nat -> shuffle Pod) (draws : nat -> nat -> draw) (i : nat)
    (w : W) (s : ControllerStore T) (rss : list ReplicaSet)
    : (W * ControllerStore T) * res string unit :=
  match rss with
  | [] => ((w, s), Ok tt)
  | rs :: rss =>
      match RSReconcile (o1 i) (o2 i) (draws i) w s rs with
      | (ws, Panic p) => (ws, Panic p)
      | ((w, s), _) => RSReconcileList o1 o2 draws (S i) w s rss
      end
  end.

Definition RSReconcileAll (o : shuffle ReplicaSet) (o1 o2 : nat -> shuffle Pod)
    (draws : nat -> nat -> draw) (w : W) (s : ControllerStore T)
    : (W * ControllerStore T) * res string unit :=
  RSReconcileList o1 o2 draws 0 w s (ListReplicaSets o s "").
End Controller.

(** *** When a pass panics *)

Section Panics.
Context {T : Type} `{Bolt T} {W : Type} `{PodManager W}.
Context `{Codec Deployment, Codec ReplicaSet}.

Lemma delete_pods_in_range (w : W) (l : list Pod) i n w' p :
  i + n <= length l -> delete_pods w l i n <> (w', Panic p).
Proof.
  revert w i. induction n as [|n IH]; intros w i Hn; [done|]. cbn [delete_pods].
  destruct (Z.ltb_spec (Z.of_nat (length l) - 1 - Z.of_nat i) 0); [lia|].
  destruct (lookup_lt_is_Some_2 l (Z.to_nat (Z.of_nat (length l) - 1 - Z.of_nat i))) as [q ->]; [lia|].
  destruct (DeletePod w _ _) as [w1 [e|]]; [done|]. apply IH. lia.
Qed.

(** Wrapping a length can only make it smaller. *)
Lemma i32_of_nat_le n : (i32 (Z.of_nat n) <= Z.of_nat n)%Z.
Proof.
  unfold i32, wrap_signed. change (2 ^ (32 - 1))%Z with 2147483648%Z.
  pose proof (Z.mod_le (Z.of_nat n + 2147483648) (2 ^ 32) ltac:(lia) ltac:(lia)). lia.
Qed.

(** A reconciliation panics only for a replica set that asks for less than no pod. *)
Lemma RSReconcile_panics o1 o2 draws (w : W) (s : ControllerStore T) rs ws p :
  RSReconcile o1 o2 draws w s rs = (ws, Panic p) -> (rs_desired rs < 0)%Z.
Proof.
  unfold RSReconcile. destruct (observe rs _) as [l rc].
  pose proof (i32_of_nat_le (length l)) as Hle. pose proof (i32_range (Z.of_nat (length l))) as Hr.
  destruct (Z.ltb_spec (i32 (Z.of_nat (length l))) (rs_desired rs)).
  { destruct (launch_pods _ _ _) as [w' [e|]]; [done|]. by destruct (observe _ _). }
  destruct (Z.ltb_spec (rs_desired rs) (i32 (Z.of_nat (length l)))); [|done].
  destruct (Z.ltb_spec (rs_desired rs) 0) as [|Hd]; [done|].
  destruct (delete_pods _ _ _ _) as [w' [u|e|q]] eqn:Ed; [done..|]. intros _. exfalso.
  eapply delete_pods_in_range; [|exact Ed].
  rewrite i32_id by range_lia. lia.
Qed.

Lemma RSReconcileAll_panics o o1 o2 draws (w : W) (s : ControllerStore T) ws p :
  RSReconcileAll o o1 o2 draws w s = (ws, Panic p) ->
  exists rs, rs ∈ ListReplicaSets o s "" /\ (rs_desired rs < 0)%Z.
Proof.
  unfold RSReconcileAll. generalize (ListReplicaSets o s ""), 0. intros rss.
  revert w s. induction rss as [|rs rss IH]; intros w s i E; [done|]. cbn [RSReconcileList] in E.
  destruct (RSReconcile _ _ _ _ _ _) as [[w1 s1] r] eqn:ER.
  destruct r as [u|e|q]; [| |exists rs; split; [by left|by eapply RSReconcile_panics]];
    apply IH in E as (rs' & Hin & Hneg); exists rs'; (split; [by right|done]).
Qed.
End Panics.

(** ** What the controller may rely on *)

Definition pod_key (p : Pod) : string := key_of (podMeta p).

(** Two pods that share neither a key nor a bare name, which is what the engines know
    a pod by. *)
Definition apart (p q : Pod) : Prop :=
  pod_key p <> pod_key q /\ Name (podMeta p) <> Name (podMeta q).

(** The promise of the pods to the controller, for the states that are well formed
    ([pm_wf]) and for launches of a pod that is new there ([pm_fresh]): a launch
    that succeeds lists one more pod, active, the deletion of a listed pod lists one
    less, and neither changes any other. *)
Class PodManagerLaws (W : Type) `{PodManager W} := {
  pm_wf : W -> Prop;
  pm_fresh : W -> Pod -> Prop;
  ListPods_order o w ns : ListPods o w ns ≡ₚ ListPods in_order w ns;
  ListPods_NoDup w ns : pm_wf w -> NoDup (pod_key <$> ListPods in_order w ns);
  LaunchPod_listed w p w' :
    pm_wf w -> pm_fresh w p -> LaunchPod w p = (w', None) ->
    pm_wf w' /\ (forall q, pm_fresh w q -> apart p q -> pm_fresh w' q) /\
    exists st, pod_active (set_podStatus p st) = true /\
      forall ns, ListPods in_order w' ns ≡ₚ
        List.filter (in_namespace podMeta ns) [set_podStatus p st] ++ ListPods in_order w ns;
  DeletePod_listed w ns name w' p ns0 :
    pm_wf w -> p ∈ ListPods in_order w ns0 -> pod_key p = key ns name ->
    Name (podMeta p) = name -> DeletePod w ns name = (w', None) ->
    pm_wf w' /\ forall ns', ListPods in_order w' ns' ≡ₚ
      List.filter (fun p => negb (String.eqb (pod_key p) (key ns name))) (ListPods in_order w ns');
  DeletePod_ok w ns name : pm_wf w -> (DeletePod w ns name).2 = None;
}.

Definition counts (rs : ReplicaSet) (p : Pod) : bool := owns_pod rs p && pod_active p.

Section Laws.
Context {T : Type} `{Bolt T} {W : Type} `{PodManagerLaws W}.
Context `{Codec Deployment, Codec ReplicaSet}.

Lemma observe_filter rs l :
  observe rs l = (List.filter (counts rs) l,
    i32 (Z.of_nat (length (List.filter pod_ready (List.filter (counts rs) l))))).
Proof.
  unfold observe. induction l as [|p l IH] using rev_ind; [done|].
  rewrite foldl_app, IH, !List.filter_app. cbn [foldl List.filter]. unfold counts.
  destruct (owns_pod rs p); cbn [andb List.filter]; [|by rewrite !app_nil_r].
  destruct (pod_active p); cbn [List.filter]; [|by rewrite !app_nil_r].
  f_equal. destruct (pod_ready p).
  - rewrite length_app, i32_add. simpl. f_equal. lia.
  - by rewrite app_nil_r.
Qed.

(** The active pods of the replica set. *)
Definition active_pods (w : W) (rs : ReplicaSet) : list Pod :=
  List.filter (counts rs) (ListPods in_order w (Namespace (rsMeta rs))).

Lemma owns_make_pod rs d st : owns_pod rs (set_podStatus (make_pod rs d) st) = true.
Proof.
  unfold owns_pod, annotated; simpl. unfold go_set. rewrite lookup_insert_eq.
  apply String.eqb_refl.
Qed.

(** The pods drawn for a scale-up are new and apart from one another. *)
Definition draws_fresh (w : W) (rs : ReplicaSet) (ds : list draw) : Prop :=
  Forall (fun d => pm_fresh w (make_pod rs d)) ds /\
  ForallOrdPairs (fun d d' => apart (make_pod rs d) (make_pod rs d')) ds.

(** The launches stop at the first one that fails: those before it have succeeded. *)
Definition stopped_launching w rs (ds : list draw) w' (err : string) : Prop :=
  exists ds1 d ds2 w0 e, ds = ds1 ++ d :: ds2 /\
    launch_pods w rs ds1 = (w0, None) /\ pm_wf w0 /\
    length (active_pods w0 rs) = length ds1 + length (active_pods w rs) /\
    LaunchPod w0 (make_pod rs d) = (w', Some e) /\
    err = "failed to launch pod " +:+ Name (podMeta (make_pod rs d)) +:+ ": " +:+ e.

Lemma launch_pods_spec w rs ds :
  pm_wf w -> draws_fresh w rs ds ->
  match launch_pods w rs ds with
  | (w', None) => pm_wf w' /\ length (active_pods w' rs) = length ds + length (active_pods w rs)
  | (w', Some err) => stopped_launching w rs ds w' err
  end.
Proof.
  revert w. induction ds as [|d ds IH]; intros w Hwf [Hf Hnd]; [done|].
  cbn [launch_pods]. apply Forall_cons in Hf as [Hd Hf].
  inversion Hnd as [|? ? Hap Hnd']; subst.
  destruct (LaunchPod w (make_pod rs d)) as [w1 [err|]] eqn:El.
  { by exists [], d, ds, w, err. }
  destruct (LaunchPod_listed _ _ _ Hwf Hd El) as (Hwf1 & Hfr & st & Hact & Hlist).
  specialize (IH w1 Hwf1). destruct (launch_pods w1 rs ds) as [w' r].
  assert (Hf1 : draws_fresh w1 rs ds).
  { split; [|done]. rewrite Forall_forall in Hf, Hap. apply Forall_forall. intros d' Hd'.
    apply Hfr; auto. }
  assert (Hone : length (active_pods w1 rs) = S (length (active_pods w rs))).
  { unfold active_pods at 1. rewrite (Hlist (Namespace (rsMeta rs))).
    unfold in_namespace; simpl. rewrite String.eqb_refl, orb_true_r. simpl.
    unfold counts at 1. by rewrite owns_make_pod, Hact. }
  specialize (IH Hf1). destruct r as [err|].
  - destruct IH as (ds1 & d0 & ds2 & w0 & e & -> & E1 & Hw0 & Hlen & E2 & ->).
    exists (d :: ds1), d0, ds2, w0, e. split_and!; [done| |done| |done|done].
    + cbn [launch_pods]. by rewrite El.
    + rewrite Hlen, Hone. simpl. lia.
  - destruct IH as [Hwf' IH]. split; [done|]. rewrite IH, Hone. simpl. lia.
Qed.

Lemma delete_pods_spec w rs (l : list Pod) i n :
  pm_wf w -> NoDup (pod_key <$> l) -> i + n <= length l ->
  active_pods w rs ≡ₚ take (length l - i) l ->
  exists w', delete_pods w l i n = (w', Ok tt) /\ pm_wf w' /\
    active_pods w' rs ≡ₚ take (length l - i - n) l.
Proof.
  revert w i. induction n as [|n IH]; intros w i Hwf Hnd Hn Ha.
  { exists w. split_and!; [done..|]. by rewrite Nat.sub_0_r. }
  cbn [delete_pods]. destruct (Z.ltb_spec (Z.of_nat (length l) - 1 - Z.of_nat i) 0); [lia|].
  replace (Z.to_nat (Z.of_nat (length l) - 1 - Z.of_nat i)) with (length l - S i) by lia.
  destruct (lookup_lt_is_Some_2 l (length l - S i)) as [p Hp]; [lia|]. rewrite Hp.
  destruct (DeletePod w _ _) as [w1 r] eqn:Ed.
  pose proof (DeletePod_ok w (Namespace (podMeta p)) (Name (podMeta p)) Hwf) as Hok.
  rewrite Ed in Hok. simpl in Hok. subst r.
  assert (Hin : p ∈ ListPods in_order w (Namespace (rsMeta rs))).
  { assert (Hp' : p ∈ active_pods w rs); [|by apply elem_of_bool_filter in Hp' as [? _]].
    rewrite Ha. apply (list_elem_of_lookup_2 _ (length l - S i)). rewrite lookup_take_lt; [done|lia]. }
  destruct (DeletePod_listed _ _ _ _ _ _ Hwf Hin eq_refl eq_refl Ed) as [Hwf1 Hdl].
  destruct (IH w1 (S i)) as (w' & E & Hwf' & Ha'); [done|done|lia| |].
  - unfold active_pods in *. rewrite (Hdl (Namespace (rsMeta rs))).
    rewrite (List.filter_ext_in _ (fun p' => counts rs p')) by done.
    assert (Hc : forall L, List.filter (counts rs) (List.filter (fun p' =>
         negb (String.eqb (pod_key p') (key (Namespace (podMeta p)) (Name (podMeta p))))) L)
       = List.filter (fun p' => negb (String.eqb (pod_key p') (pod_key p)))
           (List.filter (counts rs) L)).
    { intros L. induction L as [|x L IHL]; [done|]. simpl.
      change (key (Namespace (podMeta p)) (Name (podMeta p))) with (pod_key p).
      destruct (String.eqb (pod_key x) (pod_key p)) eqn:Ex, (counts rs x) eqn:Ec; simpl;
        rewrite ?Ex, ?Ec; simpl; by rewrite <- IHL. }
    rewrite Hc, Ha. replace (length l - i) with (S (length l - S i)) by lia.
    rewrite (take_S_r _ _ _ Hp), List.filter_app. simpl. rewrite String.eqb_refl. simpl.
    rewrite app_nil_r. apply Permutation_refl', forallb_filter_id, forallb_forall.
    intros x Hx%list_elem_of_In. apply negb_true_iff, String.eqb_neq. intros Ek.
    apply list_elem_of_lookup in Hx as [j Hj]. apply lookup_take_Some in Hj as [Hj Hlt].
    assert (j = length l - S i); [|lia].
    eapply (NoDup_lookup (pod_key <$> l)); [done|..]; rewrite list_lookup_fmap.
    + by rewrite Hj.
    + rewrite Hp. simpl. by rewrite Ek.
  - exists w'. split_and!; [done..|]. rewrite Ha'. by replace (length l - S i - n) with (length l - i - S n) by lia.
Qed.

Lemma active_shuffle o w rs :
  List.filter (counts rs) (ListPods o w (Namespace (rsMeta rs))) ≡ₚ active_pods w rs.
Proof. unfold active_pods. by rewrite (ListPods_order o). Qed.

(** How many pods a reconciliation launches. *)
Definition missing (w : W) (rs : ReplicaSet) : nat :=
  Z.to_nat (rs_desired rs) - length (active_pods w rs).

(** What one reconciliation does, on each of its outcomes. *)
Lemma RSReconcile_outcome o1 o2 draws w (s : ControllerStore T) rs :
  pm_wf w -> (0 <= rs_desired rs < 2 ^ 31)%Z ->
  (Z.of_nat (length (active_pods w rs)) < 2 ^ 31)%Z ->
  draws_fresh w rs (draws <$> seq 0 (missing w rs)) ->
  match RSReconcile o1 o2 draws w s rs with
  | ((w', s'), Ok _) =>
      pm_wf w' /\ Z.of_nat (length (active_pods w' rs)) = rs_desired rs /\
      exists rs', s' = StoreReplicaSet s rs' /\ rsMeta rs' = rsMeta rs /\ rsSpec rs' = rsSpec rs /\
        rssReplicas (rsStatus rs') = rs_desired rs
  | ((w', s'), Err err) => s' = s /\ stopped_launching w rs (draws <$> seq 0 (missing w rs)) w' err
  | (_, Panic _) => False
  end.
Proof.
  intros Hwf Hd Hc Hf. unfold RSReconcile. rewrite observe_filter.
  pose proof (active_shuffle o1 w rs) as Hp.
  set (l := List.filter (counts rs) (ListPods o1 w (Namespace (rsMeta rs)))) in *.
  pose proof (Permutation_length Hp) as Hlen.
  rewrite (i32_id (Z.of_nat (length l))) by range_lia.
  destruct (Z.ltb_spec (Z.of_nat (length l)) (rs_desired rs)) as [Hlt|Hge].
  - rewrite i32_id by range_lia.
    replace (Z.to_nat (rs_desired rs - Z.of_nat (length l))) with (missing w rs)
      by (unfold missing; lia).
    pose proof (launch_pods_spec w rs (draws <$> seq 0 (missing w rs)) Hwf Hf) as Hl.
    destruct (launch_pods w rs _) as [w' [err|]].
    + done.
    + destruct Hl as [Hwf' Hl]. rewrite observe_filter. rewrite length_fmap, length_seq in Hl.
      unfold missing in Hl. pose proof (Permutation_length (active_shuffle o2 w' rs)) as E2.
      split_and!; [done|lia|]. eexists. split_and!; [reflexivity|done|done|]. simpl.
      rewrite E2, i32_id by range_lia. lia.
  - destruct (Z.ltb_spec (rs_desired rs) (Z.of_nat (length l))) as [Hgt|Hle].
    + rewrite i32_id by range_lia.
      destruct (delete_pods_spec w rs l 0 (Z.to_nat (Z.of_nat (length l) - rs_desired rs)))
        as (w' & E & Hwf' & Ha); [done| |lia| |].
      * apply NoDup_fmap_bool_filter. rewrite (ListPods_order o1). by apply ListPods_NoDup.
      * rewrite Nat.sub_0_r, firstn_all. done.
      * rewrite E. apply Permutation_length in Ha. rewrite length_take in Ha.
        split_and!; [done|lia|]. by eexists.
    + split_and!; [done|lia|]. eexists. split_and!; [reflexivity|done|done|]. simpl. lia.
Qed.

(** C9. One reconciliation brings a replica set to its count: whatever the order of
    the listings, it either ends with exactly the desired number of active pods,
    recorded in the stored status, or reports the failure of a launch and stores
    nothing; it never panics when the desired number is not negative. *)
Theorem RSReconcile_reaches_desired o1 o2 draws w (s : ControllerStore T) rs :
  pm_wf w -> (0 <= rs_desired rs < 2 ^ 31)%Z ->
  (Z.of_nat (length (active_pods w rs)) < 2 ^ 31)%Z ->
  draws_fresh w rs (draws <$> seq 0 (missing w rs)) ->
  match RSReconcile o1 o2 draws w s rs with
  | ((w', s'), Ok _) =>
      pm_wf w' /\ Z.of_nat (length (active_pods w' rs)) = rs_desired rs /\
      exists rs', s' = StoreReplicaSet s rs' /\ rsMeta rs' = rsMeta rs /\ rsSpec rs' = rsSpec rs /\
        rssReplicas (rsStatus rs') = rs_desired rs
  | ((_, s'), Err _) => s' = s /\ exists w0 d, (LaunchPod w0 (make_pod rs d)).2 <> None
  | (_, Panic _) => False
  end.
Proof.
  intros Hwf Hd Hc Hf. pose proof (RSReconcile_outcome o1 o2 draws w s rs Hwf Hd Hc Hf) as HR.
  destruct (RSReconcile _ _ _ _ _ _) as [[w' s'] [u|e|p]]; [exact HR| |done].
  destruct HR as [-> (ds1 & d & ds2 & w0 & e0 & _ & _ & _ & _ & El & _)]. split; [done|].
  exists w0, d. by rewrite El.
Qed.

Lemma delete_pods_more w l i n w' m :
  delete_pods w l i n = (w', Ok tt) -> delete_pods w l i (n + m) = delete_pods w' l (i + n) m.
Proof.
  revert w i. induction n as [|n IH]; intros w i E.
  { injection E as <-. by rewrite Nat.add_0_r. }
  cbn [delete_pods Nat.add] in *.
  destruct (if _ : bool then _ else _) as [p|]; [|done].
  destruct (DeletePod _ _ _) as [w1 [err|]]; [done|]. rewrite (IH _ _ E). f_equal. lia.
Qed.

(** A negative replica count, which nothing rejects, makes the reconciliation
    delete the pods of the replica set and then index its list below zero: the
    panic ends the daemon. *)
Theorem RSReconcile_negative_panics o1 o2 draws w (s : ControllerStore T) rs :
  pm_wf w -> (Z.of_nat (length (active_pods w rs)) - 2 ^ 31 < rs_desired rs < 0)%Z ->
  (RSReconcile o1 o2 draws w s rs).2 = Panic "index out of range" /\
  (RSReconcile o1 o2 draws w s rs).1.2 = s.
Proof.
  intros Hwf Hd. unfold RSReconcile. rewrite observe_filter.
  pose proof (Permutation_length (active_shuffle o1 w rs)) as Hlen.
  set (l := List.filter (counts rs) (ListPods o1 w (Namespace (rsMeta rs)))) in *.
  rewrite (i32_id (Z.of_nat (length l))) by range_lia.
  destruct (Z.ltb_spec (Z.of_nat (length l)) (rs_desired rs)); [lia|].
  destruct (Z.ltb_spec (rs_desired rs) (Z.of_nat (length l))); [|lia].
  rewrite i32_id by range_lia.
  destruct (delete_pods_spec w rs l 0 (length l)) as (w' & E & _ & _); [done| |lia| |].
  - apply NoDup_fmap_bool_filter. rewrite (ListPods_order o1). by apply ListPods_NoDup.
  - rewrite Nat.sub_0_r, firstn_all. symmetry. apply active_shuffle.
  - replace (Z.to_nat (Z.of_nat (length l) - rs_desired rs)) with
      (length l + S (Z.to_nat (- rs_desired rs) - 1)) by lia.
    rewrite (delete_pods_more _ _ _ _ _ _ E). cbn [delete_pods].
    destruct (Z.ltb_spec (Z.of_nat (length l) - 1 - Z.of_nat (0 + length l)) 0); [done|lia].
Qed.

(** At its count a replica set is left alone: no pod is launched or deleted. *)
Theorem RSReconcile_idle o1 o2 draws w (s : ControllerStore T) rs :
  (rs_desired rs < 2 ^ 31)%Z -> rs_desired rs = Z.of_nat (length (active_pods w rs)) ->
  RSReconcile o1 o2 draws w s rs =
    ((w, StoreReplicaSet s (with_counts rs (rs_desired rs)
       (i32 (Z.of_nat (length (List.filter pod_ready (active_pods w rs))))))), Ok tt).
Proof.
  intros Hd E. unfold RSReconcile. rewrite observe_filter.
  pose proof (active_shuffle o1 w rs) as Hp.
  set (l := List.filter (counts rs) (ListPods o1 w (Namespace (rsMeta rs)))) in *.
  pose proof (Permutation_length Hp) as Hlen.
  assert (Hr : length (List.filter pod_ready l) = length (List.filter pod_ready (active_pods w rs)))
    by (by rewrite Hp).
  rewrite (i32_id (Z.of_nat (length l))) by range_lia.
  by rewrite Hlen, Hr, <- E, Z.ltb_irrefl.
Qed.
End Laws.

(** ** Pods in memory, for the witnesses *)

Definition running (p : Pod) : PodStatus :=
  mkPodStatus PodRunning "" "" 0
    ((fun c => mkContainerStatus (cName c) true 0 PodRunning None) <$> take 1 (Containers (podSpec p)))
    [] "" 0.


(** The pods listed are those of the map that sit under their own key. *)
#[export] Instance mem_PodManager : PodManager (gmap string Pod) := {
  LaunchPod w p :=
    match w !! pod_key p with
    | Some _ => (w, Some "already managed")
    | None => (<[pod_key p := set_podStatus p (running p)]> w, None)
    end;
  DeletePod w ns name := (delete (key ns name) w, None);
  ListPods o w ns := o (kv_list podMeta in_order (filter (fun kp => kp.1 = pod_key kp.2) w) ns);
}.

Definition keyed_part (w : gmap string Pod) : gmap string Pod :=
  filter (fun kp : string * Pod => kp.1 = pod_key kp.2) w.

Lemma elem_of_mem_list w ns p :
  p ∈ ListPods (W := gmap string Pod) in_order w ns <->
    in_namespace podMeta ns p = true /\ w !! pod_key p = Some p.
Proof.
  simpl. rewrite elem_of_kv_list. split.
  - intros [Hn [k Hk]]. apply map_lookup_filter_Some in Hk as [Hk Ek]. simpl in Ek. by subst.
  - intros [Hn Hk]. split; [done|]. exists (pod_key p). by apply map_lookup_filter_Some.
Qed.

Lemma mem_list_NoDup w ns : NoDup (pod_key <$> ListPods (W := gmap string Pod) in_order w ns).
Proof.
  simpl. unfold kv_list. apply NoDup_fmap_bool_filter. unfold map_values; simpl.
  rewrite <- list_fmap_compose.
  rewrite (list_fmap_ext _ fst); [apply NoDup_fst_map_to_list|].
  intros i [k p] Hi; simpl. apply list_elem_of_lookup_2, elem_of_map_to_list in Hi.
  apply map_lookup_filter_Some in Hi as [_ E]. by simpl in E.
Qed.

#[export] Instance mem_laws : PodManagerLaws (gmap string Pod).
Proof.
  refine (Build_PodManagerLaws _ _ (fun _ => True) (fun w p => w !! pod_key p = None) _ _ _ _ _).
  - intros o w ns. apply shuffle_perm.
  - intros w ns _. apply mem_list_NoDup.
  - intros w p w' _ Ew El. simpl in El. rewrite Ew in El. injection El as <-.
    split_and!; [done| |].
    { intros q Hq [Hk _]. by rewrite lookup_insert_ne. }
    exists (running p). split; [done|]. intros ns.
    apply NoDup_Permutation.
    + eapply (NoDup_fmap_1 pod_key), mem_list_NoDup.
    + apply NoDup_app. split_and!.
      * apply NoDup_bool_filter. apply NoDup_singleton.
      * intros x Hx Hin. apply elem_of_bool_filter in Hx as [Hx _].
        apply list_elem_of_singleton in Hx as ->. apply elem_of_mem_list in Hin as [_ Hin].
        change (pod_key (set_podStatus p (running p))) with (pod_key p) in Hin. congruence.
      * eapply (NoDup_fmap_1 pod_key), mem_list_NoDup.
    + intros x. rewrite elem_of_app, !elem_of_mem_list, elem_of_bool_filter, list_elem_of_singleton.
      rewrite lookup_insert_Some. split.
      * intros [Hn [[E ->]|[Hne Hx]]]; [left|right]; auto.
      * intros [[-> Hn]|[Hn Hx]]; (split; [done|]); [by left|].
        right. split; [|done]. intros E. rewrite E in Ew. congruence.
  - intros w ns name w' p ns0 _ _ _ _ El. simpl in El. simplify_eq. split; [done|]. intros ns'.
    apply NoDup_Permutation.
    + eapply (NoDup_fmap_1 pod_key), mem_list_NoDup.
    + eapply NoDup_bool_filter, (NoDup_fmap_1 pod_key), mem_list_NoDup.
    + intros x. rewrite elem_of_bool_filter, !elem_of_mem_list, lookup_delete_Some,
        negb_true_iff, String.eqb_neq. naive_solver.
  - done.
Defined.

#[local] Instance rs_codec : Codec ReplicaSet := { marshal _ := None; unmarshal _ := None }.

Definition ex_draw (i : nat) : draw :=
  let b := default Byte.x00 (Byte.of_N (N.of_nat i)) in mkDraw (Some [b; b; b; b; b]) "uid" 7.

Definition ex_pod (name : string) : Pod :=
  let p := set_podMeta (make_pod (ex_rs "abc" 1) (ex_draw 0))
    (mkObjectMeta name "default" "uid" (Some {[owner_annotation := rs_owner (ex_rs "abc" 1)]}) None 0 "")
  in set_podStatus p (running p).

Definition ex_world : gmap string Pod :=
  <["default/a" := ex_pod "a"]> {["default/b" := ex_pod "b"]}.

Lemma ex_world_wf : pm_wf ex_world.
Proof. exact I. Qed.

Lemma RSReconcile_reaches_desired_witness :
  match RSReconcile (T := memdb) in_reverse in_order ex_draw ex_world ex_before (ex_rs "abc" 4) with
  | ((w', _), Ok _) => Z.of_nat (length (active_pods w' (ex_rs "abc" 4))) = 4%Z
  | ((_, s'), Err _) => s' = ex_before
  | (_, Panic _) => False
  end.
Proof.
  assert (Hd : (0 <= rs_desired (ex_rs "abc" 4) < 2 ^ 31)%Z) by by vm_compute.
  assert (Hc : (Z.of_nat (length (active_pods ex_world (ex_rs "abc" 4))) < 2 ^ 31)%Z) by by vm_compute.
  assert (Hf : draws_fresh ex_world (ex_rs "abc" 4)
    (ex_draw <$> seq 0 (missing ex_world (ex_rs "abc" 4)))).
  { split; vm_compute; repeat constructor; discriminate. }
  pose proof (RSReconcile_reaches_desired (T := memdb) in_reverse in_order ex_draw ex_world ex_before
    (ex_rs "abc" 4) ex_world_wf Hd Hc Hf) as E. revert E.
  destruct (RSReconcile _ _ _ _ _ _) as [[w' s'] [u| |]]; intros E; [apply E|apply E|exact E].
Defined.

Lemma RSReconcile_negative_panics_witness :
  (RSReconcile (T := memdb) in_order in_order ex_draw ex_world ex_before (ex_rs "abc" (-1))).2
    = Panic "index out of range".
Proof.
  apply (RSReconcile_negative_panics (T := memdb) in_order in_order ex_draw ex_world ex_before
    (ex_rs "abc" (-1)) ex_world_wf). by vm_compute.
Defined.

Lemma RSReconcile_idle_witness :
  RSReconcile (T := memdb) in_order in_order ex_draw ex_world ex_before (ex_rs "abc" 2) =
    ((ex_world, StoreReplicaSet ex_before (with_counts (ex_rs "abc" 2) 2 0)), Ok tt).
Proof.
  rewrite (RSReconcile_idle (T := memdb) in_order in_order ex_draw ex_world ex_before
    (ex_rs "abc" 2)) by (by vm_compute).
  vm_compute. reflexivity.
Defined.
