(* ===== verification/Loops.v ===== *)
(** * The loops of the controllers (src/controller/deployment.go, src/controller/replicaset.go)

    Both controllers run the same loop: [Start] adds a goroutine to the wait group that
    selects between the end of its context, the stop channel and a ticker; [Stop]
    closes the channel and waits for the group.  A [select] with several ready cases
    picks any of them, so a tick may win although the loop should end. *)

From S2P Require Import Prelude.

(** At the [select], inside [ReconcileAll], or returned. *)
Inductive worker := WSelect | WReconciling | WReturned.

#[export] Instance worker_eq_dec : EqDecision worker.
Proof. solve_decision. Defined.

(** [stopCh] is closed or not; [wg] is the counter of the wait group. *)
Record controller := mkController {
  stop_closed : bool;
  wg : Z;
  workers : list worker;
}.

Definition NewController : controller := mkController false 0 [].

Definition Start (c : controller) : controller :=
  mkController (stop_closed c) (wg c + 1) (workers c ++ [WSelect]).

(** [Stop] up to [wg.Wait]: closing a closed channel panics. *)
Definition close_stop (c : controller) : res Empty_set controller :=
  if stop_closed c then Panic "close of closed channel"
  else Ok (mkController true (wg c) (workers c)).

(** [wg.Wait] returns. *)
Definition wait_returns (c : controller) : bool := (wg c =? 0)%Z.

Definition set_worker (c : controller) (i : nat) (w : worker) : controller :=
  mkController (stop_closed c) (wg c) (<[i := w]> (workers c)).

Inductive worker_event := Tick | Finish | Return.

(** One move of goroutine [i]; [done] tells whether the context has ended. *)
Definition worker_step (done : bool) (c : controller) (i : nat) (ev : worker_event) : option controller :=
  match ev, workers c !! i with
  | Tick, Some WSelect => Some (set_worker c i WReconciling)
  | Finish, Some WReconciling => Some (set_worker c i WSelect)
  | Return, Some WSelect =>
      if done || stop_closed c
      then Some (mkController (stop_closed c) (wg c - 1) (<[i := WReturned]> (workers c)))
      else None
  | _, _ => None
  end.

Inductive loop_step : bool * controller -> bool * controller -> Prop :=
| LoopStart d c : loop_step (d, c) (d, Start c)
| LoopStop d c c' : close_stop c = Ok c' -> loop_step (d, c) (d, c')
| LoopCancel d c : loop_step (d, c) (true, c)
| LoopWorker d c i ev c' : worker_step d c i ev = Some c' -> loop_step (d, c) (d, c').

Definition loop_reach : bool * controller -> bool * controller -> Prop := rtc loop_step.

(** ** The wait group counts the goroutines that have not returned *)

Definition live (ws : list worker) : nat := length (List.filter (fun w => negb (bool_decide (w = WReturned))) ws).

Definition loop_ok (c : controller) : Prop := wg c = Z.of_nat (live (workers c)).

Lemma live_app ws1 ws2 : live (ws1 ++ ws2) = live ws1 + live ws2.
Proof. unfold live. by rewrite List.filter_app, length_app. Qed.

Lemma live_insert ws i w w' :
  ws !! i = Some w ->
  live (<[i := w']> ws) + (if bool_decide (w = WReturned) then 0 else 1) =
    live ws + (if bool_decide (w' = WReturned) then 0 else 1).
Proof.
  intros Hi. rewrite insert_take_drop by (by eapply lookup_lt_Some).
  rewrite <- (take_drop_middle ws i w Hi) at 3. rewrite !live_app. unfold live. simpl.
  destruct w, w'; simpl; lia.
Qed.

Lemma live_zero ws : live ws = 0 <-> Forall (eq WReturned) ws.
Proof.
  unfold live. induction ws as [|w ws IH]; [by split|]. simpl. rewrite Forall_cons.
  destruct w; simpl; (split; [lia || (intros E; split; [done|by apply IH])|]);
    intros [E Hf]; try discriminate. by apply IH.
Qed.

Lemma worker_step_ok d c i ev c' : loop_ok c -> worker_step d c i ev = Some c' -> loop_ok c'.
Proof.
  unfold loop_ok, worker_step. intros Hok. destruct ev, (workers c !! i) as [[| |]|] eqn:Ei; try done.
  - intros [= <-]. simpl. pose proof (live_insert _ _ _ WReconciling Ei). simpl in *. lia.
  - intros [= <-]. simpl. pose proof (live_insert _ _ _ WSelect Ei). simpl in *. lia.
  - destruct (d || stop_closed c); [|done]. intros [= <-]. simpl.
    pose proof (live_insert _ _ _ WReturned Ei). simpl in *. lia.
Qed.

Lemma loop_step_ok s s' : loop_ok s.2 -> loop_step s s' -> loop_ok s'.2.
Proof.
  intros Hok Hs. destruct Hs as [d c|d c c' E|d c|d c i ev c' E]; simpl in *.
  - unfold loop_ok in *. simpl. rewrite live_app. simpl. unfold live at 2. simpl. lia.
  - unfold close_stop in E. destruct (stop_closed c); [done|]. by injection E as <-.
  - done.
  - by eapply worker_step_ok.
Qed.

Lemma loop_reach_ok s s' : loop_ok s.2 -> loop_reach s s' -> loop_ok s'.2.
Proof. intros Hok Hr. induction Hr as [|x y z Hs _ IH]; [done|]. by apply IH, (loop_step_ok x). Qed.

(** ** Stopping *)

(** Moves of the goroutines that were started. *)
Inductive settled_step : bool * controller -> bool * controller -> Prop :=
| SettledCancel d c : settled_step (d, c) (true, c)
| SettledWorker d c i ev c' : worker_step d c i ev = Some c' -> settled_step (d, c) (d, c').

Lemma all_returned_stuck d c i ev : Forall (eq WReturned) (workers c) -> worker_step d c i ev = None.
Proof.
  intros Hf. unfold worker_step. destruct (workers c !! i) as [w|] eqn:Ei; [|by destruct ev].
  eapply Forall_lookup_1 in Hf; [|exact Ei]. subst. by destruct ev.
Qed.

(** Once [Stop] has returned, in whatever state the loop was, every goroutine has
    returned, and nothing that can happen short of another [Start] reconciles again. *)
Theorem stop_is_final d c s' :
  loop_reach (false, NewController) (d, c) -> wait_returns c = true ->
  Forall (eq WReturned) (workers c) /\ (rtc settled_step (d, c) s' -> workers s'.2 = workers c).
Proof.
  intros Hr Hw. assert (Hok : loop_ok c) by (apply (loop_reach_ok (false, NewController) (d, c)); [done|exact Hr]).
  assert (Hf : Forall (eq WReturned) (workers c)).
  { apply live_zero. unfold wait_returns in Hw. bool_z. unfold loop_ok in Hok. lia. }
  split; [done|]. intros Hs.
  assert (Hgen : forall x, rtc settled_step x s' -> Forall (eq WReturned) (workers x.2) -> workers s'.2 = workers x.2).
  { intros x Hx. induction Hx as [|x y z Hxy _ IH]; [done|]. intros Hfx.
    destruct Hxy as [e k|e k i ev k' E]; simpl in *; [by apply IH|].
    by rewrite all_returned_stuck in E. }
  by apply (Hgen (d, c)).
Qed.

(** How many moves the goroutines need at most to return. *)
Definition to_return (w : worker) : nat := match w with WReconciling => 2 | WSelect => 1 | WReturned => 0 end.
Definition moves (ws : list worker) : nat := foldr (fun w n => to_return w + n) 0 ws.

Lemma moves_app ws1 ws2 : moves (ws1 ++ ws2) = moves ws1 + moves ws2.
Proof. induction ws1 as [|w ws IH]; [done|]. cbn. unfold moves in *. simpl in IH. rewrite IH. lia. Qed.

Lemma moves_insert ws i w w' :
  ws !! i = Some w -> moves (<[i := w']> ws) + to_return w = moves ws + to_return w'.
Proof.
  intros Hi. rewrite insert_take_drop by (by eapply lookup_lt_Some).
  rewrite <- (take_drop_middle ws i w Hi) at 3. rewrite !moves_app. unfold moves. simpl. lia.
Qed.

(** C34. [Stop] can always return: from any state in which the channel is closed or the
    context has ended there is a run in which every goroutine finishes what it does
    and returns, with no tick in between. *)
Theorem stop_can_return d c :
  d || stop_closed c = true -> loop_ok c ->
  exists evs c', foldl (fun o ie => o ≫= fun c => worker_step d c ie.1 ie.2) (Some c) evs = Some c' /\
    Forall (fun ie => ie.2 <> Tick) evs /\ length evs = moves (workers c) /\ wait_returns c' = true.
Proof.
  remember (moves (workers c)) as n eqn:En. revert c En. induction n as [|n IH]; intros c En Hd Hok.
  - exists [], c. split_and!; [done|done|done|]. unfold wait_returns.
    assert (Hl : live (workers c) = 0).
    { apply live_zero, Forall_forall. intros w Hw.
      apply list_elem_of_lookup in Hw as [i Hi]. pose proof (moves_insert _ _ _ WReturned Hi).
      destruct w; simpl in *; [lia|lia|done]. }
    unfold loop_ok in Hok. rewrite Hl in Hok. by rewrite Hok.
  - assert (Hex : exists i w, workers c !! i = Some w /\ w <> WReturned).
    { destruct (live (workers c)) as [|m] eqn:El.
      - apply live_zero in El. exfalso. clear -En El. unfold moves in En.
        induction El as [|w ws Hw _ IHf]; simpl in *; [done|]. subst w. simpl in En. by apply IHf.
      - destruct (decide (Forall (eq WReturned) (workers c))) as [Hf|Hf].
        + apply live_zero in Hf. lia.
        + apply not_Forall_Exists in Hf; [|intros x; apply _]. apply Exists_exists in Hf as (w & Hw & Hne).
          apply list_elem_of_lookup in Hw as [i Hi]. exists i, w. split; [done|]. by intros ->. }
    destruct Hex as (i & w & Hi & Hne).
    assert (Hstep : exists ev c1, worker_step d c i ev = Some c1 /\ ev <> Tick /\
      moves (workers c1) = n /\ stop_closed c1 = stop_closed c).
    { destruct w; [| |done].
      - exists Return. eexists. unfold worker_step. rewrite Hi, Hd. split_and!; [done|done| |done].
        simpl. pose proof (moves_insert _ _ _ WReturned Hi). simpl in *. lia.
      - exists Finish. eexists. unfold worker_step. rewrite Hi. split_and!; [done|done| |done].
        simpl. pose proof (moves_insert _ _ _ WSelect Hi). simpl in *. lia. }
    destruct Hstep as (ev & c1 & E1 & Hev & Hm & Hsc).
    destruct (IH c1) as (evs & c' & Ef & Hf & Hlen & Hw); [done|by rewrite Hsc|by eapply worker_step_ok|].
    exists ((i, ev) :: evs), c'. split_and!; [|by constructor|simpl; by rewrite Hlen|done].
    simpl. rewrite E1. exact Ef.
Qed.

(** Stopping twice panics. *)
Theorem stop_twice_panics c c' : close_stop c = Ok c' -> close_stop c' = Panic "close of closed channel".
Proof. unfold close_stop. destruct (stop_closed c); [done|]. by intros [= <-]. Qed.

(** The end of the context does not end what runs: a goroutine may be in the middle of
    [ReconcileAll], and it may even start another one. *)
Lemma cancel_does_not_stop :
  loop_reach (false, NewController) (true, mkController false 1 [WReconciling]).
Proof.
  eapply rtc_l; [apply LoopStart|]. eapply rtc_l; [apply LoopCancel|].
  eapply rtc_l; [|apply rtc_refl]. apply (LoopWorker _ _ 0 Tick). reflexivity.
Qed.

Lemma stop_is_final_witness : workers (mkController true 0 [WReturned]) = [WReturned].
Proof.
  refine (proj2 (stop_is_final false (mkController true 0 [WReturned])
    (false, mkController true 0 [WReturned]) _ eq_refl) _); [|apply rtc_refl].
  eapply rtc_l; [apply LoopStart|]. eapply rtc_l; [by apply LoopStop|].
  eapply rtc_l; [|apply rtc_refl]. apply (LoopWorker _ _ 0 Return). reflexivity.
Defined.

Lemma stop_can_return_witness :
  exists evs c', foldl (fun o ie => o ≫= fun c => worker_step true c ie.1 ie.2)
    (Some (mkController false 2 [WReconciling; WSelect])) evs = Some c' /\ wait_returns c' = true.
Proof.
  destruct (stop_can_return true (mkController false 2 [WReconciling; WSelect]) eq_refl eq_refl)
    as (evs & c' & E & _ & _ & Hw). by exists evs, c'.
Defined.
