(* ===== verification/SvcProxy.v ===== *)
(** * Service proxies (src/service/proxy.go, src/service/envinjector.go)

    A service is a TCP listener on the host that forwards each connection to one
    of the pods its selector matches, in turn.  [getBackends] and the choice of
    the backend are the whole decision of [handleConn]; its connections and the
    copying of bytes are in Forward.  The listeners of the host are the interface [TCP]. *)

From S2P Require Import Prelude Types GoStrings Selector Store Stores PortPool.

(** ** The network of the host *)

(** [Listen] on [127.0.0.1:port] and the [Close] of that listener. *)
Class TCP (N : Type) := {
  Listen : N -> Z -> option N;
  CloseListener : N -> Z -> N;
  listening : N -> gset Z;
}.

(** An address in use cannot be bound again. *)
Class TCPLaws (N : Type) `{TCP N} : Prop := {
  Listen_ok n p n' :
    Listen n p = Some n' -> p ∉ listening n /\ listening n' = {[p]} ∪ listening n;
  Close_ok n p : listening (CloseListener n p) = listening n ∖ {[p]};
}.

(** ** One service *)

(** [listener] is the port bound, if any; the open connections are left out. *)
Record ServiceProxy := mkServiceProxy {
  svc : Service;
  listener : option Z;
  sp_closed : bool;
  nextIdx : Z;
  sp_port : Z;
}.

Definition NewServiceProxy (svc : Service) : ServiceProxy := mkServiceProxy svc None false 0 0.

(** [labels[k]] is present and equal for every entry of the selector; the loop
    over the selector stops at the first entry that is not. *)
Definition matchesSelector (labels selector : gomap string) : bool :=
  match selector with
  | None => false
  | Some sel =>
      if decide (size sel = 0) then false
      else forallb (fun '(k, v) =>
             match go_get labels k with Some val => String.eqb val v | None => false end)
             (map_to_list sel)
  end.

Definition backend_ready (pod : Pod) : bool :=
  if String.eqb (Phase (podStatus pod)) PodRunning then
    match ContainerStatuses (podStatus pod) with
    | [] => true
    | css => existsb csReady css
    end
  else false.

(** The body of the loop of [getBackends]. *)
Definition backend_of (sp : ServiceProxy) (pod : Pod) : option Z :=
  if negb (String.eqb (Namespace (podMeta pod)) (Namespace (svcMeta (svc sp)))) then None
  else if negb (matchesSelector (Labels (podMeta pod)) (svcSelector (svcSpec (svc sp)))) then None
  else if backend_ready pod && (0 <? HostPort (podStatus pod))%Z
       then Some (HostPort (podStatus pod))
       else None.

(** [pods] is what [lister.ListActivePods()] returns. *)
Definition getBackends (sp : ServiceProxy) (pods : list Pod) : list Z := omap (backend_of sp) pods.

(** The choice [handleConn] makes for a connection: the counter is advanced only
    when there is a backend. *)
Definition pick_backend (sp : ServiceProxy) (pods : list Pod) : ServiceProxy * option Z :=
  match getBackends sp pods with
  | [] => (sp, None)
  | backends =>
      let idx := nextIdx sp in
      (mkServiceProxy (svc sp) (listener sp) (sp_closed sp) (u64 (nextIdx sp + 1)) (sp_port sp),
       backends !! Z.to_nat (idx mod Z.of_nat (length backends)))
  end.

Section Proxy.
Context {N : Type} `{TCP N}.

Definition Start (n : N) (sp : ServiceProxy) (port : Z) : option (N * ServiceProxy) :=
  match Listen n port with
  | None => None
  | Some n => Some (n, mkServiceProxy (svc sp) (Some port) (sp_closed sp) (nextIdx sp) port)
  end.

Definition Close (n : N) (sp : ServiceProxy) : N * ServiceProxy :=
  if sp_closed sp then (n, sp)
  else (match listener sp with Some port => CloseListener n port | None => n end,
        mkServiceProxy (svc sp) (listener sp) true (nextIdx sp) (sp_port sp)).

(** ** The manager *)

Inductive proxy_error :=
| NoPortsDefined (key : string)
| NoDynamicPort (requested : Z) (err : pool_error)
| CannotBind (port : Z).

(** The proxies by service key, the pool shared with the pods, the network. *)
Record ProxyManager := mkProxyManager {
  proxies : gmap string ServiceProxy;
  pm_pool : PortPool;
  pm_net : N;
}.

Definition NewProxyManager (pool : PortPool) (n : N) : ProxyManager := mkProxyManager ∅ pool n.

(** The fallback to a port of the pool. *)
Definition start_dynamic (pm : ProxyManager) (key : string) (sp : ServiceProxy) (requestedPort : Z)
    : ProxyManager * res proxy_error Z :=
  match Allocate (pm_pool pm) key with
  | (pool, Err err) => (mkProxyManager (proxies pm) pool (pm_net pm), Err (NoDynamicPort requestedPort err))
  | (pool, Panic w) => (mkProxyManager (proxies pm) pool (pm_net pm), Panic w)
  | (pool, Ok dynPort) =>
      match Start (pm_net pm) sp dynPort with
      | None =>
          (mkProxyManager (proxies pm) (Release pool key) (pm_net pm), Err (CannotBind dynPort))
      | Some (n, sp) => (mkProxyManager (<[key := sp]> (proxies pm)) pool n, Ok dynPort)
      end
  end.

Definition StartProxy (pm : ProxyManager) (s : Service) : ProxyManager * res proxy_error Z :=
  let key := key_of (svcMeta s) in
  match proxies pm !! key with
  | Some existing => (pm, Ok (sp_port existing))
  | None =>
      match svcPorts (svcSpec s) with
      | [] => (pm, Err (NoPortsDefined key))
      | p0 :: _ =>
          let requestedPort := spPort p0 in
          let sp := NewServiceProxy s in
          if (0 <? requestedPort)%Z then
            match Start (pm_net pm) sp requestedPort with
            | Some (n, sp) =>
                (mkProxyManager (<[key := sp]> (proxies pm)) (pm_pool pm) n, Ok requestedPort)
            | None => start_dynamic pm key sp requestedPort
            end
          else start_dynamic pm key sp requestedPort
      end
  end.

Definition StopProxy (pm : ProxyManager) (namespace name : string) : ProxyManager :=
  let key := key namespace name in
  match proxies pm !! key with
  | Some sp =>
      mkProxyManager (delete key (proxies pm)) (Release (pm_pool pm) key) (Close (pm_net pm) sp).1
  | None => pm
  end.

(** [o] orders the range over the map. *)
Definition Shutdown (o : shuffle (string * ServiceProxy)) (pm : ProxyManager) : ProxyManager :=
  let '(pool, n) :=
    foldl (fun '(pool, n) '(key, sp) => (Release pool key, (Close n sp).1))
      (pm_pool pm, pm_net pm) (o (map_to_list (proxies pm))) in
  mkProxyManager ∅ pool n.

(** ** The environment of the pods *)

Definition service_port (pm : ProxyManager) (s : Service) : Z :=
  let port := match proxies pm !! key_of (svcMeta s) with Some sp => sp_port sp | None => 0%Z end in
  match svcPorts (svcSpec s) with
  | p0 :: _ => if (port =? 0)%Z then spPort p0 else port
  | [] => port
  end.

Context `{UnicodeCase}.

Definition service_env (pm : ProxyManager) (s : Service) : list EnvVar :=
  let nameUpper := ReplaceAll (ToUpper (Name (svcMeta s))) "-" "_" in
  [mkEnvVar (nameUpper +:+ "_SERVICE_HOST") "127.0.0.1";
   mkEnvVar (nameUpper +:+ "_SERVICE_PORT") (Itoa (service_port pm s))].

Definition GenerateServiceEnv {T} (o : shuffle Service) (namespace : string)
    (store : ServiceStore T) (pm : ProxyManager) : list EnvVar :=
  flat_map (service_env pm) (ListServices o store namespace).
End Proxy.
Arguments ProxyManager N : clear implicits.

(** ** Which pods serve *)

(** The contract: the pod is in the namespace of the service, carries every label
    of a selector that is not empty, runs, is ready and has a host port. *)
Record serves (s : Service) (pod : Pod) : Prop := {
  sv_namespace : Namespace (podMeta pod) = Namespace (svcMeta s);
  sv_selector : exists sel, svcSelector (svcSpec s) = Some sel /\ sel <> ∅ /\
    forall k v, sel !! k = Some v -> go_get (Labels (podMeta pod)) k = Some v;
  sv_running : Phase (podStatus pod) = PodRunning;
  sv_ready : ContainerStatuses (podStatus pod) = [] \/
    exists cs, cs ∈ ContainerStatuses (podStatus pod) /\ csReady cs = true;
  sv_port : (0 < HostPort (podStatus pod))%Z;
}.

Lemma matchesSelector_spec labels selector :
  matchesSelector labels selector = true <->
    exists sel, selector = Some sel /\ sel <> ∅ /\
      forall k v, sel !! k = Some v -> go_get labels k = Some v.
Proof.
  unfold matchesSelector. destruct selector as [sel|]; [|naive_solver].
  destruct (decide (size sel = 0)) as [Hz|Hz].
  - apply map_size_empty_iff in Hz. naive_solver.
  - rewrite map_size_empty_iff in Hz. rewrite forallb_forall. split.
    + intros Hall. exists sel. split_and!; [done..|]. intros k v Hk.
      specialize (Hall (k, v)). apply elem_of_map_to_list, list_elem_of_In in Hk.
      specialize (Hall Hk). simpl in Hall. destruct (go_get labels k); [|done].
      bool_z. by subst.
    + intros (sel' & [= <-] & _ & Hall) [k v] Hin.
      apply list_elem_of_In, elem_of_map_to_list, Hall in Hin. rewrite Hin. apply String.eqb_refl.
Qed.

Lemma backend_ready_spec pod :
  backend_ready pod = true <-> Phase (podStatus pod) = PodRunning /\
    (ContainerStatuses (podStatus pod) = [] \/
     exists cs, cs ∈ ContainerStatuses (podStatus pod) /\ csReady cs = true).
Proof.
  unfold backend_ready. destruct (String.eqb _ _) eqn:E; bool_z; [|naive_solver].
  destruct (ContainerStatuses (podStatus pod)) as [|cs css]; [naive_solver|].
  rewrite existsb_exists. setoid_rewrite <- list_elem_of_In. naive_solver.
Qed.

Lemma backend_of_spec sp pod port :
  backend_of sp pod = Some port <-> serves (svc sp) pod /\ HostPort (podStatus pod) = port.
Proof.
  unfold backend_of. destruct (String.eqb _ _) eqn:En; bool_z; simpl;
    [|split; [done|intros [[Hs] _]; congruence]].
  destruct (matchesSelector _ _) eqn:Em; simpl.
  - apply matchesSelector_spec in Em. destruct (backend_ready pod) eqn:Er; simpl.
    + apply backend_ready_spec in Er as [Er1 Er2].
      destruct (Z.ltb_spec 0 (HostPort (podStatus pod))).
      * split; [intros [= <-]; by split|]. by intros [_ ->].
      * split; [done|]. intros [[] _]. lia.
    + split; [done|]. intros [[? ? H1 H2 _] _].
      by rewrite (proj2 (backend_ready_spec pod)) in Er.
  - split; [done|]. intros [[? Hs _ _ _] _]. apply matchesSelector_spec in Hs. congruence.
Qed.

(** The backends of a service are the host ports of exactly the listed pods that
    serve it: same namespace, all labels of a non-empty selector, running, ready,
    with a host port. *)
Theorem getBackends_spec sp pods port :
  port ∈ getBackends sp pods <->
    exists pod, pod ∈ pods /\ serves (svc sp) pod /\ HostPort (podStatus pod) = port.
Proof.
  unfold getBackends. rewrite list_elem_of_omap. by setoid_rewrite backend_of_spec.
Qed.

(** The selector of a service as the text of a label selector. *)
Definition selector_text (sel : gmap string string) : string :=
  Join (req_text <$> ((fun '(k, v) => ReqOp k OpEq v) <$> map_to_list sel)) ",".

Definition selector_wf (sel : gmap string string) : Prop :=
  forall k v, sel !! k = Some v -> label_string k = true /\ label_string v = true /\ v <> "".

(** Selecting by a service agrees with the label selectors of the API: a service
    with a non-empty selector matches the labels that [MatchLabels] matches for its
    text ["k1=v1,k2=v2,..."]. *)
Theorem matchesSelector_agrees labels sel :
  selector_wf sel -> sel <> ∅ ->
  matchesSelector labels (Some sel) = MatchLabels labels (selector_text sel).
Proof.
  intros Hwf Hne. unfold selector_text. rewrite MatchLabels_reqs.
  - unfold matchesSelector. destruct (decide (size sel = 0)) as [Hz|_].
    { by apply map_size_empty_iff in Hz. }
    assert (Hl : Forall (fun kv : string * string => kv.2 <> "") (map_to_list sel)).
    { apply Forall_forall. intros [k v] Hin. apply elem_of_map_to_list in Hin.
      by destruct (Hwf _ _ Hin) as (_ & _ & ?). }
    induction Hl as [|[k v] l Hv _ IH]; [done|]. rewrite fmap_cons. cbn [forallb req_holds op_holds].
    rewrite IH. f_equal. unfold go_index. simpl in Hv.
    destruct (go_get labels k); [done|]. by destruct v.
  - apply Forall_fmap, Forall_forall. intros [k v] Hin. apply elem_of_map_to_list in Hin.
    destruct (Hwf _ _ Hin) as (? & ? & _). by split.
Qed.

Lemma matchesSelector_agrees_witness :
  matchesSelector (Some {["app" := "web"]}) (Some {["app" := "web"]}) =
    MatchLabels (Some {["app" := "web"]}) "app=web".
Proof.
  rewrite (matchesSelector_agrees (Some {["app" := "web"]}) {["app" := "web"]}).
  - f_equal.
  - intros k v. rewrite lookup_singleton_Some. by intros [<- <-].
  - apply map_non_empty_singleton.
Defined.

(** ** Round robin *)

(** [m] connections in a row while the listed pods stay as they are. *)
Fixpoint picks (sp : ServiceProxy) (pods : list Pod) (m : nat) : list (option Z) :=
  match m with
  | O => []
  | S m => let '(sp, b) := pick_backend sp pods in b :: picks sp pods m
  end.

Lemma pick_backend_svc sp pods : getBackends (pick_backend sp pods).1 pods = getBackends sp pods.
Proof. unfold pick_backend. destruct (getBackends sp pods) eqn:E; simpl; [done|exact E]. Qed.

Lemma picks_lookup sp pods m :
  getBackends sp pods <> [] ->
  (0 <= nextIdx sp)%Z -> (nextIdx sp + Z.of_nat m <= 2 ^ 64)%Z ->
  picks sp pods m = (fun j => getBackends sp pods !!
      Z.to_nat (Z.of_nat (Z.to_nat (nextIdx sp) + j) mod Z.of_nat (length (getBackends sp pods))))
    <$> seq 0 m.
Proof.
  revert sp. induction m as [|m IH]; intros sp Hne H0 Hm; [done|]. cbn [picks].
  pose proof (pick_backend_svc sp pods) as Hb.
  assert (E : pick_backend sp pods = (mkServiceProxy (svc sp) (listener sp) (sp_closed sp)
      (u64 (nextIdx sp + 1)) (sp_port sp),
      getBackends sp pods !! Z.to_nat (nextIdx sp mod Z.of_nat (length (getBackends sp pods))))).
  { unfold pick_backend. by destruct (getBackends sp pods). }
  rewrite E in *. cbn [fst] in Hb. cbn [seq]. rewrite fmap_cons, Nat.add_0_r.
  f_equal; [by rewrite Z2Nat.id|].
  destruct (decide (m = 0)) as [->|Hm0]; [done|].
  assert (Hu : u64 (nextIdx sp + 1) = (nextIdx sp + 1)%Z) by (apply Z.mod_small; lia).
  rewrite IH; cbn [nextIdx]; rewrite ?Hb, ?Hu; [|done|lia..].
  rewrite <- (fmap_S_seq 0 m), <- list_fmap_compose. apply list_fmap_ext.
  intros i j Hj. simpl. do 3 f_equal. lia.
Qed.

(** A window of [n] consecutive numbers meets every residue modulo [n] once. *)
Lemma residues_perm (n i : nat) :
  0 < n -> (fun j => (i + j) mod n) <$> seq 0 n ≡ₚ seq 0 n.
Proof.
  intros Hn. apply submseteq_length_Permutation; [|by rewrite length_fmap].
  apply NoDup_submseteq.
  - apply NoDup_fmap_2_strong; [|apply NoDup_seq].
    intros x y Hx%elem_of_seq Hy%elem_of_seq E.
    pose proof (Nat.div_mod_eq (i + x) n). pose proof (Nat.div_mod_eq (i + y) n).
    assert ((i + x) / n = (i + y) / n \/ (i + x) / n < (i + y) / n \/ (i + y) / n < (i + x) / n)
      as [?|[?|?]] by lia; nia.
  - intros x (y & -> & _)%list_elem_of_fmap. apply elem_of_seq.
    pose proof (Nat.mod_upper_bound (i + y) n). lia.
Qed.

Lemma window_perm {A} (l : list A) (i : nat) :
  0 < length l -> (fun j => l !! ((i + j) mod length l)) <$> seq 0 (length l) ≡ₚ Some <$> l.
Proof.
  intros Hn.
  change (fun j => l !! ((i + j) mod length l))
    with ((fun r => l !! r) ∘ (fun j => (i + j) mod length l)).
  rewrite list_fmap_compose.
  transitivity ((fun r => l !! r) <$> seq 0 (length l)); [by apply fmap_Permutation, residues_perm|].
  assert (E : (fun r => l !! r) <$> seq 0 (length l) = Some <$> l); [|by rewrite E].
  apply (list_eq_same_length _ _ (length l)); [by rewrite !length_fmap|by rewrite length_fmap, length_seq|].
  intros j x y Hj. rewrite !list_lookup_fmap, lookup_seq_lt by done. simpl.
  destruct (lookup_lt_is_Some_2 l j Hj) as [z ->]. simpl. congruence.
Qed.

Lemma rounds_perm {A} (l : list A) (i k : nat) :
  0 < length l ->
  (fun j => l !! ((i + j) mod length l)) <$> seq 0 (k * length l) ≡ₚ
    concat (replicate k (Some <$> l)).
Proof.
  intros Hn. revert i. induction k as [|k IH]; intros i; [done|]. cbn [Nat.mul replicate concat].
  rewrite seq_app, fmap_app. apply Permutation_app; [by apply window_perm|].
  rewrite <- (IH (i + length l)).
  replace (seq (0 + length l) (k * length l)) with (Nat.add (length l) <$> seq 0 (k * length l))
    by (rewrite fmap_add_seq; f_equal; lia).
  rewrite <- list_fmap_compose.
  apply Permutation_refl', list_fmap_ext. intros j r _. unfold compose. do 2 f_equal. lia.
Qed.

(** Over [k] times as many connections as there are backends, with no wrap-around of
    the counter, every backend gets exactly [k], wherever the counter stood. *)
Lemma picks_fair sp pods k :
  getBackends sp pods <> [] -> (0 <= nextIdx sp)%Z ->
  (nextIdx sp + Z.of_nat (k * length (getBackends sp pods)) <= 2 ^ 64)%Z ->
  picks sp pods (k * length (getBackends sp pods)) ≡ₚ
    concat (replicate k (Some <$> getBackends sp pods)).
Proof.
  intros Hne H0 Hm. rewrite picks_lookup by done.
  rewrite <- (rounds_perm (getBackends sp pods) (Z.to_nat (nextIdx sp)) k) by (destruct (getBackends sp pods); simpl; [done|lia]).
  apply Permutation_refl', list_fmap_ext. intros i j _. f_equal.
  rewrite <- Nat2Z.inj_mod. apply Nat2Z.id.
Qed.

(** ** The manager *)

Section Manager.
Context {N : Type} `{TCPLaws N}.
Implicit Types pm : ProxyManager N.

(** Every proxy has a port of its own, which it listens on, and is open. *)
Definition pm_ok pm : Prop :=
  (forall key sp, proxies pm !! key = Some sp ->
     listener sp = Some (sp_port sp) /\ sp_closed sp = false /\
     sp_port sp ∈ listening (pm_net pm)) /\
  (forall key1 key2 sp1 sp2, proxies pm !! key1 = Some sp1 -> proxies pm !! key2 = Some sp2 ->
     sp_port sp1 = sp_port sp2 -> key1 = key2).

Lemma Start_ok n sp port n' sp' :
  Start n sp port = Some (n', sp') ->
  port ∉ listening n /\ listening n' = {[port]} ∪ listening n /\
  listener sp' = Some port /\ sp_port sp' = port /\ sp_closed sp' = sp_closed sp /\ svc sp' = svc sp.
Proof.
  unfold Start. destruct (Listen n port) as [m|] eqn:E; [|done]. intros [= <- <-].
  apply Listen_ok in E as [??]. done.
Qed.

(** Registering a proxy just started keeps the invariant. *)
Lemma pm_ok_insert pm key s port n' sp' pool :
  pm_ok pm -> proxies pm !! key = None ->
  Start (pm_net pm) (NewServiceProxy s) port = Some (n', sp') ->
  pm_ok (mkProxyManager (<[key := sp']> (proxies pm)) pool n').
Proof.
  intros [Hok Hinj] Hn HS. apply Start_ok in HS as (Hni & Hl & Hlis & Hp & Hc & _).
  split; simpl.
  - intros k sp. rewrite lookup_insert_Some, Hl. intros [[<- <-]|[Hne Hk]].
    + rewrite Hlis, Hp, Hc. split_and!; [done..|set_solver].
    + destruct (Hok _ _ Hk) as (? & ? & ?). split_and!; [done..|set_solver].
  - intros k1 k2 sp1 sp2. rewrite !lookup_insert_Some.
    intros [[<- <-]|[Hne1 Hk1]] [[<- <-]|[Hne2 Hk2]] E; [done| | |by eapply Hinj].
    + exfalso. apply Hni. rewrite <- Hp, E. by apply (Hok k2).
    + exfalso. apply Hni. rewrite <- Hp, <- E. by apply (Hok k1).
Qed.

Lemma pm_ok_StartProxy pm s : pm_ok pm -> pm_ok (StartProxy pm s).1.
Proof.
  intros Hok. unfold StartProxy. destruct (proxies pm !! _) as [sp|] eqn:En; [done|].
  destruct (svcPorts (svcSpec s)) as [|p0 ps]; [done|].
  assert (Hdyn : pm_ok (start_dynamic pm (key_of (svcMeta s)) (NewServiceProxy s) (spPort p0)).1).
  { unfold start_dynamic. destruct (Allocate _ _) as [pool [port|e|w]]; [|done..].
    destruct (Start _ _ port) as [[n sp]|] eqn:ES; simpl; [by eapply pm_ok_insert|done]. }
  destruct (_ <? _)%Z; [|done].
  destruct (Start _ _ (spPort p0)) as [[n sp]|] eqn:ES; simpl; [by eapply pm_ok_insert|done].
Qed.

Lemma pm_ok_StopProxy pm ns name : pm_ok pm -> pm_ok (StopProxy pm ns name).
Proof.
  intros [Hok Hinj]. unfold StopProxy. destruct (proxies pm !! _) as [sp|] eqn:En; [|done].
  destruct (Hok _ _ En) as (Hl & Hc & _). unfold Close. rewrite Hl, Hc. split; simpl.
  - intros k sp'. rewrite lookup_delete_Some, Close_ok. intros [Hne Hk].
    destruct (Hok _ _ Hk) as (? & ? & ?). split_and!; [done..|].
    apply elem_of_difference. split; [done|]. rewrite elem_of_singleton. intros E.
    by apply Hne, (Hinj _ _ sp sp').
  - intros k1 k2 sp1 sp2 [_ H1]%lookup_delete_Some [_ H2]%lookup_delete_Some. by apply Hinj.
Qed.

Inductive pm_op :=
| PStart (s : Service)
| PStop (namespace name : string)
| PShutdown (o : shuffle (string * ServiceProxy)).

Definition pm_step pm (op : pm_op) : ProxyManager N :=
  match op with
  | PStart s => (StartProxy pm s).1
  | PStop ns name => StopProxy pm ns name
  | PShutdown o => Shutdown o pm
  end.

Lemma pm_ok_step pm op : pm_ok pm -> pm_ok (pm_step pm op).
Proof.
  destruct op; simpl; [apply pm_ok_StartProxy|apply pm_ok_StopProxy|].
  intros _. unfold Shutdown. destruct (foldl _ _ _) as [pool n].
  split; simpl; intros *; by rewrite lookup_empty.
Qed.

(** The keys whose leases an operation may change. *)
Definition pm_touches pm (op : pm_op) (k : string) : Prop :=
  match op with
  | PStart s => k = key_of (svcMeta s)
  | PStop ns name => k = key ns name
  | PShutdown _ => is_Some (proxies pm !! k)
  end.

Lemma pm_step_leases pm op :
  pool_ok (pm_pool pm) ->
  pool_ok (pm_pool (pm_step pm op)) /\
  forall k, ~ pm_touches pm op k -> allocated (pm_pool (pm_step pm op)) !! k = allocated (pm_pool pm) !! k.
Proof.
  intros Hp. destruct op as [s|ns name|o]; simpl.
  - assert (Hdyn : forall sp req, pool_ok (pm_pool (start_dynamic pm (key_of (svcMeta s)) sp req).1) /\
      forall k, k <> key_of (svcMeta s) ->
        allocated (pm_pool (start_dynamic pm (key_of (svcMeta s)) sp req).1) !! k = allocated (pm_pool pm) !! k).
    { intros sp req. unfold start_dynamic.
      pose proof (Allocate_ok (pm_pool pm) (key_of (svcMeta s)) Hp) as Ha.
      pose proof (Allocate_other (pm_pool pm) (key_of (svcMeta s))) as Ho.
      destruct (Allocate _ _) as [pool [port|e|w]]; simpl in *; [|auto..].
      destruct (Start _ _ port) as [[n sp']|]; simpl; [auto|].
      split; [by apply Release_ok|]. intros k Hk. by rewrite Release_other, Ho. }
    unfold StartProxy. destruct (proxies pm !! _); [done|]. destruct (svcPorts (svcSpec s)) as [|p0 ps]; [done|].
    destruct (_ <? _)%Z; [|apply Hdyn]. destruct (Start _ _ (spPort p0)) as [[n sp]|]; [done|apply Hdyn].
  - unfold StopProxy. destruct (proxies pm !! _); [|done]. simpl.
    split; [by apply Release_ok|]. intros k Hk. by apply Release_other.
  - assert (HL : forall l pool n, pool_ok pool -> (forall k sp, (k, sp) ∈ l -> is_Some (proxies pm !! k)) ->
      let r := foldl (fun '(pool, n) '(key, sp) => (Release pool key, (Close n sp).1)) (pool, n) l in
      pool_ok r.1 /\ forall k, ~ is_Some (proxies pm !! k) -> allocated r.1 !! k = allocated pool !! k).
    { induction l as [|[k0 sp0] l IH]; intros pool n Hpo Hl; [done|]. cbn [foldl].
      destruct (IH (Release pool k0) (Close n sp0).1) as [IH1 IH2];
        [by apply Release_ok|intros k sp Hin; apply (Hl k sp); by right|].
      split; [exact IH1|]. intros k Hk. rewrite IH2 by done. apply Release_other. intros ->.
      apply Hk, (Hl k0 sp0). by left. }
    unfold Shutdown. specialize (HL (o (map_to_list (proxies pm))) (pm_pool pm) (pm_net pm) Hp).
    destruct (foldl _ _ _) as [pool n]. apply HL. intros k sp Hin.
    rewrite elem_of_shuffle in Hin. apply elem_of_map_to_list in Hin. eauto.
Qed.

Lemma pm_ok_run pm ops : pm_ok pm -> pm_ok (foldl pm_step pm ops).
Proof. revert pm. induction ops as [|op ops IH]; intros pm Hok; [done|]. by apply IH, pm_ok_step. Qed.

Lemma pm_ok_new pool n : pm_ok (NewProxyManager pool n).
Proof. split; simpl; intros *; by rewrite lookup_empty. Qed.

(** C17. Two services never share a host port, and each registered proxy listens on
    its own: in every manager reached by starting and stopping proxies. *)
Theorem proxies_exclusive pool n ops key1 key2 sp1 sp2 :
  let pm := foldl pm_step (NewProxyManager pool n) ops in
  proxies pm !! key1 = Some sp1 -> proxies pm !! key2 = Some sp2 ->
  sp_port sp1 = sp_port sp2 -> key1 = key2 /\ sp_port sp1 ∈ listening (pm_net pm).
Proof.
  intros pm H1 H2 E. destruct (pm_ok_run _ ops (pm_ok_new pool n)) as [Hok Hinj].
  split; [by eapply Hinj|]. by apply (Hok key1).
Qed.

Lemma start_dynamic_res pm key sp req pm' e :
  allocated (pm_pool pm) !! key = None ->
  start_dynamic pm key sp req = (pm', Err e) -> pm' = pm.
Proof.
  intros Hn. unfold start_dynamic. destruct (Allocate (pm_pool pm) key) as [pool r] eqn:EA.
  unfold Allocate in EA. rewrite Hn in EA.
  destruct (scan_free _ _ _ _) as [q|] eqn:Hs; simplify_eq/=.
  - destruct (Start _ _ q) as [[n sp']|]; [done|]. intros [= <- <-].
    assert (E : Release (Allocate (pm_pool pm) key).1 key = pm_pool pm).
    { apply (Release_Allocate _ _ q Hn). unfold Allocate. by rewrite Hn, Hs. }
    unfold Allocate in E. rewrite Hn, Hs in E. simpl in E. rewrite E. by destruct pm.
  - intros [= <- <-]. by destruct pm.
Qed.

(** C18. A service that cannot be started leaves nothing behind: if its key held no
    port, a failed [StartProxy] registers no proxy, binds nothing and gives back
    the port it took from the pool; a successful one registers the service under
    its key, at the port returned. *)
Theorem StartProxy_all_or_nothing pm s :
  allocated (pm_pool pm) !! key_of (svcMeta s) = None ->
  match StartProxy pm s with
  | (pm', Ok port) => exists sp, proxies pm' !! key_of (svcMeta s) = Some sp /\ sp_port sp = port
  | (pm', Err _) => pm' = pm
  | (_, Panic _) => False
  end.
Proof.
  intros Hn. unfold StartProxy. destruct (proxies pm !! _) as [sp|] eqn:En; [eauto|].
  destruct (svcPorts (svcSpec s)) as [|p0 ps]; [done|].
  assert (Hdyn : match start_dynamic pm (key_of (svcMeta s)) (NewServiceProxy s) (spPort p0) with
    | (pm', Ok port) => exists sp, proxies pm' !! key_of (svcMeta s) = Some sp /\ sp_port sp = port
    | (pm', Err _) => pm' = pm
    | (_, Panic _) => False
    end).
  { destruct (start_dynamic _ _ _ _) as [pm' [port|e|w]] eqn:ED.
    - unfold start_dynamic in ED. destruct (Allocate _ _) as [pool [q|e|w]]; [|done..].
      destruct (Start _ _ q) as [[n sp]|] eqn:ES; [|done]. injection ED as <- <-.
      exists sp. apply Start_ok in ES as (_ & _ & _ & Hp & _). simpl.
      by rewrite lookup_insert_eq.
    - by eapply start_dynamic_res.
    - unfold start_dynamic, Allocate in ED. rewrite Hn in ED.
      destruct (scan_free _ _ _ _) as [q|]; [|done]. by destruct (Start _ _ q) as [[? ?]|]. }
  destruct (_ <? _)%Z; [|done]. destruct (Start _ _ (spPort p0)) as [[n sp]|] eqn:ES; [|done].
  exists sp. apply Start_ok in ES as (_ & _ & _ & Hp & _). simpl. by rewrite lookup_insert_eq.
Qed.

(** Pods and services share the keys of the port pool: a service named like a
    pod that holds a port is given the port of the pod, and whether its listener
    then starts (and is stopped later) or not, the lease of the pod is released. *)
Theorem service_takes_pod_lease pm s p0 ps q :
  let key := key_of (svcMeta s) in
  proxies pm !! key = None -> allocated (pm_pool pm) !! key = Some q ->
  svcPorts (svcSpec s) = p0 :: ps -> (spPort p0 <= 0)%Z ->
  match StartProxy pm s with
  | (pm', Ok port) =>
      port = q /\
      allocated (pm_pool (StopProxy pm' (Namespace (svcMeta s)) (Name (svcMeta s)))) !! key = None
  | (pm', Err _) => allocated (pm_pool pm') !! key = None
  | (_, Panic _) => False
  end.
Proof.
  intros key Hn Hq Hps Hp0.
  assert (Hrel : allocated (Release (pm_pool pm) key) !! key = None).
  { unfold Release. rewrite Hq. apply lookup_delete_eq. }
  unfold StartProxy. fold key. rewrite Hn, Hps.
  destruct (Z.ltb_spec 0 (spPort p0)); [lia|]. unfold start_dynamic, Allocate. rewrite Hq.
  destruct (Start _ _ q) as [[n sp]|]; [|done]. split; [done|].
  unfold StopProxy; simpl. change (Store.key _ _) with key. by rewrite lookup_insert_eq.
Qed.

(** Starting a service that already has a proxy changes nothing, whatever its new
    ports and selector are: the proxy keeps serving the old specification. *)
Theorem StartProxy_keeps_first pm s sp :
  proxies pm !! key_of (svcMeta s) = Some sp -> StartProxy pm s = (pm, Ok (sp_port sp)).
Proof. unfold StartProxy. by intros ->. Qed.
End Manager.

(** ** A network to run *)

#[export] Instance ports_TCP : TCP (gset Z) := {
  Listen n p := if decide (p ∈ n) then None else Some ({[p]} ∪ n);
  CloseListener n p := n ∖ {[p]};
  listening n := n;
}.

#[export] Instance ports_TCPLaws : TCPLaws (gset Z).
Proof.
  split; [|done]. intros n p n'. simpl. destruct (decide (p ∈ n)); [done|]. by intros [= <-].
Qed.

Definition ex_svc (name : string) (port : Z) : Service :=
  mkService (mkTypeMeta "v1" "Service") (mkObjectMeta name "default" "" None None 0 "")
    (mkServiceSpec [mkServicePort "" "TCP" port 0 0] (Some {["app" := name]}) "") None.

Definition ex_backend (port : Z) : Pod :=
  mkPod (mkTypeMeta "v1" "Pod") (mkObjectMeta "p" "default" "" None (Some {["app" := "web"]}) 0 "")
    (mkPodSpec [] [] "" []) (mkPodStatus PodRunning "" "" 0 [] [] "" port).

(** The listing of the pods is a range over a map, whose order may be another one for each
    connection: of two connections in a row, on two backends, both may get the same. *)
Lemma reordered_listing_repeats sp pods1 pods2 a b :
  getBackends sp pods1 = [a; b] -> getBackends sp pods2 = [b; a] ->
  Z.even (nextIdx sp) = true -> (0 <= nextIdx sp < 2 ^ 64)%Z ->
  (pick_backend sp pods1).2 = Some a /\ (pick_backend (pick_backend sp pods1).1 pods2).2 = Some a.
Proof.
  intros E1 E2 Hev Hr. apply Zeven_bool_iff, Zeven_ex in Hev as [k Hk].
  assert (Hb : getBackends (pick_backend sp pods1).1 pods2 = [b; a]) by (unfold pick_backend; by rewrite E1).
  unfold pick_backend at 2. rewrite Hb. unfold pick_backend. rewrite E1. cbn [fst snd length nextIdx]. split.
  - by replace (nextIdx sp mod Z.of_nat 2)%Z with 0%Z by (rewrite Hk, Z.mul_comm; symmetry; apply Z_mod_mult).
  - assert (Hu : u64 (nextIdx sp + 1) = (nextIdx sp + 1)%Z) by (unfold u64; rewrite Z.mod_small; lia).
    rewrite Hu. by replace ((nextIdx sp + 1) mod Z.of_nat 2)%Z with 1%Z by (rewrite Hk; symmetry;
      replace (2 * k + 1)%Z with (1 + k * 2)%Z by lia; apply Z_mod_plus_full).
Qed.

Lemma picks_fair_witness :
  picks (NewServiceProxy (ex_svc "web" 80)) [ex_backend 1; ex_backend 2; ex_backend 3] 6 ≡ₚ
    [Some 1%Z; Some 2%Z; Some 3%Z; Some 1%Z; Some 2%Z; Some 3%Z].
Proof.
  apply (picks_fair (NewServiceProxy (ex_svc "web" 80))
    [ex_backend 1; ex_backend 2; ex_backend 3] 2); vm_compute; congruence.
Defined.

Lemma proxies_exclusive_witness :
  let pm := foldl pm_step (NewProxyManager (NewPortPool 30000 30010) (∅ : gset Z))
    [PStart (ex_svc "web" 80); PStart (ex_svc "db" 80)] in
  (sp_port <$> proxies pm !! "default/web") = Some 80%Z /\
  (sp_port <$> proxies pm !! "default/db") = Some 30000%Z /\ 80%Z ∈ listening (pm_net pm).
Proof.
  intros pm. split; [reflexivity|]. split; [reflexivity|].
  destruct (proxies pm !! "default/web") as [sp|] eqn:E; [|discriminate E].
  pose proof (proxies_exclusive (NewPortPool 30000 30010) (∅ : gset Z)
    [PStart (ex_svc "web" 80); PStart (ex_svc "db" 80)] "default/web" "default/web" sp sp E E eq_refl)
    as [_ Hin].
  assert (Hp : sp_port sp = 80%Z) by (apply (f_equal (option_map sp_port)) in E; by injection E as <-).
  by rewrite Hp in Hin.
Defined.

Lemma StartProxy_all_or_nothing_witness :
  (StartProxy (mkProxyManager ∅ (NewPortPool 30000 30000) ({[80%Z; 30000%Z]} : gset Z))
    (ex_svc "web" 80)).1 = mkProxyManager ∅ (NewPortPool 30000 30000) {[80%Z; 30000%Z]}.
Proof.
  exact (StartProxy_all_or_nothing
    (mkProxyManager ∅ (NewPortPool 30000 30000) ({[80%Z; 30000%Z]} : gset Z)) (ex_svc "web" 80)
    eq_refl).
Defined.

Lemma service_takes_pod_lease_witness :
  allocated (pm_pool (StartProxy (mkProxyManager ∅ (Allocate (NewPortPool 30000 30010) "default/web").1
    ({[30000%Z]} : gset Z)) (ex_svc "web" 0)).1) !! "default/web" = None.
Proof.
  exact (service_takes_pod_lease (mkProxyManager ∅ (Allocate (NewPortPool 30000 30010) "default/web").1
    ({[30000%Z]} : gset Z)) (ex_svc "web" 0) (mkServicePort "" "TCP" 0 0 0) [] 30000
    eq_refl eq_refl eq_refl ltac:(simpl; lia)).
Defined.

Lemma StartProxy_keeps_first_witness :
  let pm := (StartProxy (NewProxyManager (NewPortPool 30000 30010) (∅ : gset Z)) (ex_svc "web" 80)).1 in
  StartProxy pm (ex_svc "web" 8080) = (pm, Ok 80%Z).
Proof.
  intros pm. exact (StartProxy_keeps_first pm (ex_svc "web" 8080)
    (mkServiceProxy (ex_svc "web" 80) (Some 80%Z) false 0 80) eq_refl).
Defined.
