(* ===== verification/Forward.v ===== *)
(** * Forwarding proxies (src/network/proxy.go, the connections of src/service/proxy.go)

    [network.Proxy] and [service.ServiceProxy] accept connections in a loop, a
    goroutine per connection registers it, dials a target and starts two goroutines
    that copy the bytes, one per direction; the first of the two to end makes the
    handler return, which closes both sockets.  The two Go types differ only in how
    a handler finds its target, which is the parameter [choose] of this machine.

    A state has every handler goroutine ever started, at its program point; an
    [event] is one step of one goroutine or of a peer, so a list of events is an
    interleaving.  Sockets are streams: what a peer sent and was not yet read, and
    what was written to the other peer. *)

From S2P Require Import Prelude Types GoStrings SvcProxy.

(** ** One direction of a connection

    [io.Copy(dst, src)] in a goroutine: [held] is a chunk read and not yet written.
    [sent] is the history of the peer, for the specifications. *)

Record half := mkHalf {
  sent : bytes;
  unread : bytes;
  eof : bool;
  held : bytes;
  delivered : bytes;
  copying : bool;
}.

Definition new_half : half := mkHalf [] [] false [] [] false.

(** The program points of [handleConn]: not yet registered; registered and dialing;
    waiting for [errCh]; in the deferred function, before [in.Close]; before the
    [delete]; returned. *)
Inductive stage := Accepted | Registered | Piping | Returning | Deleting | Gone.

#[export] Instance stage_eq_dec : EqDecision stage.
Proof. solve_decision. Defined.

(** [up] copies from the client ([in]) to the target ([out]), [down] back; [errCh] is
    how many results wait in the channel of that name. *)
Record conn := mkConn {
  c_stage : stage;
  in_open : bool;
  out_open : bool;
  c_target : option string;
  up : half;
  down : half;
  errCh : nat;
}.

Definition new_conn : conn := mkConn Accepted true false None new_half new_half 0.

Inductive dir := Up | Down.

Definition half_of (d : dir) (c : conn) : half := match d with Up => up c | Down => down c end.
Definition set_half (d : dir) (c : conn) (h : half) : conn :=
  match d with
  | Up => mkConn (c_stage c) (in_open c) (out_open c) (c_target c) h (down c) (errCh c)
  | Down => mkConn (c_stage c) (in_open c) (out_open c) (c_target c) (up c) h (errCh c)
  end.
Definition src_open (d : dir) (c : conn) : bool := match d with Up => in_open c | Down => out_open c end.
Definition dst_open (d : dir) (c : conn) : bool := match d with Up => out_open c | Down => in_open c end.

(** [make(chan error, 2)] *)
Definition errCh_cap : nat := 2.

(** ** The copying goroutines *)

(** [src.Read] returned [n] bytes. *)
Definition copy_read (d : dir) (n : nat) (c : conn) : option conn :=
  let h := half_of d c in
  if copying h && src_open d c && bool_decide (held h = []) && bool_decide (0 < n <= length (unread h))
  then Some (set_half d c (mkHalf (sent h) (drop n (unread h)) (eof h) (take n (unread h))
                             (delivered h) true))
  else None.

(** [errCh <- err] at the end of the goroutine; it would block on a full channel. *)
Definition copy_done (d : dir) (c : conn) : option conn :=
  let h := half_of d c in
  if decide (errCh c < errCh_cap) then
    let c := set_half d c (mkHalf (sent h) (unread h) (eof h) [] (delivered h) false) in
    Some (mkConn (c_stage c) (in_open c) (out_open c) (c_target c) (up c) (down c) (S (errCh c)))
  else None.

(** [dst.Write] of the chunk: it fails on a socket closed on this side, and may fail
    for the network ([err]), which ends the copy. *)
Definition copy_write (d : dir) (err : bool) (c : conn) : option conn :=
  let h := half_of d c in
  if copying h && bool_decide (held h <> []) then
    if dst_open d c && negb err then
      Some (set_half d c (mkHalf (sent h) (unread h) (eof h) [] (delivered h ++ held h) true))
    else copy_done d c
  else None.

(** [src.Read] returned an error or [EOF]. *)
Definition copy_end (d : dir) (err : bool) (c : conn) : option conn :=
  let h := half_of d c in
  if copying h && bool_decide (held h = []) &&
     (err || negb (src_open d c) || (eof h && bool_decide (unread h = [])))
  then copy_done d c else None.

(** ** The peers *)

(** The target can send once it was dialed. *)
Definition peer_there (d : dir) (c : conn) : bool :=
  match d with Up => true | Down => match c_target c with Some _ => true | None => false end end.

Definition peer_send (d : dir) (data : bytes) (c : conn) : option conn :=
  let h := half_of d c in
  if eof h || negb (peer_there d c) then None
  else Some (set_half d c (mkHalf (sent h ++ data) (unread h ++ data) false (held h)
                             (delivered h) (copying h))).

Definition peer_fin (d : dir) (c : conn) : option conn :=
  let h := half_of d c in
  if negb (peer_there d c) then None
  else Some (set_half d c (mkHalf (sent h) (unread h) true (held h) (delivered h) (copying h))).

(** ** The proxy *)

Section Proxy.
Context {D X : Type} (choose : D -> X -> D * option string).

(** [p_conns] is the Go map [conns] (its keys), [p_table] every connection accepted
    so far, [p_dials] the addresses dialed, newest last; [p_data] is what [choose]
    reads and writes. *)
Record proxy := mkProxy {
  p_listener : bool;
  p_loop : bool;
  p_closed : bool;
  p_conns : gset nat;
  p_table : gmap nat conn;
  p_next : nat;
  p_data : D;
  p_dials : list string;
}.

Definition NewProxy (data : D) : proxy := mkProxy false false false ∅ ∅ 0 data [].

(** [Start]: [listen_ok] is whether [net.Listen] succeeded. *)
Definition ProxyStart (listen_ok : bool) (p : proxy) : option proxy :=
  if listen_ok then
    Some (mkProxy true true (p_closed p) (p_conns p) (p_table p) (p_next p) (p_data p) (p_dials p))
  else None.

Definition set_conn (p : proxy) (id : nat) (c : conn) : proxy :=
  mkProxy (p_listener p) (p_loop p) (p_closed p) (p_conns p) (<[id := c]> (p_table p)) (p_next p)
    (p_data p) (p_dials p).
Definition set_conns (p : proxy) (m : gset nat) : proxy :=
  mkProxy (p_listener p) (p_loop p) (p_closed p) m (p_table p) (p_next p) (p_data p) (p_dials p).
Definition set_stage (c : conn) (s : stage) : conn :=
  mkConn s (in_open c) (out_open c) (c_target c) (up c) (down c) (errCh c).

(** [Accept] returned a connection: [go p.handleConn(conn)]. *)
Definition accept (p : proxy) : option proxy :=
  if p_loop p && p_listener p then
    Some (mkProxy true true (p_closed p) (p_conns p) (<[p_next p := new_conn]> (p_table p))
            (S (p_next p)) (p_data p) (p_dials p))
  else None.

(** [Accept] returned an error: both branches of the [select] end the loop. *)
Definition accept_error (p : proxy) : option proxy :=
  if p_loop p then
    Some (mkProxy (p_listener p) false (p_closed p) (p_conns p) (p_table p) (p_next p) (p_data p)
            (p_dials p))
  else None.

Definition register (id : nat) (c : conn) (p : proxy) : option proxy :=
  if decide (c_stage c = Accepted)
  then Some (set_conns (set_conn p id (set_stage c Registered)) ({[id]} ∪ p_conns p)) else None.

Definition start_copy (h : half) : half :=
  mkHalf (sent h) (unread h) (eof h) (held h) (delivered h) true.

(** The target is chosen and dialed; without one, or when the dial fails ([ok]), the
    handler returns. *)
Definition dial (id : nat) (x : X) (ok : bool) (c : conn) (p : proxy) : option proxy :=
  if decide (c_stage c = Registered) then
    let '(data, target) := choose (p_data p) x in
    let p := mkProxy (p_listener p) (p_loop p) (p_closed p) (p_conns p) (p_table p) (p_next p) data
               (p_dials p ++ option_list target) in
    match target with
    | Some _ =>
        if ok then
          Some (set_conn p id (mkConn Piping (in_open c) true target (start_copy (up c))
                  (start_copy (down c)) (errCh c)))
        else Some (set_conn p id (set_stage c Returning))
    | None => Some (set_conn p id (set_stage c Returning))
    end
  else None.

(** [<-errCh], then the deferred [out.Close()]. *)
Definition handler_return (c : conn) : option conn :=
  if decide (c_stage c = Piping) then
    match errCh c with
    | O => None
    | S n => Some (mkConn Returning (in_open c) false (c_target c) (up c) (down c) n)
    end
  else None.

(** The first deferred function: [in.Close()], then the [delete] under the mutex. *)
Definition close_in (c : conn) : option conn :=
  if decide (c_stage c = Returning)
  then Some (mkConn Deleting false (out_open c) (c_target c) (up c) (down c) (errCh c)) else None.

Definition unregister (id : nat) (c : conn) (p : proxy) : option proxy :=
  if decide (c_stage c = Deleting)
  then Some (set_conns (set_conn p id (set_stage c Gone)) (p_conns p ∖ {[id]})) else None.

(** [c.Close()] for a connection of the map. *)
Definition shut (c : conn) : conn :=
  mkConn (c_stage c) false (out_open c) (c_target c) (up c) (down c) (errCh c).

(** [Close], all of it under the mutex; the second call finds [closed] closed. *)
Definition ProxyClose (p : proxy) : proxy :=
  if p_closed p then p
  else mkProxy false (p_loop p) true (p_conns p)
         (map_imap (fun id c => Some (if decide (id ∈ p_conns p) then shut c else c)) (p_table p))
         (p_next p) (p_data p) (p_dials p).

(** ** Interleavings *)

Inductive event :=
| EAccept
| EAcceptError
| ERegister (id : nat)
| EDial (id : nat) (x : X) (ok : bool)
| ERead (id : nat) (d : dir) (n : nat)
| EWrite (id : nat) (d : dir) (err : bool)
| EEnd (id : nat) (d : dir) (err : bool)
| EReturn (id : nat)
| ECloseIn (id : nat)
| EUnregister (id : nat)
| EClose
| ESend (id : nat) (d : dir) (data : bytes)
| EFin (id : nat) (d : dir).

(** A step of one connection on its own. *)
Definition at_conn (p : proxy) (id : nat) (f : conn -> option conn) : option proxy :=
  c ← p_table p !! id; c ← f c; Some (set_conn p id c).

Definition fstep (p : proxy) (e : event) : option proxy :=
  match e with
  | EAccept => accept p
  | EAcceptError => accept_error p
  | ERegister id => c ← p_table p !! id; register id c p
  | EDial id x ok => c ← p_table p !! id; dial id x ok c p
  | ERead id d n => at_conn p id (copy_read d n)
  | EWrite id d err => at_conn p id (copy_write d err)
  | EEnd id d err => at_conn p id (copy_end d err)
  | EReturn id => at_conn p id handler_return
  | ECloseIn id => at_conn p id close_in
  | EUnregister id => c ← p_table p !! id; unregister id c p
  | EClose => Some (ProxyClose p)
  | ESend id d data => at_conn p id (peer_send d data)
  | EFin id d => at_conn p id (peer_fin d)
  end.

(** [None] when an event is not possible where it stands. *)
Fixpoint frun (p : proxy) (es : list event) : option proxy :=
  match es with
  | [] => Some p
  | e :: es => p ← fstep p e; frun p es
  end.
End Proxy.
Arguments proxy D : clear implicits.
Arguments event X : clear implicits.

(** ** The two proxies *)

(** [network.Proxy] always dials the address it was made with. *)
Definition fixed_target (targetAddr : string) (_ : unit) : string * option string :=
  (targetAddr, Some targetAddr).

(** [service.ServiceProxy] dials the next backend among the pods listed, at
    [fmt.Sprintf("127.0.0.1:%d", backendPort)]. *)
Definition backend_addr (port : Z) : string := "127.0.0.1:" +:+ Itoa port.

Definition next_backend (sp : ServiceProxy) (pods : list Pod) : ServiceProxy * option string :=
  let '(sp, port) := pick_backend sp pods in (sp, backend_addr <$> port).

Definition raw_run := frun fixed_target.
Definition service_run := frun next_backend.

(** ** The invariant of a connection *)

Definition running (h : half) : nat := if copying h then 1 else 0.

(** The stream of one direction: nothing is reordered, duplicated or invented; while
    its goroutine runs nothing is lost either. *)
Record half_ok (h : half) : Prop := {
  hk_prefix : delivered h `prefix_of` sent h;
  hk_split : copying h = true -> sent h = delivered h ++ held h ++ unread h;
}.

(** Before the dial nothing was read; afterwards the two goroutines account for the
    two results of [errCh], of which the handler takes one. *)
Record conn_ok (c : conn) : Prop := {
  ck_half : forall d, half_ok (half_of d c);
  ck_fresh : forall d, c_target c = None ->
    copying (half_of d c) = false /\ delivered (half_of d c) = [] /\ held (half_of d c) = [] /\
    sent (half_of d c) = unread (half_of d c);
  ck_stage : match c_stage c with
    | Accepted | Registered => c_target c = None
    | Piping => is_Some (c_target c) /\ errCh c + running (up c) + running (down c) = 2
    | _ => errCh c + running (up c) + running (down c) < 2
    end;
  ck_errs : c_target c = None -> errCh c = 0;
  ck_out : c_stage c <> Piping -> out_open c = false;
  ck_in : c_stage c = Deleting \/ c_stage c = Gone -> in_open c = false;
}.

Lemma conn_ok_new : conn_ok new_conn.
Proof.
  split; simpl; try done.
  - intros []; split; simpl; try done; by apply prefix_nil.
  - by intros [].
  - by intros [].
Qed.

Ltac conn_step :=
  repeat match goal with
  | H : Some _ = Some _ |- _ => injection H as <-
  | H : None = Some _ |- _ => discriminate H
  | H : (if ?b then _ else _) = Some _ |- _ =>
      lazymatch type of b with bool => destruct b eqn:? | _ => destruct b end
  end; bool_z.

Lemma copying_target d c : conn_ok c -> copying (half_of d c) = true -> is_Some (c_target c).
Proof.
  intros Hok Hc. destruct (c_target c) eqn:E; [by eexists|].
  destruct (ck_fresh c Hok d E) as [Hf _]. congruence.
Qed.

Lemma copy_done_ok d c c' :
  conn_ok c -> copying (half_of d c) = true -> copy_done d c = Some c' -> conn_ok c'.
Proof.
  intros Hok Hc E. destruct (copying_target d c Hok Hc) as [t Ht].
  destruct Hok as [Hh _ Hs _ Ho Hi]. unfold copy_done in E. conn_step.
  destruct d; simpl in *; split; simpl; try done; try congruence.
  - intros []; split; simpl; try done; apply (Hh Up) || apply (Hh Down).
  - unfold running in *; simpl; rewrite Hc in Hs; destruct (c_stage c); naive_solver lia.
  - intros []; split; simpl; try done; apply (Hh Up) || apply (Hh Down).
  - unfold running in *; simpl; rewrite Hc in Hs; destruct (c_stage c); naive_solver lia.
Qed.

(** A new content of one direction that keeps its stream and its goroutine. *)
Lemma set_half_ok d c h :
  conn_ok c -> half_ok h -> copying h = copying (half_of d c) ->
  (c_target c = None -> delivered h = [] /\ held h = [] /\ sent h = unread h) ->
  conn_ok (set_half d c h).
Proof.
  intros [Hh Hf Hs He Ho Hi] Hk Hc Hn.
  destruct d; split; simpl in *; try done.
  - intros []; [done|apply (Hh Down)].
  - intros [] E; simpl; [|by apply (Hf Down)]. rewrite Hc. split; [by apply (Hf Up)|]. by apply Hn.
  - unfold running in *. by rewrite Hc.
  - intros []; [apply (Hh Up)|done].
  - intros [] E; simpl; [by apply (Hf Up)|]. rewrite Hc. split; [by apply (Hf Down)|]. by apply Hn.
  - unfold running in *. by rewrite Hc.
Qed.

Lemma copy_read_ok d n c c' : conn_ok c -> copy_read d n c = Some c' -> conn_ok c'.
Proof.
  intros Hok E. unfold copy_read in E. conn_step.
  apply bool_decide_eq_true in H0, H1.
  destruct (copying_target d c Hok) as [t Ht]; [done|].
  destruct (ck_half c Hok d) as [Hp Hs].
  apply set_half_ok; [done| |done|congruence]. split; simpl; [done|]. intros _.
  rewrite Hs, H1 by done. simpl. by rewrite take_drop.
Qed.

Lemma copy_write_ok d err c c' : conn_ok c -> copy_write d err c = Some c' -> conn_ok c'.
Proof.
  intros Hok E. unfold copy_write in E. conn_step.
  - destruct (copying_target d c Hok) as [t Ht]; [done|].
    destruct (ck_half c Hok d) as [Hp Hs].
    apply set_half_ok; [done| |done|congruence]. split; simpl.
    + rewrite Hs by done. rewrite (assoc_L (++)). by apply prefix_app_r.
    + intros _. rewrite Hs by done. by rewrite (assoc_L (++)).
  - by apply (copy_done_ok d c).
Qed.

Lemma copy_end_ok d err c c' : conn_ok c -> copy_end d err c = Some c' -> conn_ok c'.
Proof. intros Hok E. unfold copy_end in E. conn_step. by apply (copy_done_ok d c). Qed.

Lemma peer_send_ok d data c c' : conn_ok c -> peer_send d data c = Some c' -> conn_ok c'.
Proof.
  intros Hok E. unfold peer_send in E. conn_step.
  destruct (ck_half c Hok d) as [Hp Hs].
  apply set_half_ok; [done| |done|].
  - split; simpl; [by apply prefix_app_r|]. intros Hc. rewrite Hs by done. by rewrite <- !(assoc_L (++)).
  - intros Ht. destruct (ck_fresh c Hok d Ht) as (_ & ? & ? & E). simpl. by rewrite E.
Qed.

Lemma peer_fin_ok d c c' : conn_ok c -> peer_fin d c = Some c' -> conn_ok c'.
Proof.
  intros Hok E. unfold peer_fin in E. conn_step. destruct (ck_half c Hok d) as [Hp Hs].
  apply set_half_ok; [done|by split|done|]. intros Ht. by destruct (ck_fresh c Hok d Ht) as (_ & ? & ? & ?).
Qed.

Lemma handler_return_ok c c' : conn_ok c -> handler_return c = Some c' -> conn_ok c'.
Proof.
  intros [Hh Hf Hs He Ho Hi] E. unfold handler_return in E. conn_step.
  rewrite e in Hs. destruct Hs as [[t Ht] Hs]. destruct (errCh c) eqn:En; [done|]. conn_step.
  split; simpl in *; try done; try congruence; [lia|]. naive_solver.
Qed.

Lemma close_in_ok c c' : conn_ok c -> close_in c = Some c' -> conn_ok c'.
Proof.
  intros [Hh Hf Hs He Ho Hi] E. unfold close_in in E. conn_step.
  rewrite e in Hs, Ho. split; simpl in *; try done. intros _. by apply Ho.
Qed.

(** ** The invariant of a proxy *)

Section Laws.
Context {D X : Type} (choose : D -> X -> D * option string).
Implicit Types p : proxy D.

Definition registered_stage (s : stage) : Prop :=
  match s with Registered | Piping | Returning | Deleting => True | Accepted | Gone => False end.

Record proxy_ok p : Prop := {
  pk_conn : forall id c, p_table p !! id = Some c -> conn_ok c;
  pk_next : forall id c, p_table p !! id = Some c -> id < p_next p;
  pk_conns : forall id, id ∈ p_conns p <->
    exists c, p_table p !! id = Some c /\ registered_stage (c_stage c);
  pk_closed : p_closed p = true -> p_listener p = false;
}.

Lemma proxy_ok_set_conn p id c c' m :
  proxy_ok p -> p_table p !! id = Some c -> conn_ok c' ->
  (forall i, i ∈ m <-> if decide (i = id) then registered_stage (c_stage c') else i ∈ p_conns p) ->
  proxy_ok (set_conns (set_conn p id c') m).
Proof.
  intros [H1 H2 H3 H4] Hc Hok Hm. split; simpl; [| | |done].
  - intros i x. rewrite lookup_insert_Some. intros [[<- <-]|[_ Hx]]; [done|by eapply H1].
  - intros i x. rewrite lookup_insert_Some. intros [[<- <-]|[_ Hx]]; by eapply H2.
  - intros i. rewrite Hm. case_decide as Hi.
    + subst. rewrite lookup_insert_eq. naive_solver.
    + by rewrite H3, lookup_insert_ne.
Qed.

(** A step of one connection that stays at its program point, or at least on its
    side of the map. *)
Lemma proxy_ok_at_conn p id f p' :
  proxy_ok p -> at_conn p id f = Some p' ->
  (forall c c', conn_ok c -> f c = Some c' -> conn_ok c' /\
     (registered_stage (c_stage c') <-> registered_stage (c_stage c))) ->
  proxy_ok p'.
Proof.
  intros Hp E Hf. unfold at_conn in E.
  destruct (p_table p !! id) as [c|] eqn:Hc; [|done]. simpl in E.
  destruct (f c) as [c'|] eqn:Hfc; [|done]. injection E as <-.
  destruct (Hf c c') as [Hok Hst]; [by eapply (pk_conn p)|done|].
  replace (set_conn p id c') with (set_conns (set_conn p id c') (p_conns p)) by done.
  apply (proxy_ok_set_conn p id c); [done..|].
  intros i. case_decide as Hi; [|done]. subst. rewrite (pk_conns p) by done. naive_solver.
Qed.

Lemma same_stage_copy_done d c c' : copy_done d c = Some c' -> c_stage c' = c_stage c.
Proof. unfold copy_done. intros E. conn_step. by destruct d. Qed.

Lemma same_stage_copy d c c' :
  (exists n, copy_read d n c = Some c') \/ (exists err, copy_write d err c = Some c') \/
  (exists err, copy_end d err c = Some c') \/ (exists data, peer_send d data c = Some c') \/
  peer_fin d c = Some c' -> c_stage c' = c_stage c.
Proof.
  unfold copy_read, copy_write, copy_end, peer_send, peer_fin.
  intros [[n E]|[[err E]|[[err E]|[[data E]|E]]]]; conn_step;
    try (by destruct d); by apply same_stage_copy_done in E.
Qed.

Lemma proxy_ok_accept p p' : proxy_ok p -> accept p = Some p' -> proxy_ok p'.
Proof.
  intros Hp E. unfold accept in E. conn_step. pose proof Hp as [H1 H2 H3 H4].
  assert (Hn : p_table p !! p_next p = None).
  { destruct (p_table p !! p_next p) as [c|] eqn:Hc; [|done]. apply H2 in Hc. lia. }
  split; simpl.
  - intros i x. rewrite lookup_insert_Some. intros [[<- <-]|[_ Hx]]; [apply conn_ok_new|by eapply H1].
  - intros i x. rewrite lookup_insert_Some. intros [[<- <-]|[_ Hx]]; [lia|]. apply H2 in Hx. lia.
  - intros i. rewrite H3. destruct (decide (p_next p = i)) as [<-|Hi].
    + rewrite lookup_insert_eq, Hn. naive_solver.
    + by rewrite lookup_insert_ne.
  - intros Hc. rewrite H4 in H0 by done. done.
Qed.

Lemma conn_ok_stage c s :
  conn_ok c -> c_target c = None ->
  match s with Registered | Returning => True | _ => False end ->
  out_open c = false -> conn_ok (set_stage c s).
Proof.
  intros [Hh Hf Hs He Ho Hi] Ht Hst Hout. split; simpl; try done.
  - destruct s; try done. unfold running. destruct (Hf Up Ht) as [E1 _], (Hf Down Ht) as [E2 _].
    simpl in E1, E2. rewrite E1, E2, He by done. lia.
  - intros [->| ->]; done.
Qed.

Lemma proxy_ok_register p id c p' :
  proxy_ok p -> p_table p !! id = Some c -> register id c p = Some p' -> proxy_ok p'.
Proof.
  intros Hp Hc E. unfold register in E. conn_step. pose proof (pk_conn p Hp _ _ Hc) as Hok.
  apply (proxy_ok_set_conn p id c); [done|done| |].
  - apply conn_ok_stage; [done| |done|].
    + pose proof (ck_stage c Hok) as Hs. by rewrite e in Hs.
    + apply (ck_out c Hok). by rewrite e.
  - intros i. rewrite elem_of_union, elem_of_singleton. case_decide; naive_solver.
Qed.

Lemma proxy_ok_data p data dials :
  proxy_ok p -> proxy_ok (mkProxy (p_listener p) (p_loop p) (p_closed p) (p_conns p) (p_table p)
    (p_next p) data dials).
Proof. by intros []. Qed.

Lemma conn_ok_piping c t :
  conn_ok c -> c_target c = None ->
  conn_ok (mkConn Piping (in_open c) true (Some t) (start_copy (up c)) (start_copy (down c)) (errCh c)).
Proof.
  intros [Hh Hf Hs He Ho Hi] Ht. split; simpl; try done.
  - intros d. assert (E : half_of d (mkConn Piping (in_open c) true (Some t) (start_copy (up c))
      (start_copy (down c)) (errCh c)) = start_copy (half_of d c)) by (by destruct d).
    rewrite E. destruct (Hf d Ht) as (_ & E1 & E2 & E3). split; simpl; [by apply Hh|].
    intros _. by rewrite E1, E2, E3.
  - rewrite He by done. split; [by eexists|done].
  - intros [?|?]; done.
Qed.

Lemma proxy_ok_dial p id x okb c p' :
  proxy_ok p -> p_table p !! id = Some c -> dial choose id x okb c p = Some p' -> proxy_ok p'.
Proof.
  intros Hp Hc E. unfold dial in E. conn_step. pose proof (pk_conn p Hp _ _ Hc) as Hok.
  assert (Ht : c_target c = None) by (pose proof (ck_stage c Hok) as Hs; by rewrite e in Hs).
  assert (Hout : out_open c = false) by (apply (ck_out c Hok); by rewrite e).
  destruct (choose (p_data p) x) as [data target].
  pose proof (proxy_ok_data p data (p_dials p ++ option_list target) Hp) as Hp1.
  set (p1 := mkProxy _ _ _ _ _ _ _ _) in *.
  assert (Hgo : forall c', conn_ok c' -> registered_stage (c_stage c') -> proxy_ok (set_conn p1 id c')).
  { intros c' Hc' Hr. replace (set_conn p1 id c') with (set_conns (set_conn p1 id c') (p_conns p)) by done.
    apply (proxy_ok_set_conn p1 id c); [done..|]. intros i. case_decide; [|done]. subst.
    rewrite (pk_conns p) by done. split; [done|]. intros _. exists c. by rewrite e. }
  destruct target as [t|]; [destruct okb|]; injection E as <-; apply Hgo; try done.
  - by apply conn_ok_piping.
  - by apply conn_ok_stage.
  - by apply conn_ok_stage.
Qed.

Lemma proxy_ok_unregister p id c p' :
  proxy_ok p -> p_table p !! id = Some c -> unregister id c p = Some p' -> proxy_ok p'.
Proof.
  intros Hp Hc E. unfold unregister in E. conn_step. destruct (pk_conn p Hp _ _ Hc) as [Hh Hf Hs He Ho Hi].
  apply (proxy_ok_set_conn p id c); [done|done| |].
  - rewrite e in Hs, Ho, Hi. split; simpl; try done; intros _; [by apply Ho|by apply Hi; left].
  - intros i. rewrite elem_of_difference, elem_of_singleton. case_decide; naive_solver.
Qed.

Lemma conn_ok_shut c : conn_ok c -> conn_ok (shut c).
Proof. by intros []. Qed.

Lemma shut_table p id :
  p_table (ProxyClose p) !! id =
    (fun c => if decide (p_closed p = false /\ id ∈ p_conns p) then shut c else c) <$> p_table p !! id.
Proof.
  unfold ProxyClose. destruct (p_closed p) eqn:Ec.
  - destruct (p_table p !! id) as [c|]; [|done]. unfold fmap, option_fmap, option_map.
    by rewrite decide_False by naive_solver.
  - simpl. rewrite map_lookup_imap. destruct (p_table p !! id); simpl; [|done]. f_equal.
    do 2 case_decide; naive_solver.
Qed.

Lemma proxy_ok_close p : proxy_ok p -> proxy_ok (ProxyClose p).
Proof.
  intros Hp. pose proof Hp as [H1 H2 H3 H4].
  assert (Ec : p_conns (ProxyClose p) = p_conns p) by (unfold ProxyClose; by destruct (p_closed p)).
  assert (En : p_next (ProxyClose p) = p_next p) by (unfold ProxyClose; by destruct (p_closed p)).
  split.
  - intros id c. rewrite shut_table. intros (c0 & Hc & ->)%fmap_Some.
    case_decide; eauto using conn_ok_shut.
  - intros id c. rewrite shut_table, En. intros (c0 & Hc & ->)%fmap_Some. eauto.
  - intros id. rewrite Ec, H3, shut_table. split.
    + intros (c & Hc & Hr). rewrite Hc. simpl. eexists. split; [done|]. by case_decide.
    + intros (c & (c0 & Hc & ->)%fmap_Some & Hr). exists c0. split; [done|]. by case_decide.
  - unfold ProxyClose. destruct (p_closed p) eqn:E; [by rewrite E|done].
Qed.

Lemma proxy_ok_step p e p' : proxy_ok p -> fstep choose p e = Some p' -> proxy_ok p'.
Proof.
  intros Hp E. destruct e; simpl in E.
  - by eapply proxy_ok_accept.
  - unfold accept_error in E. conn_step. by destruct Hp.
  - destruct (p_table p !! id) as [c|] eqn:Hc; [|done]. by eapply proxy_ok_register.
  - destruct (p_table p !! id) as [c|] eqn:Hc; [|done]. by eapply proxy_ok_dial.
  - eapply proxy_ok_at_conn; [done..|]. intros c c' Hok Ec. split; [by eapply copy_read_ok|].
    rewrite (same_stage_copy d c c'); eauto 9.
  - eapply proxy_ok_at_conn; [done..|]. intros c c' Hok Ec. split; [by eapply copy_write_ok|].
    rewrite (same_stage_copy d c c'); eauto 9.
  - eapply proxy_ok_at_conn; [done..|]. intros c c' Hok Ec. split; [by eapply copy_end_ok|].
    rewrite (same_stage_copy d c c'); eauto 9.
  - eapply proxy_ok_at_conn; [done..|]. intros c c' Hok Ec. split; [by eapply handler_return_ok|].
    unfold handler_return in Ec. conn_step. destruct (errCh c); [done|]. injection Ec as <-. by rewrite e.
  - eapply proxy_ok_at_conn; [done..|]. intros c c' Hok Ec. split; [by eapply close_in_ok|].
    unfold close_in in Ec. conn_step. by rewrite e.
  - destruct (p_table p !! id) as [c|] eqn:Hc; [|done]. by eapply proxy_ok_unregister.
  - injection E as <-. by apply proxy_ok_close.
  - eapply proxy_ok_at_conn; [done..|]. intros c c' Hok Ec. split; [by eapply peer_send_ok|].
    rewrite (same_stage_copy d c c'); eauto 9.
  - eapply proxy_ok_at_conn; [done..|]. intros c c' Hok Ec. split; [by eapply peer_fin_ok|].
    rewrite (same_stage_copy d c c'); eauto 9.
Qed.

Lemma proxy_ok_run p es p' : proxy_ok p -> frun choose p es = Some p' -> proxy_ok p'.
Proof.
  revert p. induction es as [|e es IH]; intros p Hp E; simpl in E; [by injection E as <-|].
  destruct (fstep choose p e) as [p1|] eqn:E1; [|done]. eapply IH; [|exact E].
  by eapply proxy_ok_step.
Qed.

(** What one step may do to a connection that exists. *)
Inductive conn_moves (c : conn) : conn -> Prop :=
| MSame : conn_moves c c
| MRegister : c_stage c = Accepted -> conn_moves c (set_stage c Registered)
| MDial t : c_stage c = Registered ->
    conn_moves c (mkConn Piping (in_open c) true (Some t) (start_copy (up c)) (start_copy (down c))
                    (errCh c))
| MNoDial : c_stage c = Registered -> conn_moves c (set_stage c Returning)
| MCopy c' : (exists d n, copy_read d n c = Some c') \/ (exists d err, copy_write d err c = Some c') \/
    (exists d err, copy_end d err c = Some c') \/ (exists d data, peer_send d data c = Some c') \/
    (exists d, peer_fin d c = Some c') -> conn_moves c c'
| MReturn c' : handler_return c = Some c' -> conn_moves c c'
| MCloseIn c' : close_in c = Some c' -> conn_moves c c'
| MUnregister : c_stage c = Deleting -> conn_moves c (set_stage c Gone)
| MShut : conn_moves c (shut c).

Lemma at_conn_moves p id f p' i c :
  at_conn p id f = Some p' -> p_table p !! i = Some c ->
  (forall c', f c = Some c' -> conn_moves c c') ->
  exists c', p_table p' !! i = Some c' /\ conn_moves c c'.
Proof.
  intros Ea Hc Hf. unfold at_conn in Ea. destruct (p_table p !! id) as [ci|] eqn:Hi; [|done].
  simpl in Ea. destruct (f ci) as [ci'|] eqn:Hfi; [|done]. injection Ea as <-. simpl.
  destruct (decide (id = i)) as [->|Hne].
  - simplify_eq. exists ci'. rewrite lookup_insert_eq. auto.
  - exists c. rewrite lookup_insert_ne by done. auto using MSame.
Qed.

Lemma fstep_moves p e p' i c :
  proxy_ok p -> p_table p !! i = Some c -> fstep choose p e = Some p' ->
  exists c', p_table p' !! i = Some c' /\ conn_moves c c'.
Proof.
  intros Hp Hc E.
  assert (Hset : forall id ci c', p_table p !! id = Some ci -> conn_moves ci c' ->
    exists c2, <[id := c']> (p_table p) !! i = Some c2 /\ conn_moves c c2).
  { intros id ci c' Hi Hm. destruct (decide (id = i)) as [->|Hne].
    - simplify_eq. exists c'. by rewrite lookup_insert_eq.
    - exists c. rewrite lookup_insert_ne by done. auto using MSame. }
  destruct e; simpl in E.
  - unfold accept in E. conn_step. exists c. simpl. rewrite lookup_insert_ne; [auto using MSame|].
    apply (pk_next p Hp) in Hc. lia.
  - unfold accept_error in E. conn_step. exists c. auto using MSame.
  - destruct (p_table p !! id) as [ci|] eqn:Hi; [|done]. simpl in E. unfold register in E. conn_step.
    by apply (Hset id ci); [|apply MRegister].
  - destruct (p_table p !! id) as [ci|] eqn:Hi; [|done]. simpl in E. unfold dial in E. conn_step.
    destruct (choose _ _) as [data [t|]]; [destruct ok|]; injection E as <-;
      (apply (Hset id ci); [done|]); auto using MDial, MNoDial.
  - eapply at_conn_moves; [done..|]. eauto 7 using MCopy.
  - eapply at_conn_moves; [done..|]. eauto 7 using MCopy.
  - eapply at_conn_moves; [done..|]. eauto 8 using MCopy.
  - eapply at_conn_moves; [done..|]. auto using MReturn.
  - eapply at_conn_moves; [done..|]. auto using MCloseIn.
  - destruct (p_table p !! id) as [ci|] eqn:Hi; [|done]. simpl in E. unfold unregister in E. conn_step.
    by apply (Hset id ci); [|apply MUnregister].
  - injection E as <-. rewrite shut_table, Hc. simpl. eexists. split; [done|].
    case_decide; auto using MShut, MSame.
  - eapply at_conn_moves; [done..|]. eauto 9 using MCopy.
  - eapply at_conn_moves; [done..|]. eauto 9 using MCopy.
Qed.

(** A proxy as [Start] leaves it. *)
Definition started (data : D) : proxy D := mkProxy true true false ∅ ∅ 0 data [].

Lemma proxy_ok_started data : proxy_ok (started data).
Proof.
  split; simpl.
  - intros id c. by rewrite lookup_empty.
  - intros id c. by rewrite lookup_empty.
  - intros id. split; [set_solver|]. intros (c & Hc & _). by rewrite lookup_empty in Hc.
  - done.
Qed.
End Laws.

(** ** Properties *)

Section Properties.
Context {D X : Type} (choose : D -> X -> D * option string).
Implicit Types p : proxy D.

(** C12. Whatever the interleaving, each peer of a connection receives the bytes of the
    other in order, without a gap, a repetition or a change: what was delivered is
    always a prefix of what was sent, and while the goroutine of that direction runs
    the rest is in its hands or still to be read. *)
Theorem forward_streams data es p id c d :
  frun choose (started data) es = Some p -> p_table p !! id = Some c ->
  delivered (half_of d c) `prefix_of` sent (half_of d c) /\
  (copying (half_of d c) = true ->
     sent (half_of d c) = delivered (half_of d c) ++ held (half_of d c) ++ unread (half_of d c)).
Proof.
  intros E Hc. pose proof (proxy_ok_run choose _ _ _ (proxy_ok_started data) E) as Hp.
  destruct (ck_half c (pk_conn p Hp _ _ Hc) d). by split.
Qed.

Lemma at_conn_result p id c f c' :
  p_table p !! id = Some c -> f c = Some c' -> at_conn p id f = Some (set_conn p id c').
Proof. intros Hc Hf. unfold at_conn. rewrite Hc. simpl. by rewrite Hf. Qed.

(** A goroutine that copies can always put its result into [errCh]. *)
Lemma copy_done_free d c :
  conn_ok c -> copying (half_of d c) = true ->
  exists c', copy_done d c = Some c' /\ copying (half_of d c') = false.
Proof.
  intros Hok Hc. assert (Hlt : errCh c < errCh_cap).
  { destruct (copying_target d c Hok Hc) as [t Ht]. pose proof (ck_stage c Hok) as Hs.
    unfold running, errCh_cap in *. destruct d; simpl in Hc; rewrite Hc in Hs;
      destruct (c_stage c); try congruence; destruct Hs; lia. }
  unfold copy_done. rewrite decide_True by done. eexists. split; [done|]. by destruct d.
Qed.

(** A handler that has returned leaves nothing behind: its connection is out of the
    map, both sockets are closed, and each goroutine that still copies can end now
    (its read or its write fails, and its result fits into [errCh]). *)
Theorem forward_no_leak data es p id c :
  frun choose (started data) es = Some p -> p_table p !! id = Some c -> c_stage c = Gone ->
  id ∉ p_conns p /\ in_open c = false /\ out_open c = false /\
  forall d, copying (half_of d c) = true -> exists e p' c',
    fstep choose p e = Some p' /\ p_table p' !! id = Some c' /\ copying (half_of d c') = false.
Proof.
  intros E Hc Hg. pose proof (proxy_ok_run choose _ _ _ (proxy_ok_started data) E) as Hp.
  pose proof (pk_conn p Hp _ _ Hc) as Hok. split_and!.
  - rewrite (pk_conns p Hp). intros (c0 & Hc0 & Hr). simplify_eq. by rewrite Hg in Hr.
  - apply (ck_in c Hok). by right.
  - apply (ck_out c Hok). by rewrite Hg.
  - intros d Hcp. destruct (copy_done_free d c Hok Hcp) as (c' & Hd & Hn).
    assert (Hin : in_open c = false) by (apply (ck_in c Hok); by right).
    assert (Hout : out_open c = false) by (apply (ck_out c Hok); by rewrite Hg).
    assert (Hw : held (half_of d c) <> [] -> copy_write d false c = Some c').
    { intros Hne. unfold copy_write. rewrite Hcp, bool_decide_eq_true_2 by done.
      destruct d; simpl; by rewrite ?Hin, ?Hout. }
    assert (He : held (half_of d c) = [] -> copy_end d false c = Some c').
    { intros Hne. unfold copy_end. rewrite Hcp, bool_decide_eq_true_2 by done.
      destruct d; simpl; by rewrite ?Hin, ?Hout. }
    destruct (decide (held (half_of d c) = [])) as [Hh|Hh].
    + exists (EEnd id d false). do 2 eexists. split; [by apply (at_conn_result p id c), He|].
      split; [apply lookup_insert_eq|done].
    + exists (EWrite id d false). do 2 eexists. split; [by apply (at_conn_result p id c), Hw|].
      split; [apply lookup_insert_eq|done].
Qed.

(** ** After the handler has returned *)

Definition past_pipe (c : conn) : Prop :=
  out_open c = false /\ match c_stage c with Returning | Deleting | Gone => True | _ => False end.

(** What may still happen to a connection past the pipe. *)
Definition only_flushes (c c' : conn) : Prop :=
  past_pipe c' /\ delivered (up c') = delivered (up c) /\
  delivered (down c') ++ held (down c') `prefix_of` delivered (down c) ++ held (down c).

Lemma only_flushes_refl c : past_pipe c -> only_flushes c c.
Proof. by split. Qed.

Lemma only_flushes_trans c1 c2 c3 : only_flushes c1 c2 -> only_flushes c2 c3 -> only_flushes c1 c3.
Proof. intros (_ & E1 & H1) (H2 & E2 & H3). split_and!; [done|congruence|by etrans]. Qed.

Lemma copy_done_flushes d c c' : past_pipe c -> copy_done d c = Some c' -> only_flushes c c'.
Proof.
  unfold copy_done. intros Hp E. conn_step.
  destruct d; split_and!; simpl; try done; rewrite ?app_nil_r; by apply prefix_app_r.
Qed.

Lemma moves_flushes c c' : past_pipe c -> conn_moves c c' -> only_flushes c c'.
Proof.
  intros Hp Hm. pose proof Hp as [Hout Hst].
  destruct Hm as [|Ha|t Hr|Hr|c' Hc|c' Hr|c' Hc|Hd|].
  - by apply only_flushes_refl.
  - by rewrite Ha in Hst.
  - by rewrite Hr in Hst.
  - by rewrite Hr in Hst.
  - destruct Hc as [[d [n E]]|[[d [err E]]|[[d [err E]]|[[d [data E]]|[d E]]]]].
    + unfold copy_read in E. conn_step. destruct d; simpl in *; [|congruence].
      apply bool_decide_eq_true in H1. by split_and!.
    + unfold copy_write in E. conn_step; [|by eapply copy_done_flushes].
      destruct d; simpl in *; [congruence|]. split_and!; simpl; [done|done|by rewrite app_nil_r].
    + unfold copy_end in E. conn_step. by eapply copy_done_flushes.
    + unfold peer_send in E. conn_step. by destruct d.
    + unfold peer_fin in E. conn_step. by destruct d.
  - unfold handler_return in Hr. conn_step. by rewrite e in Hst.
  - unfold close_in in Hc. conn_step. by split_and!.
  - by split_and!.
  - by split_and!.
Qed.

Lemma run_flushes es p p' id c :
  proxy_ok p -> p_table p !! id = Some c -> past_pipe c -> frun choose p es = Some p' ->
  exists c', p_table p' !! id = Some c' /\ only_flushes c c'.
Proof.
  intros Hp Hc Hpp. revert p c Hp Hc Hpp. induction es as [|e es IH]; intros p c Hp Hc Hpp E; simpl in E.
  { injection E as <-. eauto using only_flushes_refl. }
  destruct (fstep choose p e) as [p1|] eqn:E1; [|done].
  destruct (fstep_moves choose _ _ _ _ _ Hp Hc E1) as (c1 & Hc1 & Hm).
  pose proof (moves_flushes _ _ Hpp Hm) as Hf1.
  destruct (IH p1 c1) as (c' & Hc' & Hf2); [by eapply proxy_ok_step|done|apply Hf1|done|].
  exists c'. split; [done|]. by eapply only_flushes_trans.
Qed.

(** The handler does not wait for both directions.  As soon as one of them has ended,
    for instance because the client has shut down its side after the request, the
    handler can return; from then on nothing more of the request reaches the target,
    and of the answer at most the chunk already read reaches the client, whatever the
    target still sends. *)
Theorem half_close_truncates data es p id c d :
  frun choose (started data) es = Some p -> p_table p !! id = Some c ->
  c_stage c = Piping -> copying (half_of d c) = false ->
  exists p1, fstep choose p (EReturn id) = Some p1 /\
    forall es' p', frun choose p1 es' = Some p' ->
      exists c', p_table p' !! id = Some c' /\ delivered (up c') = delivered (up c) /\
        delivered (down c') `prefix_of` delivered (down c) ++ held (down c).
Proof.
  intros E Hc Hs Hd. pose proof (proxy_ok_run choose _ _ _ (proxy_ok_started data) E) as Hp.
  pose proof (ck_stage c (pk_conn p Hp _ _ Hc)) as Hk. rewrite Hs in Hk. destruct Hk as [_ Hk].
  assert (Hn : exists n, errCh c = S n).
  { destruct (errCh c) as [|n]; [|by eexists]. unfold running in Hk.
    destruct d; simpl in Hd; rewrite Hd in Hk; simpl in Hk; case_match; simpl in Hk; lia. }
  destruct Hn as [n Hn].
  set (c1 := mkConn Returning (in_open c) false (c_target c) (up c) (down c) n).
  assert (E1 : fstep choose p (EReturn id) = Some (set_conn p id c1)).
  { apply (at_conn_result p id c); [done|]. unfold handler_return. by rewrite decide_True, Hn. }
  eexists. split; [exact E1|]. intros es' p' E'.
  destruct (run_flushes es' (set_conn p id c1) p' id c1) as (c' & Hc' & _ & Hu & Hdn);
    [by eapply proxy_ok_step|apply lookup_insert_eq|done|done|].
  exists c'. split_and!; [done|done|]. etrans; [|exact Hdn]. by apply prefix_app_r.
Qed.

(** ** Closing the proxy *)

Lemma moves_in_closed c c' : in_open c = false -> conn_moves c c' -> in_open c' = false.
Proof.
  intros Hin [|Ha|t Hr|Hr|c1 Hc|c1 Hr|c1 Hc|Hd|]; try done.
  - destruct Hc as [[d [n E]]|[[d [err E]]|[[d [err E]]|[[d [data E]]|[d E]]]]];
      unfold copy_read, copy_write, copy_end, copy_done, peer_send, peer_fin in E; conn_step; by destruct d.
  - unfold handler_return in Hr. conn_step. destruct (errCh c); [done|]. by injection Hr as <-.
  - unfold close_in in Hc. by conn_step.
Qed.

Lemma run_in_closed es p p' id c :
  proxy_ok p -> p_table p !! id = Some c -> in_open c = false -> frun choose p es = Some p' ->
  exists c', p_table p' !! id = Some c' /\ in_open c' = false.
Proof.
  revert p c. induction es as [|e es IH]; intros p c Hp Hc Hin E; simpl in E.
  { injection E as <-. eauto. }
  destruct (fstep choose p e) as [p1|] eqn:E1; [|done].
  destruct (fstep_moves choose _ _ _ _ _ Hp Hc E1) as (c1 & Hc1 & Hm).
  eapply (IH p1 c1); eauto using proxy_ok_step, moves_in_closed.
Qed.

(** No step reopens a listener or revives the accept loop, and only [accept] makes a
    connection. *)
Definition deaf p : Prop := p_listener p && p_loop p = false.

Definition stays_deaf p p' : Prop :=
  deaf p' /\ p_next p' = p_next p /\ (p_closed p = true -> p_closed p' = true).

Lemma at_conn_deaf p id f p' : deaf p -> at_conn p id f = Some p' -> stays_deaf p p'.
Proof.
  intros Hd E. unfold at_conn in E. destruct (p_table p !! id) as [c|]; [|done]. simpl in E.
  destruct (f c) as [c'|]; [|done]. by injection E as <-.
Qed.

Lemma step_deaf p e p' : deaf p -> fstep choose p e = Some p' -> stays_deaf p p'.
Proof.
  intros Hl E. destruct e; simpl in E; try (by eapply at_conn_deaf);
    try (destruct (p_table p !! id) as [c|]; [|done]; simpl in E).
  - unfold accept in E. unfold deaf in Hl. rewrite andb_comm in Hl. by rewrite Hl in E.
  - unfold accept_error in E. conn_step. split_and!; [|done..]. unfold deaf. simpl. apply andb_false_r.
  - unfold register in E. by conn_step.
  - unfold dial in E. conn_step.
    destruct (choose _ _) as [dt [t|]]; [destruct ok|]; by injection E as <-.
  - unfold unregister in E. by conn_step.
  - injection E as <-. unfold ProxyClose. by destruct (p_closed p) eqn:?.
Qed.

Lemma run_deaf es p p' : deaf p -> frun choose p es = Some p' -> stays_deaf p p'.
Proof.
  revert p. induction es as [|e es IH]; intros p Hl E; simpl in E; [by injection E as <-|].
  destruct (fstep choose p e) as [p1|] eqn:E1; [|done].
  destruct (step_deaf _ _ _ Hl E1) as (Ha & Hb & Hd). destruct (IH _ Ha E) as (H1 & H2 & H3).
  split_and!; [done|congruence|auto].
Qed.

(** [Close] stops a proxy: from then on, whatever happens, it accepts no connection,
    its listener stays closed, and every connection that was in its map has its
    client side closed; a second [Close] changes nothing. *)
Theorem close_stops data es p :
  frun choose (started data) es = Some p ->
  ProxyClose (ProxyClose p) = ProxyClose p /\
  forall es' p', frun choose (ProxyClose p) es' = Some p' ->
    p_closed p' = true /\ p_listener p' = false /\ p_next p' = p_next p /\
    forall id, id ∈ p_conns p -> p_closed p = false ->
      exists c', p_table p' !! id = Some c' /\ in_open c' = false.
Proof.
  intros E. pose proof (proxy_ok_run choose _ _ _ (proxy_ok_started data) E) as Hp.
  pose proof (proxy_ok_close p Hp) as Hp1.
  assert (Hc1 : p_closed (ProxyClose p) = true) by (unfold ProxyClose; by destruct (p_closed p) eqn:?).
  assert (Hn1 : p_next (ProxyClose p) = p_next p) by (unfold ProxyClose; by destruct (p_closed p)).
  split; [by unfold ProxyClose at 1; rewrite Hc1|]. intros es' p' E'.
  assert (Hd : deaf (ProxyClose p)) by (unfold deaf; by rewrite (pk_closed _ Hp1)).
  destruct (run_deaf es' _ _ Hd E') as (_ & Hn & Hc).
  pose proof (proxy_ok_run choose _ _ _ Hp1 E') as Hp'. split_and!.
  - by apply Hc.
  - apply (pk_closed _ Hp'). by apply Hc.
  - congruence.
  - intros id Hid Hcl. pose proof Hid as (c & Hl & _)%(pk_conns p Hp).
    apply (run_in_closed es' (ProxyClose p) p' id (shut c)); [done| |done|done].
    rewrite shut_table, Hl. simpl. by rewrite decide_True.
Qed.

(** A connection accepted but not yet registered when [Close] runs is missed: its
    handler registers, dials and copies on a proxy that is closed. *)
Theorem close_misses_accepted data es p id c x t :
  frun choose (started data) es = Some p -> p_table p !! id = Some c -> c_stage c = Accepted ->
  in_open c = true -> (choose (p_data p) x).2 = Some t -> p_closed p = false ->
  exists p' c', frun choose p [EClose; ERegister id; EDial id x true] = Some p' /\
    p_closed p' = true /\ p_table p' !! id = Some c' /\ c_stage c' = Piping /\
    in_open c' = true /\ out_open c' = true.
Proof.
  intros E Hc Hs Hin Ht Hcl. pose proof (proxy_ok_run choose _ _ _ (proxy_ok_started data) E) as Hp.
  assert (Hni : id ∉ p_conns p).
  { rewrite (pk_conns p Hp). intros (c0 & Hc0 & Hr). simplify_eq. by rewrite Hs in Hr. }
  assert (Ed : p_data (ProxyClose p) = p_data p) by (unfold ProxyClose; by destruct (p_closed p)).
  assert (Ec : p_closed (ProxyClose p) = true) by (unfold ProxyClose; by rewrite Hcl).
  cbn [frun fstep mbind option_bind]. rewrite shut_table, Hc. cbn [fmap option_fmap option_map mbind option_bind].
  rewrite decide_False by naive_solver. unfold register. rewrite decide_True by done.
  cbn [mbind option_bind set_conns set_conn p_table]. rewrite lookup_insert_eq. cbn [mbind option_bind].
  unfold dial. simpl. rewrite Ed. destruct (choose (p_data p) x) as [dt tg]. simpl in Ht. subst tg.
  do 2 eexists. split; [reflexivity|]. simpl. rewrite lookup_insert_eq. done.
Qed.

(** Any error of [Accept] ends the loop for good, also a passing one (the process is
    out of file descriptors, say): the proxy is not closed, its listener stays open
    and the port stays taken, but no connection is ever accepted again. *)
Theorem accept_error_is_final p p1 :
  accept_error p = Some p1 ->
  p_listener p1 = p_listener p /\ p_closed p1 = p_closed p /\
  forall es p', frun choose p1 es = Some p' -> p_next p' = p_next p.
Proof.
  intros E. unfold accept_error in E. conn_step. split_and!; [done..|]. intros es p' E'.
  apply run_deaf in E' as (_ & Hn & _); [exact Hn|]. apply andb_false_r.
Qed.
End Properties.

(** ** Load balancing under concurrency *)

Definition is_dial {X} (e : event X) : bool := match e with EDial _ _ _ => true | _ => false end.

(** The dials of an interleaving in which every listing of the pods is [pods]. *)
Definition lists_pods (pods : list Pod) (e : event (list Pod)) : Prop :=
  match e with EDial _ x _ => x = pods | _ => True end.

Lemma fstep_dials (p p' : proxy ServiceProxy) e pods :
  lists_pods pods e -> fstep next_backend p e = Some p' ->
  if is_dial e
  then p_data p' = (pick_backend (p_data p) pods).1 /\
       p_dials p' = p_dials p ++ option_list (backend_addr <$> (pick_backend (p_data p) pods).2)
  else p_data p' = p_data p /\ p_dials p' = p_dials p.
Proof.
  intros Hl E.
  assert (Hat : forall id f, at_conn p id f = Some p' -> p_data p' = p_data p /\ p_dials p' = p_dials p).
  { intros id f Ea. unfold at_conn in Ea. destruct (p_table p !! id); [|done]. simpl in Ea.
    destruct (f _); [|done]. by injection Ea as <-. }
  destruct e; simpl in *; try (by eapply Hat); try (destruct (p_table p !! id) as [c|]; [|done]; simpl in E).
  - unfold accept in E. by conn_step.
  - unfold accept_error in E. by conn_step.
  - unfold register in E. by conn_step.
  - subst x. unfold dial, next_backend in E. conn_step.
    destruct (pick_backend (p_data p) pods) as [sp [port|]]; [destruct ok|]; simpl in *;
      injection E as <-; by rewrite ?app_nil_r.
  - unfold unregister in E. by conn_step.
  - injection E as <-. unfold ProxyClose. by destruct (p_closed p).
Qed.

Lemma service_dials pods es (p p' : proxy ServiceProxy) :
  Forall (lists_pods pods) es -> service_run p es = Some p' ->
  p_dials p' = p_dials p ++
    omap (fmap backend_addr) (picks (p_data p) pods (length (List.filter is_dial es))).
Proof.
  unfold service_run. intros Hl. revert p. induction Hl as [|e es He Hl IH]; intros p E; simpl in E.
  { injection E as <-. by rewrite app_nil_r. }
  destruct (fstep next_backend p e) as [p1|] eqn:E1; [|done].
  pose proof (fstep_dials _ _ _ _ He E1) as Hd. rewrite (IH _ E). simpl.
  destruct (is_dial e); destruct Hd as [-> ->]; [|done]. simpl.
  destruct (pick_backend (p_data p) pods) as [sp [port|]]; simpl; by rewrite <- ?(assoc_L (++)).
Qed.

(** C13. The load balancing is fair under concurrency, from any state of the proxy: in any
    interleaving of connections during which the pods listed stay the same and come in
    the same order, [k] times as many dials as there are backends go to every backend
    exactly [k] times, wherever the counter stood before, as long as it does not wrap
    around at 64 bits meanwhile.  The order of a listing is that of a range over a map,
    which Go does not fix: see [SvcProxy.reordered_listing_repeats]. *)
Theorem service_balances pods es (p0 p : proxy ServiceProxy) k :
  let backends := getBackends (p_data p0) pods in
  backends <> [] -> Forall (lists_pods pods) es ->
  length (List.filter is_dial es) = k * length backends ->
  (0 <= nextIdx (p_data p0))%Z -> (nextIdx (p_data p0) + Z.of_nat (k * length backends) <= 2 ^ 64)%Z ->
  service_run p0 es = Some p ->
  exists dialed, p_dials p = p_dials p0 ++ dialed /\
    dialed ≡ₚ concat (replicate k (backend_addr <$> backends)).
Proof.
  intros backends Hne Hl Hlen H0 Hk E. rewrite (service_dials pods es _ _ Hl E), Hlen.
  eexists. split; [done|]. unfold backends.
  rewrite (picks_fair (p_data p0) pods k) by done. fold backends. clearbody backends. clear.
  induction k as [|k IH]; [done|]. simpl. rewrite omap_app, IH.
  apply Permutation_app; [|done]. apply Permutation_refl'. generalize backends as l.
  intros l. induction l as [|b l IHl]; [done|]. simpl. f_equal. exact IHl.
Qed.

(** ** Runs *)

Definition ex_raw (es : list (event unit)) : option (proxy string) :=
  raw_run (started "127.0.0.1:8080") es.

(** A client sends a request and shuts down its side; the target answers. *)
Definition ex_request_es : list (event unit) :=
  [EAccept; ERegister 0; EDial 0 tt true; ESend 0 Up (bytes_of "GET"); EFin 0 Up; ERead 0 Up 3;
   EWrite 0 Up false; EEnd 0 Up false; ESend 0 Down (bytes_of "reply")].

(** The connection [id] of the proxy a run ends in. *)
Definition conn_after (r : option (proxy string)) (id : nat) : option conn :=
  p ← r; p_table p !! id.

Lemma conn_after_inv {A} (f : conn -> A) r id a :
  f <$> conn_after r id = Some a ->
  exists p c, r = Some p /\ p_table p !! id = Some c /\ f c = a.
Proof.
  unfold conn_after. destruct r as [p|]; [|done]. simpl.
  destruct (p_table p !! id) as [c|] eqn:E; [|done]. intros [= <-]. by exists p, c.
Qed.

Definition ex_view (c : conn) : stage * bool * bytes * bytes * bytes :=
  (c_stage c, copying (up c), delivered (up c), delivered (down c), held (down c)).

Lemma ex_request_runs :
  ex_view <$> conn_after (ex_raw ex_request_es) 0 = Some (Piping, false, bytes_of "GET", [], []).
Proof. vm_compute. reflexivity. Qed.

Lemma forward_streams_witness :
  exists p c, ex_raw ex_request_es = Some p /\ p_table p !! 0 = Some c /\
    delivered (up c) = bytes_of "GET" /\ delivered (up c) `prefix_of` sent (up c).
Proof.
  destruct (conn_after_inv _ _ _ _ ex_request_runs) as (p & c & E & Hc & [= _ _ Hd _ _]).
  exists p, c. split_and!; [done|done|done|].
  exact (proj1 (forward_streams fixed_target "127.0.0.1:8080" ex_request_es p 0 c Up E Hc)).
Defined.

(** The handler of [ex_request_es] can return before the reply was copied, which the
    client then never gets. *)
Lemma half_close_truncates_witness :
  exists p p1, ex_raw ex_request_es = Some p /\ fstep fixed_target p (EReturn 0) = Some p1 /\
    forall es' p', raw_run p1 es' = Some p' ->
      exists c', p_table p' !! 0 = Some c' /\ delivered (down c') = [].
Proof.
  destruct (conn_after_inv _ _ _ _ ex_request_runs) as (p & c & E & Hc & [= Hs Hcp _ Hd Hh]).
  destruct (half_close_truncates fixed_target "127.0.0.1:8080" ex_request_es p 0 c Up E Hc Hs Hcp)
    as (p1 & E1 & Hall).
  exists p, p1. split_and!; [done|exact E1|]. intros es' p' E'.
  destruct (Hall es' p' E') as (c' & Hc' & _ & Hpre). exists c'. split; [done|].
  rewrite Hd, Hh in Hpre. by apply prefix_nil_inv in Hpre.
Defined.

Definition ex_gone_es : list (event unit) :=
  ex_request_es ++ [EReturn 0; ECloseIn 0; EUnregister 0].

Lemma forward_no_leak_witness :
  exists p c, ex_raw ex_gone_es = Some p /\ p_table p !! 0 = Some c /\
    0 ∉ p_conns p /\ in_open c = false /\ copying (down c) = true.
Proof.
  assert (Hv : (fun c => (c_stage c, copying (down c))) <$> conn_after (ex_raw ex_gone_es) 0 =
    Some (Gone, true)) by (vm_compute; reflexivity).
  destruct (conn_after_inv _ _ _ _ Hv) as (p & c & E & Hc & [= Hs Hcp]).
  destruct (forward_no_leak fixed_target "127.0.0.1:8080" ex_gone_es p 0 c E Hc Hs)
    as (Hn & Hi & _ & _).
  exists p, c. by split_and!.
Defined.

Definition ex_accepted_es : list (event unit) := [EAccept; ERegister 0; EAccept].

Lemma close_stops_witness :
  exists p, ex_raw ex_accepted_es = Some p /\
    forall es' p', raw_run (ProxyClose p) es' = Some p' -> p_next p' = 2 /\ p_listener p' = false.
Proof.
  assert (Hv : p_next <$> ex_raw ex_accepted_es = Some 2) by (vm_compute; reflexivity).
  destruct (ex_raw ex_accepted_es) as [p|] eqn:E; [|discriminate Hv].
  injection Hv as Hn. exists p. split; [done|]. intros es' p' E'.
  destruct (close_stops fixed_target "127.0.0.1:8080" ex_accepted_es p E) as [_ Hall].
  destruct (Hall es' p' E') as (_ & Hl & Hn' & _). by rewrite Hn'.
Defined.

(** The second connection of [ex_accepted_es] is not yet registered. *)
Lemma close_misses_accepted_witness :
  exists p p' c', ex_raw ex_accepted_es = Some p /\
    raw_run p [EClose; ERegister 1; EDial 1 tt true] = Some p' /\ p_closed p' = true /\
    p_table p' !! 1 = Some c' /\ in_open c' = true /\ out_open c' = true.
Proof.
  assert (Hv : (fun c => (c_stage c, in_open c)) <$> conn_after (ex_raw ex_accepted_es) 1 =
    Some (Accepted, true)) by (vm_compute; reflexivity).
  destruct (conn_after_inv _ _ _ _ Hv) as (p & c & E & Hc & [= Hs Hi]).
  assert (Hcl : p_closed <$> ex_raw ex_accepted_es = Some false) by (vm_compute; reflexivity).
  rewrite E in Hcl. injection Hcl as Hcl.
  destruct (close_misses_accepted fixed_target "127.0.0.1:8080" ex_accepted_es p 1 c tt (p_data p)
    E Hc Hs Hi eq_refl Hcl) as (p' & c' & E' & H1 & H2 & _ & H3 & H4).
  exists p, p', c'. by split_and!.
Defined.

Definition ex_web_pods : list Pod := [ex_backend 8001; ex_backend 8002].

(** A proxy that has made a choice before. *)
Definition ex_chosen : proxy ServiceProxy :=
  started (pick_backend (NewServiceProxy (ex_svc "web" 80)) ex_web_pods).1.

Definition ex_two_dials : list (event (list Pod)) :=
  [EAccept; EAccept; ERegister 1; ERegister 0; EDial 0 ex_web_pods true; EDial 1 ex_web_pods false].

Lemma service_balances_witness :
  exists p, service_run ex_chosen ex_two_dials = Some p /\
    p_dials p ≡ₚ ["127.0.0.1:8001"; "127.0.0.1:8002"].
Proof.
  destruct (service_run _ _) as [p|] eqn:E.
  - exists p. split; [done|].
    destruct (service_balances ex_web_pods ex_two_dials ex_chosen p 1 ltac:(by vm_compute) ltac:(repeat constructor)
      eq_refl ltac:(by vm_compute) ltac:(by vm_compute) E) as (dialed & Ed & Hd).
    rewrite Ed. exact Hd.
  - apply (f_equal (fun r => match r with Some _ => true | None => false end)) in E.
    vm_compute in E. discriminate E.
Defined.
