(* ===== verification/Path.v ===== *)
(** * Paths (package [path/filepath] of Go, on Unix)

    [Clean], [Join] and [Dir] as the volume projection and the engines use them,
    and the [location] a path denotes: whether it is rooted and its components
    after the lexical processing of ["."] and [".."]. *)

From S2P Require Import Prelude GoStrings.

Definition rooted (s : string) : bool := HasPrefix s "/".

(** One component on the (reversed) components before it. *)
Definition push (root : bool) (stack : list string) (c : string) : list string :=
  if String.eqb c "" || String.eqb c "." then stack
  else if String.eqb c ".." then
    match stack with
    | top :: rest => if String.eqb top ".." then c :: stack else rest
    | [] => if root then [] else [c]
    end
  else c :: stack.

Definition comps (root : bool) (s : string) : list string :=
  rev (foldl (push root) [] (Split s "/")).

Abbreviation location_t := (bool * list string)%type.
Definition location (s : string) : location_t := (rooted s, comps (rooted s) s).

(** [filepath.Clean] *)
Definition Clean (s : string) : string :=
  match location s with
  | (true, cs) => "/" +:+ Join cs "/"
  | (false, []) => "."
  | (false, cs) => Join cs "/"
  end.

(** [filepath.Join]: leading empty elements are skipped. *)
Fixpoint PathJoin (elems : list string) : string :=
  match elems with
  | [] => ""
  | e :: rest => if String.eqb e "" then PathJoin rest else Clean (Join elems "/")
  end.

(** [filepath.Dir]: everything up to the last slash. *)
Definition Dir (s : string) : string := Clean (Join (removelast (Split s "/") ++ [""]) "/").

(** A single path component with no special meaning. *)
Definition plain (s : string) : Prop :=
  s <> "" /\ s <> "." /\ s <> ".." /\ lacks "/" s = true.

#[export] Instance plain_dec s : Decision (plain s).
Proof. unfold plain. apply _. Defined.

Lemma push_plain r st c : plain c -> push r st c = c :: st.
Proof.
  intros (H1 & H2 & H3 & _). unfold push.
  by rewrite (proj2 (String.eqb_neq c "")), (proj2 (String.eqb_neq c ".")),
    (proj2 (String.eqb_neq c "..")) by done.
Qed.

Lemma push_dotdot r c st : c <> ".." -> push r (c :: st) ".." = st.
Proof. intros Hc. unfold push. simpl. by rewrite (proj2 (String.eqb_neq c "..")). Qed.

Lemma foldl_push_plain r st cs : Forall plain cs -> foldl (push r) st cs = rev cs ++ st.
Proof.
  intros Hp. revert st. induction Hp as [|c cs Hc _ IH]; intros st; [done|].
  cbn [foldl rev]. by rewrite push_plain, IH, <- app_assoc by done.
Qed.

Lemma Split_parts_lack c s : Forall (fun p => lacks c p = true) (Split s (String c EmptyString)).
Proof.
  unfold Split. induction s as [|d s IH]; cbn [split_from]; [by repeat constructor|].
  destruct (HasPrefix (String d s) (String c "")) eqn:E; [by constructor|].
  assert (Hne : c <> d). { intros <-. by rewrite HasPrefix_cons, HasPrefix_empty in E. }
  destruct (split_from _ s 0) as [|p ps]; [constructor|].
  apply Forall_cons in IH as [Hp Hps]. constructor; [|done]. by apply lacks_cons.
Qed.

Lemma foldl_push_root st parts :
  Forall plain st -> Forall (fun p => lacks "/" p = true) parts ->
  Forall plain (foldl (push true) st parts).
Proof.
  intros Hst Hp. revert st Hst. induction Hp as [|c cs Hc _ IH]; intros st Hst; [done|].
  apply IH. unfold push.
  destruct (String.eqb c "") eqn:E1; [done|]. destruct (String.eqb c ".") eqn:E2; [done|].
  bool_z. simpl. destruct (String.eqb c "..") eqn:E3; bool_z; [|by constructor].
  destruct Hst as [|top rest Htop Hrest]; [done|].
  destruct (String.eqb top "..") eqn:E4; bool_z; [|done]. by destruct Htop as (_ & _ & ? & _).
Qed.

Lemma comps_root_plain s : Forall plain (comps true s).
Proof.
  apply Forall_rev. apply foldl_push_root; [constructor|apply Split_parts_lack].
Qed.

Lemma comps_slash r a b :
  comps r (a +:+ "/" +:+ b) = rev (foldl (push r) (rev (comps r a)) (Split b "/")).
Proof. unfold comps. by rewrite Split_char_app, foldl_app, rev_involutive. Qed.

Lemma Split_Join_plain cs : Forall plain cs -> cs <> [] -> Split (Join cs "/") "/" = cs.
Proof.
  intros Hp. apply Split_Join, (Forall_impl plain); [done|]. intros c (_ & _ & _ & Hc). done.
Qed.

Lemma comps_Join_plain cs : Forall plain cs -> comps true ("/" +:+ Join cs "/") = cs.
Proof.
  intros Hp. change ("/" +:+ Join cs "/") with ("" +:+ "/" +:+ Join cs "/").
  rewrite comps_slash. simpl. destruct (decide (cs = [])) as [->|Hne]; [done|].
  by rewrite Split_Join_plain, foldl_push_plain, app_nil_r, rev_involutive.
Qed.

(** Cleaning does not change what a rooted path denotes. *)
Lemma location_rooted s : rooted s = true -> location s = (true, comps true s).
Proof. unfold location. by intros ->. Qed.

Lemma rooted_app a b : rooted a = true -> rooted (a +:+ b) = true.
Proof.
  destruct a as [|c a]; [done|]. unfold rooted. rewrite append_cons.
  destruct (ascii_dec "/" c) as [<-|Hne].
  - by rewrite !HasPrefix_cons, !HasPrefix_empty.
  - by rewrite prefix_char_ne.
Qed.

Lemma location_Clean s : rooted s = true -> location (Clean s) = location s.
Proof.
  intros Hr. unfold Clean. rewrite !(location_rooted s) by done. rewrite location_rooted.
  - by rewrite comps_Join_plain by apply comps_root_plain.
  - apply (rooted_app "/"). done.
Qed.

(** [Join] below a rooted directory. *)
Lemma location_PathJoin d es :
  rooted d = true ->
  location (PathJoin (d :: es)) =
    (true, rev (foldl (push true) (rev (comps true d))
       (flat_map (fun e => Split e "/") es))).
Proof.
  intros Hr. unfold PathJoin. destruct (String.eqb d "") eqn:E; bool_z; [by subst|].
  assert (HJ : rooted (Join (d :: es) "/") = true /\
    comps true (Join (d :: es) "/") = rev (foldl (push true) (rev (comps true d))
       (flat_map (fun e => Split e "/") es))); [|].
  - clear E. revert d Hr. induction es as [|e es IH]; intros d Hr.
    + simpl. by rewrite rev_involutive.
    + change (Join (d :: e :: es) "/") with (d +:+ "/" +:+ Join (e :: es) "/").
      split; [by apply rooted_app|].
      destruct (IH (d +:+ "/" +:+ e)) as [_ E]; [by apply rooted_app|].
      transitivity (comps true (Join ((d +:+ "/" +:+ e) :: es) "/")).
      * f_equal. destruct es; [done|]. cbn [Join]. by rewrite !append_assoc.
      * rewrite E, comps_slash, rev_involutive. cbn [flat_map]. by rewrite foldl_app.
  - destruct HJ as [Hj E2]. by rewrite location_Clean, location_rooted, E2.
Qed.

Lemma Split_plain c : plain c -> Split c "/" = [c].
Proof. intros (_ & _ & _ & H). by apply (Split_lacks "/"). Qed.

(** Plain elements are appended to the directory. *)
Lemma location_PathJoin_plain d es :
  rooted d = true -> Forall plain es ->
  location (PathJoin (d :: es)) = (true, comps true d ++ es).
Proof.
  intros Hr Hp. rewrite location_PathJoin by done.
  replace (flat_map (fun e => Split e "/") es) with es.
  - by rewrite foldl_push_plain, rev_app_distr, !rev_involutive by done.
  - induction Hp as [|e es He _ IH]; [done|]. cbn [flat_map]. by rewrite Split_plain, <- IH.
Qed.

Lemma rooted_PathJoin d es : rooted d = true -> rooted (PathJoin (d :: es)) = true.
Proof.
  intros Hr. pose proof (location_PathJoin d es Hr) as E. by injection E as E _.
Qed.

Lemma comps_PathJoin_plain d es :
  rooted d = true -> Forall plain es -> comps true (PathJoin (d :: es)) = comps true d ++ es.
Proof.
  intros Hr Hp. pose proof (location_PathJoin_plain d es Hr Hp) as E.
  unfold location in E. rewrite rooted_PathJoin in E by done. by injection E.
Qed.

(** ** Files

    What the program uses of package [os]; the [bool] of an operation tells
    whether it succeeded.  An entry of [ReadDir] is its name, whether it is a
    directory, and its permissions. *)

Class FS (F : Type) := {
  MkdirAll : F -> string -> F * bool;
  WriteFile : F -> string -> bytes -> Z -> F * bool;
  RemoveAll : F -> string -> F * bool;
  Stat : F -> string -> bool;
  ReadFile : F -> string -> option bytes;
  ReadDir : F -> string -> option (list (string * bool * Z));
  Symlink : F -> string -> string -> F * bool;
  file_at : F -> location_t -> option bytes;
}.

(** [l] is [p] or lies below it. *)
Definition under (p l : location_t) : Prop := p.1 = l.1 /\ p.2 `prefix_of` l.2.

#[export] Instance under_dec p l : Decision (under p l).
Proof. unfold under. apply _. Defined.

(** Regular files, addressed by location, as long as no symbolic link is crossed.  A
    removal that fails may have removed some of the files. *)
Class FSLaws (F : Type) `{FS F} : Prop := {
  MkdirAll_files f p l : file_at (MkdirAll f p).1 l = file_at f l;
  WriteFile_same f p data mode f' :
    WriteFile f p data mode = (f', true) -> file_at f' (location p) = Some data;
  WriteFile_other f p data mode l :
    l <> location p -> file_at (WriteFile f p data mode).1 l = file_at f l;
  RemoveAll_other f p l :
    ~ under (location p) l -> file_at (RemoveAll f p).1 l = file_at f l;
  RemoveAll_some f p l :
    under (location p) l -> file_at (RemoveAll f p).1 l = None \/ file_at (RemoveAll f p).1 l = file_at f l;
  RemoveAll_all f p f' l :
    RemoveAll f p = (f', true) -> under (location p) l -> file_at f' l = None;
}.

(** Files in memory, for the witnesses: the last write first. *)
Definition memfiles : Type := list (location_t * bytes).

Fixpoint mem_at (f : memfiles) (l : location_t) : option bytes :=
  match f with
  | [] => None
  | (p, b) :: f => if decide (p = l) then Some b else mem_at f l
  end.

#[export] Instance mem_FS : FS memfiles := {
  MkdirAll f p := (f, true);
  WriteFile f p data mode := ((location p, data) :: f, true);
  RemoveAll f p := (List.filter (fun lb => negb (bool_decide (under (location p) lb.1))) f, true);
  Stat f p := bool_decide (is_Some (mem_at f (location p)));
  ReadFile f p := mem_at f (location p);
  ReadDir f p := None;
  Symlink f p q := (f, false);
  file_at := mem_at;
}.

Lemma mem_RemoveAll (f : memfiles) p l :
  mem_at (RemoveAll f p).1 l = if decide (under (location p) l) then None else mem_at f l.
Proof.
  simpl. induction f as [|[q b] f IH]; simpl; [by case_decide|].
  destruct (decide (q = l)) as [<-|Hne]; case_bool_decide as Hq; simpl; rewrite ?IH.
  - by rewrite !decide_True.
  - rewrite decide_True by done. by rewrite decide_False.
  - done.
  - by rewrite decide_False.
Qed.

#[export] Instance mem_FSLaws : FSLaws memfiles.
Proof.
  split.
  - done.
  - intros f p data mode f' [= <-]. simpl. by rewrite decide_True.
  - intros f p data mode l Hne. simpl. by rewrite decide_False.
  - intros f p l Hu. change (mem_at (RemoveAll f p).1 l = mem_at f l). by rewrite mem_RemoveAll, decide_False.
  - intros f p l Hu. left. change (mem_at (RemoveAll f p).1 l = None). by rewrite mem_RemoveAll, decide_True.
  - intros f p f' l E Hu. change (mem_at f' l = None).
    replace f' with (RemoveAll f p).1 by (by rewrite E). by rewrite mem_RemoveAll, decide_True.
Qed.
