(* ===== verification/Volume.v ===== *)
(** * Volume projection (src/volume/projection.go)

    The ConfigMaps and Secrets a pod mounts are written out as files under
    [$TMPDIR/lok8s-volumes/<uid>/<volume>], and removed with the pod. *)

From S2P Require Import Prelude Types GoStrings Store Stores Path.

Inductive vol_error :=
| UIDRequired
| MkdirFailed (vol : string)
| ConfigMapNotFound (name vol : string)
| SecretNotFound (name vol : string)
| WriteKeyFailed (key vol : string).

Section Volume.
Context {F : Type} `{FS F} {T : Type}.
Context (TempDir : string).
Implicit Types (f : F) (pod : Pod) (store : ConfigStore T).

Definition podVolumesRoot pod : string :=
  PathJoin [TempDir; "lok8s-volumes"; UID (podMeta pod)].

Definition volDir pod (vol : Volume) : string :=
  PathJoin [TempDir; "lok8s-volumes"; UID (podMeta pod); volName vol].

Definition CleanupVolumes f pod : F :=
  if String.eqb (UID (podMeta pod)) "" then f else (RemoveAll f (podVolumesRoot pod)).1.

(** The loop over the keys: the key that could not be written, if any. *)
Fixpoint write_entries f (dir : string) (mode : Z) (entries : list (string * bytes))
    : F * option string :=
  match entries with
  | [] => (f, None)
  | (k, v) :: rest =>
      match WriteFile f (PathJoin [dir; k]) v mode with
      | (f, true) => write_entries f dir mode rest
      | (f, false) => (f, Some k)
      end
  end.

(** The data a volume projects and the mode of its files; no source, no files. *)
Definition volume_data store pod (vol : Volume)
    : res vol_error (list (string * bytes) * Z) :=
  match volConfigMap vol with
  | Some src =>
      match LoadConfigMap store (Namespace (podMeta pod)) (cmvName src) with
      | None => Err (ConfigMapNotFound (cmvName src) (volName vol))
      | Some cm =>
          Ok ((fun kv => (kv.1, bytes_of kv.2)) <$> map_to_list (default ∅ (cmData cm)), 420%Z)
      end
  | None =>
      match volSecret vol with
      | Some src =>
          match LoadSecret store (Namespace (podMeta pod)) (svSecretName src) with
          | None => Err (SecretNotFound (svSecretName src) (volName vol))
          | Some sec => Ok (map_to_list (default ∅ (secData sec)), 256%Z)
          end
      | None => Ok ([], 0%Z)
      end
  end.

(** One turn of the loop over the volumes, before the clean-up of its errors. *)
Definition project_volume (o : shuffle (string * bytes)) f store pod (vol : Volume)
    : F * res vol_error string :=
  let dir := volDir pod vol in
  match MkdirAll f dir with
  | (f, false) => (f, Err (MkdirFailed (volName vol)))
  | (f, true) =>
      match volume_data store pod vol with
      | Err e => (f, Err e)
      | Panic w => (f, Panic w)
      | Ok (entries, mode) =>
          match write_entries f dir mode (o entries) with
          | (f, Some k) => (f, Err (WriteKeyFailed k (volName vol)))
          | (f, None) => (f, Ok dir)
          end
      end
  end.

Fixpoint project_volumes (o : Volume -> shuffle (string * bytes)) f store pod
    (vols : list Volume) (projected : gmap string string)
    : F * res vol_error (gmap string string) :=
  match vols with
  | [] => (f, Ok projected)
  | vol :: rest =>
      match project_volume (o vol) f store pod vol with
      | (f, Ok dir) => project_volumes o f store pod rest (<[volName vol := dir]> projected)
      | (f, Err e) => (CleanupVolumes f pod, Err e)
      | (f, Panic w) => (f, Panic w)
      end
  end.

(** [o] orders the range over the data of each volume. *)
Definition ProjectVolumes (o : Volume -> shuffle (string * bytes)) f store pod
    : F * res vol_error (gmap string string) :=
  if String.eqb (UID (podMeta pod)) "" then (f, Err UIDRequired)
  else project_volumes o f store pod (Volumes (podSpec pod)) ∅.
End Volume.

Section Laws.
Context {F : Type} `{HFS : FSLaws F} {T : Type}.
Context (TempDir : string) (Hroot : rooted TempDir = true).
Implicit Types (f : F) (pod : Pod) (store : ConfigStore T).

(** Where the files of a pod, of a volume and of a key go. *)
Definition base pod : list string :=
  comps true TempDir ++ ["lok8s-volumes"; UID (podMeta pod)].
Definition vol_at pod (vol : Volume) : list string := base pod ++ [volName vol].
Definition key_at pod (vol : Volume) (k : string) : location_t := (true, vol_at pod vol ++ [k]).

(** The identifier, the volume names and the keys are plain file names. *)
Record plain_names store pod : Prop := {
  pn_uid : plain (UID (podMeta pod));
  pn_vol : forall vol, vol ∈ Volumes (podSpec pod) -> plain (volName vol);
  pn_key : forall vol data mode k v, vol ∈ Volumes (podSpec pod) ->
    volume_data store pod vol = Ok (data, mode) -> (k, v) ∈ data -> plain k;
}.

Lemma plain_lok8s : plain "lok8s-volumes".
Proof. done. Qed.

Ltac plain_list := rewrite !Forall_cons, Forall_nil; auto using plain_lok8s.

Lemma volDir_rooted pod vol : rooted (volDir TempDir pod vol) = true.
Proof. by apply rooted_PathJoin. Qed.

Lemma comps_volDir pod vol :
  plain (UID (podMeta pod)) -> plain (volName vol) ->
  comps true (volDir TempDir pod vol) = vol_at pod vol.
Proof.
  intros Hu Hv. unfold volDir, vol_at, base.
  rewrite comps_PathJoin_plain by (done || plain_list).
  by rewrite <- app_assoc.
Qed.

Lemma location_key pod vol k :
  plain (UID (podMeta pod)) -> plain (volName vol) -> plain k ->
  location (PathJoin [volDir TempDir pod vol; k]) = key_at pod vol k.
Proof.
  intros Hu Hv Hk.
  rewrite location_PathJoin_plain by (apply volDir_rooted || plain_list).
  by rewrite comps_volDir.
Qed.

Lemma location_root pod :
  plain (UID (podMeta pod)) -> location (podVolumesRoot TempDir pod) = (true, base pod).
Proof.
  intros Hu. unfold podVolumesRoot.
  by rewrite location_PathJoin_plain by (done || plain_list).
Qed.

Lemma volume_data_NoDup store pod vol data mode :
  volume_data store pod vol = Ok (data, mode) -> NoDup (data.*1).
Proof.
  unfold volume_data. destruct (volConfigMap vol) as [src|].
  - destruct (LoadConfigMap _ _ _) as [cm|]; [|done]. intros [= <- _].
    rewrite <- list_fmap_compose. apply NoDup_fst_map_to_list.
  - destruct (volSecret vol) as [src|].
    + destruct (LoadSecret _ _ _) as [sec|]; [|done]. intros [= <- _]. apply NoDup_fst_map_to_list.
    + intros [= <- _]. constructor.
Qed.

Lemma write_entries_other f dir mode entries l :
  (forall k v, (k, v) ∈ entries -> l <> location (PathJoin [dir; k])) ->
  file_at (write_entries f dir mode entries).1 l = file_at f l.
Proof.
  revert f. induction entries as [|[k v] entries IH]; intros f Hl; [done|]. cbn [write_entries].
  pose proof (WriteFile_other f (PathJoin [dir; k]) v mode l) as Ho.
  destruct (WriteFile _ _ _ _) as [f1 [|]]; simpl in Ho; [|apply Ho, (Hl k v); by left].
  rewrite IH; [apply Ho, (Hl k v); by left|]. intros k' v' Hin. apply (Hl k' v'). by right.
Qed.

Lemma write_entries_all f dir mode entries f' :
  NoDup (entries.*1) ->
  (forall k k' v v', (k, v) ∈ entries -> (k', v') ∈ entries ->
     location (PathJoin [dir; k]) = location (PathJoin [dir; k']) -> k = k') ->
  write_entries f dir mode entries = (f', None) ->
  forall k v, (k, v) ∈ entries -> file_at f' (location (PathJoin [dir; k])) = Some v.
Proof.
  revert f. induction entries as [|[k0 v0] entries IH]; intros f Hnd Hinj Hw k v Hin.
  { by apply elem_of_nil in Hin. }
  cbn [write_entries] in Hw. rewrite fmap_cons in Hnd. apply NoDup_cons in Hnd as [Hni Hnd].
  destruct (WriteFile _ _ _ _) as [f1 [|]] eqn:EW; [|done].
  apply elem_of_cons in Hin as [[= -> ->]|Hin].
  - pose proof (write_entries_other f1 dir mode entries (location (PathJoin [dir; k0]))) as Ho.
    rewrite Hw in Ho. cbn [fst] in Ho. rewrite Ho; [by eapply WriteFile_same|].
    intros k' v' Hin E. apply Hni. apply Hinj with (v := v0) (v' := v') in E;
      [|by left|by right]. subst. by apply (list_elem_of_fmap_2 fst _ (k', v')).
  - eapply IH; [done| |done|done]. intros k1 k2 v1 v2 H1 H2. eapply Hinj; by right.
Qed.

Lemma key_at_inj pod vol vol' k k' :
  key_at pod vol k = key_at pod vol' k' -> volName vol = volName vol' /\ k = k'.
Proof.
  unfold key_at, vol_at. intros [= E]. rewrite <- !app_assoc in E. apply app_inv_head in E.
  by injection E.
Qed.

(** Everything a turn of the loop writes is a key of its volume. *)
Lemma project_volume_other o f store pod vol l :
  plain_names store pod -> vol ∈ Volumes (podSpec pod) ->
  (forall k, l <> key_at pod vol k) ->
  file_at (project_volume TempDir o f store pod vol).1 l = file_at f l.
Proof.
  intros [Hu Hv Hk] Hin Hl. unfold project_volume.
  pose proof (MkdirAll_files f (volDir TempDir pod vol) l) as Hm.
  destruct (MkdirAll _ _) as [f1 [|]]; simpl in Hm; [|done].
  destruct (volume_data store pod vol) as [[data mode]|e|w] eqn:Ed; [|done..].
  assert (Hw : file_at (write_entries f1 (volDir TempDir pod vol) mode (o data)).1 l = file_at f1 l).
  { apply write_entries_other. intros k v Hd. rewrite elem_of_shuffle in Hd.
    rewrite location_key; [apply Hl|done|by apply Hv|by eapply Hk]. }
  rewrite <- Hm, <- Hw. by destruct (write_entries _ _ _ _) as [f2 [k|]].
Qed.

Lemma project_volume_Ok o f store pod vol f' dir :
  plain_names store pod -> vol ∈ Volumes (podSpec pod) ->
  project_volume TempDir o f store pod vol = (f', Ok dir) ->
  dir = volDir TempDir pod vol /\ exists data mode, volume_data store pod vol = Ok (data, mode) /\
    forall k v, (k, v) ∈ data -> file_at f' (key_at pod vol k) = Some v.
Proof.
  intros [Hu Hv Hk] Hin. unfold project_volume. destruct (MkdirAll _ _) as [f1 [|]]; [|done].
  destruct (volume_data store pod vol) as [[data mode]|e|w] eqn:Ed; [|done..].
  destruct (write_entries _ _ _ _) as [f2 [k|]] eqn:Ew; [done|]. intros [= <- <-].
  split; [done|]. exists data, mode. split; [done|]. intros k v Hd.
  assert (Hloc : forall k v, (k, v) ∈ data ->
    location (PathJoin [volDir TempDir pod vol; k]) = key_at pod vol k).
  { intros k0 v0 Hd0. apply location_key; [done|by apply Hv|by eapply Hk]. }
  rewrite <- (Hloc k v) by done.
  eapply write_entries_all; [| |exact Ew|by rewrite elem_of_shuffle].
  - rewrite (shuffle_perm o). by eapply volume_data_NoDup.
  - intros k1 k2 v1 v2 H1 H2. rewrite elem_of_shuffle in H1. rewrite elem_of_shuffle in H2.
    rewrite (Hloc k1 v1), (Hloc k2 v2) by done. intros E. by apply key_at_inj in E as [_ ?].
Qed.

(** The directory of the pod can be removed: the program does not look whether it was. *)
Definition removable pod : Prop := forall f, (RemoveAll f (podVolumesRoot TempDir pod)).2 = true.

(** The clean-up of a pod touches nothing outside its directory, and leaves nothing there
    when the directory can be removed. *)
Definition cleaned f f' pod : Prop :=
  (forall l, ~ under (true, base pod) l -> file_at f' l = file_at f l) /\
  (removable pod -> forall l, under (true, base pod) l -> file_at f' l = None).

Lemma CleanupVolumes_cleaned f pod :
  plain (UID (podMeta pod)) -> cleaned f (CleanupVolumes TempDir f pod) pod.
Proof using HFS Hroot.
  intros Hu. unfold CleanupVolumes. rewrite (proj2 (String.eqb_neq _ _)) by apply Hu. split.
  - intros l Hl. apply RemoveAll_other. by rewrite location_root.
  - intros Hr l Hl. eapply RemoveAll_all; [|by rewrite location_root].
    rewrite <- (Hr f). apply surjective_pairing.
Qed.

Lemma cleaned_from f f1 f' pod :
  (forall l, ~ under (true, base pod) l -> file_at f1 l = file_at f l) -> cleaned f1 f' pod -> cleaned f f' pod.
Proof. intros Hf [Ho Hi]. split; [|done]. intros l Hl. by rewrite Ho, Hf. Qed.

Lemma key_at_under pod vol k : under (true, base pod) (key_at pod vol k).
Proof.
  split; [done|]. unfold key_at, vol_at; simpl. rewrite <- app_assoc. by apply prefix_app_r.
Qed.

(** The data of a volume lies under its keys. *)
Definition projected_at f store pod (vol : Volume) : Prop :=
  exists data mode, volume_data store pod vol = Ok (data, mode) /\
    forall k v, (k, v) ∈ data -> file_at f (key_at pod vol k) = Some v.

(** Why a projection failed. *)
Definition fault store pod (e : vol_error) : Prop :=
  match e with
  | UIDRequired => UID (podMeta pod) = ""
  | ConfigMapNotFound name _ => LoadConfigMap store (Namespace (podMeta pod)) name = None
  | SecretNotFound name _ => LoadSecret store (Namespace (podMeta pod)) name = None
  | MkdirFailed v => exists f vol, volName vol = v /\ (MkdirAll f (volDir TempDir pod vol)).2 = false
  | WriteKeyFailed k _ => exists f p v mode, (WriteFile f p v mode).2 = false
  end.

Lemma write_entries_fault f dir mode entries f' k :
  write_entries f dir mode entries = (f', Some k) ->
  exists f p v mode, (WriteFile f p v mode).2 = false.
Proof.
  revert f. induction entries as [|[k0 v0] entries IH]; intros f Hw; [done|].
  cbn [write_entries] in Hw. destruct (WriteFile _ _ _ _) as [f1 [|]] eqn:EW; [by eapply IH|].
  exists f, (PathJoin [dir; k0]), v0, mode. by rewrite EW.
Qed.

Lemma project_volume_fault o f store pod vol :
  match (project_volume TempDir o f store pod vol).2 with
  | Err e => fault store pod e /\ e <> UIDRequired
  | Panic _ => False
  | Ok _ => True
  end.
Proof.
  unfold project_volume. destruct (MkdirAll _ _) as [f1 [|]] eqn:EM; simpl.
  - destruct (volume_data store pod vol) as [[data mode]|e|w] eqn:Ed.
    + destruct (write_entries _ _ _ _) as [f2 [k|]] eqn:Ew; simpl; [|done].
      split; [by eapply write_entries_fault|done].
    + simpl. unfold volume_data in Ed. destruct (volConfigMap vol) as [src|].
      * destruct (LoadConfigMap _ _ _) eqn:El; [done|]. injection Ed as <-. done.
      * destruct (volSecret vol) as [src|]; [|done].
        destruct (LoadSecret _ _ _) eqn:El; [done|]. injection Ed as <-. done.
    + unfold volume_data in Ed. destruct (volConfigMap vol), (volSecret vol); simpl in Ed;
        try destruct (LoadConfigMap _ _ _); try destruct (LoadSecret _ _ _); done.
  - split; [|done]. exists f, vol. by rewrite EM.
Qed.

Lemma project_volumes_spec o f store pod vols proj :
  plain_names store pod -> (forall vol, vol ∈ vols -> vol ∈ Volumes (podSpec pod)) ->
  NoDup (volName <$> vols) ->
  match project_volumes TempDir o f store pod vols proj with
  | (f', Ok proj') =>
      (forall vol, vol ∈ vols -> proj' !! volName vol = Some (volDir TempDir pod vol) /\
         projected_at f' store pod vol) /\
      (forall name, name ∉ (volName <$> vols) -> proj' !! name = proj !! name) /\
      (forall l, (forall vol k, vol ∈ vols -> l <> key_at pod vol k) -> file_at f' l = file_at f l)
  | (f', Err e) => fault store pod e /\ e <> UIDRequired /\ cleaned f f' pod
  | (_, Panic _) => False
  end.
Proof.
  intros Hp. revert f proj. induction vols as [|vol vols IH]; intros f proj Hin Hnd.
  { split_and!; [|done..]. intros vol Hv. by apply elem_of_nil in Hv. }
  rewrite fmap_cons in Hnd. apply NoDup_cons in Hnd as [Hni Hnd].
  assert (Hvol : vol ∈ Volumes (podSpec pod)) by (apply Hin; by left).
  cbn [project_volumes].
  pose proof (project_volume_other (o vol) f store pod vol) as Ho.
  pose proof (project_volume_fault (o vol) f store pod vol) as Hf.
  destruct (project_volume TempDir (o vol) f store pod vol) as [f1 [dir|e|w]] eqn:E;
    cbn [fst snd] in Ho, Hf; [| |done].
  - apply project_volume_Ok in E as [-> Hdata]; [|done..].
    specialize (IH f1 (<[volName vol := volDir TempDir pod vol]> proj)).
    assert (Hin' : forall vol, vol ∈ vols -> vol ∈ Volumes (podSpec pod))
      by (intros v Hv; apply Hin; by right).
    specialize (IH Hin' Hnd).
    destruct (project_volumes _ _ _ _ _ _ _) as [f' [proj'|e|w]]; [| |done].
    + destruct IH as (IH1 & IH2 & IH3). split_and!.
      * intros v Hv. apply elem_of_cons in Hv as [->|Hv]; [|by apply IH1]. split.
        -- rewrite IH2 by done. apply lookup_insert_eq.
        -- destruct Hdata as (data & mode & Ed & Hd). exists data, mode. split; [done|].
           intros k v Hk. rewrite IH3; [by apply Hd|]. intros vol' k' Hv' Ek.
           apply key_at_inj in Ek as [En _]. apply Hni. rewrite En.
           by apply list_elem_of_fmap_2.
      * intros name Hn. rewrite fmap_cons, not_elem_of_cons in Hn. destruct Hn as [Hn1 Hn2].
        rewrite IH2 by done. by apply lookup_insert_ne.
      * intros l Hl. rewrite IH3; [apply Ho; [done..|]|]; intros *; [by apply Hl; left|].
        intros Hv. apply Hl. by right.
    + destruct IH as (IH1 & IH2 & IH3). split_and!; [done..|].
      apply (cleaned_from f f1); [|done]. intros l Hu. apply Ho; [done..|].
      intros k ->. apply Hu, key_at_under.
  - destruct Hf as [Hf1 Hf2]. split_and!; [done..|].
    apply (cleaned_from f f1); [|by apply CleanupVolumes_cleaned, Hp]. intros l Hu. apply Ho; [done..|].
    intros k ->. apply Hu, key_at_under.
Qed.

(** C19. For a pod whose identifier, volume names and keys are plain file names (the code does
    not check them, see [ProjectVolumes_escapes]) and whose volumes have distinct
    names, with an absolute temporary directory: projection either succeeds — every volume is mapped to its directory, and
    every key of its ConfigMap or Secret is a file there holding exactly its value — or
    fails for a reason given by the error, and leaves no file in the directory of the pod
    if the directory can be removed ([os.RemoveAll], whose error is dropped); in either
    case nothing outside that directory changes. *)
Theorem ProjectVolumes_spec o f store pod :
  plain_names store pod -> NoDup (volName <$> Volumes (podSpec pod)) ->
  match ProjectVolumes TempDir o f store pod with
  | (f', Ok projected) =>
      (forall vol, vol ∈ Volumes (podSpec pod) ->
         projected !! volName vol = Some (volDir TempDir pod vol) /\
         projected_at f' store pod vol) /\
      (forall l, ~ under (true, base pod) l -> file_at f' l = file_at f l)
  | (f', Err e) => fault store pod e /\
      (forall l, ~ under (true, base pod) l -> file_at f' l = file_at f l) /\
      (removable pod -> forall l, under (true, base pod) l -> file_at f' l = None)
  | (_, Panic _) => False
  end.
Proof.
  intros Hp Hnd. unfold ProjectVolumes. rewrite (proj2 (String.eqb_neq _ _)) by apply Hp.
  pose proof (project_volumes_spec o f store pod (Volumes (podSpec pod)) ∅ Hp (fun _ h => h) Hnd) as S.
  destruct (project_volumes _ _ _ _ _ _ _) as [f' [proj'|e|w]]; [| |done].
  - destruct S as (S1 & _ & S3). split; [done|]. intros l Hu. apply S3. intros vol k _ ->.
    apply Hu, key_at_under.
  - by destruct S as (S1 & _ & S3).
Qed.

(** Whatever the names are: a projection that fails has cleaned up. *)
Lemma ProjectVolumes_fails o f store pod f' e :
  plain (UID (podMeta pod)) -> ProjectVolumes TempDir o f store pod = (f', Err e) ->
  exists f1, f' = CleanupVolumes TempDir f1 pod.
Proof.
  intros Hu. unfold ProjectVolumes. rewrite (proj2 (String.eqb_neq _ _)) by apply Hu.
  generalize (∅ : gmap string string). revert f.
  induction (Volumes (podSpec pod)) as [|vol vols IH]; intros f proj; [done|]. cbn [project_volumes].
  destruct (project_volume _ _ _ _ _ _) as [f1 [dir|e1|w]]; [by apply IH| |done].
  intros [= <- _]. by exists f1.
Qed.

(** Cleaning up after a successful projection removes what it wrote: all other files are
    as before the projection, and those under the directory of the pod are gone if it
    can be removed. *)
Theorem Cleanup_after_Project o f store pod f' projected :
  plain_names store pod -> NoDup (volName <$> Volumes (podSpec pod)) ->
  ProjectVolumes TempDir o f store pod = (f', Ok projected) ->
  cleaned f (CleanupVolumes TempDir f' pod) pod.
Proof.
  intros Hp Hnd E. apply (cleaned_from f f'); [|by apply CleanupVolumes_cleaned, Hp].
  unfold ProjectVolumes in E. rewrite (proj2 (String.eqb_neq _ _)) in E by apply Hp.
  pose proof (project_volumes_spec o f store pod (Volumes (podSpec pod)) ∅ Hp (fun _ h => h) Hnd) as S.
  rewrite E in S. destruct S as (_ & _ & S). intros l Hu. apply S. intros vol k _ ->. apply Hu, key_at_under.
Qed.

(** The keys of a ConfigMap are not checked: a key ["../../../" + x] of a
    projected ConfigMap is written to [x] in the temporary directory itself,
    outside the directory of the pod, and the clean-up does not remove it. *)
Theorem ProjectVolumes_escapes o f store pod vol x v src cm f' projected :
  plain (UID (podMeta pod)) -> plain (volName vol) -> plain x -> x <> "lok8s-volumes" ->
  Volumes (podSpec pod) = [vol] -> volConfigMap vol = Some src ->
  LoadConfigMap store (Namespace (podMeta pod)) (cmvName src) = Some cm ->
  cmData cm = Some {["../../../" +:+ x := v]} ->
  ProjectVolumes TempDir o f store pod = (f', Ok projected) ->
  file_at (CleanupVolumes TempDir f' pod) (true, comps true TempDir ++ [x]) = Some (bytes_of v).
Proof.
  intros Hu Hv Hx Hne Evol Esrc Ecm Edata E. rewrite (proj1 (CleanupVolumes_cleaned _ pod Hu)).
  2: { intros [_ [k Ek]]. simpl in Ek. unfold base in Ek. rewrite <- app_assoc in Ek.
       apply app_inv_head in Ek. by injection Ek. }
  unfold ProjectVolumes in E. rewrite (proj2 (String.eqb_neq _ _)) in E by apply Hu.
  rewrite Evol in E. cbn [project_volumes] in E. unfold project_volume in E.
  destruct (MkdirAll _ _) as [f1 [|]]; [|done].
  unfold volume_data in E. rewrite Esrc, Ecm, Edata in E. cbn [from_option id] in E.
  rewrite map_to_list_singleton in E. cbn [fmap list_fmap fst snd] in E.
  rewrite (proj1 (Permutation_singleton_r _ _) (shuffle_perm (o vol) [_])) in E. cbn [write_entries] in E.
  destruct (WriteFile _ _ _ _) as [f2 [|]] eqn:EW; [|done]. injection E as <- _.
  apply WriteFile_same in EW. rewrite <- EW. f_equal.
  rewrite location_PathJoin by apply volDir_rooted. f_equal.
  rewrite comps_volDir by done. unfold vol_at, base. cbn [flat_map]. rewrite app_nil_r.
  change ("../../../" +:+ x) with (".." +:+ "/" +:+ ".." +:+ "/" +:+ ".." +:+ "/" +:+ x).
  rewrite !Split_char_app, (Split_plain x) by done. rewrite !rev_app_distr. simpl.
  rewrite !push_dotdot by (apply Hv || apply Hu || done).
  rewrite push_plain by done. simpl. by rewrite rev_involutive.
Qed.
End Laws.

(** ** A projection to run *)

Definition ex_volume (name cm : string) : Volume := mkVolume name (Some (mkConfigMapSource cm)) None.
Definition ex_vol_pod (uid : string) (vols : list Volume) : Pod :=
  mkPod (mkTypeMeta "v1" "Pod") (mkObjectMeta "p" "default" uid None None 0 "")
    (mkPodSpec [] [] "" vols) emptyPodStatus.
Definition ex_config (key value : string) : ConfigStore memdb :=
  mkConfigStore {["default/conf" := mkConfigMap (mkTypeMeta "v1" "ConfigMap")
    (mkObjectMeta "conf" "default" "" None None 0 "") (Some {[key := value]})]} ∅ None.

Lemma ex_plain_names :
  plain_names (ex_config "app.ini" "x=1") (ex_vol_pod "u1" [ex_volume "cfg" "conf"]).
Proof.
  split; [done| |].
  - intros vol Hv. apply list_elem_of_singleton in Hv as ->. done.
  - intros vol data mode k v Hv Ed Hk. apply list_elem_of_singleton in Hv as ->.
    vm_compute in Ed. injection Ed as <- _. apply list_elem_of_singleton in Hk.
    injection Hk as -> _. done.
Qed.

Lemma ProjectVolumes_spec_witness :
  let pod := ex_vol_pod "u1" [ex_volume "cfg" "conf"] in
  let f' := (ProjectVolumes "/tmp" (fun _ => in_order) ([] : memfiles)
               (ex_config "app.ini" "x=1") pod).1 in
  file_at f' (key_at "/tmp" pod (ex_volume "cfg" "conf") "app.ini") = Some (bytes_of "x=1").
Proof.
  intros pod f'.
  pose proof (ProjectVolumes_spec "/tmp" eq_refl (fun _ => in_order) ([] : memfiles)
    (ex_config "app.ini" "x=1") pod ex_plain_names) as S.
  assert (Hnd : NoDup (volName <$> Volumes (podSpec pod))) by (apply NoDup_singleton).
  specialize (S Hnd). unfold f'.
  destruct (ProjectVolumes _ _ _ _ _) as [f1 [proj|e|w]] eqn:E; [|exfalso; clear -E; vm_compute in E; discriminate E|destruct S].
  destruct S as [S _]. destruct (S (ex_volume "cfg" "conf") ltac:(left)) as (_ & data & mode & Ed & Hd).
  apply Hd. vm_compute in Ed. injection Ed as <- _. left.
Defined.

Lemma Cleanup_after_Project_witness :
  let pod := ex_vol_pod "u1" [ex_volume "cfg" "conf"] in
  let f' := (ProjectVolumes "/tmp" (fun _ => in_order) ([] : memfiles)
               (ex_config "app.ini" "x=1") pod).1 in
  file_at (CleanupVolumes "/tmp" f' pod) (key_at "/tmp" pod (ex_volume "cfg" "conf") "app.ini") = None.
Proof.
  intros pod f'. unfold f'.
  destruct (ProjectVolumes "/tmp" (fun _ => in_order) ([] : memfiles)
    (ex_config "app.ini" "x=1") pod) as [f1 [proj|e|w]] eqn:E; [|exfalso; vm_compute in E; discriminate E..]. simpl.
  apply (Cleanup_after_Project "/tmp" eq_refl (fun _ => in_order) ([] : memfiles)
    (ex_config "app.ini" "x=1") pod f1 proj ex_plain_names (NoDup_singleton _) E).
  - by intros f.
  - apply key_at_under.
Defined.

Definition ex_escape : ConfigStore memdb := ex_config ("../../../" +:+ "passwd") "root".

Lemma ProjectVolumes_escapes_witness :
  let pod := ex_vol_pod "u1" [ex_volume "cfg" "conf"] in
  let f' := (ProjectVolumes "/tmp" (fun _ => in_order) ([] : memfiles) ex_escape pod).1 in
  file_at (CleanupVolumes "/tmp" f' pod) (true, ["tmp"; "passwd"]) = Some (bytes_of "root").
Proof.
  intros pod f'. unfold f'.
  destruct (ProjectVolumes "/tmp" (fun _ => in_order) ([] : memfiles) ex_escape pod)
    as [f1 [proj|e|w]] eqn:E; [|exfalso; vm_compute in E; discriminate E..]. cbn [fst].
  refine (ProjectVolumes_escapes "/tmp" _ (fun _ => in_order) ([] : memfiles)
    ex_escape pod (ex_volume "cfg" "conf") "passwd" "root"
    (mkConfigMapSource "conf") (mkConfigMap (mkTypeMeta "v1" "ConfigMap")
    (mkObjectMeta "conf" "default" "" None None 0 "") (Some {["../../../" +:+ "passwd" := "root"]}))
    f1 proj _ _ _ _ _ _ _ _ E).
  all: clear E.
  all: (done || reflexivity).
Defined.
