(* ===== verification/Engine.v ===== *)
(** * Engines (src/engine/engine.go, src/engine/native.go, src/engine/wasm.go)

    An engine runs the workload of a pod and remembers, under the name of the pod,
    whether it still runs.  The table and its three operations are the same for
    both engines; the native engine starts a process of the host, the WebAssembly
    engine a module in a goroutine.  Both test the table and record the workload in two
    critical sections, which are two definitions here ([native_spawn], [native_record];
    [wasm_test], [wasm_record]); [native_step] and [wasm_step] interleave them with
    everything else. *)

From S2P Require Import Prelude Types GoStrings Path.

(** ** The registry *)

Section Registry.
Context {E : Type}.

Definition Registry : Type := gmap string E.
Definition NewRegistry : Registry := ∅.
Definition Register (r : Registry) (name : string) (eng : E) : Registry := <[name := eng]> r.
(** The error is [no engine registered for "name"]. *)
Definition RegistryGet (r : Registry) (name : string) : option E := r !! name.
End Registry.
Arguments Registry E : clear implicits.

(** ** The table of processes *)

(** [pr_id] stands for the identity of the command (its process, its goroutine). *)
Record proc := mkProc { pr_id : Z; pr_phase : PodPhase }.

Abbreviation procs_t := (gmap string proc).

Definition Status (procs : procs_t) (podName : string) : PodPhase :=
  match procs !! podName with Some p => pr_phase p | None => PodPending end.

(** [exists && existing.phase == types.PodRunning] *)
Definition already_running (procs : procs_t) (podName : string) : bool :=
  match procs !! podName with Some p => String.eqb (pr_phase p) PodRunning | None => false end.

(** [e.procs[pod.Metadata.Name] = np] *)
Definition record_start (procs : procs_t) (podName : string) (id : Z) : procs_t :=
  <[podName := mkProc id PodRunning]> procs.

(** The end of the goroutine that waits: it looks the entry up by name again. *)
Definition record_exit (procs : procs_t) (podName : string) (phase : PodPhase) : procs_t :=
  match procs !! podName with
  | Some p => <[podName := mkProc (pr_id p) phase]> procs
  | None => procs
  end.

(** [cmd.Wait] returned an error or not. *)
Definition exit_phase (err : bool) : PodPhase := if err then PodFailed else PodSucceeded.

(** ** The native engine *)

(** Package [os/exec]: a command that could be started has a process id. *)
Class Exec (OS : Type) := {
  Environ : OS -> list string;
  LookPath : OS -> string -> option string;
  Spawn : OS -> string -> list string -> list string -> option (OS * Z);
  Kill : OS -> Z -> OS;
}.

Inductive engine_error :=
| NotFoundExecutable (target : string)
| AlreadyRunning (podName : string)
| StartFailed (target resolved : string)
| PodNotFound (podName : string)
| ReadModuleFailed (target : string).

Definition lacks_volume (volumes : gmap string string) (vm : VolumeMount) : bool :=
  match volumes !! vmName vm with Some _ => false | None => true end.

Section Native.
Context {F : Type} `{FS F} {OS : Type} `{Exec OS} `{UnicodeCase}.

Definition buildOSEnv (os : OS) (vars : list EnvVar) : list string :=
  Environ os ++ ((fun v => envName v +:+ "=" +:+ envValue v) <$> vars).

(** The files tried before [$PATH], in order. *)
Definition executable_candidates (target : string) : list string :=
  [target; "./" +:+ target; "./" +:+ target +:+ ".exe"; target +:+ ".exe";
   PathJoin ["."; "bin"; target]; PathJoin ["."; "bin"; target +:+ ".exe"]].

Definition resolveExecutable (f : F) (os : OS) (target : string) : res engine_error string :=
  match List.find (Stat f) (executable_candidates target) with
  | Some path => Ok path
  | None =>
      match LookPath os target with
      | Some path => Ok path
      | None => Err (NotFoundExecutable target)
      end
  end.

(** [copyDir]: the fuel bounds the depth of the directories. *)
Fixpoint copyDir (fuel : nat) (f : F) (src dst : string) : F * bool :=
  match fuel with
  | O => (f, false)
  | S fuel =>
      match ReadDir f src with
      | None => (f, false)
      | Some entries =>
          match MkdirAll f dst with
          | (f, false) => (f, false)
          | (f, true) =>
              (fix copy_entries (f : F) (entries : list (string * bool * Z)) : F * bool :=
                 match entries with
                 | [] => (f, true)
                 | (name, isDir, perm) :: rest =>
                     let srcPath := PathJoin [src; name] in
                     let dstPath := PathJoin [dst; name] in
                     let step :=
                       if isDir : bool then copyDir fuel f srcPath dstPath
                       else match ReadFile f srcPath with
                            | None => (f, false)
                            | Some data => WriteFile f dstPath data perm
                            end in
                     match step with
                     | (f, true) => copy_entries f rest
                     | (f, false) => (f, false)
                     end
                 end) f entries
          end
      end
  end.

Definition mountNativeVolume (fuel : nat) (f : F) (hostDir mountPath : string) : F :=
  let f := (MkdirAll f (Dir mountPath)).1 in
  let f := (RemoveAll f mountPath).1 in
  match Symlink f hostDir mountPath with
  | (f, true) => f
  | (f, false) => (copyDir fuel f hostDir mountPath).1
  end.

Definition volume_env_name (vm : VolumeMount) : string :=
  ReplaceAll ("LOK8S_VOLUME_" +:+ ToUpper (vmName vm)) "-" "_".

(** The loop over the mounts of the first container. *)
Fixpoint mount_volumes (fuel : nat) (f : F) (volumes : gmap string string)
    (mounts : list VolumeMount) (env : list EnvVar) : F * list EnvVar :=
  match mounts with
  | [] => (f, env)
  | vm :: rest =>
      match volumes !! vmName vm with
      | None => mount_volumes fuel f volumes rest env
      | Some hostDir =>
          mount_volumes fuel (mountNativeVolume fuel f hostDir (vmMountPath vm)) volumes rest
            (env ++ [mkEnvVar (volume_env_name vm) hostDir])
      end
  end.

(** [Command[1:]] and [Args] of the first container. *)
Definition native_args (pod : Pod) : list string :=
  match Containers (podSpec pod) with
  | c :: _ => tail (cCommand c) ++ cArgs c
  | [] => []
  end.

Record NativeWorld := mkNativeWorld { nw_files : F; nw_os : OS; nw_procs : procs_t }.

(** [NativeEngine.Start] up to the process: the test under the read lock, the mounts, and
    the spawn. *)
Definition native_spawn (fuel : nat) (w : NativeWorld) (pod : Pod) (target : string)
    (env : list EnvVar) (volumes : gmap string string) : NativeWorld * res engine_error Z :=
  match resolveExecutable (nw_files w) (nw_os w) target with
  | Err e => (w, Err e)
  | Panic p => (w, Panic p)
  | Ok resolvedTarget =>
      if already_running (nw_procs w) (Name (podMeta pod)) then (w, Err (AlreadyRunning (Name (podMeta pod))))
      else
        let '(f, env) :=
          match Containers (podSpec pod) with
          | c :: _ => mount_volumes fuel (nw_files w) volumes (cVolumeMounts c) env
          | [] => (nw_files w, env)
          end in
        match Spawn (nw_os w) resolvedTarget (native_args pod) (buildOSEnv (nw_os w) env) with
        | None => (mkNativeWorld f (nw_os w) (nw_procs w), Err (StartFailed target resolvedTarget))
        | Some (os, pid) => (mkNativeWorld f os (nw_procs w), Ok pid)
        end
  end.

(** The record, later, under the write lock: [e.procs[pod.Metadata.Name] = np]. *)
Definition native_record (w : NativeWorld) (podName : string) (pid : Z) : NativeWorld :=
  mkNativeWorld (nw_files w) (nw_os w) (record_start (nw_procs w) podName pid).

(** [NativeEngine.Start] up to the launch of the goroutine that waits. *)
Definition NativeStart (fuel : nat) (w : NativeWorld) (pod : Pod) (target : string)
    (env : list EnvVar) (volumes : gmap string string) : NativeWorld * res engine_error unit :=
  match native_spawn fuel w pod target env volumes with
  | (w, Ok pid) => (native_record w (Name (podMeta pod)) pid, Ok tt)
  | (w, Err e) => (w, Err e)
  | (w, Panic p) => (w, Panic p)
  end.

(** The goroutine of the process of [podName], once [cmd.Wait] returns. *)
Definition NativeExit (w : NativeWorld) (podName : string) (err : bool) : NativeWorld :=
  mkNativeWorld (nw_files w) (nw_os w) (record_exit (nw_procs w) podName (exit_phase err)).

(** [Stop] cancels the context of the process, which kills it. *)
Definition NativeStop (w : NativeWorld) (podName : string) : NativeWorld * res engine_error unit :=
  match nw_procs w !! podName with
  | None => (w, Err (PodNotFound podName))
  | Some p => (mkNativeWorld (nw_files w) (Kill (nw_os w) (pr_id p)) (nw_procs w), Ok tt)
  end.

Definition NativeStatus (w : NativeWorld) (podName : string) : PodPhase :=
  Status (nw_procs w) podName.
End Native.
Arguments NativeWorld F OS : clear implicits.

(** ** The WebAssembly engine *)

Section Wasm.
Context {F : Type} `{FS F}.

(** The configuration [runModule] gives to wazero. *)
Record ModuleConfig := mkModuleConfig {
  mc_args : list string;
  mc_env : list (string * string);
  mc_mounts : list (string * string);
}.

Definition module_mounts (volumes : gmap string string) (mounts : list VolumeMount)
    : list (string * string) :=
  omap (fun vm => hostDir ← volumes !! vmName vm; Some (hostDir, vmMountPath vm)) mounts.

Definition module_config (pod : Pod) (env : list EnvVar) (volumes : gmap string string)
    : ModuleConfig :=
  mkModuleConfig [Name (podMeta pod)] ((fun v => (envName v, envValue v)) <$> env)
    match Containers (podSpec pod) with
    | c :: _ => module_mounts volumes (cVolumeMounts c)
    | [] => []
    end.

(** The table, the goroutines that still run a module, by identity, with the
    module and its configuration, and the next identity. *)
Record WasmWorld := mkWasmWorld {
  ww_procs : procs_t;
  ww_modules : gmap Z (bytes * ModuleConfig);
  ww_next : Z;
}.

(** [WasmEngine.Start] up to the test under the read lock: the bytes of the module. *)
Definition wasm_test (f : F) (w : WasmWorld) (pod : Pod) (target : string) : res engine_error bytes :=
  match ReadFile f target with
  | None => Err (ReadModuleFailed target)
  | Some wasmBytes =>
      if already_running (ww_procs w) (Name (podMeta pod)) then Err (AlreadyRunning (Name (podMeta pod)))
      else Ok wasmBytes
  end.

(** The record, later, under the write lock, and the launch of the goroutine. *)
Definition wasm_record (w : WasmWorld) (podName : string) (wasmBytes : bytes) (config : ModuleConfig) : WasmWorld :=
  mkWasmWorld (record_start (ww_procs w) podName (ww_next w))
    (<[ww_next w := (wasmBytes, config)]> (ww_modules w)) (ww_next w + 1).

Definition WasmStart (f : F) (w : WasmWorld) (pod : Pod) (target : string) (env : list EnvVar)
    (volumes : gmap string string) : WasmWorld * res engine_error unit :=
  match wasm_test f w pod target with
  | Ok wasmBytes => (wasm_record w (Name (podMeta pod)) wasmBytes (module_config pod env volumes), Ok tt)
  | Err e => (w, Err e)
  | Panic p => (w, Panic p)
  end.

(** [runModule] returns: [err] is the error of [InstantiateWithConfig], a
    cancelled context included. *)
Definition WasmExit (w : WasmWorld) (id : Z) (podName : string) (err : bool) : WasmWorld :=
  mkWasmWorld (record_exit (ww_procs w) podName (exit_phase err)) (delete id (ww_modules w))
    (ww_next w).

(** [Stop] only cancels; the module ends later, through [WasmExit]. *)
Definition WasmStop (w : WasmWorld) (podName : string) : res engine_error Z :=
  match ww_procs w !! podName with
  | None => Err (PodNotFound podName)
  | Some p => Ok (pr_id p)
  end.

Definition WasmStatus (w : WasmWorld) (podName : string) : PodPhase := Status (ww_procs w) podName.
End Wasm.

(** ** The table tells the truth

    What the theorem compares the table with: the workloads that were recorded and have
    not been waited for, each with the name it was started under, and how the last one
    of a name that was waited for has ended. *)

Record life := mkLife { waiting : gmap Z string; ended : gmap string bool }.

Definition no_life : life := mkLife ∅ ∅.
Definition begins (l : life) (id : Z) (name : string) : life := mkLife (<[id := name]> (waiting l)) (ended l).
Definition ends (l : life) (id : Z) (name : string) (err : bool) : life :=
  mkLife (delete id (waiting l)) (<[name := err]> (ended l)).

Definition truthful (status : string -> PodPhase) (l : life) : Prop :=
  forall name,
    (status name = PodRunning <-> exists id, waiting l !! id = Some name) /\
    (status name <> PodRunning ->
       status name = match ended l !! name with Some err => exit_phase err | None => PodPending end) /\
    (forall id1 id2, waiting l !! id1 = Some name -> waiting l !! id2 = Some name -> id1 = id2).

Record table_ok (procs : procs_t) (l : life) : Prop := {
  tk_waiting : forall id name, waiting l !! id = Some name -> procs !! name = Some (mkProc id PodRunning);
  tk_procs : forall name p, procs !! name = Some p ->
    pr_phase p = PodRunning /\ waiting l !! pr_id p = Some name \/
    exists err, ended l !! name = Some err /\ pr_phase p = exit_phase err;
  tk_ended : forall name err, ended l !! name = Some err -> is_Some (procs !! name);
}.

Lemma exit_phase_not_running err : exit_phase err <> PodRunning.
Proof. by destruct err. Qed.

Lemma table_ok_empty : table_ok ∅ no_life.
Proof. split; simpl; intros *; by rewrite lookup_empty. Qed.

Lemma table_ok_begins procs l name id :
  table_ok procs l -> already_running procs name = false -> waiting l !! id = None ->
  table_ok (record_start procs name id) (begins l id name).
Proof.
  intros [Hw Hp He] Har Hid. unfold record_start. split; simpl.
  - intros id' name'. rewrite lookup_insert_Some. intros [[<- <-]|[Hne Hl]].
    + apply lookup_insert_eq.
    + rewrite lookup_insert_ne; [by apply Hw|]. intros <-.
      unfold already_running in Har. apply Hw in Hl. by rewrite Hl in Har.
  - intros name' p. rewrite lookup_insert_Some. intros [[<- <-]|[Hne Hl]].
    + left. split; [done|]. apply lookup_insert_eq.
    + destruct (Hp _ _ Hl) as [[Hr Hwt]|Hend]; [left|by right]. split; [done|].
      rewrite lookup_insert_ne; [done|]. intros Eid. rewrite <- Eid in Hwt. congruence.
  - intros name' err Hn. destruct (decide (name' = name)) as [->|Hne].
    + rewrite lookup_insert_eq. eauto.
    + rewrite lookup_insert_ne by done. by eapply He.
Qed.

Lemma table_ok_ends procs l name id err :
  table_ok procs l -> waiting l !! id = Some name ->
  table_ok (record_exit procs name (exit_phase err)) (ends l id name err).
Proof.
  intros [Hw Hp He] Hid. pose proof (Hw _ _ Hid) as Hl. unfold record_exit. rewrite Hl. split; simpl.
  - intros id' name' [Hne Hl']%lookup_delete_Some.
    rewrite lookup_insert_ne; [by apply Hw|]. intros <-. apply Hw in Hl'. congruence.
  - intros name' p. rewrite lookup_insert_Some. intros [[<- <-]|[Hne Hl']].
    + right. exists err. by rewrite lookup_insert_eq.
    + destruct (Hp _ _ Hl') as [[Hr Hwt]|(e & Hee & Hph)].
      * left. split; [done|]. rewrite lookup_delete_ne; [done|]. intros Eid. rewrite <- Eid in Hwt. congruence.
      * right. exists e. by rewrite lookup_insert_ne.
  - intros name' err'. destruct (decide (name' = name)) as [->|Hne].
    + intros _. rewrite lookup_insert_eq. by eexists.
    + rewrite !lookup_insert_ne by done. by apply He.
Qed.

Lemma table_ok_truthful procs l : table_ok procs l -> truthful (Status procs) l.
Proof.
  intros [Hw Hp He] name. unfold Status. split_and!.
  - split.
    + destruct (procs !! name) as [p|] eqn:E; [|done]. intros Hr.
      destruct (Hp _ _ E) as [[_ ?]|(err & _ & Hph)]; [eauto|].
      rewrite Hph in Hr. by apply exit_phase_not_running in Hr.
    + intros [id Hid]. by rewrite (Hw _ _ Hid).
  - destruct (procs !! name) as [p|] eqn:E; intros Hr.
    + by destruct (Hp _ _ E) as [[? _]|(err & -> & Hph)].
    + destruct (ended l !! name) as [err|] eqn:Ee; [|done]. apply He in Ee as [p Ee]. congruence.
  - intros id1 id2 H1 H2. apply Hw in H1. apply Hw in H2. congruence.
Qed.

(** A start that has passed the test and not recorded its workload yet: no other one of
    the name is recorded meanwhile. *)
Definition may_record {A} (procs : procs_t) (starting : gmap string A) : Prop :=
  forall name, is_Some (starting !! name) -> already_running procs name = false.

Lemma may_record_test {A} procs (starting : gmap string A) name a :
  may_record procs starting -> already_running procs name = false -> may_record procs (<[name := a]> starting).
Proof. intros Hm Ha n [x [[<- _]|[_ Hn]]%lookup_insert_Some]; [done|]. by apply Hm. Qed.

Lemma may_record_record {A} procs (starting : gmap string A) name id :
  may_record procs starting -> may_record (record_start procs name id) (delete name starting).
Proof.
  intros Hm n [x [Hne Hn]%lookup_delete_Some]. unfold already_running, record_start.
  rewrite lookup_insert_ne by done. by apply Hm.
Qed.

Lemma may_record_exit {A} procs (starting : gmap string A) name err :
  may_record procs starting -> may_record (record_exit procs name (exit_phase err)) starting.
Proof.
  intros Hm n Hn. unfold already_running, record_exit. destruct (procs !! name) as [p|] eqn:E; [|by apply Hm].
  destruct (decide (n = name)) as [->|Hne].
  - rewrite lookup_insert_eq. by destruct err.
  - rewrite lookup_insert_ne by done. by apply Hm.
Qed.

(** *** The native engine *)

Section NativeRuns.
Context {F : Type} `{FS F} {OS : Type} `{Exec OS} `{UnicodeCase}.
Context (depth : nat).

(** [nr_starting] has the processes spawned and not recorded yet, by name. *)
Record native_run := mkNativeRun {
  nr_world : NativeWorld F OS;
  nr_starting : gmap string Z;
  nr_life : life;
}.

(** The steps of the goroutines that use the engine.  Starts of one name do not overlap
    (Races shows what happens when they do); those of different names, stops and ends
    come in any order.  A new process has the identity of no process that has not been
    waited for. *)
Inductive native_step : native_run -> native_run -> Prop :=
| NSpawn w st l pod target env volumes w' pid :
    st !! Name (podMeta pod) = None -> native_spawn depth w pod target env volumes = (w', Ok pid) ->
    waiting l !! pid = None -> (forall name, st !! name <> Some pid) ->
    native_step (mkNativeRun w st l) (mkNativeRun w' (<[Name (podMeta pod) := pid]> st) l)
| NRefuse w st l pod target env volumes w' r :
    native_spawn depth w pod target env volumes = (w', r) -> (forall pid, r <> Ok pid) ->
    native_step (mkNativeRun w st l) (mkNativeRun w' st l)
| NRecord w st l name pid :
    st !! name = Some pid ->
    native_step (mkNativeRun w st l) (mkNativeRun (native_record w name pid) (delete name st) (begins l pid name))
| NStop w st l name w' r :
    NativeStop w name = (w', r) -> native_step (mkNativeRun w st l) (mkNativeRun w' st l)
| NExit w st l pid name err :
    waiting l !! pid = Some name ->
    native_step (mkNativeRun w st l) (mkNativeRun (NativeExit w name err) st (ends l pid name err))
| NWorld w st l f os :
    native_step (mkNativeRun w st l) (mkNativeRun (mkNativeWorld f os (nw_procs w)) st l).

Definition native_new (f : F) (os : OS) : native_run := mkNativeRun (mkNativeWorld f os ∅) ∅ no_life.

Lemma native_spawn_procs w pod tg env vols w' r :
  native_spawn depth w pod tg env vols = (w', r) ->
  nw_procs w' = nw_procs w /\
  match r with Ok _ => already_running (nw_procs w) (Name (podMeta pod)) = false | _ => True end.
Proof.
  unfold native_spawn. destruct (resolveExecutable _ _ _); [|by intros [= <- <-]..].
  destruct (already_running _ _) eqn:Ea; [by intros [= <- <-]|].
  destruct (match Containers _ with [] => _ | _ => _ end) as [f e].
  by destruct (Spawn _ _ _ _) as [[os pid]|]; intros [= <- <-].
Qed.

Record native_ok (r : native_run) : Prop := {
  no_table : table_ok (nw_procs (nr_world r)) (nr_life r);
  no_starting : may_record (nw_procs (nr_world r)) (nr_starting r);
  no_fresh : forall name pid, nr_starting r !! name = Some pid -> waiting (nr_life r) !! pid = None;
  no_inj : forall n1 n2 pid, nr_starting r !! n1 = Some pid -> nr_starting r !! n2 = Some pid -> n1 = n2;
}.

Lemma native_step_ok r r' : native_ok r -> native_step r r' -> native_ok r'.
Proof.
  intros [Ht Hm Hf Hi] Hs.
  destruct Hs as [w st l pod tg env vols w' pid Hn E Hw Hp|w st l pod tg env vols w' r E _|w st l name pid Hst|
    w st l name w' r E|w st l pid name err Hpid|w st l f os]; simpl in *.
  - apply native_spawn_procs in E as [E Ha]. split; simpl; rewrite ?E; [done|by apply may_record_test| |].
    + intros name q [[<- <-]|[_ Hq]]%lookup_insert_Some; [done|by eapply Hf].
    + intros n1 n2 q [[<- <-]|[_ Hq1]]%lookup_insert_Some [[<- E2]|[_ Hq2]]%lookup_insert_Some;
        [done|by destruct (Hp n2)|subst; by destruct (Hp n1)|by eapply Hi].
  - apply native_spawn_procs in E as [E _]. by split; simpl; rewrite ?E.
  - split; simpl.
    + apply table_ok_begins; [done|by apply Hm; eauto|by eapply Hf].
    + by apply may_record_record.
    + intros n q [Hne Hq]%lookup_delete_Some. rewrite lookup_insert_ne; [by eapply Hf|]. intros ->.
      by apply Hne, (Hi _ _ q).
    + intros n1 n2 q [_ Hd1]%lookup_delete_Some [_ Hd2]%lookup_delete_Some. by eapply Hi.
  - assert (Ep : nw_procs w' = nw_procs w) by (unfold NativeStop in E; by destruct (nw_procs w !! name); injection E as <- _).
    by split; simpl; rewrite ?Ep.
  - split; simpl; [by apply table_ok_ends|by apply may_record_exit| |done].
    intros n q Hq. apply lookup_delete_None. right. by eapply Hf.
  - by split.
Qed.

Lemma native_reach_ok f os r : rtc native_step (native_new f os) r -> native_ok r.
Proof.
  apply (rtc_keeps native_step native_ok _ _ native_step_ok).
  split; simpl; [apply table_ok_empty|intros n [x Hx]; by rewrite lookup_empty in Hx| |];
    intros *; by rewrite lookup_empty.
Qed.
End NativeRuns.

(** *** The WebAssembly engine *)

Section WasmRuns.
Context {F : Type} `{FS F}.

Record wasm_run := mkWasmRun {
  wr_world : WasmWorld;
  wr_starting : gmap string (bytes * ModuleConfig);
  wr_life : life;
}.

Inductive wasm_step : wasm_run -> wasm_run -> Prop :=
| WTest f w st l pod target env volumes wasmBytes :
    st !! Name (podMeta pod) = None -> wasm_test f w pod target = Ok wasmBytes ->
    wasm_step (mkWasmRun w st l)
      (mkWasmRun w (<[Name (podMeta pod) := (wasmBytes, module_config pod env volumes)]> st) l)
| WRecord w st l name m :
    st !! name = Some m ->
    wasm_step (mkWasmRun w st l)
      (mkWasmRun (wasm_record w name m.1 m.2) (delete name st) (begins l (ww_next w) name))
| WExit w st l id name err :
    waiting l !! id = Some name ->
    wasm_step (mkWasmRun w st l) (mkWasmRun (WasmExit w id name err) st (ends l id name err)).

Definition wasm_new : wasm_run := mkWasmRun (mkWasmWorld ∅ ∅ 0) ∅ no_life.

Record wasm_ok (r : wasm_run) : Prop := {
  wo_table : table_ok (ww_procs (wr_world r)) (wr_life r);
  wo_starting : may_record (ww_procs (wr_world r)) (wr_starting r);
  wo_ids : forall id name, waiting (wr_life r) !! id = Some name -> (id < ww_next (wr_world r))%Z;
}.

Lemma wasm_step_ok r r' : wasm_ok r -> wasm_step r r' -> wasm_ok r'.
Proof.
  intros [Ht Hm Hi] Hs. destruct Hs as [f w st l pod tg env vols b Hn E|w st l name m Hst|w st l id name err Hid];
    simpl in *.
  - split; simpl; [done| |done]. apply may_record_test; [done|]. unfold wasm_test in E.
    destruct (ReadFile f tg); [|done]. by destruct (already_running _ _).
  - split; simpl.
    + apply table_ok_begins; [done|by apply Hm; eauto|].
      destruct (waiting l !! ww_next w) eqn:Ew; [|done]. apply Hi in Ew. lia.
    + by apply may_record_record.
    + intros id n [[<- _]|[_ Hl]]%lookup_insert_Some; [lia|]. apply Hi in Hl. lia.
  - split; simpl; [by apply table_ok_ends|by apply may_record_exit|].
    intros id' n [_ Hl]%lookup_delete_Some. by eapply Hi.
Qed.

Lemma wasm_reach_ok r : rtc wasm_step wasm_new r -> wasm_ok r.
Proof.
  apply (rtc_keeps wasm_step wasm_ok _ _ wasm_step_ok).
  split; simpl; [apply table_ok_empty|intros n [x Hx]; by rewrite lookup_empty in Hx|].
  intros *; by rewrite lookup_empty.
Qed.
End WasmRuns.

(** C21. The status an engine reports is the truth, for both engines: in every state reached
    by starting, stopping and waiting for workloads, with starts of one name one after
    the other (two at once lose a process, see Races) and everything else in any order,
    [Status] is [Running] exactly when a workload recorded under that name has not been
    waited for; otherwise it tells how the last one ended, and it is [Pending] for a
    name whose start never came that far; and no two workloads run under one name. *)
Theorem engine_status_faithful {F : Type} `{FS F} {OS : Type} `{Exec OS} `{UnicodeCase} (depth : nat) :
  (forall f os r, rtc (native_step depth) (native_new f os) r ->
     truthful (NativeStatus (nr_world r)) (nr_life (F := F) (OS := OS) r)) /\
  (forall r, rtc wasm_step wasm_new r -> truthful (WasmStatus (wr_world r)) (wr_life r)).
Proof.
  split.
  - intros f os r Hr. apply native_reach_ok in Hr. apply table_ok_truthful, Hr.
  - intros r Hr. apply wasm_reach_ok in Hr. apply table_ok_truthful, Hr.
Qed.

(** ** An engine to run *)

(** Processes are numbered; every command is found and runs. *)
#[export] Instance counting_exec : Exec Z := {
  Environ _ := [];
  LookPath _ name := Some name;
  Spawn n _ _ _ := Some ((n + 1)%Z, n);
  Kill n _ := n;
}.

#[local] Instance plain_case : UnicodeCase := { unicode_upper s := s; unicode_lower s := s }.

Definition ex_named (name : string) : Pod :=
  mkPod (mkTypeMeta "v1" "Pod") (mkObjectMeta name "default" "u1" None None 0 "")
    (mkPodSpec [] [] "" []) emptyPodStatus.

Lemma engine_status_faithful_witness :
  let w := (NativeStart 0 (mkNativeWorld ([] : memfiles) 7%Z ∅) (ex_named "web") "web" [] ∅).1 in
  NativeStatus w "web" = PodRunning /\ NativeStatus (NativeExit w "web" true) "web" = PodFailed.
Proof.
  intros w.
  pose (st := <["web" := 7%Z]> (∅ : gmap string Z)).
  pose (r1 := mkNativeRun w (delete "web" st) (begins no_life 7%Z "web")).
  pose (w0 := (native_spawn 0 (mkNativeWorld ([] : memfiles) 7%Z ∅) (ex_named "web") "web" [] ∅).1).
  assert (H1 : rtc (native_step 0) (native_new [] 7%Z) r1).
  { apply (rtc_l _ _ (mkNativeRun w0 st no_life)); [|apply rtc_once].
    - by apply (NSpawn 0 _ ∅ no_life (ex_named "web") "web" [] ∅).
    - by apply (NRecord 0 w0 st no_life "web" 7%Z). }
  destruct (engine_status_faithful (F := memfiles) (OS := Z) 0) as [Hn _]. split.
  - apply (Hn [] 7%Z r1 H1 "web"). by exists 7%Z.
  - refine (proj1 (proj2 (Hn [] 7%Z (mkNativeRun (NativeExit w "web" true) (delete "web" st)
      (ends (nr_life r1) 7%Z "web" true)) _ "web")) _).
    + eapply rtc_r; [exact H1|]. by apply NExit.
    + discriminate.
Defined.
