(* ===== verification/Lifecycle.v ===== *)
(** * The lifecycle manager (src/engine/lifecycle.go)

    The manager launches a pod on an engine (host port, volumes, init containers,
    start, port proxy), watches it and restarts it by its policy, and tears it down.
    Its state is the map of managed pods, the watchers (a [Hub]) and the resource
    version; what it shares with the rest of the daemon is the [Host].  The engines
    behind the [Registry] are the interface [PodEngines].

    A monitor goroutine whose pod has been terminated has a cancelled context: it
    does nothing more, so the steps of a monitor are steps of a managed pod. *)

From S2P Require Import Prelude Types GoStrings Hub PortPool Store Stores SvcProxy Path Volume Health.

(** ** The engines, as the manager sees them *)

(** The engines by the name they are registered under; [eng_Start] may write files
    (it mounts volumes); [run_init] is [exec.CommandContext(...).Run()] with the
    strings appended to the environment of the daemon. *)
Class PodEngines (F W : Type) := {
  registered : W -> string -> bool;
  eng_Start : W -> F -> string -> Pod -> string -> list EnvVar -> gmap string string ->
    (W * F) * option string;
  eng_Stop : W -> string -> string -> W;
  eng_Status : W -> string -> string -> PodPhase;
  run_init : W -> F -> string -> list string -> list string -> (W * F) * bool;
}.

(** What the manager relies on: a workload that could be started runs, and an engine
    that starts or stops one leaves the others alone.  [HostEngines] proves it of the
    two engines of the daemon. *)
Class EngineLaws (F W : Type) `{PodEngines F W} : Prop := {
  Start_runs w f et pod tg env vols w' f' :
    registered w et = true -> eng_Start w f et pod tg env vols = ((w', f'), None) ->
    eng_Status w' et (Name (podMeta pod)) = PodRunning;
  Start_frame w f et pod tg env vols w' f' r :
    eng_Start w f et pod tg env vols = ((w', f'), r) ->
    (forall n, registered w' n = registered w n) /\
    forall et' n, n <> Name (podMeta pod) -> eng_Status w' et' n = eng_Status w et' n;
  Stop_frame w et name :
    (forall n, registered (eng_Stop w et name) n = registered w n) /\
    forall et' n, n <> name -> eng_Status (eng_Stop w et name) et' n = eng_Status w et' n;
  init_frame w f prog args env w' f' ok :
    run_init w f prog args env = ((w', f'), ok) ->
    (forall n, registered w' n = registered w n) /\
    forall et' n, eng_Status w' et' n = eng_Status w et' n;
}.

Inductive launch_error :=
| AlreadyManaged (key : string)
| PortAllocationFailed (e : pool_error)
| InvalidContainerPort (val : string)
| ProjectionFailed (e : vol_error)
| InitFailed (container : string)
| NoEngine (engineType : string)
| EngineFailed (err : string).

Definition maxBackoff : Z := 300 * Second.

(** [L] is the type of the log buffers of the pods. *)
Record managedPod (L : Type) := mkManagedPod {
  mp_pod : Pod;
  mp_engineType : string;
  mp_target : string;
  mp_env : list EnvVar;
  mp_log : L;
  mp_restartCount : Z;
  mp_ready : bool;
  mp_hostPort : Z;
  mp_proxy : option Z;
  mp_volumes : gmap string string;
}.
Arguments mkManagedPod {L}.
Arguments mp_pod {L}.
Arguments mp_engineType {L}.
Arguments mp_target {L}.
Arguments mp_env {L}.
Arguments mp_log {L}.
Arguments mp_restartCount {L}.
Arguments mp_ready {L}.
Arguments mp_hostPort {L}.
Arguments mp_proxy {L}.
Arguments mp_volumes {L}.

Definition set_proxy {L} (mp : managedPod L) (p : option Z) : managedPod L :=
  mkManagedPod (mp_pod mp) (mp_engineType mp) (mp_target mp) (mp_env mp) (mp_log mp)
    (mp_restartCount mp) (mp_ready mp) (mp_hostPort mp) p (mp_volumes mp).
Definition set_ready {L} (mp : managedPod L) (b : bool) : managedPod L :=
  mkManagedPod (mp_pod mp) (mp_engineType mp) (mp_target mp) (mp_env mp) (mp_log mp)
    (mp_restartCount mp) b (mp_hostPort mp) (mp_proxy mp) (mp_volumes mp).
Definition set_restartCount {L} (mp : managedPod L) (n : Z) : managedPod L :=
  mkManagedPod (mp_pod mp) (mp_engineType mp) (mp_target mp) (mp_env mp) (mp_log mp)
    n (mp_ready mp) (mp_hostPort mp) (mp_proxy mp) (mp_volumes mp).

(** The error of [Registry.Get]; engine types are plain words, which [%q] quotes. *)
Definition dquote : string := String (ascii_of_nat 34) EmptyString.
Definition no_engine_text (name : string) : string :=
  "no engine registered for " +:+ dquote +:+ name +:+ dquote.

(** ** Restarting *)

Definition shouldRestart (pod : Pod) (phase : PodPhase) : bool :=
  let policy := psRestartPolicy (podSpec pod) in
  let policy := if String.eqb policy "" then RestartAlways else policy in
  if String.eqb policy RestartAlways then true
  else if String.eqb policy RestartOnFailure then String.eqb phase PodFailed
  else false.

(** [10<<uint(restartCount-1)] is an [int], the product an [int64].  For a count below one
    the conversion to [uint] gives a shift by more than the width, that is 0. *)
Definition backoffDuration (restartCount : Z) : Z :=
  let d := if (restartCount <? 1)%Z then 0%Z
           else i64 (i64 (Z.shiftl 10 (restartCount - 1)) * Second) in
  if (maxBackoff <? d)%Z then maxBackoff else d.

(** ** The state *)

Record Host (F W N : Type) := mkHost {
  h_pool : PortPool;
  h_net : N;
  h_files : F;
  h_eng : W;
}.
Arguments mkHost {F W N}.
Arguments h_pool {F W N}.
Arguments h_net {F W N}.
Arguments h_files {F W N}.
Arguments h_eng {F W N}.

Record LifecycleManager (L : Type) := mkLM {
  lm_pods : gmap string (managedPod L);
  lm_watchers : hub WatchEvent;
  resourceVersion : Z;
}.
Arguments mkLM {L}.
Arguments lm_pods {L}.
Arguments lm_watchers {L}.
Arguments resourceVersion {L}.

Definition podKey (namespace name : string) : string := key namespace name.

(** The orders of the ranges over the watchers and over the data of the volumes. *)
Record orders := mkOrders {
  o_watch : shuffle Z;
  o_data : Volume -> shuffle (string * bytes);
}.

Section Lifecycle.
Context {F W N L T : Type} `{FS F} `{PodEngines F W} `{TCP N}.
Context (TempDir : string) (NewLog : L).
Implicit Types (lm : LifecycleManager L) (h : Host F W N) (mp : managedPod L).

Definition watch_cap : nat := 100.

Definition NewLifecycleManager : LifecycleManager L := mkLM ∅ empty_hub 0.

Definition set_pool h pool : Host F W N := mkHost pool (h_net h) (h_files h) (h_eng h).
Definition set_files h f : Host F W N := mkHost (h_pool h) (h_net h) f (h_eng h).
Definition set_eng h (wf : W * F) : Host F W N := mkHost (h_pool h) (h_net h) wf.2 wf.1.
Definition set_net h n : Host F W N := mkHost (h_pool h) n (h_files h) (h_eng h).
Definition set_pods lm pods : LifecycleManager L := mkLM pods (lm_watchers lm) (resourceVersion lm).

(** [if hostPort > 0 { lm.portPool.Release(key) }] *)
Definition release_if h (hostPort : Z) (key : string) : Host F W N :=
  if (0 <? hostPort)%Z then set_pool h (Release (h_pool h) key) else h.

(** ** Status *)

Definition pod_status h mp (name : string) : PodStatus :=
  if negb (registered (h_eng h) (mp_engineType mp)) then
    mkPodStatus PodFailed (no_engine_text (mp_engineType mp)) "" 0 [] [] "" 0
  else
    let phase := eng_Status (h_eng h) (mp_engineType mp) name in
    mkPodStatus phase "" (StartTime (podStatus (mp_pod mp))) (mp_restartCount mp)
      (match Containers (podSpec (mp_pod mp)) with
       | c :: _ => [mkContainerStatus (cName c) (mp_ready mp && String.eqb phase PodRunning)
                      (mp_restartCount mp) phase None]
       | [] => []
       end)
      [] (if (0 <? mp_hostPort mp)%Z then "127.0.0.1" else "") (mp_hostPort mp).

Definition LStatus lm h (namespace name : string) : option PodStatus :=
  (fun mp => pod_status h mp name) <$> lm_pods lm !! podKey namespace name.

Definition status_or_empty lm h (namespace name : string) : PodStatus :=
  default emptyPodStatus (LStatus lm h namespace name).

Definition ListActivePods (o : shuffle (managedPod L)) lm h : list Pod :=
  (fun mp => set_podStatus (mp_pod mp)
     (status_or_empty lm h (Namespace (podMeta (mp_pod mp))) (Name (podMeta (mp_pod mp)))))
  <$> o (map_to_list (lm_pods lm)).*2.

Definition Logs lm (namespace name : string) : option L :=
  mp_log <$> lm_pods lm !! podKey namespace name.

(** ** Events *)

Definition broadcast (o : shuffle Z) lm (ev : WatchEvent) : res launch_error (LifecycleManager L) :=
  match publish watch_cap o (lm_watchers lm) ev with
  | Ok ws => Ok (mkLM (lm_pods lm) ws (resourceVersion lm))
  | Err e => match e with end
  | Panic w => Panic w
  end.

(** The resource version is bumped, then the pod is sent with it. *)
Definition emit (o : shuffle Z) lm (type : string) (pod : Pod) (status : PodStatus)
    : res launch_error (LifecycleManager L) :=
  let rv := i64 (resourceVersion lm + 1) in
  let podCopy := set_podMeta (set_podStatus pod status)
                   (set_ResourceVersion (podMeta pod) (Itoa rv)) in
  broadcast o (mkLM (lm_pods lm) (lm_watchers lm) rv) (mkWatchEvent type podCopy).

Definition updatePodStatus (o : shuffle Z) lm h mp : res launch_error (LifecycleManager L) :=
  emit o lm "MODIFIED" (mp_pod mp)
    (status_or_empty lm h (Namespace (podMeta (mp_pod mp))) (Name (podMeta (mp_pod mp)))).

(** [Watch]: the registration; the events [ADDED] of the pods already there are
    sent by its goroutine, one blocking send each. *)
Definition Watch lm : LifecycleManager L * Z :=
  let '(ws, id) := subscribe (lm_watchers lm) in
  (mkLM (lm_pods lm) ws (resourceVersion lm), id).

Definition replay (o : shuffle (managedPod L)) lm h : list WatchEvent :=
  mkWatchEvent "ADDED" <$> ListActivePods o lm h.

(** ** Launch *)

Definition has_ports (pod : Pod) : bool :=
  match Containers (podSpec pod) with
  | c :: _ => match cPorts c with _ :: _ => true | [] => false end
  | [] => false
  end.

Definition container_port_annotation : string := "lok8s.io/container-port".

(** [runInitContainers]: the name of the container that failed, if any. *)
Fixpoint runInitContainers h (containers : list Container) (env : list EnvVar)
    : Host F W N * option string :=
  match containers with
  | [] => (h, None)
  | ic :: rest =>
      match cCommand ic with
      | [] => runInitContainers h rest env
      | prog :: cmd_args =>
          let '(wf, ok) := run_init (h_eng h) (h_files h) prog (cmd_args ++ cArgs ic)
            ((fun e => envName e +:+ "=" +:+ envValue e) <$> env ++ cEnv ic) in
          if ok : bool then runInitContainers (set_eng h wf) rest env
          else (set_eng h wf, Some (cName ic))
      end
  end.

(** The clean-up of the error paths after the pod is in the map. *)
Definition abandon lm h (hostPort : Z) (key : string) (pod : Pod)
    : LifecycleManager L * Host F W N :=
  let h := release_if h hostPort key in
  (set_pods lm (delete key (lm_pods lm)), set_files h (CleanupVolumes TempDir (h_files h) pod)).

(** The host port and what the caller's pod says about it. *)
Definition allocate_port h (key : string) (pod : Pod)
    : Host F W N * res launch_error (Z * Pod) :=
  if has_ports pod then
    match Allocate (h_pool h) key with
    | (pool, Ok hostPort) =>
        (set_pool h pool, Ok (hostPort,
           if (0 <? hostPort)%Z then set_podStatus pod (set_HostPort (podStatus pod) hostPort "127.0.0.1")
           else pod))
    | (pool, Err e) => (set_pool h pool, Err (PortAllocationFailed e))
    | (pool, Panic w) => (set_pool h pool, Panic w)
    end
  else (h, Ok (0%Z, pod)).

Definition container_port (pod : Pod) : res launch_error Z :=
  match go_get (Annotations (podMeta pod)) container_port_annotation with
  | None => Ok 0%Z
  | Some val => match Atoi val with Some n => Ok n | None => Err (InvalidContainerPort val) end
  end.

(** The proxy from the host port to the port the container listens on. *)
Definition start_proxy h mp (hostPort containerPort : Z) : Host F W N * managedPod L :=
  if (0 <? hostPort)%Z && (0 <? containerPort)%Z && negb (hostPort =? containerPort)%Z then
    match Listen (h_net h) hostPort with
    | Some n => (set_net h n, set_proxy mp (Some hostPort))
    | None => (h, mp)
    end
  else (h, mp).

(** From the entry in the map to the event: init containers, engine, proxy. *)
Definition run_pod (ord : orders) lm h mp (key : string) (pod : Pod) (containerPort : Z)
    : (LifecycleManager L * Host F W N) * res launch_error unit :=
  let hostPort := mp_hostPort mp in
  let lm := set_pods lm (<[key := mp]> (lm_pods lm)) in
  match runInitContainers h (InitContainers (podSpec pod)) (mp_env mp) with
  | (h, Some c) => (abandon lm h hostPort key pod, Err (InitFailed c))
  | (h, None) =>
      if negb (registered (h_eng h) (mp_engineType mp)) then
        (abandon lm h hostPort key pod, Err (NoEngine (mp_engineType mp)))
      else
        match eng_Start (h_eng h) (h_files h) (mp_engineType mp) pod (mp_target mp) (mp_env mp)
                (mp_volumes mp) with
        | (wf, Some err) => (abandon lm (set_eng h wf) hostPort key pod, Err (EngineFailed err))
        | (wf, None) =>
            let '(h, mp) := start_proxy (set_eng h wf) mp hostPort containerPort in
            let mp := set_ready mp true in
            let lm := set_pods lm (<[key := mp]> (lm_pods lm)) in
            match emit (o_watch ord) lm "ADDED" pod
                    (default (podStatus pod)
                       (LStatus lm h (Namespace (podMeta pod)) (Name (podMeta pod)))) with
            | Ok lm => ((lm, h), Ok tt)
            | Err e => ((lm, h), Err e)
            | Panic w => ((lm, h), Panic w)
            end
        end
  end.

(** [Launch]; the second component of the state is the caller's pod, through its
    pointer. *)
Definition Launch (ord : orders) (cfg : ConfigStore T) lm h (pod : Pod)
    (engineType target : string) (env : list EnvVar)
    : (LifecycleManager L * Host F W N) * Pod * res launch_error unit :=
  let key := podKey (Namespace (podMeta pod)) (Name (podMeta pod)) in
  match lm_pods lm !! key with
  | Some _ => ((lm, h), pod, Err (AlreadyManaged key))
  | None =>
      match allocate_port h key pod with
      | (h, Err e) => ((lm, h), pod, Err e)
      | (h, Panic w) => ((lm, h), pod, Panic w)
      | (h, Ok (hostPort, pod)) =>
          let env := if (0 <? hostPort)%Z then env ++ [mkEnvVar "LOK8S_PORT" (Itoa hostPort)] else env in
          match container_port pod with
          | Err e => ((lm, release_if h hostPort key), pod, Err e)
          | Panic w => ((lm, h), pod, Panic w)
          | Ok containerPort =>
              match ProjectVolumes TempDir (o_data ord) (h_files h) cfg pod with
              | (f, Err e) => ((lm, release_if (set_files h f) hostPort key), pod, Err (ProjectionFailed e))
              | (f, Panic w) => ((lm, set_files h f), pod, Panic w)
              | (f, Ok projected) =>
                  let mp := mkManagedPod pod engineType target env NewLog 0 false hostPort None projected in
                  let '(s, r) := run_pod ord lm (set_files h f) mp key pod containerPort in
                  (s, pod, r)
              end
          end
      end
  end.

(** ** Terminate *)

(** The copies the native engine mounts are removed, whatever is there. *)
Definition remove_mounts (f : F) (pod : Pod) : F :=
  match Containers (podSpec pod) with
  | c :: _ => foldl (fun f vm => (RemoveAll f (vmMountPath vm)).1) f (cVolumeMounts c)
  | [] => f
  end.

Definition close_proxy h mp : Host F W N :=
  match mp_proxy mp with
  | Some port => set_net h (CloseListener (h_net h) port)
  | None => h
  end.

Definition stop_engine h mp (name : string) : Host F W N :=
  if registered (h_eng h) (mp_engineType mp)
  then mkHost (h_pool h) (h_net h) (h_files h) (eng_Stop (h_eng h) (mp_engineType mp) name)
  else h.

(** What [Terminate] does to the host, in its order. *)
Definition tear_down h mp (key name : string) : Host F W N :=
  let h := close_proxy h mp in
  let h := release_if h (mp_hostPort mp) key in
  let h := set_files h (remove_mounts (h_files h) (mp_pod mp)) in
  let h := set_files h (CleanupVolumes TempDir (h_files h) (mp_pod mp)) in
  stop_engine h mp name.

(** [None] is the error [pod namespace/name not managed]. *)
Definition Terminate (o : shuffle Z) lm h (namespace name : string)
    : (LifecycleManager L * Host F W N) * option (res launch_error unit) :=
  let key := podKey namespace name in
  match lm_pods lm !! key with
  | None => ((lm, h), None)
  | Some mp =>
      let status := status_or_empty lm h namespace name in
      let lm := set_pods lm (delete key (lm_pods lm)) in
      let h := tear_down h mp key name in
      match emit o lm "DELETED" (mp_pod mp) status with
      | Ok lm => ((lm, h), Some (Ok tt))
      | Err e => ((lm, h), Some (Err e))
      | Panic w => ((lm, h), Some (Panic w))
      end
  end.

(** [Shutdown] terminates every pod of one listing; a panic ends the process. *)
Fixpoint terminate_all (o : shuffle Z) lm h (pods : list Pod)
    : (LifecycleManager L * Host F W N) * res launch_error unit :=
  match pods with
  | [] => ((lm, h), Ok tt)
  | pod :: rest =>
      match Terminate o lm h (Namespace (podMeta pod)) (Name (podMeta pod)) with
      | (s, Some (Panic w)) => (s, Panic w)
      | ((lm, h), _) => terminate_all o lm h rest
      end
  end.

Definition LShutdown (o : shuffle Z) (op : shuffle (managedPod L)) lm h
    : (LifecycleManager L * Host F W N) * res launch_error unit :=
  terminate_all o lm h (mp_pod <$> op (map_to_list (lm_pods lm)).*2).

(** ** Monitoring

    One pass of the loop of [monitor] for the pod under [key]: a look at the
    phase and what follows, up to the wait; then the restart after the wait. *)

Inductive monitor_state :=
| MWatching
| MBackoff (delay : Z)
| MStopped.

Definition set_mp lm (key : string) mp : LifecycleManager L :=
  set_pods lm (<[key := mp]> (lm_pods lm)).

Definition after_event {A} (r : res launch_error (LifecycleManager L)) (a : A)
    : res launch_error (LifecycleManager L * A) :=
  match r with Ok lm => Ok (lm, a) | Err e => Err e | Panic w => Panic w end.

Definition phase_final (phase : PodPhase) : bool :=
  String.eqb phase PodSucceeded || String.eqb phase PodFailed.

Definition monitor_tick (o : shuffle Z) lm h (key : string)
    : res launch_error (LifecycleManager L * monitor_state) :=
  match lm_pods lm !! key with
  | None => Ok (lm, MStopped)
  | Some mp =>
      let phase := eng_Status (h_eng h) (mp_engineType mp) (Name (podMeta (mp_pod mp))) in
      if negb (phase_final phase) then Ok (lm, MWatching)
      else if negb (shouldRestart (mp_pod mp) phase) then
        after_event (updatePodStatus o lm h mp) MStopped
      else
        let count := i64 (mp_restartCount mp + 1) in
        let mp := set_ready (set_restartCount mp count) false in
        let lm := set_mp lm key mp in
        after_event (updatePodStatus o lm h mp) (MBackoff (backoffDuration count))
  end.

Definition monitor_restart (o : shuffle Z) lm h (key : string)
    : Host F W N * res launch_error (LifecycleManager L * monitor_state) :=
  match lm_pods lm !! key with
  | None => (h, Ok (lm, MStopped))
  | Some mp =>
      match eng_Start (h_eng h) (h_files h) (mp_engineType mp) (mp_pod mp) (mp_target mp)
              (mp_env mp) (mp_volumes mp) with
      | (wf, Some _) =>
          let h := set_eng h wf in
          (h, after_event (updatePodStatus o lm h mp) MStopped)
      | (wf, None) =>
          let h := set_eng h wf in
          let mp := set_ready mp true in
          let lm := set_mp lm key mp in
          (h, after_event (updatePodStatus o lm h mp) MWatching)
      end
  end.

(** The callbacks of the probes of the first container ([startProbes]). *)
Definition liveness_event h (key : string) lm (ev : probe_event) : Host F W N :=
  match ev, lm_pods lm !! key with
  | OnThresholdReached, Some mp =>
      mkHost (h_pool h) (h_net h) (h_files h)
        (eng_Stop (h_eng h) (mp_engineType mp) (Name (podMeta (mp_pod mp))))
  | _, _ => h
  end.

Definition readiness_event (o : shuffle Z) lm h (key : string) (ev : probe_event)
    : res launch_error (LifecycleManager L) :=
  match lm_pods lm !! key with
  | None => Ok lm
  | Some mp =>
      let now_ready := match ev with OnThresholdReached => false | OnRecovered => true end in
      let lm := set_mp lm key (set_ready mp now_ready) in
      if Bool.eqb (mp_ready mp) now_ready then Ok lm
      else updatePodStatus o lm h (set_ready mp now_ready)
  end.
End Lifecycle.

(** ** Events never panic *)

Section Laws.
Context {F W N L T : Type} `{FSLaws F} `{PodEngines F W} `{TCP N}.
Context (TempDir : string) (Hroot : rooted TempDir = true) (NewLog : L).
Implicit Types (lm : LifecycleManager L) (h : Host F W N) (mp : managedPod L).

Definition lm_ok lm : Prop := exists w, hub_ok watch_cap (lm_watchers lm, w).

Lemma emit_spec o lm type pod status :
  lm_ok lm ->
  exists ws, emit o lm type pod status = Ok (mkLM (lm_pods lm) ws (i64 (resourceVersion lm + 1))) /\
    lm_ok (mkLM (lm_pods lm) ws (i64 (resourceVersion lm + 1))).
Proof.
  intros [w Hok]. pose proof (hub_ok_open _ _ Hok) as Hop. simpl in Hop.
  unfold emit, broadcast. cbn [lm_watchers].
  match goal with |- context [publish _ _ _ ?ev] => set (e := ev) end.
  destruct (publish_spec watch_cap o (lm_watchers lm) e Hop) as (ws & E & _).
  rewrite E. exists ws. split; [done|]. exists w. by eapply hub_ok_publish.
Qed.

Lemma updatePodStatus_spec o lm h mp :
  lm_ok lm ->
  exists ws, updatePodStatus o lm h mp =
      Ok (mkLM (lm_pods lm) ws (i64 (resourceVersion lm + 1))) /\
    lm_ok (mkLM (lm_pods lm) ws (i64 (resourceVersion lm + 1))).
Proof. apply emit_spec. Qed.

(** ** Launch *)

Definition pod_key_of (pod : Pod) : string :=
  podKey (Namespace (podMeta pod)) (Name (podMeta pod)).

Lemma runInitContainers_host h ics env h' r :
  runInitContainers h ics env = (h', r) -> h_pool h' = h_pool h /\ h_net h' = h_net h.
Proof.
  revert h. induction ics as [|ic ics IH]; intros h; cbn [runInitContainers].
  - by intros [= <- <-].
  - destruct (cCommand ic) as [|prog args]; [apply IH|].
    destruct (run_init _ _ _ _ _) as [wf [|]]; [intros E; apply IH in E; by destruct E|].
    by intros [= <- <-].
Qed.

Lemma start_proxy_host h mp a b :
  h_pool (start_proxy h mp a b).1 = h_pool h /\ h_files (start_proxy h mp a b).1 = h_files h /\
  h_eng (start_proxy h mp a b).1 = h_eng h.
Proof. unfold start_proxy. destruct (_ && _); [|done]. by destruct (Listen _ _). Qed.

Lemma start_proxy_mp h mp a b :
  exists p, (start_proxy h mp a b).2 = set_proxy mp p.
Proof.
  unfold start_proxy. destruct (_ && _); [destruct (Listen _ _)|]; eauto;
    exists (mp_proxy mp); by destruct mp.
Qed.

Lemma release_if_pool h port key :
  h_net (release_if h port key) = h_net h /\ h_files (release_if h port key) = h_files h /\
  h_eng (release_if h port key) = h_eng h /\
  h_pool (release_if h port key) = if (0 <? port)%Z then Release (h_pool h) key else h_pool h.
Proof. unfold release_if. by destruct (_ <? _)%Z. Qed.

Lemma abandon_spec lm h mp port key pod :
  lm_pods lm !! key = None ->
  abandon TempDir (set_pods lm (<[key := mp]> (lm_pods lm))) h port key pod =
    (lm, set_files (release_if h port key) (CleanupVolumes TempDir (h_files h) pod)).
Proof.
  intros Hn. unfold abandon, set_pods; simpl. rewrite delete_insert_id by done.
  destruct (release_if_pool h port key) as (_ & -> & _). by destruct lm.
Qed.

(** The outcome of [run_pod]: abandoned, or the pod is managed and announced. *)
Lemma run_pod_spec ord lm h mp key pod cp :
  lm_ok lm -> lm_pods lm !! key = None ->
  match run_pod TempDir ord lm h mp key pod cp with
  | ((lm', h'), Ok _) => lm_ok lm' /\ h_pool h' = h_pool h /\ exists ws p,
      lm' = mkLM (<[key := set_ready (set_proxy mp p) true]> (lm_pods lm)) ws
              (i64 (resourceVersion lm + 1))
  | ((lm', h'), Err e) => lm' = lm /\ h_net h' = h_net h /\
      h_pool h' = h_pool (release_if h (mp_hostPort mp) key) /\
      (exists f, h_files h' = CleanupVolumes TempDir f pod) /\
      match e with InitFailed _ | NoEngine _ | EngineFailed _ => True | _ => False end
  | (_, Panic _) => False
  end.
Proof.
  intros Hok Hn. unfold run_pod.
  assert (Habn : forall h1 e, h_pool h1 = h_pool h -> h_net h1 = h_net h ->
    match e with InitFailed _ | NoEngine _ | EngineFailed _ => True | _ => False end ->
    match (abandon TempDir (set_pods lm (<[key := mp]> (lm_pods lm))) h1 (mp_hostPort mp) key pod,
           @Err launch_error unit e) with
    | ((lm', h'), Ok _) => False
    | ((lm', h'), Err e) => lm' = lm /\ h_net h' = h_net h /\
        h_pool h' = h_pool (release_if h (mp_hostPort mp) key) /\
        (exists f, h_files h' = CleanupVolumes TempDir f pod) /\
        match e with InitFailed _ | NoEngine _ | EngineFailed _ => True | _ => False end
    | (_, Panic _) => False
    end).
  { intros h1 e Hp Hnet He. rewrite abandon_spec by done. split_and!; [done| | |by eexists|done].
    - simpl. by destruct (release_if_pool h1 (mp_hostPort mp) key) as (-> & _).
    - simpl. destruct (release_if_pool h1 (mp_hostPort mp) key) as (_ & _ & _ & ->).
      destruct (release_if_pool h (mp_hostPort mp) key) as (_ & _ & _ & ->). by rewrite Hp. }
  destruct (runInitContainers _ _ _) as [h1 [c|]] eqn:EI;
    apply runInitContainers_host in EI as [Hp1 Hn1].
  { specialize (Habn h1 (InitFailed c) Hp1 Hn1 I). by destruct (abandon _ _ _ _ _ _). }
  destruct (negb _).
  { specialize (Habn h1 (NoEngine (mp_engineType mp)) Hp1 Hn1 I). by destruct (abandon _ _ _ _ _ _). }
  destruct (eng_Start _ _ _ _ _ _ _) as [wf [err|]].
  { specialize (Habn (set_eng h1 wf) (EngineFailed err) Hp1 Hn1 I).
    by destruct (abandon _ _ _ _ _ _). }
  destruct (start_proxy_mp (set_eng h1 wf) mp (mp_hostPort mp) cp) as [p Ep].
  destruct (start_proxy_host (set_eng h1 wf) mp (mp_hostPort mp) cp) as (Hp2 & _ & _).
  destruct (start_proxy _ _ _ _) as [h2 mp2]. simpl in Ep, Hp2. subst mp2.
  match goal with |- context [emit ?o ?l ?t ?q ?st] =>
    destruct (emit_spec o l t q st) as (ws & E & Hok2); [exact Hok|] end.
  rewrite E. split; [exact Hok2|]. split; [by rewrite Hp2|]. exists ws, p.
  unfold set_pods; simpl. by rewrite insert_insert_eq.
Qed.

(** The pod as the manager keeps it: with the host port it was given. *)
Definition with_port (pod : Pod) (hostPort : Z) : Pod :=
  if (0 <? hostPort)%Z then set_podStatus pod (set_HostPort (podStatus pod) hostPort "127.0.0.1")
  else pod.

Lemma with_port_same pod port :
  podMeta (with_port pod port) = podMeta pod /\ podSpec (with_port pod port) = podSpec pod.
Proof. unfold with_port. by destruct (_ <? _)%Z. Qed.

Lemma allocate_port_spec h key pod :
  match allocate_port h key pod with
  | (h', Ok (port, pod')) => pod' = with_port pod port /\ h_files h' = h_files h /\
      h_net h' = h_net h /\
      (has_ports pod = true /\ h_pool h' = (Allocate (h_pool h) key).1 /\
         (Allocate (h_pool h) key).2 = Ok port \/
       has_ports pod = false /\ port = 0%Z /\ h' = h)
  | (h', Err e) => h' = h /\ match e with PortAllocationFailed _ => True | _ => False end
  | (_, Panic _) => False
  end.
Proof.
  unfold allocate_port. destruct (has_ports pod); [|split_and!; auto].
  destruct (Allocate (h_pool h) key) as [pool [port|e|w]] eqn:E.
  - split_and!; auto.
  - split; [|done]. unfold Allocate in E. destruct (allocated (h_pool h) !! key); [done|].
    destruct (scan_free _ _ _ _); [done|]. injection E as <- _. by destruct h.
  - unfold Allocate in E. destruct (allocated (h_pool h) !! key); [done|].
    by destruct (scan_free _ _ _ _).
Qed.

(** Giving back the port just taken restores the pool. *)
Lemma release_allocated h h' key port :
  allocated (h_pool h) !! key = None -> (0 < minPort (h_pool h))%Z ->
  h_pool h' = (Allocate (h_pool h) key).1 -> (Allocate (h_pool h) key).2 = Ok port ->
  h_pool (release_if h' port key) = h_pool h /\ (0 < port)%Z.
Proof.
  intros Hn Hmin Hp Ha. destruct (Allocate_new _ _ _ Hn Ha) as [[Hlo _] _].
  destruct (release_if_pool h' port key) as (_ & _ & _ & ->).
  destruct (Z.ltb_spec 0 port); [|lia]. split; [|done]. rewrite Hp.
  by apply (Release_Allocate _ _ port).
Qed.

Lemma ProjectVolumes_no_panic o f (cfg : ConfigStore T) pod f' w :
  ProjectVolumes TempDir o f cfg pod <> (f', Panic w).
Proof.
  unfold ProjectVolumes. destruct (String.eqb _ _); [done|].
  generalize (∅ : gmap string string). revert f.
  induction (Volumes (podSpec pod)) as [|vol vols IH]; intros f proj; [done|].
  cbn [project_volumes].
  assert (Hv : forall f1, project_volume TempDir (o vol) f cfg pod vol <> (f1, Panic w)).
  { intros f1. unfold project_volume. destruct (MkdirAll _ _) as [f2 [|]]; [|done].
    assert (Hd : forall x, volume_data cfg pod vol <> Panic x).
    { intros x. unfold volume_data. repeat case_match; done. }
    destruct (volume_data cfg pod vol) as [[entries mode]|e|x]; [|done|by destruct (Hd x)].
    by destruct (write_entries _ _ _ _) as [f3 [k|]]. }
  destruct (project_volume _ _ _ _ _ _) as [f1 [dir|e|x]]; [by apply IH|done|].
  intros [= -> ->]. by apply (Hv f').
Qed.

(** A launch that fails gives back whatever lease the key has: the one it has just taken,
    or the one the recovery had reserved. *)
Definition given_up h pod : PortPool :=
  if has_ports pod then Release (h_pool h) (pod_key_of pod) else h_pool h.

Lemma Release_unleased pool key : allocated pool !! key = None -> Release pool key = pool.
Proof. unfold Release. by intros ->. Qed.

Lemma given_up_unleased h pod : allocated (h_pool h) !! pod_key_of pod = None -> given_up h pod = h_pool h.
Proof. intros Hn. unfold given_up. destruct (has_ports pod); [by apply Release_unleased|done]. Qed.

(** No lease of the key, or one of a proper port. *)
Definition lease_positive h (key : string) : Prop :=
  forall p, allocated (h_pool h) !! key = Some p -> (0 < p)%Z.

Lemma release_allocate h h' key port :
  lease_positive h key -> (0 < minPort (h_pool h))%Z ->
  h_pool h' = (Allocate (h_pool h) key).1 -> (Allocate (h_pool h) key).2 = Ok port ->
  h_pool (release_if h' port key) = Release (h_pool h) key /\ (0 < port)%Z.
Proof.
  intros Hpos Hmin Hp Ha. destruct (allocated (h_pool h) !! key) as [q|] eqn:Eq.
  - unfold Allocate in Hp, Ha. rewrite Eq in Hp, Ha. simpl in *. simplify_eq.
    pose proof (Hpos _ Eq). destruct (release_if_pool h' port key) as (_ & _ & _ & ->).
    destruct (Z.ltb_spec 0 port); [|lia]. by rewrite Hp.
  - rewrite Release_unleased by done. by apply (release_allocated h h').
Qed.

(** The files of a failed launch are cleaned up, or were not touched. *)
Definition cleaned_up (f : F) pod : Prop := exists f1, f = CleanupVolumes TempDir f1 pod.

Lemma CleanupVolumes_uid f pod pod' :
  podMeta pod' = podMeta pod -> CleanupVolumes TempDir f pod' = CleanupVolumes TempDir f pod.
Proof. unfold CleanupVolumes, podVolumesRoot. by intros ->. Qed.

(** The outcome of [Launch] on every path. *)
Lemma Launch_outcome ord (cfg : ConfigStore T) lm h pod engineType target env :
  let key := pod_key_of pod in
  lm_ok lm -> (0 < minPort (h_pool h))%Z -> lease_positive h key -> plain (UID (podMeta pod)) ->
  match Launch TempDir NewLog ord cfg lm h pod engineType target env with
  | ((lm', h'), pod', Ok _) =>
      exists port mp ws, lm_ok lm' /\ lm_pods lm !! key = None /\
        lm' = mkLM (<[key := mp]> (lm_pods lm)) ws (i64 (resourceVersion lm + 1)) /\
        mp_pod mp = with_port pod port /\ pod' = with_port pod port /\
        mp_engineType mp = engineType /\ mp_ready mp = true /\ mp_restartCount mp = 0%Z /\
        mp_hostPort mp = port /\
        (has_ports pod = true /\ (0 < port)%Z /\ h_pool h' = (Allocate (h_pool h) key).1 /\
           (Allocate (h_pool h) key).2 = Ok port \/
         has_ports pod = false /\ port = 0%Z /\ h_pool h' = h_pool h)
  | ((lm', h'), _, Err e) => lm' = lm /\ h_net h' = h_net h /\
      match e with
      | AlreadyManaged _ | PortAllocationFailed _ => h' = h
      | InvalidContainerPort _ => h_files h' = h_files h /\ h_pool h' = given_up h pod
      | _ => cleaned_up (h_files h') pod /\ h_pool h' = given_up h pod
      end
  | (_, _, Panic _) => False
  end.
Proof.
  intros key Hok Hmin Hn Hu. unfold Launch. fold (pod_key_of pod). fold key.
  destruct (lm_pods lm !! key) as [mp0|] eqn:Ek; [done|].
  pose proof (allocate_port_spec h key pod) as HA.
  destruct (allocate_port h key pod) as [h1 [[port pod1]|e|w]]; [| |done].
  2: { destruct HA as [-> He]. by destruct e. }
  destruct HA as (-> & Hf1 & Hn1 & Hport).
  assert (Hrel : forall f, h_pool (release_if (set_files h1 f) port key) = given_up h pod).
  { intros f. unfold given_up. destruct (release_if_pool (set_files h1 f) port key) as (_ & _ & _ & Rp2).
    destruct (release_if_pool h1 port key) as (_ & _ & _ & Rp1). rewrite Rp2. simpl. rewrite <- Rp1.
    destruct Hport as [(-> & Hp & Ha)|(-> & -> & ->)]; [|done]. by eapply release_allocate. }
  unfold container_port. destruct (with_port_same pod port) as [Em Es]. rewrite Em.
  destruct (match go_get _ _ with Some _ => _ | None => _ end) as [cp|e|w] eqn:Ec.
  2: { destruct (go_get _ _) as [val|]; [|done]. destruct (Atoi val); [done|].
       injection Ec as <-. destruct (release_if_pool h1 port key) as (Rn & Rf & _).
       split_and!; [done|by rewrite Rn|by rewrite Rf|]. specialize (Hrel (h_files h1)). by destruct h1. }
  2: { destruct (go_get _ _) as [val|]; [|done]. by destruct (Atoi val). }
  destruct (ProjectVolumes _ _ _ _ _) as [f [projected|e|w]] eqn:EP.
  3: { by apply ProjectVolumes_no_panic in EP. }
  2: { apply ProjectVolumes_fails in EP as [f1 ->]; [|by rewrite Em].
       destruct (release_if_pool (set_files h1 (CleanupVolumes TempDir f1 (with_port pod port))) port key)
         as (Rn & Rf & _).
       split_and!; [done|by rewrite Rn| |by apply Hrel].
       rewrite Rf. exists f1. by apply CleanupVolumes_uid. }
  match goal with |- context [run_pod _ _ _ ?hh ?m _ _ _] =>
    pose proof (run_pod_spec ord lm hh m key (with_port pod port) cp Hok Ek) as HR;
    destruct (run_pod TempDir ord lm hh m key (with_port pod port) cp) as [[lm' h'] [u|e|w]] end;
    [| |done].
  - destruct HR as (Hok' & Hp' & ws & p & E).
    exists port. eexists _, ws. split_and!; [exact Hok'|done|exact E|done..|].
    destruct Hport as [(Hh & Hp & Ha)|(Hh & -> & ->)]; [left|right]; split_and!; try done.
    + by destruct (release_allocate h h1 key port Hn Hmin Hp Ha).
    + by rewrite Hp'.
  - destruct HR as (-> & Hn' & Hp' & (f' & Hf') & He). simpl in Hn', Hp'.
    split_and!; [done|by rewrite Hn'|].
    assert (Hc : cleaned_up (h_files h') pod /\ h_pool h' = given_up h pod).
    { split; [|by rewrite Hp', Hrel]. exists f'. rewrite Hf'. by apply CleanupVolumes_uid. }
    by destruct e.
Qed.

(** ** Terminate *)

Lemma tear_down_pool h mp key name :
  h_pool (tear_down TempDir h mp key name) = h_pool (release_if h (mp_hostPort mp) key).
Proof.
  unfold tear_down, stop_engine, close_proxy.
  destruct (registered _ _), (mp_proxy mp); simpl; unfold release_if; by destruct (_ <? _)%Z.
Qed.

Lemma Terminate_spec o lm h ns name mp :
  lm_ok lm -> lm_pods lm !! podKey ns name = Some mp ->
  exists ws, Terminate TempDir o lm h ns name =
    ((mkLM (delete (podKey ns name) (lm_pods lm)) ws (i64 (resourceVersion lm + 1)),
      tear_down TempDir h mp (podKey ns name) name), Some (Ok tt)) /\
    lm_ok (mkLM (delete (podKey ns name) (lm_pods lm)) ws (i64 (resourceVersion lm + 1))).
Proof.
  intros Hok Hmp. unfold Terminate. rewrite Hmp.
  match goal with |- context [emit ?o ?l ?t ?q ?st] =>
    destruct (emit_spec o l t q st) as (ws & E & Hok2); [exact Hok|] end.
  rewrite E. exists ws. done.
Qed.

Lemma tear_down_files_eq h mp key name :
  h_files (tear_down TempDir h mp key name) =
    CleanupVolumes TempDir (remove_mounts (h_files h) (mp_pod mp)) (mp_pod mp).
Proof.
  unfold tear_down, stop_engine, close_proxy.
  destruct (registered _ _), (mp_proxy mp); simpl; unfold release_if; by destruct (_ <? _)%Z.
Qed.

Lemma RemoveAll_keeps_none f p l : file_at f l = None -> file_at (RemoveAll f p).1 l = None.
Proof.
  intros Hn. destruct (decide (under (location p) l)) as [Hu|Hu].
  - by destruct (RemoveAll_some f p l Hu) as [->| ->].
  - by rewrite RemoveAll_other.
Qed.

Lemma remove_mounts_at f pod c vm l :
  (forall f, (RemoveAll f (vmMountPath vm)).2 = true) ->
  head (Containers (podSpec pod)) = Some c -> vm ∈ cVolumeMounts c ->
  under (location (vmMountPath vm)) l -> file_at (remove_mounts f pod) l = None.
Proof.
  unfold remove_mounts. destruct (Containers (podSpec pod)) as [|c0 cs]; [done|].
  intros Hrem [= ->] Hin Hu.
  assert (Hkeep : forall vms f, file_at f l = None ->
    file_at (foldl (fun f vm => (RemoveAll f (vmMountPath vm)).1) f vms) l = None).
  { intros vms. induction vms as [|v vms IH]; intros f0 Hf0; [done|]. apply IH. by apply RemoveAll_keeps_none. }
  revert f. induction (cVolumeMounts c) as [|v vms IH]; intros f; [by apply elem_of_nil in Hin|].
  apply elem_of_cons in Hin as [<-|Hin]; [|by apply IH].
  cbn [foldl]. apply Hkeep. eapply RemoveAll_all; [|done]. rewrite <- (Hrem f). apply surjective_pairing.
Qed.

(** ** Reachable states

    The operations of the manager in any order.  [Launch] runs to its end before
    the next step; a monitor or a probe of a pod may step at any time.  A monitor that
    has decided to restart its pod waits first: the third component has the pods
    whose monitors wait, with the phase that each of them has seen. *)

Definition lm_state : Type := (LifecycleManager L * Host F W N * gmap string PodPhase)%type.

Definition phase_seen lm h (key : string) : PodPhase :=
  match lm_pods lm !! key with
  | Some mp => eng_Status (h_eng h) (mp_engineType mp) (Name (podMeta (mp_pod mp)))
  | None => ""
  end.

(** A pass of a monitor starts a wait, or goes on, or ends the monitor. *)
Definition waits (w : gmap string PodPhase) (key : string) (phase : PodPhase) (st : monitor_state)
    : gmap string PodPhase :=
  match st with MBackoff _ => <[key := phase]> w | _ => w end.

(** What the services and the recovery do to the pool and the sockets they share with the
    pods, for keys that no managed pod has (a service named like a pod takes over its
    lease: [SvcProxy.service_takes_pod_lease]). *)
Inductive shared_step : LifecycleManager L -> Host F W N -> Host F W N -> Prop :=
| ShService lm h px op :
    let pm := mkProxyManager px (h_pool h) (h_net h) in
    (forall k, pm_touches pm op k -> lm_pods lm !! k = None) ->
    shared_step lm h (mkHost (pm_pool (pm_step pm op)) (pm_net (pm_step pm op)) (h_files h) (h_eng h))
| ShReserve lm h key port :
    lm_pods lm !! key = None -> shared_step lm h (set_pool h (Reserve (h_pool h) key port).1)
| ShWorld lm h net eng files : shared_step lm h (mkHost (h_pool h) net files eng).

Inductive lm_step (cfg : ConfigStore T) : lm_state -> lm_state -> Prop :=
| SLaunch ord lm h w pod engineType target env lm' h' pod' r :
    Launch TempDir NewLog ord cfg lm h pod engineType target env = ((lm', h'), pod', r) ->
    lm_step cfg (lm, h, w) (lm', h', w)
| STerminate o lm h w ns name lm' h' r :
    Terminate TempDir o lm h ns name = ((lm', h'), r) ->
    lm_step cfg (lm, h, w) (lm', h', delete (podKey ns name) w)
| SWatch lm h w : lm_step cfg (lm, h, w) ((Watch lm).1, h, w)
| STick o lm h w key lm' st :
    w !! key = None -> monitor_tick o lm h key = Ok (lm', st) ->
    lm_step cfg (lm, h, w) (lm', h, waits w key (phase_seen lm h key) st)
| SRestart o lm h w key phase h' lm' st :
    w !! key = Some phase -> monitor_restart o lm h key = (h', Ok (lm', st)) ->
    lm_step cfg (lm, h, w) (lm', h', delete key w)
| SReadiness o lm h w key ev lm' :
    readiness_event o lm h key ev = Ok lm' -> lm_step cfg (lm, h, w) (lm', h, w)
| SLiveness lm h w key ev : lm_step cfg (lm, h, w) (lm, liveness_event h key lm ev, w)
| SShared lm h h' w : shared_step lm h h' -> lm_step cfg (lm, h, w) (lm, h', w).

Inductive lm_reach (cfg : ConfigStore T) (h0 : Host F W N) : lm_state -> Prop :=
| LInit : lm_reach cfg h0 (NewLifecycleManager, h0, ∅)
| LNext s s' : lm_reach cfg h0 s -> lm_step cfg s s' -> lm_reach cfg h0 s'.

(** After which phase of its workload a pod of a policy is started again. *)
Inductive may_restart : string -> PodPhase -> Prop :=
| MayAlways policy phase :
    policy = "" \/ policy = "Always" -> phase = "Succeeded" \/ phase = "Failed" -> may_restart policy phase
| MayOnFailure : may_restart "OnFailure" "Failed".

Abbreviation policy_of mp := (psRestartPolicy (podSpec (mp_pod mp))).

(** Managed pods hold the lease of their host port; restarts follow the policy. *)
Record mp_ok (pool : PortPool) (key : string) mp : Prop := {
  mk_lease : (0 < mp_hostPort mp)%Z -> allocated pool !! key = Some (mp_hostPort mp);
  mk_policy : mp_restartCount mp <> 0%Z -> exists phase, may_restart (policy_of mp) phase;
}.

Record lm_inv (s : LifecycleManager L * Host F W N) : Prop := {
  iv_hub : lm_ok s.1;
  iv_pool : pool_ok (h_pool s.2);
  iv_pods : forall key mp, lm_pods s.1 !! key = Some mp -> mp_ok (h_pool s.2) key mp;
}.

(** A monitor waits only to restart a pod that is to be restarted. *)
Definition wait_ok lm (w : gmap string PodPhase) : Prop :=
  forall key phase, w !! key = Some phase ->
    exists mp, lm_pods lm !! key = Some mp /\ may_restart (policy_of mp) phase.

(** A pool that differs at the key of an unmanaged pod only. *)
Lemma inv_pool_change lm h pool key :
  lm_pods lm !! key = None -> lm_inv (lm, h) -> pool_ok pool ->
  (forall key', key' <> key -> allocated pool !! key' = allocated (h_pool h) !! key') ->
  forall h', h_pool h' = pool -> lm_inv (lm, h').
Proof.
  intros Hn [Hh Hp Hm] Hpool Hother h' E. split; simpl in *; [done|by rewrite E|].
  intros key' mp Hl. destruct (decide (key' = key)) as [->|Hne]; [congruence|].
  destruct (Hm _ _ Hl) as [H1' H2']. split; [|done]. intros Hpos.
  rewrite E, Hother by done. by apply H1'.
Qed.

Lemma release_if_ok h port key : pool_ok (h_pool h) -> pool_ok (h_pool (release_if h port key)).
Proof.
  intros Hp. destruct (release_if_pool h port key) as (_ & _ & _ & ->).
  case_match; auto with lok8s.
Qed.

Lemma release_if_other h port key key' :
  key' <> key ->
  allocated (h_pool (release_if h port key)) !! key' = allocated (h_pool h) !! key'.
Proof.
  intros Hne. destruct (release_if_pool h port key) as (_ & _ & _ & ->).
  case_match; [by apply Release_other|done].
Qed.

(** What [Launch] does to the map and to the leases, whatever the pod is. *)
Lemma Launch_state ord (cfg : ConfigStore T) lm h pod engineType target env lm' h' pod' r :
  let key := pod_key_of pod in
  lm_ok lm -> pool_ok (h_pool h) ->
  Launch TempDir NewLog ord cfg lm h pod engineType target env = ((lm', h'), pod', r) ->
  lm' = lm /\ h' = h \/
  lm_pods lm !! key = None /\ lm_ok lm' /\ pool_ok (h_pool h') /\
  (forall key', key' <> key -> allocated (h_pool h') !! key' = allocated (h_pool h) !! key') /\
  (lm' = lm \/ exists mp ws, lm' = mkLM (<[key := mp]> (lm_pods lm)) ws (i64 (resourceVersion lm + 1)) /\
     mp_restartCount mp = 0%Z /\ ((0 < mp_hostPort mp)%Z ->
       allocated (h_pool h') !! key = Some (mp_hostPort mp))).
Proof.
  intros key Hok Hpool. unfold Launch. fold (pod_key_of pod). fold key.
  destruct (lm_pods lm !! key) as [mp0|] eqn:Ek; [intros [= <- <- _ _]; by left|].
  pose proof (allocate_port_spec h key pod) as HA.
  destruct (allocate_port h key pod) as [h1 [[port pod1]|e|w]]; [| |done].
  2: { destruct HA as [-> _]. intros [= <- <- _ _]. by left. }
  destruct HA as (-> & _ & _ & Hport). intros E. right.
  assert (Hp1 : pool_ok (h_pool h1) /\
    (forall key', key' <> key -> allocated (h_pool h1) !! key' = allocated (h_pool h) !! key') /\
    ((0 < port)%Z -> allocated (h_pool h1) !! key = Some port)).
  { destruct Hport as [(_ & -> & Ha)|(_ & -> & ->)]; split_and!; auto with lok8s; try lia.
    - intros key' Hne. by apply Allocate_other.
    - intros _. by apply Allocate_lease. }
  destruct Hp1 as (Hp1 & Ho1 & Hl1). split; [done|].
  assert (Hrel : forall f, pool_ok (h_pool (release_if (set_files h1 f) port key)) /\
    (forall key', key' <> key ->
       allocated (h_pool (release_if (set_files h1 f) port key)) !! key' = allocated (h_pool h) !! key')).
  { intros f. split; [by apply release_if_ok|]. intros key' Hne.
    rewrite release_if_other by done. by apply Ho1. }
  destruct (container_port _) as [cp|e|w].
  2: { injection E as <- <- _ _. split; [done|]. split; [by apply release_if_ok|].
       split; [|by left]. intros key' Hne. rewrite release_if_other by done. by apply Ho1. }
  2: { injection E as <- <- _ _. split_and!; [done..|by left]. }
  destruct (ProjectVolumes _ _ _ _ _) as [f [projected|e|w]].
  2: { injection E as <- <- _ _. destruct (Hrel f). split_and!; [done..|by left]. }
  2: { injection E as <- <- _ _. split_and!; [done..|by left]. }
  match type of E with context [run_pod _ _ _ ?hh ?m _ _ _] =>
    pose proof (run_pod_spec ord lm hh m key (with_port pod port) cp Hok Ek) as HR;
    destruct (run_pod TempDir ord lm hh m key (with_port pod port) cp) as [[lm2 h2] [u|e|w]] end;
    [| |done]; injection E as <- <- _ _.
  - destruct HR as (Hok' & Hp' & ws & p & El). simpl in Hp'. rewrite Hp'.
    split_and!; [done..|]. right. eexists _, ws. split_and!; [exact El|done|done].
  - destruct HR as (-> & _ & Hp' & _). destruct (Hrel f) as [Hr1 Hr2].
    rewrite Hp'. split_and!; [done..|by left].
Qed.

Lemma mp_ok_insert lm h key mp mp' :
  lm_inv (lm, h) -> mp_ok (h_pool h) key mp' ->
  forall ws rv, lm_ok (mkLM (<[key := mp']> (lm_pods lm)) ws rv) ->
  lm_inv (mkLM (<[key := mp']> (lm_pods lm)) ws rv, h).
Proof.
  intros [Hh Hp Hm] Hmp ws rv Hok. split; simpl in *; [done..|].
  intros key' m. rewrite lookup_insert_Some. intros [[<- <-]|[_ Hl]]; [done|by apply Hm].
Qed.

Lemma shouldRestart_may pod phase :
  phase_final phase = true ->
  (shouldRestart pod phase = true <-> may_restart (psRestartPolicy (podSpec pod)) phase).
Proof.
  intros Hf. assert (Hf' : phase = "Succeeded" \/ phase = "Failed")
    by (unfold phase_final in Hf; apply orb_true_iff in Hf as [?|?]; bool_z; auto).
  unfold shouldRestart. destruct (String.eqb (psRestartPolicy (podSpec pod)) "") eqn:E0; bool_z.
  { split; [intros _|done]. constructor; auto. }
  destruct (String.eqb _ RestartAlways) eqn:E1; bool_z.
  { split; [intros _|done]. constructor; auto. }
  destruct (String.eqb _ RestartOnFailure) eqn:E2; bool_z.
  - rewrite E2. split.
    + intros Hp. bool_z. rewrite Hp. apply MayOnFailure.
    + inversion 1 as [p ph [Hp|Hp]|]; subst; [done|done|reflexivity].
  - unfold RestartAlways, RestartOnFailure in *. split; [done|]. inversion 1 as [p ph [Hp|Hp]|Hp]; congruence.
Qed.

Lemma inv_Launch ord (cfg : ConfigStore T) lm h pod et tg env lm' h' pod' r :
  lm_inv (lm, h) ->
  Launch TempDir NewLog ord cfg lm h pod et tg env = ((lm', h'), pod', r) -> lm_inv (lm', h').
Proof.
  intros Hinv E. pose proof Hinv as [Hh Hp Hm]. simpl in *.
  destruct (Launch_state ord cfg lm h pod et tg env lm' h' pod' r Hh Hp E)
    as [[-> ->]|(Hn & Hok' & Hp' & Ho & Hl)]; [done|].
  assert (Hbase : lm_inv (lm, h')) by (by eapply (inv_pool_change lm h (h_pool h') (pod_key_of pod))).
  destruct Hl as [->|(mp & ws & -> & Hrc & Hlease)]; [done|].
  eapply (mp_ok_insert lm h' _ mp mp); [done| |done]. split; [done|]. by rewrite Hrc.
Qed.

Lemma inv_Terminate o lm h ns name lm' h' r :
  lm_inv (lm, h) -> Terminate TempDir o lm h ns name = ((lm', h'), r) -> lm_inv (lm', h').
Proof.
  intros [Hh Hp Hm] E. simpl in *.
  destruct (lm_pods lm !! podKey ns name) as [mp|] eqn:Ek.
  - destruct (Terminate_spec o lm h ns name mp Hh Ek) as (ws & E' & Hok').
    rewrite E' in E. injection E as <- <- _. split; simpl; [done| |].
    + rewrite tear_down_pool. by apply release_if_ok.
    + intros key' m [Hne Hl]%lookup_delete_Some. destruct (Hm _ _ Hl) as [Hk1 Hk2].
      split; [|done]. intros Hpos. rewrite tear_down_pool, release_if_other by done. by apply Hk1.
  - unfold Terminate in E. rewrite Ek in E. by injection E as <- <- _.
Qed.

Lemma inv_host lm h h' : lm_inv (lm, h) -> h_pool h' = h_pool h -> lm_inv (lm, h').
Proof. intros [Hh Hp Hm] E. split; simpl in *; rewrite ?E; done. Qed.

Lemma inv_tick o lm h key lm' st :
  lm_inv (lm, h) -> monitor_tick o lm h key = Ok (lm', st) -> lm_inv (lm', h).
Proof.
  intros Hinv. pose proof Hinv as [Hh Hp Hm]. simpl in *. unfold monitor_tick.
  destruct (lm_pods lm !! key) as [mp|] eqn:Ek; [|by intros [= <- _]].
  destruct (negb (phase_final _)) eqn:Ef; [by intros [= <- _]|].
  destruct (negb (shouldRestart _ _)) eqn:Er.
  - destruct (updatePodStatus_spec o lm h mp Hh) as (ws & -> & Hok'). simpl. intros [= <- _].
    by split.
  - bool_z. set (mp' := set_ready _ _).
    destruct (updatePodStatus_spec o (set_mp lm key mp') h mp' Hh) as (ws & -> & Hok').
    simpl. intros [= <- _]. eapply (mp_ok_insert lm h key mp mp'); [done| |done].
    destruct (Hm _ _ Ek) as [Hk1 _]. split; [exact Hk1|]. intros _.
    eexists. by apply shouldRestart_may.
Qed.

Lemma inv_restart o lm h key h' lm' st :
  lm_inv (lm, h) -> monitor_restart o lm h key = (h', Ok (lm', st)) -> lm_inv (lm', h').
Proof.
  intros Hinv. pose proof Hinv as [Hh Hp Hm]. simpl in *. unfold monitor_restart.
  destruct (lm_pods lm !! key) as [mp|] eqn:Ek; [|by intros [= <- <- _]].
  destruct (eng_Start _ _ _ _ _ _ _) as [wf [err|]].
  - destruct (updatePodStatus_spec o lm (set_eng h wf) mp Hh) as (ws & -> & Hok'). simpl.
    intros [= <- <- _]. by split.
  - set (mp' := set_ready mp true).
    destruct (updatePodStatus_spec o (set_mp lm key mp') (set_eng h wf) mp' Hh) as (ws & -> & Hok').
    simpl. intros [= <- <- _].
    eapply (mp_ok_insert lm (set_eng h wf) key mp mp'); [by apply (inv_host lm h)| |done].
    destruct (Hm _ _ Ek) as [Hk1 Hk2]. by split.
Qed.

Lemma inv_readiness o lm h key ev lm' :
  lm_inv (lm, h) -> readiness_event o lm h key ev = Ok lm' -> lm_inv (lm', h).
Proof.
  intros Hinv. pose proof Hinv as [Hh Hp Hm]. simpl in *. unfold readiness_event.
  destruct (lm_pods lm !! key) as [mp|] eqn:Ek; [|by intros [= <-]].
  set (mp' := set_ready mp _). set (lm1 := set_mp lm key mp').
  assert (Hmp' : mp_ok (h_pool h) key mp') by (destruct (Hm _ _ Ek); by split).
  destruct (Bool.eqb _ _).
  - intros [= <-]. unfold lm1. apply (mp_ok_insert lm h key mp mp' Hinv Hmp'). exact Hh.
  - destruct (updatePodStatus_spec o lm1 h mp' Hh) as (ws & -> & Hok'). intros [= <-].
    by eapply (mp_ok_insert lm h key mp mp').
Qed.

Lemma inv_shared lm h h' : lm_inv (lm, h) -> shared_step lm h h' -> lm_inv (lm, h').
Proof.
  assert (Hchg : forall lm h h', lm_inv (lm, h) -> pool_ok (h_pool h') ->
    (forall k, is_Some (lm_pods lm !! k) -> allocated (h_pool h') !! k = allocated (h_pool h) !! k) ->
    lm_inv (lm, h')).
  { intros lm1 h1 h1' [Hh Hp Hm] Hp' Hk. split; simpl in *; [done..|]. intros key mp Ek.
    destruct (Hm _ _ Ek) as [Hk1 Hk2]. split; [|done]. rewrite Hk by eauto. done. }
  intros Hinv Hs. destruct Hs as [lm h px op pm Hfree|lm h key port Hn|lm h net eng files].
  - destruct (pm_step_leases pm op (iv_pool _ Hinv)) as [Hp' Ho]. apply (Hchg lm h); [done|exact Hp'|].
    intros k [mp Hk]. apply Ho. intros Ht. rewrite (Hfree _ Ht) in Hk. done.
  - apply (Hchg lm h); [done|by apply Reserve_ok, Hinv|]. intros k [mp Hk]. apply Reserve_other. congruence.
  - by apply (Hchg lm h); [|apply Hinv|].
Qed.

(** A pass of a monitor: it waits to restart the pod just when the policy says so. *)
Lemma tick_decides o lm h key mp :
  lm_ok lm -> lm_pods lm !! key = Some mp -> phase_final (phase_seen lm h key) = true ->
  match monitor_tick o lm h key with
  | Ok (lm', MBackoff d) => may_restart (policy_of mp) (phase_seen lm h key) /\
      d = backoffDuration (i64 (mp_restartCount mp + 1))
  | Ok (_, MStopped) => ~ may_restart (policy_of mp) (phase_seen lm h key)
  | _ => False
  end.
Proof.
  intros Hok Ek. unfold phase_seen, monitor_tick. rewrite Ek. intros Hf. rewrite Hf. simpl.
  destruct (shouldRestart (mp_pod mp) _) eqn:Es; simpl.
  - set (mp' := set_ready _ _).
    destruct (updatePodStatus_spec o (set_mp lm key mp') h mp' Hok) as (ws & -> & _).
    split; [by apply shouldRestart_may|done].
  - destruct (updatePodStatus_spec o lm h mp Hok) as (ws & -> & _). simpl.
    rewrite <- shouldRestart_may by done. by rewrite Es.
Qed.

(** An operation that keeps the pods keeps the waits. *)
Lemma wait_ok_keep lm lm' w :
  (forall k mp, lm_pods lm !! k = Some mp -> exists mp', lm_pods lm' !! k = Some mp' /\ mp_pod mp' = mp_pod mp) ->
  wait_ok lm w -> wait_ok lm' w.
Proof.
  intros Hk Hw key phase Hp. destruct (Hw _ _ Hp) as (mp & E & Hm). destruct (Hk _ _ E) as (mp' & E' & Ep).
  exists mp'. by rewrite Ep.
Qed.

Lemma wait_ok_insert lm key mp mp' ws rv w :
  lm_pods lm !! key = Some mp -> mp_pod mp' = mp_pod mp -> wait_ok lm w ->
  wait_ok (mkLM (<[key := mp']> (lm_pods lm)) ws rv) w.
Proof.
  intros Ek Ep. apply wait_ok_keep. intros k m Hk. simpl. destruct (decide (k = key)) as [->|Hne].
  - exists mp'. rewrite lookup_insert_eq. split; [done|]. congruence.
  - exists m. by rewrite lookup_insert_ne.
Qed.

Lemma wait_ok_delete lm key w :
  wait_ok lm w -> wait_ok lm (delete key w) /\
  forall ws rv, wait_ok (mkLM (delete key (lm_pods lm)) ws rv) (delete key w).
Proof.
  intros Hw. split.
  - intros k phase [_ Hp]%lookup_delete_Some. by apply Hw.
  - intros ws rv k phase [Hne Hp]%lookup_delete_Some. destruct (Hw _ _ Hp) as (mp & E & Hm).
    exists mp. simpl. by rewrite lookup_delete_ne.
Qed.

Lemma wait_tick o lm h key lm' st w :
  lm_ok lm -> wait_ok lm w -> monitor_tick o lm h key = Ok (lm', st) ->
  wait_ok lm' (waits w key (phase_seen lm h key) st).
Proof.
  intros Hok Hw E. pose proof (tick_decides o lm h key) as Hd. unfold monitor_tick in *.
  destruct (lm_pods lm !! key) as [mp|] eqn:Ek; [|injection E as <- <-; exact Hw].
  specialize (Hd mp Hok eq_refl). unfold phase_seen in *. rewrite Ek in *.
  destruct (phase_final _) eqn:Ef; simpl in *; [|injection E as <- <-; exact Hw].
  specialize (Hd eq_refl). destruct (shouldRestart _ _); simpl in *.
  - set (mp' := set_ready _ _) in *.
    destruct (updatePodStatus_spec o (set_mp lm key mp') h mp' Hok) as (ws & Eu & _). rewrite Eu in E, Hd.
    simpl in *. injection E as <- <-. simpl. destruct Hd as [Hm _].
    intros k phase [[<- <-]|[Hne Hp]]%lookup_insert_Some.
    + exists mp'. simpl. by rewrite lookup_insert_eq.
    + by eapply (wait_ok_insert lm key mp mp').
  - destruct (updatePodStatus_spec o lm h mp Hok) as (ws & Eu & _). rewrite Eu in E. simpl in E.
    by injection E as <- <-.
Qed.

Lemma wait_restart o lm h key h' lm' st w :
  lm_ok lm -> wait_ok lm w -> monitor_restart o lm h key = (h', Ok (lm', st)) -> wait_ok lm' (delete key w).
Proof.
  intros Hok Hw. apply (wait_ok_delete lm key) in Hw as [Hw _]. unfold monitor_restart.
  destruct (lm_pods lm !! key) as [mp|] eqn:Ek; [|by intros [= _ <- _]].
  destruct (eng_Start _ _ _ _ _ _ _) as [wf [err|]].
  - destruct (updatePodStatus_spec o lm (set_eng h wf) mp Hok) as (ws & -> & _). simpl. by intros [= _ <- _].
  - set (mp' := set_ready mp true).
    destruct (updatePodStatus_spec o (set_mp lm key mp') (set_eng h wf) mp' Hok) as (ws & -> & _).
    simpl. intros [= _ <- _]. by eapply (wait_ok_insert lm key mp mp').
Qed.

Lemma wait_readiness o lm h key ev lm' w :
  lm_ok lm -> wait_ok lm w -> readiness_event o lm h key ev = Ok lm' -> wait_ok lm' w.
Proof.
  intros Hok Hw. unfold readiness_event. destruct (lm_pods lm !! key) as [mp|] eqn:Ek; [|by intros [= <-]].
  set (mp' := set_ready mp _). destruct (Bool.eqb _ _).
  - intros [= <-]. by eapply (wait_ok_insert lm key mp mp').
  - destruct (updatePodStatus_spec o (set_mp lm key mp') h mp' Hok) as (ws & -> & _). intros [= <-].
    by eapply (wait_ok_insert lm key mp mp').
Qed.

Lemma lm_inv_step (cfg : ConfigStore T) s s' :
  lm_inv s.1 /\ wait_ok s.1.1 s.2 -> lm_step cfg s s' -> lm_inv s'.1 /\ wait_ok s'.1.1 s'.2.
Proof.
  intros [Hinv Hw] Hs. pose proof Hinv as [Hh Hp Hm].
  destruct Hs as [ord lm h w pod et tg env lm' h' pod' r E|o lm h w ns name lm' h' r E|lm h w|
    o lm h w key lm' st _ E|o lm h w key phase h' lm' st _ E|o lm h w key ev lm' E|lm h w key ev|
    lm h h' w Hs]; simpl in *.
  - split; [by eapply inv_Launch|].
    destruct (Launch_state ord cfg lm h pod et tg env lm' h' pod' r Hh Hp E)
      as [[-> ->]|(Hn & _ & _ & _ & [->|(mp & ws & -> & _)])]; [done..|].
    eapply wait_ok_keep; [|exact Hw]. intros k m Hk. exists m. simpl.
    rewrite lookup_insert_ne by congruence. done.
  - split; [by eapply inv_Terminate|]. destruct (wait_ok_delete lm (podKey ns name) w Hw) as [Hw1 Hw2].
    destruct (lm_pods lm !! podKey ns name) as [mp|] eqn:Ek.
    + destruct (Terminate_spec o lm h ns name mp Hh Ek) as (ws & E' & _).
      rewrite E' in E. injection E as <- <- _. apply Hw2.
    + unfold Terminate in E. rewrite Ek in E. by injection E as <- <- _.
  - split; [|exact Hw]. destruct Hh as [w0 Hh]. split; simpl; [|done..]. exists w0.
    by apply hub_ok_subscribe.
  - split; [by eapply inv_tick|by eapply wait_tick].
  - split; [by eapply inv_restart|by eapply wait_restart].
  - split; [by eapply inv_readiness|by eapply wait_readiness].
  - split; [|done]. eapply inv_host; [done|]. unfold liveness_event. destruct ev, (lm_pods lm !! key); done.
  - split; [by eapply inv_shared|done].
Qed.

Lemma lm_reach_inv (cfg : ConfigStore T) h0 s :
  pool_ok (h_pool h0) -> lm_reach cfg h0 s -> lm_inv s.1 /\ wait_ok s.1.1 s.2.
Proof.
  intros Hp. induction 1 as [|s s' _ IH Hs]; [|by eapply lm_inv_step].
  split; [split; simpl; [|done|]|].
  - exists ∅. apply (hub_reach_ok watch_cap), ReachInit.
  - intros key mp. by rewrite lookup_empty.
  - intros key phase. simpl. by rewrite lookup_empty.
Qed.




(** Terminating a pod deletes everything that can be deleted at the mount paths of its
    first container, whether a volume was projected there or not: a pod that merely names
    a directory of the host as a mount path erases it. *)
Theorem Terminate_deletes_mounts o lm h ns name mp c vm l :
  lm_pods lm !! podKey ns name = Some mp -> (forall f, (RemoveAll f (vmMountPath vm)).2 = true) ->
  head (Containers (podSpec (mp_pod mp))) = Some c -> vm ∈ cVolumeMounts c ->
  under (location (vmMountPath vm)) l ->
  file_at (h_files (Terminate TempDir o lm h ns name).1.2) l = None.
Proof.
  intros Hmp Hrem Hc Hvm Hl. unfold Terminate. rewrite Hmp.
  match goal with |- context [emit ?o ?l ?t ?q ?st] => destruct (emit o l t q st) end; simpl;
    rewrite tear_down_files_eq; unfold CleanupVolumes; destruct (String.eqb _ _);
    try apply RemoveAll_keeps_none; by eapply remove_mounts_at.
Qed.

(** An engine knows a pod by its bare name: pods of one name in two namespaces
    report the same phase, and terminating one stops the workload of that name. *)
Theorem namesakes_share_engine o lm h ns1 ns2 name mp1 mp2 :
  lm_ok lm ->
  lm_pods lm !! podKey ns1 name = Some mp1 -> lm_pods lm !! podKey ns2 name = Some mp2 ->
  mp_engineType mp1 = mp_engineType mp2 ->
  option_map Phase (LStatus lm h ns1 name) = option_map Phase (LStatus lm h ns2 name) /\
  (registered (h_eng h) (mp_engineType mp1) = true ->
   h_eng (Terminate TempDir o lm h ns1 name).1.2 = eng_Stop (h_eng h) (mp_engineType mp2) name).
Proof.
  intros Hok Hm1 Hm2 He. split.
  - unfold LStatus. rewrite Hm1, Hm2. simpl. unfold pod_status. rewrite He.
    by destruct (registered _ _).
  - intros Hreg. destruct (Terminate_spec o lm h ns1 name mp1 Hok Hm1) as (ws & -> & _). simpl.
    unfold tear_down, stop_engine, close_proxy. rewrite <- He.
    unfold release_if.
    destruct (mp_proxy mp1), (0 <? mp_hostPort mp1)%Z; simpl; by rewrite Hreg.
Qed.
End Laws.

(** ** The delay before a restart *)

Lemma shiftl_10 n : (1 <= n)%Z -> Z.shiftl 10 (n - 1) = (10 * 2 ^ (n - 1))%Z.
Proof. intros Hn. apply Z.shiftl_mul_pow2. lia. Qed.

Lemma backoffDuration_doubles n :
  (1 <= n <= 30)%Z -> backoffDuration n = Z.min (10 * 2 ^ (n - 1) * Second) maxBackoff.
Proof.
  intros Hn. unfold backoffDuration. destruct (Z.ltb_spec n 1); [lia|]. rewrite shiftl_10 by lia.
  assert (H1 : (1 <= 2 ^ (n - 1) <= 2 ^ 29)%Z).
  { split; [apply (Z.pow_le_mono_r 2 0); lia | apply Z.pow_le_mono_r; lia]. }
  set (k := (2 ^ (n - 1))%Z) in *. change (2 ^ 29)%Z with 536870912%Z in H1.
  unfold Second in *.
  rewrite (i64_id (10 * k)) by (unfold in_i64; change (2 ^ 63)%Z with 9223372036854775808%Z; lia).
  rewrite i64_id by (unfold in_i64; change (2 ^ 63)%Z with 9223372036854775808%Z; lia).
  unfold maxBackoff. destruct (Z.ltb_spec (300 * Second) (10 * k * 1000000000)); unfold Second in *; lia.
Qed.

Lemma backoffDuration_zero n : (55 <= n)%Z -> backoffDuration n = 0%Z.
Proof.
  intros Hn. unfold backoffDuration. destruct (Z.ltb_spec n 1); [lia|]. rewrite shiftl_10 by lia.
  replace (2 ^ (n - 1))%Z with (2 ^ 54 * 2 ^ (n - 55))%Z
    by (rewrite <- Z.pow_add_r by lia; f_equal; lia).
  set (k := (2 ^ (n - 55))%Z).
  assert (E : i64 (i64 (10 * (2 ^ 54 * k)) * Second) = 0%Z); [|by rewrite E].
  unfold i64, wrap_signed, Second.
  change (2 ^ (64 - 1))%Z with 9223372036854775808%Z. change (2 ^ 64)%Z with 18446744073709551616%Z.
  change (2 ^ 54)%Z with 18014398509481984%Z.
  set (a := (10 * (18014398509481984 * k) + 9223372036854775808)%Z).
  pose proof (Z.div_mod a 18446744073709551616 ltac:(lia)) as Hd.
  set (q := (a / 18446744073709551616)%Z) in *. set (r := (a mod 18446744073709551616)%Z) in *.
  assert (Er : ((r - 9223372036854775808) * 1000000000 + 9223372036854775808)%Z =
    (9223372036854775808 + (9765625 * k - 1000000000 * q) * 18446744073709551616)%Z)
    by (unfold a in Hd; lia).
  rewrite Er, Z.mod_add by lia. reflexivity.
Qed.

(** C39. The back-off doubles from ten seconds up to five minutes for the first thirty
    restarts and is never longer; then the machine arithmetic overflows below the
    cap: the delay of the thirty-first restart is negative and from the fifty-fifth
    on it is zero, so a pod that keeps crashing is restarted without any delay. *)
Theorem backoffDuration_bounds n :
  (1 <= n)%Z ->
  ((n <= 30)%Z -> backoffDuration n = Z.min (10 * 2 ^ (n - 1) * Second) maxBackoff) /\
  (backoffDuration n <= maxBackoff)%Z /\ (backoffDuration 31 < 0)%Z /\
  ((55 <= n)%Z -> backoffDuration n = 0%Z).
Proof.
  intros Hn. split_and!.
  - intros Hn2. by apply backoffDuration_doubles.
  - unfold backoffDuration. destruct (n <? 1)%Z; [done|]. destruct (Z.ltb_spec maxBackoff
      (i64 (i64 (Z.shiftl 10 (n - 1)) * Second))); lia.
  - reflexivity.
  - apply backoffDuration_zero.
Qed.

Lemma backoffDuration_bounds_witness :
  map backoffDuration [1; 2; 3; 4; 5; 6; 30]%Z =
    map (fun s => (s * Second)%Z) [10; 20; 40; 80; 160; 300; 300]%Z /\ backoffDuration 60 = 0%Z.
Proof.
  split.
  - cbn [map]. repeat (rewrite (proj1 (backoffDuration_bounds _ ltac:(lia)) ltac:(lia))). reflexivity.
  - apply (backoffDuration_bounds 60); lia.
Defined.

(** ** A manager to run *)

(** An engine that remembers the phase of each pod. *)
#[export] Instance phase_engine : PodEngines memfiles (gmap string PodPhase) := {
  registered _ name := String.eqb name "native";
  eng_Start w f _ pod _ _ _ := ((<[Name (podMeta pod) := PodRunning]> w, f), None);
  eng_Stop w _ name := <[name := PodFailed]> w;
  eng_Status w _ name := default PodPending (w !! name);
  run_init w f _ _ _ := ((w, f), true);
}.

#[export] Instance phase_engine_laws : EngineLaws memfiles (gmap string PodPhase).
Proof.
  split; simpl.
  - intros w f et pod tg env vols w' f' _ [= <- <-]. by rewrite lookup_insert_eq.
  - intros w f et pod tg env vols w' f' r [= <- <- <-]. split; [done|]. intros et' n Hn.
    by rewrite lookup_insert_ne.
  - intros w et name. split; [done|]. intros et' n Hn. by rewrite lookup_insert_ne.
  - by intros w f prog args env w' f' ok [= <- <- <-].
Qed.

Definition ex_orders : orders := mkOrders in_order (fun _ => in_order).
Definition ex_host : Host memfiles (gmap string PodPhase) (gset Z) :=
  mkHost (NewPortPool 30000 30010) ∅ [(location "/data/db", bytes_of "rows")] ∅.
Definition ex_cfg : ConfigStore memdb := mkConfigStore ∅ ∅ None.
Definition ex_container (mounts : list VolumeMount) : Container :=
  mkContainer "main" "web" [] [] [] [mkContainerPort "" 80 "TCP"] mounts None None.
Definition ex_lpod (ns : string) (mounts : list VolumeMount) : Pod :=
  mkPod (mkTypeMeta "v1" "Pod") (mkObjectMeta "web" ns "u1" None None 0 "")
    (mkPodSpec [ex_container mounts] [] RestartNever []) emptyPodStatus.

Definition ex_launch (pod : Pod) (engineType : string) lm (h : Host memfiles (gmap string PodPhase) (gset Z)) :=
  Launch (L := unit) "/tmp" tt ex_orders ex_cfg lm h pod engineType "web" [].

Lemma ex_unleased key : lease_positive ex_host key.
Proof. intros p. simpl. by rewrite lookup_empty. Qed.

Lemma ex_new_ok : lm_ok (L := unit) NewLifecycleManager.
Proof. exists ∅. apply (hub_reach_ok watch_cap), ReachInit. Qed.



Definition ex_managed (ns : string) (port : Z) (mounts : list VolumeMount) : managedPod unit :=
  mkManagedPod (ex_lpod ns mounts) "native" "web" [] tt 0 true port None ∅.
Definition ex_managed_pods (mounts : list VolumeMount) : LifecycleManager unit :=
  mkLM (<["a/web" := ex_managed "a" 30000 mounts]> {["b/web" := ex_managed "b" 30001 mounts]})
    empty_hub 2.

Lemma Terminate_deletes_mounts_witness :
  file_at (h_files (Terminate "/tmp" in_order (ex_managed_pods [mkVolumeMount "none" "/data" false])
    ex_host "a" "web").1.2) (location "/data/db") = None.
Proof.
  apply (Terminate_deletes_mounts (L := unit) "/tmp" in_order
    (ex_managed_pods [mkVolumeMount "none" "/data" false]) ex_host "a" "web"
    (ex_managed "a" 30000 [mkVolumeMount "none" "/data" false])
    (ex_container [mkVolumeMount "none" "/data" false]) (mkVolumeMount "none" "/data" false)).
  - reflexivity.
  - by intros f.
  - reflexivity.
  - left.
  - by apply (bool_decide_unpack _).
Defined.

Lemma namesakes_share_engine_witness :
  option_map Phase (LStatus (ex_managed_pods []) ex_host "a" "web") =
    option_map Phase (LStatus (ex_managed_pods []) ex_host "b" "web").
Proof.
  refine (proj1 (namesakes_share_engine (L := unit) "/tmp" in_order (ex_managed_pods []) ex_host
    "a" "b" "web" (ex_managed "a" 30000 []) (ex_managed "b" 30001 []) _ _ _ _)).
  - exists ∅. apply (hub_reach_ok watch_cap), ReachInit.
  - reflexivity.
  - reflexivity.
  - reflexivity.
Defined.


(** ** What a successful launch gives, without hypotheses *)

Section Success.
Context {F W N L T : Type} `{FS F} `{PodEngines F W} `{TCP N}.
Context (TempDir : string) (NewLog : L).
Implicit Types (lm : LifecycleManager L) (h : Host F W N).

Lemma emit_pods o lm type pod status lm' :
  emit o lm type pod status = Ok lm' -> lm_pods lm' = lm_pods lm.
Proof.
  unfold emit, broadcast. destruct (publish _ _ _ _) as [ws|e|w]; [|destruct e|done].
  by intros [= <-].
Qed.

Lemma Launch_Ok ord (cfg : ConfigStore T) lm h pod engineType target env lm' h' pod' :
  Launch TempDir NewLog ord cfg lm h pod engineType target env = ((lm', h'), pod', Ok tt) ->
  is_Some (lm_pods lm' !! podKey (Namespace (podMeta pod)) (Name (podMeta pod))) /\
  podMeta pod' = podMeta pod /\ podSpec pod' = podSpec pod.
Proof.
  unfold Launch. set (key := podKey _ _). destruct (lm_pods lm !! key); [done|].
  destruct (allocate_port h key pod) as [h1 [[port pod1]|e|w]] eqn:EA; [|done..].
  assert (Ep : podMeta pod1 = podMeta pod /\ podSpec pod1 = podSpec pod).
  { unfold allocate_port in EA. destruct (has_ports pod); [|by injection EA as <- <- <-].
    destruct (Allocate _ _) as [pool [q|e|w]]; [|done..]. injection EA as <- <- <-.
    by destruct (0 <? q)%Z. }
  destruct (container_port pod1) as [cp|e|w]; [|done..].
  destruct (ProjectVolumes _ _ _ _ _) as [f [projected|e|w]]; [|done..].
  unfold run_pod. destruct (runInitContainers _ _ _) as [h2 [c|]]; [done|].
  destruct (negb _); [done|]. destruct (eng_Start _ _ _ _ _ _ _) as [wf [err|]]; [done|].
  destruct (start_proxy _ _ _ _) as [h3 mp].
  destruct (emit _ _ _ _ _) as [lm2|e|w] eqn:EE; [|done..].
  intros [= <- <- <-]. split; [|done]. apply emit_pods in EE. rewrite EE. simpl.
  rewrite lookup_insert_eq. by eexists.
Qed.

Lemma Launch_managed ord (cfg : ConfigStore T) lm h pod engineType target env mp :
  lm_pods lm !! podKey (Namespace (podMeta pod)) (Name (podMeta pod)) = Some mp ->
  Launch TempDir NewLog ord cfg lm h pod engineType target env =
    ((lm, h), pod, Err (AlreadyManaged (podKey (Namespace (podMeta pod)) (Name (podMeta pod))))).
Proof. unfold Launch. by intros ->. Qed.
End Success.

(** ** What an operation of the lifecycle manager does to the sockets *)

Section Result.
Context {F W N L T : Type} `{FS F} `{PodEngines F W} `{TCP N}.
Context (TempDir : string) (NewLog : L).
Implicit Types (lm : LifecycleManager L) (h : Host F W N) (mp : managedPod L).

(** The pod under a key is new: without a proxy, or with one that could be bound. *)
Definition adds_pod (key : string) lm h lm' h' : Prop :=
  exists mp, lm_pods lm' = <[key := mp]> (lm_pods lm) /\ pod_key_of (mp_pod mp) = key /\
    (mp_proxy mp = None /\ h_net h' = h_net h \/
     exists p, mp_proxy mp = Some p /\ Listen (h_net h) p = Some (h_net h')).

Lemma run_pod_adds ord lm h mp key pod cp lm' h' u :
  mp_proxy mp = None -> pod_key_of (mp_pod mp) = key ->
  run_pod TempDir ord lm h mp key pod cp = ((lm', h'), Ok u) -> adds_pod key lm h lm' h'.
Proof.
  intros Hpx Hkey. unfold run_pod.
  destruct (runInitContainers _ _ _) as [h1 [c|]] eqn:EI; [done|].
  apply runInitContainers_host in EI as [_ En].
  destruct (negb _); [done|]. destruct (eng_Start _ _ _ _ _ _ _) as [wf [err|]]; [done|].
  destruct (start_proxy _ mp _ _) as [h2 mp2] eqn:ES.
  destruct (emit _ _ _ _ _) as [lm2|e|x] eqn:EE; [|done..].
  intros [= <- <- _]. apply emit_pods in EE. simpl in EE. rewrite insert_insert_eq in EE.
  exists (set_ready mp2 true). split; [done|].
  unfold start_proxy in ES. destruct (_ && _).
  - destruct (Listen _ _) as [n|] eqn:EL; injection ES as <- <-; (split; [done|]); simpl in *.
    + right. eexists. split; [done|]. by rewrite <- En.
    + left. by rewrite En.
  - injection ES as <- <-. split; [done|]. left. simpl. by rewrite En.
Qed.

Lemma with_port_status pod port : exists st, with_port pod port = set_podStatus pod st.
Proof.
  unfold with_port. destruct (_ <? _)%Z; [by eexists|]. exists (podStatus pod). by destruct pod.
Qed.

(** [Launch] adds the pod, or fails and leaves pods and sockets alone; of the caller's
    pod only the status changes. *)
Lemma Launch_result ord (cfg : ConfigStore T) lm h pod et tg env lm' h' pod' r :
  lm_ok lm -> Launch TempDir NewLog ord cfg lm h pod et tg env = ((lm', h'), pod', r) ->
  (exists st, pod' = set_podStatus pod st) /\
  match r with
  | Ok _ => lm_pods lm !! pod_key_of pod = None /\ adds_pod (pod_key_of pod) lm h lm' h'
  | Err _ => lm' = lm /\ h_net h' = h_net h
  | Panic _ => False
  end.
Proof.
  intros Hok. unfold Launch. fold (pod_key_of pod).
  assert (Hsame : exists st, pod = set_podStatus pod st) by (exists (podStatus pod); by destruct pod).
  destruct (lm_pods lm !! _) eqn:Ek.
  { by intros [= <- <- <- <-]. }
  pose proof (allocate_port_spec h (pod_key_of pod) pod) as HA.
  destruct (allocate_port h (pod_key_of pod) pod) as [h1 [[port pod1]|e|x]]; [| |done].
  2: { intros [= <- <- <- <-]. by destruct HA as [-> _]. }
  destruct HA as (-> & _ & En & _). pose proof (with_port_status pod port) as Hst.
  unfold container_port.
  destruct (match go_get _ _ with Some _ => _ | None => _ end) as [cp|e|x] eqn:Ec.
  2: { intros [= <- <- <- <-]. split; [done|].
       by destruct (release_if_pool h1 port (pod_key_of pod)) as [-> _]. }
  2: { destruct (go_get _ _) as [v|]; [by destruct (Atoi v)|done]. }
  destruct (ProjectVolumes _ _ _ _ _) as [f [pr|e|x]] eqn:EP.
  2: { intros [= <- <- <- <-]. split; [done|].
       by destruct (release_if_pool (set_files h1 f) port (pod_key_of pod)) as [-> _]. }
  2: { by apply ProjectVolumes_no_panic in EP. }
  match goal with |- context [run_pod _ _ _ ?hh ?m ?k ?q ?c] =>
    pose proof (run_pod_spec TempDir ord lm hh m k q c Hok Ek) as HR;
    pose proof (run_pod_adds ord lm hh m k q c) as HD;
    destruct (run_pod TempDir ord lm hh m k q c) as [[lm2 h2] [u|e|x]] end; [| |done].
  - intros [= <- <- <- <-]. split; [done|]. split; [done|].
    destruct (HD lm2 h2 u) as (mp & E1 & E2 & E3); [done| |done|].
    + destruct (with_port_same pod port) as [Em _]. unfold pod_key_of; simpl. by rewrite Em.
    + exists mp. split_and!; [done..|]. simpl in E3. by rewrite En in E3.
  - intros [= <- <- <- <-]. split; [done|]. destruct HR as (-> & En2 & _). split; [done|].
    simpl in En2. by rewrite En2.
Qed.
End Result.
