(* ===== verification/Monitor.v ===== *)
(** * Monitors and their probes (src/engine/lifecycle.go, src/engine/health.go)

    [Launch] leaves a goroutine [monitor] per pod; it starts the probes of the pod, a
    goroutine [ProbeRunner.Run] each, ends them when the workload ends, and starts new
    ones after a restart.  A step here is a move of one of these goroutines; what the
    moves do to the lifecycle manager are [monitor_tick], [monitor_restart] and the
    callbacks of Lifecycle.  Those look the pod up under its key, where the goroutines
    hold its record: they do nothing once [Terminate] has removed it, while the code may
    make one more announcement before the end of the context is seen, see
    [late_status]. *)

From S2P Require Import Prelude Types GoStrings Store Stores PortPool Hub SvcProxy Path Volume Health Lifecycle.

(** ** One probe ([ProbeRunner.Run]) *)

(** In the wait of [InitialDelaySeconds], in the loop, returned; or the daemon has ended
    with the panic of [time.NewTicker]. *)
Inductive run_pc := Delaying | Looping (st : runner) | RunReturned | RunPanicked.

Inductive run_event := DelayOver | ProbeTick (ok : bool) | SeeDone.

(** [time.NewTicker] panics for an interval that is not positive, which the product with
    [time.Second] is when it overflows. *)
Definition run_loop (probe : Probe) : run_pc :=
  if (0 <? i64 (probe_period probe * Second))%Z then Looping runner_init else RunPanicked.

(** A timer of no or a negative delay is not waited for. *)
Definition run_start (probe : Probe) : run_pc :=
  if (0 <? initial_delay probe)%Z then Delaying else run_loop probe.

(** [done] tells whether the context has ended; a [select] may take a tick that is
    ready all the same. *)
Definition run_step (probe : Probe) (done : bool) (ev : run_event) (pc : run_pc)
    : option (run_pc * option probe_event) :=
  match ev, pc with
  | DelayOver, Delaying => Some (run_loop probe, None)
  | ProbeTick ok, Looping st => let '(st, cb) := probe_tick probe st ok in Some (Looping st, cb)
  | SeeDone, (Delaying | Looping _) => if done then Some (RunReturned, None) else None
  | _, _ => None
  end.

Fixpoint run_moves (probe : Probe) (evs : list (bool * run_event)) (pc : run_pc)
    : option (run_pc * list probe_event) :=
  match evs with
  | [] => Some (pc, [])
  | (d, ev) :: evs =>
      match run_step probe d ev pc with
      | None => None
      | Some (pc, cb) =>
          match run_moves probe evs pc with
          | None => None
          | Some (pc, cbs) => Some (pc, option_list cb ++ cbs)
          end
      end
  end.

Definition outcomes (evs : list (bool * run_event)) : list bool :=
  omap (fun '(_, ev) => match ev with ProbeTick ok => Some ok | _ => None end) evs.

Lemma run_returned_stuck probe d ev : run_step probe d ev RunReturned = None.
Proof. by destruct ev. Qed.

Lemma run_panicked_stuck probe d ev : run_step probe d ev RunPanicked = None.
Proof. by destruct ev. Qed.

Lemma run_moves_returned probe evs pc0 pc cbs :
  pc0 = RunReturned \/ pc0 = RunPanicked ->
  run_moves probe evs pc0 = Some (pc, cbs) -> evs = [] /\ pc = pc0 /\ cbs = [].
Proof.
  intros Hpc. destruct evs as [|[d ev] evs]; cbn [run_moves]; [by intros [= <- <-]|].
  destruct Hpc as [->| ->]; [by rewrite run_returned_stuck|by rewrite run_panicked_stuck].
Qed.

Lemma run_moves_looping probe evs st pc cbs :
  run_moves probe evs (Looping st) = Some (pc, cbs) ->
  cbs = omap id (probe_run probe st (outcomes evs)).2 /\
  (pc = Looping (probe_run probe st (outcomes evs)).1 \/ pc = RunReturned).
Proof.
  revert st cbs. induction evs as [|[d ev] evs IH]; intros st cbs; cbn [run_moves]; [intros [= <- <-]; auto|].
  destruct ev as [|ok|]; cbn [run_step]; [done| |].
  - change (outcomes ((d, ProbeTick ok) :: evs)) with (ok :: outcomes evs). cbn [probe_run].
    destruct (probe_tick probe st ok) as [st1 cb] eqn:Et.
    destruct (run_moves probe evs (Looping st1)) as [[pc1 cbs1]|] eqn:Er; [|done]. intros [= <- <-].
    destruct (IH _ _ Er) as [-> Hpc]. destruct (probe_run probe st1 (outcomes evs)) as [st2 evs2].
    simpl in *. split; [by destruct cb|done].
  - destruct d; [|done]. destruct (run_moves probe evs RunReturned) as [[pc1 cbs1]|] eqn:Er; [|done].
    intros [= <- <-]. destruct (run_moves_returned _ _ _ _ _ (or_introl eq_refl) Er) as (-> & -> & ->). simpl. auto.
Qed.

Lemma run_moves_loop probe evs pc cbs :
  run_moves probe evs (run_loop probe) = Some (pc, cbs) ->
  cbs = omap id (probe_run probe runner_init (outcomes evs)).2 /\
  (pc = Looping (probe_run probe runner_init (outcomes evs)).1 \/ pc = RunReturned \/
   pc = RunPanicked /\ outcomes evs = []).
Proof.
  unfold run_loop. destruct (0 <? _)%Z; intros Er.
  - destruct (run_moves_looping _ _ _ _ _ Er) as [-> [->| ->]]; auto.
  - destruct (run_moves_returned _ _ _ _ _ (or_intror eq_refl) Er) as (-> & -> & ->). simpl. auto.
Qed.

(** The goroutine of a probe makes exactly the callbacks of [probe_run] on the outcomes
    of its ticks, whatever its initial delay and whenever its context ends; once it has
    returned it makes no more. *)
Theorem Run_callbacks probe evs pc cbs :
  run_moves probe evs (run_start probe) = Some (pc, cbs) ->
  cbs = omap id (probe_run probe runner_init (outcomes evs)).2 /\
  (pc = Delaying \/ pc = RunPanicked -> outcomes evs = []) /\
  forall st, pc = Looping st -> st = (probe_run probe runner_init (outcomes evs)).1.
Proof.
  assert (Hloop : forall evs pc cbs, run_moves probe evs (run_loop probe) = Some (pc, cbs) ->
    cbs = omap id (probe_run probe runner_init (outcomes evs)).2 /\
    (pc = Delaying \/ pc = RunPanicked -> outcomes evs = []) /\
    forall st, pc = Looping st -> st = (probe_run probe runner_init (outcomes evs)).1).
  { intros evs0 pc0 cbs0 Er. apply run_moves_loop in Er as [-> [->|[->|[-> Ho]]]]; (split; [done|split]);
      try (by intros [?|?]); try done. by intros st [= ->]. }
  unfold run_start. destruct (0 <? initial_delay probe)%Z; [|apply Hloop].
  destruct evs as [|[d ev] evs]; cbn [run_moves]; [by intros [= <- <-]|].
  destruct ev as [|ok|]; cbn [run_step]; [|done|].
  - destruct (run_moves probe evs (run_loop probe)) as [[pc1 cbs1]|] eqn:Er; [|done]. intros [= <- <-].
    exact (Hloop _ _ _ Er).
  - destruct d; [|done]. destruct (run_moves probe evs RunReturned) as [[pc1 cbs1]|] eqn:Er; [|done].
    intros [= <- <-]. destruct (run_moves_returned _ _ _ _ _ (or_introl eq_refl) Er) as (-> & -> & ->).
    split_and!; [done|by intros [?|?]|done].
Qed.

(** A period of more than two to the power of 63 nanoseconds ends the daemon as soon as the
    probe starts. *)
Lemma long_period_panics : run_loop (mkProbe None None None 0 9223372037 1 1 1) = RunPanicked.
Proof. reflexivity. Qed.

(** ** The monitor of a pod *)

Inductive probe_kind := Liveness | Readiness.

(** The two callbacks of a runner are given by its kind, see [callback]. *)
Record ProbeRunner := mkProbeRunner {
  pr_probe : Probe;
  pr_podName : string;
  pr_probeType : probe_kind;
}.

Definition NewProbeRunner (probe : Probe) (podName : string) (probeType : probe_kind) : ProbeRunner :=
  mkProbeRunner probe podName probeType.

(** The goroutines of one [newProbeSet]; [ps_cancelled] is the end of its own context. *)
Record probeSet := mkProbeSet {
  ps_cancelled : bool;
  ps_runs : list (ProbeRunner * run_pc);
}.

(** [go runner.Run(ctx)] for each probe of the first container. *)
Definition startProbes (pod : Pod) : list (ProbeRunner * run_pc) :=
  let go kind probe := (NewProbeRunner probe (Name (podMeta pod)) kind, run_start probe) in
  match Containers (podSpec pod) with
  | [] => []
  | c :: _ =>
      option_list (go Liveness <$> cLivenessProbe c) ++ option_list (go Readiness <$> cReadinessProbe c)
  end.

Definition newProbeSet (pod : Pod) : probeSet := mkProbeSet false (startProbes pod).

(** [ps.stop()]; the context can be cancelled again. *)
Definition stop (ps : probeSet) : probeSet := mkProbeSet true (ps_runs ps).

(** At the [select] of the loop, in the wait before a restart, returned. *)
Inductive monitor_pc := AtSelect | AtBackoff | MonReturned.

(** Every probe set made so far, the variable [probes] being the last; [mo_done] is the
    end of the context of the pod. *)
Record monitor := mkMonitor {
  mo_pc : monitor_pc;
  mo_sets : list probeSet;
  mo_done : bool;
}.

Section Monitor.
Context {F W N L : Type} `{FS F} `{PodEngines F W} `{TCP N}.
Implicit Types (lm : LifecycleManager L) (h : Host F W N) (m : monitor).

Definition start_monitor (pod : Pod) : monitor := mkMonitor AtSelect [newProbeSet pod] false.

Definition stop_at (i : nat) (sets : list probeSet) : list probeSet := alter stop i sets.
Definition stop_current m : list probeSet := stop_at (pred (length (mo_sets m))) (mo_sets m).

(** The deferred [probes.stop()]: its receiver was evaluated at the [defer], so it is
    the first set. *)
Definition monitor_return (sets : list probeSet) m : monitor := mkMonitor MonReturned (stop_at 0 sets) (mo_done m).

Inductive monitor_event :=
| MTick (o : shuffle Z)
| MElapsed (o : shuffle Z)
| MSeeDone
| MCancel
| MProbe (o : shuffle Z) (i j : nat) (ev : run_event)
| MOther (lm' : LifecycleManager L) (h' : Host F W N).

(** What the callbacks of a probe do. *)
Definition callback (o : shuffle Z) (key : string) (kind : probe_kind) (cb : option probe_event) lm h
    : res launch_error (LifecycleManager L * Host F W N) :=
  match kind, cb with
  | _, None => Ok (lm, h)
  | Liveness, Some ev => Ok (lm, liveness_event h key lm ev)
  | Readiness, Some ev =>
      match readiness_event o lm h key ev with Ok lm => Ok (lm, h) | Err e => Err e | Panic w => Panic w end
  end.

(** The probes look at their own context, which ends with that of the pod. *)
Definition told_to_stop m (ps : probeSet) : bool := ps_cancelled ps || mo_done m.

(** A panic of one goroutine ends them all. *)
Definition run_panicked (run : ProbeRunner * run_pc) : bool :=
  match run.2 with RunPanicked => true | _ => false end.
Definition crashed m : bool := existsb (fun ps => existsb run_panicked (ps_runs ps)) (mo_sets m).

Definition monitor_step (key : string) (pod : Pod) (ev : monitor_event) lm h m
    : option (LifecycleManager L * Host F W N * monitor) :=
  if crashed m then None else
  match ev, mo_pc m with
  | MTick o, AtSelect =>
      match monitor_tick o lm h key with
      | Ok (lm, MWatching) => Some (lm, h, m)
      | Ok (lm, MBackoff _) => Some (lm, h, mkMonitor AtBackoff (stop_current m) (mo_done m))
      | Ok (lm, MStopped) => Some (lm, h, monitor_return (stop_current m) m)
      | _ => None
      end
  | MElapsed o, AtBackoff =>
      match monitor_restart o lm h key with
      | (h, Ok (lm, MWatching)) =>
          Some (lm, h, mkMonitor AtSelect (mo_sets m ++ [newProbeSet pod]) (mo_done m))
      | (h, Ok (lm, _)) => Some (lm, h, monitor_return (mo_sets m) m)
      | _ => None
      end
  | MSeeDone, (AtSelect | AtBackoff) =>
      if mo_done m then Some (lm, h, monitor_return (mo_sets m) m) else None
  | MCancel, pc => Some (lm, h, mkMonitor pc (mo_sets m) true)
  | MProbe o i j ev, pc =>
      match mo_sets m !! i with
      | None => None
      | Some ps =>
          match ps_runs ps !! j with
          | None => None
          | Some (runner, rpc) =>
              match run_step (pr_probe runner) (told_to_stop m ps) ev rpc with
              | None => None
              | Some (rpc, cb) =>
                  match callback o key (pr_probeType runner) cb lm h with
                  | Ok (lm, h) =>
                      let ps := mkProbeSet (ps_cancelled ps) (<[j := (runner, rpc)]> (ps_runs ps)) in
                      Some (lm, h, mkMonitor pc (<[i := ps]> (mo_sets m)) (mo_done m))
                  | _ => None
                  end
              end
          end
      end
  | MOther lm h, _ => Some (lm, h, m)
  | _, _ => None
  end.

Fixpoint monitor_run (key : string) (pod : Pod) (evs : list monitor_event) lm h m
    : option (LifecycleManager L * Host F W N * monitor) :=
  match evs with
  | [] => Some (lm, h, m)
  | ev :: evs =>
      match monitor_step key pod ev lm h m with
      | Some (lm, h, m) => monitor_run key pod evs lm h m
      | None => None
      end
  end.

(** Every set but the last has been stopped, and the last too outside of the loop's
    [select]. *)
Record monitor_ok m : Prop := {
  mo_some : mo_sets m <> [];
  mo_earlier : forall i ps, mo_sets m !! i = Some ps -> S i < length (mo_sets m) -> ps_cancelled ps = true;
  mo_last : mo_pc m <> AtSelect -> Forall (fun ps => told_to_stop m ps = true) (mo_sets m);
  mo_backoff : mo_pc m = AtBackoff -> Forall (fun ps => ps_cancelled ps = true) (mo_sets m);
}.

Lemma stop_at_cancelled i j sets ps :
  stop_at i sets !! j = Some ps -> exists ps0, sets !! j = Some ps0 /\
    (ps_cancelled ps0 = true -> ps_cancelled ps = true) /\ (i = j -> ps_cancelled ps = true).
Proof.
  unfold stop_at. destruct (decide (i = j)) as [->|Hne].
  - rewrite list_lookup_alter_eq. intros (ps0 & E & ->)%fmap_Some. by exists ps0.
  - rewrite list_lookup_alter_ne by done. intros E. by exists ps.
Qed.

Lemma length_stop_at i sets : length (stop_at i sets) = length sets.
Proof. apply length_alter. Qed.

Lemma stop_current_all m : monitor_ok m -> Forall (fun ps => ps_cancelled ps = true) (stop_current m).
Proof.
  intros [Hne He _ _]. apply Forall_lookup. intros j ps Hj.
  assert (Hlt : j < length (mo_sets m)) by (unfold stop_current in Hj; apply lookup_lt_Some in Hj; by rewrite length_stop_at in Hj).
  destruct (stop_at_cancelled _ _ _ _ Hj) as (ps0 & E & H1' & H2').
  destruct (decide (S j < length (mo_sets m))) as [Hl|Hl]; [by eapply H1', He|]. apply H2'. lia.
Qed.

Lemma cancelled_told m sets : Forall (fun ps => ps_cancelled ps = true) sets -> Forall (fun ps => told_to_stop m ps = true) sets.
Proof. intros Hf. eapply Forall_impl; [exact Hf|]. intros ps E. unfold told_to_stop. by rewrite E. Qed.

Lemma monitor_return_ok m sets :
  sets <> [] -> (forall i ps, sets !! i = Some ps -> S i < length sets -> ps_cancelled ps = true) ->
  Forall (fun ps => told_to_stop m ps = true) sets -> monitor_ok (monitor_return sets m).
Proof.
  intros Hne He Hf. split; simpl; try done.
  - intros E. apply (f_equal length) in E. rewrite length_stop_at in E. by destruct sets.
  - intros i ps Hi Hl. rewrite length_stop_at in Hl.
    destruct (stop_at_cancelled _ _ _ _ Hi) as (ps0 & E & H1' & _). by eapply H1', He.
  - intros _. apply Forall_lookup. intros i ps Hi. destruct (stop_at_cancelled _ _ _ _ Hi) as (ps0 & E & H1' & _).
    eapply Forall_lookup_1 in Hf; [|exact E]. unfold told_to_stop in *. simpl.
    destruct (mo_done m); [by rewrite orb_true_r|]. rewrite !orb_false_r in *. by apply H1'.
Qed.

Lemma stop_current_ne m : monitor_ok m -> stop_current m <> [].
Proof.
  intros [Hne _ _ _] E. apply (f_equal length) in E. unfold stop_current in E. rewrite length_stop_at in E.
  by destruct (mo_sets m).
Qed.

Lemma insert_run_ok m i ps runs :
  monitor_ok m -> mo_sets m !! i = Some ps ->
  monitor_ok (mkMonitor (mo_pc m) (<[i := mkProbeSet (ps_cancelled ps) runs]> (mo_sets m)) (mo_done m)).
Proof.
  intros [Hne He Hl Hb] Hi.
  assert (Hsame : forall j qs, <[i := mkProbeSet (ps_cancelled ps) runs]> (mo_sets m) !! j = Some qs ->
    exists qs0, mo_sets m !! j = Some qs0 /\ ps_cancelled qs = ps_cancelled qs0).
  { intros j qs. destruct (decide (i = j)) as [->|Hij].
    - rewrite list_lookup_insert_eq by (by eapply lookup_lt_Some). intros [= <-]. by exists ps.
    - rewrite list_lookup_insert_ne by done. intros E. by exists qs. }
  split; simpl.
  - intros E. apply (f_equal length) in E. rewrite length_insert in E. by destruct (mo_sets m).
  - intros j qs Hj Hlt. rewrite length_insert in Hlt. destruct (Hsame _ _ Hj) as (qs0 & E & ->). by eapply He.
  - intros Hpc. apply Forall_lookup. intros j qs Hj. destruct (Hsame _ _ Hj) as (qs0 & E & Ec).
    specialize (Hl Hpc). eapply Forall_lookup_1 in Hl; [|exact E]. unfold told_to_stop in *. simpl. by rewrite Ec.
  - intros Hpc. apply Forall_lookup. intros j qs Hj. destruct (Hsame _ _ Hj) as (qs0 & E & ->).
    specialize (Hb Hpc). by eapply Forall_lookup_1 in Hb.
Qed.

Lemma monitor_step_ok key pod ev lm h m lm' h' m' :
  monitor_ok m -> monitor_step key pod ev lm h m = Some (lm', h', m') -> monitor_ok m'.
Proof.
  intros Hok. pose proof Hok as [Hne He Hl Hb]. unfold monitor_step. destruct (crashed m); [done|].
  destruct ev as [o|o| | |o i j ev|lm1 h1].
  - destruct (mo_pc m) eqn:Epc; [|done..]. destruct (monitor_tick o lm h key) as [[lm1 [|d|]]| |]; [| | |done..];
      intros [= <- <- <-]; [done| |].
    + pose proof (stop_current_all m Hok) as Hall. split; simpl; try done.
      * by apply stop_current_ne.
      * intros i ps Hi _. by eapply Forall_lookup_1 in Hall.
      * intros _. apply (cancelled_told (mkMonitor AtBackoff (stop_current m) (mo_done m))), Hall.
    + pose proof (stop_current_all m Hok) as Hall. apply monitor_return_ok; [by apply stop_current_ne| |].
      * intros i ps Hi _. by eapply Forall_lookup_1 in Hall.
      * by apply cancelled_told.
  - destruct (mo_pc m) eqn:Epc; [done| |done]. specialize (Hb eq_refl).
    destruct (monitor_restart o lm h key) as [h1 [[lm1 [|d|]]| |]]; [| | |done..]; intros [= <- <- <-].
    + split; simpl; try done; [by destruct (mo_sets m)|]. intros i ps Hi Hlt.
      rewrite length_app in Hlt. simpl in Hlt. rewrite lookup_app_l in Hi by lia. by eapply Forall_lookup_1 in Hb.
    + apply monitor_return_ok; [done|done|by apply cancelled_told].
    + apply monitor_return_ok; [done|done|by apply cancelled_told].
  - assert (Hr : mo_done m = true -> monitor_ok (monitor_return (mo_sets m) m)).
    { intros Ed. apply monitor_return_ok; [done|done|]. apply Forall_true. intros ps. unfold told_to_stop.
      by rewrite Ed, orb_true_r. }
    destruct (mo_pc m), (mo_done m) eqn:Ed; try done; intros [= <- <- <-]; by apply Hr.
  - intros E. assert (Em : m' = mkMonitor (mo_pc m) (mo_sets m) true) by (destruct (mo_pc m); by injection E).
    subst m'. split; simpl; try done. intros _. apply Forall_true. intros ps. unfold told_to_stop. simpl.
    by rewrite orb_true_r.
  - intros E. destruct (mo_sets m !! i) as [ps|] eqn:Ei; [|by destruct (mo_pc m)].
    destruct (ps_runs ps !! j) as [[runner rpc]|]; [|by destruct (mo_pc m)].
    destruct (run_step _ _ _ _) as [[rpc1 cb]|]; [|by destruct (mo_pc m)].
    destruct (callback _ _ _ _ _ _) as [[lm1 h1]| |]; [|by destruct (mo_pc m)..].
    assert (Em : m' = mkMonitor (mo_pc m) (<[i := mkProbeSet (ps_cancelled ps) (<[j := (runner, rpc1)]> (ps_runs ps))]>
      (mo_sets m)) (mo_done m)) by (destruct (mo_pc m); by injection E).
    subst m'. by apply insert_run_ok.
  - intros E. assert (Em : m' = m) by (destruct (mo_pc m); by injection E). by subst m'.
Qed.

Lemma start_monitor_ok pod : monitor_ok (start_monitor pod).
Proof. split; simpl; try done. intros i ps _ Hlt. simpl in Hlt. lia. Qed.

Lemma monitor_run_ok key pod evs lm h m lm' h' m' :
  monitor_ok m -> monitor_run key pod evs lm h m = Some (lm', h', m') -> monitor_ok m'.
Proof.
  revert lm h m. induction evs as [|ev evs IH]; intros lm h m Hok; cbn [monitor_run]; [by intros [= _ _ <-]|].
  destruct (monitor_step key pod ev lm h m) as [[[lm1 h1] m1]|] eqn:E; [|done].
  by apply IH, (monitor_step_ok _ _ _ _ _ _ _ _ _ Hok E).
Qed.

(** *** The end of the probes *)

(** Still in its delay or in its loop. *)
Definition active (run : ProbeRunner * run_pc) : bool :=
  match run.2 with Delaying | Looping _ => true | _ => false end.

Definition runs m : list (ProbeRunner * run_pc) := concat (ps_runs <$> mo_sets m).

(** The run [j] of the set [i] after its return; nothing else changes. *)
Definition returned m (i j : nat) : monitor :=
  match mo_sets m !! i with
  | None => m
  | Some ps =>
      match ps_runs ps !! j with
      | None => m
      | Some (runner, _) =>
          mkMonitor (mo_pc m)
            (<[i := mkProbeSet (ps_cancelled ps) (<[j := (runner, RunReturned)]> (ps_runs ps))]> (mo_sets m))
            (mo_done m)
      end
  end.

Lemma probe_returns key pod o i j ps run lm h m :
  crashed m = false -> mo_sets m !! i = Some ps -> ps_runs ps !! j = Some run ->
  told_to_stop m ps = true -> active run = true ->
  monitor_step key pod (MProbe o i j SeeDone) lm h m = Some (lm, h, returned m i j).
Proof.
  intros Hc Hi Hj Ht Ha. unfold monitor_step, returned. rewrite Hc, Hi, Hj, Ht. destruct run as [runner rpc].
  destruct rpc; try done; simpl; by destruct (mo_pc m), (pr_probeType runner).
Qed.

Lemma runs_returned m i j ps runner rpc :
  mo_sets m !! i = Some ps -> ps_runs ps !! j = Some (runner, rpc) ->
  exists l1 l2, runs m = l1 ++ (runner, rpc) :: l2 /\ runs (returned m i j) = l1 ++ (runner, RunReturned) :: l2.
Proof.
  intros Hi Hj. unfold returned, runs. rewrite Hi, Hj. cbn [mo_sets].
  exists (concat (ps_runs <$> take i (mo_sets m)) ++ take j (ps_runs ps)),
    (drop (S j) (ps_runs ps) ++ concat (ps_runs <$> drop (S i) (mo_sets m))).
  split.
  - rewrite <- (take_drop_middle (mo_sets m) i ps Hi) at 1.
    rewrite fmap_app, concat_app, fmap_cons. cbn [concat].
    rewrite <- (take_drop_middle (ps_runs ps) j _ Hj) at 1. by rewrite <- !app_assoc.
  - rewrite insert_take_drop by (by eapply lookup_lt_Some).
    rewrite fmap_app, concat_app, fmap_cons. cbn [concat ps_runs].
    rewrite insert_take_drop by (by eapply lookup_lt_Some). by rewrite <- !app_assoc.
Qed.

Lemma crashed_runs m : crashed m = existsb run_panicked (runs m).
Proof.
  unfold crashed, runs. induction (mo_sets m) as [|ps sets IH]; [done|]. simpl. rewrite IH. by rewrite existsb_app.
Qed.

Lemma elem_of_runs m run :
  run ∈ runs m -> exists i j ps, mo_sets m !! i = Some ps /\ ps_runs ps !! j = Some run.
Proof.
  unfold runs. intros Hin. apply list_elem_of_In, in_concat in Hin as (l & Hl & Hin).
  apply list_elem_of_In, list_elem_of_fmap in Hl as (ps & -> & Hps).
  apply list_elem_of_lookup in Hps as [i Hi]. apply list_elem_of_In, list_elem_of_lookup in Hin as [j Hj].
  by exists i, j, ps.
Qed.

Lemma returned_told m i j :
  Forall (fun ps => told_to_stop m ps = true) (mo_sets m) ->
  Forall (fun ps => told_to_stop (returned m i j) ps = true) (mo_sets (returned m i j)).
Proof.
  intros Hf. unfold returned. destruct (mo_sets m !! i) as [ps|] eqn:Hi; [|done].
  destruct (ps_runs ps !! j) as [[runner rpc]|]; [|done].
  apply Forall_insert; [exact Hf|]. eapply Forall_lookup_1 in Hf; [|exact Hi]. exact Hf.
Qed.

(** When all have been told to stop, all can return. *)
Lemma all_return key pod (o : shuffle Z) lm h m :
  crashed m = false -> Forall (fun ps => told_to_stop m ps = true) (mo_sets m) ->
  exists evs m', monitor_run key pod evs lm h m = Some (lm, h, m') /\
    Forall (fun run => run.2 = RunReturned) (runs m').
Proof.
  remember (length (List.filter active (runs m))) as n eqn:En. revert m En.
  induction n as [n IH] using lt_wf_ind. intros m -> Hc Hf.
  destruct (List.filter active (runs m)) as [|run l] eqn:El.
  - exists [], m. split; [done|]. apply Forall_forall. intros [runner rpc] Hin.
    assert (Ha : active (runner, rpc) = false).
    { destruct (active (runner, rpc)) eqn:Ea; [|done].
      assert (Hx : (runner, rpc) ∈ List.filter active (runs m)) by (by apply elem_of_bool_filter).
      rewrite El in Hx. by apply elem_of_nil in Hx. }
    destruct rpc; try done. exfalso. rewrite crashed_runs in Hc.
    assert (Ht : existsb run_panicked (runs m) = true); [|congruence].
    apply existsb_exists. exists (runner, RunPanicked). split; [by apply list_elem_of_In|done].
  - assert (Hin : run ∈ List.filter active (runs m)) by (rewrite El; left).
    apply elem_of_bool_filter in Hin as [Hin Ha].
    destruct (elem_of_runs m run Hin) as (i & j & ps & Hi & Hj). destruct run as [runner rpc].
    destruct (runs_returned m i j ps runner rpc Hi Hj) as (l1 & l2 & E1 & E2).
    pose proof (probe_returns key pod o i j ps (runner, rpc) lm h m Hc Hi Hj
      (Forall_lookup_1 _ _ _ _ Hf Hi) Ha) as Hs.
    destruct (IH (length (List.filter active (runs (returned m i j))))) with (m := returned m i j)
      as (evs & m' & Hr & Hall); [|done| | |].
    + rewrite <- El, E1, E2, !List.filter_app, !length_app. simpl. rewrite Ha. simpl. lia.
    + rewrite crashed_runs in *. rewrite E1, existsb_app in Hc. rewrite E2, existsb_app.
      apply orb_false_iff in Hc as [Hc1 Hc2]. simpl in Hc2. apply orb_false_iff in Hc2 as [_ Hc2].
      rewrite Hc1. simpl. exact Hc2.
    + by apply returned_told.
    + exists (MProbe o i j SeeDone :: evs), m'. split; [|done]. cbn [monitor_run]. by rewrite Hs.
Qed.

(** C29. Although the deferred [stop] only knows the first set, no probe is forgotten, whatever
    happens to the pod.  At any moment the probes that have not been told to stop are
    all of the latest set, and between two lives of the workload there are none.  A
    probe that has been told can return at once, and does nothing when it does (until
    then it may still take a tick that is ready, and call back); one that has returned
    never moves again.  When the monitor has returned, for whatever reason, every probe
    has been told, and unless a panic has ended the daemon they can all return without
    another callback. *)
Theorem monitor_stops_probes key pod evs lm h lm' h' m :
  monitor_run key pod evs lm h (start_monitor pod) = Some (lm', h', m) ->
  (forall i ps, mo_sets m !! i = Some ps -> told_to_stop m ps = false ->
     S i = length (mo_sets m) /\ mo_pc m = AtSelect) /\
  (crashed m = false -> forall i j ps run, mo_sets m !! i = Some ps -> ps_runs ps !! j = Some run ->
     (told_to_stop m ps = true -> active run = true -> forall o,
        monitor_step key pod (MProbe o i j SeeDone) lm' h' m = Some (lm', h', returned m i j)) /\
     (run.2 = RunReturned -> forall o ev, monitor_step key pod (MProbe o i j ev) lm' h' m = None)) /\
  (mo_pc m = MonReturned -> Forall (fun ps => told_to_stop m ps = true) (mo_sets m) /\
     (crashed m = false -> exists evs' m', monitor_run key pod evs' lm' h' m = Some (lm', h', m') /\
        Forall (fun run => run.2 = RunReturned) (runs m'))).
Proof.
  intros Hr. pose proof (monitor_run_ok _ _ _ _ _ _ _ _ _ (start_monitor_ok pod) Hr) as [Hne He Hl Hb].
  split_and!.
  - intros i ps Hi Ht. assert (Hc : ps_cancelled ps = false).
    { unfold told_to_stop in Ht. by apply orb_false_iff in Ht as [? _]. }
    pose proof (lookup_lt_Some _ _ _ Hi) as Hlt. split.
    + destruct (decide (S i < length (mo_sets m))) as [Hs|Hs]; [|lia]. by rewrite (He _ _ Hi Hs) in Hc.
    + destruct (mo_pc m) eqn:Epc; [done| |]; specialize (Hl ltac:(done));
        eapply Forall_lookup_1 in Hl; [|exact Hi| |exact Hi]; congruence.
  - intros Hc i j ps run Hi Hj. split.
    + intros Ht Ha o. by eapply probe_returns.
    + intros Hret o ev. unfold monitor_step. rewrite Hc, Hi, Hj. destruct run as [runner rpc]. simpl in Hret. subst.
      rewrite run_returned_stuck. by destruct (mo_pc m).
  - intros E. assert (Hall : Forall (fun ps => told_to_stop m ps = true) (mo_sets m)) by (apply Hl; by rewrite E).
    split; [exact Hall|]. intros Hc. by apply (all_return key pod in_order).
Qed.

(** A goroutine that announces a pod which [Terminate] has removed meanwhile sends a
    [MODIFIED] with an empty status, which may come after the [DELETED]. *)
Lemma late_status o lm h mp :
  lm_pods lm !! pod_key_of (mp_pod mp) = None ->
  updatePodStatus o lm h mp = emit o lm "MODIFIED" (mp_pod mp) emptyPodStatus.
Proof.
  intros Hk. unfold updatePodStatus, status_or_empty, LStatus, pod_key_of in *. by rewrite Hk.
Qed.
End Monitor.

(** ** A monitor to run *)

Definition ex_probe : Probe := mkProbe None None None 0 1 1 2 1.
Definition ex_probed : Pod :=
  mkPod (mkTypeMeta "v1" "Pod") (mkObjectMeta "web" "default" "u" None None 0 "")
    (mkPodSpec [mkContainer "main" "web" [] [] [] [] [] (Some ex_probe) (Some ex_probe)] [] RestartAlways [])
    emptyPodStatus.
Definition ex_running : LifecycleManager unit :=
  mkLM {["default/web" := mkManagedPod ex_probed "native" "web" [] tt 0 true 0 None ∅]} empty_hub 1.

(** The liveness probe fails twice, which ends the workload; it is restarted. *)
Definition ex_restarts : list (monitor_event (F := memfiles) (W := gmap string PodPhase) (N := gset Z) (L := unit)) :=
  [MProbe in_order 0 0 (ProbeTick false); MProbe in_order 0 0 (ProbeTick false); MTick in_order; MElapsed in_order].

Lemma Run_callbacks_witness :
  exists cbs, run_moves ex_probe [(false, ProbeTick false); (false, ProbeTick false); (true, SeeDone)]
      (run_start ex_probe) = Some (RunReturned, cbs) /\ cbs = [OnThresholdReached].
Proof.
  eexists. split; [reflexivity|].
  exact (proj1 (Run_callbacks ex_probe [(false, ProbeTick false); (false, ProbeTick false); (true, SeeDone)]
    RunReturned _ eq_refl)).
Defined.

Lemma monitor_stops_probes_witness :
  exists lm' h' m, monitor_run "default/web" ex_probed ex_restarts ex_running ex_host (start_monitor ex_probed)
      = Some (lm', h', m) /\ mo_pc m = AtSelect /\ length (mo_sets m) = 2 /\
    forall ps, mo_sets m !! 0 = Some ps -> told_to_stop m ps = true.
Proof.
  destruct (monitor_run "default/web" ex_probed ex_restarts ex_running ex_host (start_monitor ex_probed))
    as [[[lm' h'] m]|] eqn:E; [|by vm_compute in E].
  assert (Ev : (fun r => (mo_pc r.2, length (mo_sets r.2))) <$>
    monitor_run "default/web" ex_probed ex_restarts ex_running ex_host (start_monitor ex_probed) = Some (AtSelect, 2))
    by (vm_compute; reflexivity).
  rewrite E in Ev. injection Ev as Epc Elen.
  exists lm', h', m. split_and!; [done|done|done|]. intros ps Hps.
  destruct (told_to_stop m ps) eqn:Et; [done|].
  destruct (proj1 (monitor_stops_probes "default/web" ex_probed ex_restarts ex_running ex_host lm' h' m E) 0 ps Hps Et)
    as [El _]. rewrite Elen in El. discriminate El.
Defined.
