(* ===== verification/HostEngines.v ===== *)
(** * The engines of the daemon (src/main.go, src/engine)

    The registry the daemon sets up and the two engines in it, put together as the
    [PodEngines] that the lifecycle manager works with, and the proof that they keep
    the promises ([EngineLaws]) the theorems about the server rely on. *)

From S2P Require Import Prelude Types GoStrings Path Engine Hub PortPool Store Stores SvcProxy Volume Health Lifecycle.

Inductive engine_kind := NativeKind | WasmKind.

(** [registry.Register("native", ...)] and [registry.Register("wasm", ...)] *)
Definition daemon_registry : Registry engine_kind :=
  Register (Register NewRegistry "native" NativeKind) "wasm" WasmKind.

(** A command run to its end, as [cmd.Run] does for the init containers: it may write
    files; the result is whether it succeeded. *)
Class RunCommand (F OS : Type) := {
  RunToEnd : OS -> F -> string -> list string -> list string -> (OS * F) * bool;
}.

(** The texts of the errors of the engines. *)
Class EngineTexts := { engine_error_text : engine_error -> string }.

Record EngineWorld (OS : Type) := mkEngineWorld {
  ew_registry : Registry engine_kind;
  ew_os : OS;
  ew_native : procs_t;
  ew_wasm : WasmWorld;
}.
Arguments mkEngineWorld {OS}.
Arguments ew_registry {OS}.
Arguments ew_os {OS}.
Arguments ew_native {OS}.
Arguments ew_wasm {OS}.

(** [NewNativeEngine] and [NewWasmEngine]: empty tables. *)
Definition NewNativeEngine : procs_t := ∅.
Definition NewWasmEngine : WasmWorld := mkWasmWorld ∅ ∅ 0.

Definition new_engine_world {OS} (os : OS) : EngineWorld OS :=
  mkEngineWorld daemon_registry os NewNativeEngine NewWasmEngine.

Section Engines.
Context {F OS : Type} `{FS F} `{Exec OS} `{RunCommand F OS} `{UnicodeCase} `{EngineTexts}.
(** The depth of the directories a volume mount may copy. *)
Context (depth : nat).
Abbreviation world := (EngineWorld OS).

Definition err_text (r : res engine_error unit) : option string :=
  match r with Ok _ => None | Err e => Some (engine_error_text e) | Panic w => Some w end.

Definition ew_Start (w : world) (f : F) (engineType : string) (pod : Pod) (target : string)
    (env : list EnvVar) (volumes : gmap string string) : (world * F) * option string :=
  match RegistryGet (ew_registry w) engineType with
  | Some NativeKind =>
      let '(nw, r) := NativeStart depth (mkNativeWorld f (ew_os w) (ew_native w)) pod target env volumes in
      ((mkEngineWorld (ew_registry w) (nw_os nw) (nw_procs nw) (ew_wasm w), nw_files nw), err_text r)
  | Some WasmKind =>
      let '(ww, r) := WasmStart f (ew_wasm w) pod target env volumes in
      ((mkEngineWorld (ew_registry w) (ew_os w) (ew_native w) ww, f), err_text r)
  | None => ((w, f), Some (no_engine_text engineType))
  end.

(** Stopping a module only cancels its context. *)
Definition ew_Stop (w : world) (engineType podName : string) : world :=
  match RegistryGet (ew_registry w) engineType with
  | Some NativeKind =>
      match ew_native w !! podName with
      | Some p => mkEngineWorld (ew_registry w) (Kill (ew_os w) (pr_id p)) (ew_native w) (ew_wasm w)
      | None => w
      end
  | _ => w
  end.

Definition ew_Status (w : world) (engineType podName : string) : PodPhase :=
  match RegistryGet (ew_registry w) engineType with
  | Some NativeKind => Engine.Status (ew_native w) podName
  | Some WasmKind => WasmStatus (ew_wasm w) podName
  | None => PodPending
  end.

#[export] Instance host_engines : PodEngines F world := {
  registered w name := match RegistryGet (ew_registry w) name with Some _ => true | None => false end;
  eng_Start := ew_Start;
  eng_Stop := ew_Stop;
  eng_Status := ew_Status;
  run_init w f prog args env :=
    let '((os, f), ok) := RunToEnd (ew_os w) f prog args (Environ (ew_os w) ++ env) in
    ((mkEngineWorld (ew_registry w) os (ew_native w) (ew_wasm w), f), ok);
}.

(** ** The laws *)

Lemma status_record_start procs name id n :
  Engine.Status (record_start procs name id) n =
    if decide (n = name) then PodRunning else Engine.Status procs n.
Proof.
  unfold Engine.Status, record_start. case_decide; subst.
  - by rewrite lookup_insert_eq.
  - by rewrite lookup_insert_ne.
Qed.

(** A start either records the workload as running or leaves the table alone. *)
Lemma NativeStart_procs (w : NativeWorld F OS) pod target env volumes w' r :
  NativeStart depth w pod target env volumes = (w', r) ->
  match r with
  | Ok _ => exists id, nw_procs w' = record_start (nw_procs w) (Name (podMeta pod)) id
  | _ => nw_procs w' = nw_procs w
  end.
Proof.
  unfold NativeStart. destruct (native_spawn _ _ _ _ _ _) as [w1 [pid|e|x]] eqn:E;
    apply native_spawn_procs in E as [E _]; intros [= <- <-]; [|done..].
  exists pid. simpl. by rewrite E.
Qed.

Lemma WasmStart_procs (f : F) w pod target env volumes w' r :
  WasmStart f w pod target env volumes = (w', r) ->
  match r with
  | Ok _ => exists id, ww_procs w' = record_start (ww_procs w) (Name (podMeta pod)) id
  | _ => w' = w
  end.
Proof.
  unfold WasmStart. destruct (wasm_test _ _ _ _); intros [= <- <-]; [|done..]. by eexists.
Qed.

#[export] Instance host_engines_laws : EngineLaws F world.
Proof.
  split; simpl.
  - intros w f et pod tg env vols w' f' Hreg E. unfold ew_Start, ew_Status in *.
    destruct (RegistryGet (ew_registry w) et) as [[]|] eqn:Er; [| |done].
    + destruct (NativeStart _ _ _ _ _ _) as [nw [u|e|x]] eqn:EN; [|done..].
      apply NativeStart_procs in EN as [id EN]. injection E as <- <-. simpl. rewrite Er, EN.
      rewrite status_record_start. by rewrite decide_True.
    + destruct (WasmStart _ _ _ _ _ _) as [ww [u|e|x]] eqn:EN; [|done..].
      apply WasmStart_procs in EN as [id EN]. injection E as <- <-. simpl. rewrite Er.
      unfold WasmStatus. rewrite EN, status_record_start. by rewrite decide_True.
  - intros w f et pod tg env vols w' f' r E. unfold ew_Start, ew_Status in *.
    destruct (RegistryGet (ew_registry w) et) as [[]|] eqn:Er; [| |by injection E as <- <- <-].
    + destruct (NativeStart _ _ _ _ _ _) as [nw rr] eqn:EN. apply NativeStart_procs in EN.
      injection E as <- <- <-. split; [done|]. intros et' n Hn. simpl.
      destruct (RegistryGet _ et') as [[]|]; [|done..].
      destruct rr as [u|e|x]; [destruct EN as [id ->]|by rewrite EN..].
      rewrite status_record_start. by rewrite decide_False.
    + destruct (WasmStart _ _ _ _ _ _) as [ww rr] eqn:EN. apply WasmStart_procs in EN.
      injection E as <- <- <-. split; [done|]. intros et' n Hn. simpl.
      destruct (RegistryGet _ et') as [[]|]; [done| |done]. unfold WasmStatus.
      destruct rr as [u|e|x]; [destruct EN as [id ->]|by rewrite EN..].
      rewrite status_record_start. by rewrite decide_False.
  - intros w et name. unfold ew_Stop, ew_Status.
    destruct (RegistryGet (ew_registry w) et) as [[]|]; [|done..]. by destruct (ew_native w !! name).
  - intros w f prog args env w' f' ok E. destruct (RunToEnd _ _ _ _ _) as [[os f1] ok1].
    by injection E as <- <- <-.
Qed.

(** C22. The registry of the daemon with the native and the WebAssembly engine keeps what the
    lifecycle manager relies on: a pod whose [Start] succeeded is running, and no start,
    stop or init container changes the registry or the status of another name. *)
Theorem host_engines_refine : EngineLaws F world.
Proof. apply host_engines_laws. Qed.
End Engines.
