(* ===== verification/Manifest.v ===== *)
(** * Manifests (src/manifest/parser.go)

    Decoding a manifest, choosing the engine and the target of a pod, collecting the
    environment of its containers.  The JSON and YAML decoders are the interface
    [Decoder]. *)

From S2P Require Import Prelude Types GoStrings Path.

(** ** Parsing *)

Class Decoder (A : Type) := {
  json_decode : bytes -> option A;
  yaml_decode : bytes -> option A;
}.

Inductive manifest_error :=
| EmptyManifest
| JsonDecode
| YamlDecode
| NameRequired
| TwoEngines (pod : string)
| EmptyAnnotation (annotation : string)
| NoEngineConfig (pod : string).

Definition json_space (b : Byte.byte) : bool :=
  match b with Byte.x20 | Byte.x09 | Byte.x0a | Byte.x0d => true | _ => false end.

Fixpoint isJSON (data : bytes) : bool :=
  match data with
  | [] => false
  | b :: rest =>
      if json_space b then isJSON rest
      else match b with Byte.x7b | Byte.x5b => true | _ => false end
  end.

(** [Parse], [ParseService], [ParseConfigMap] and [ParseSecret] are the same code at
    four types. *)
Definition parse_manifest {A} `{Decoder A} (meta : A -> ObjectMeta) (data : bytes)
    : res manifest_error A :=
  match data with
  | [] => Err EmptyManifest
  | _ =>
      let decoded :=
        if isJSON data
        then match json_decode data with Some a => Ok a | None => Err JsonDecode end
        else match yaml_decode data with Some a => Ok a | None => Err YamlDecode end in
      match decoded with
      | Ok a => if String.eqb (Name (meta a)) "" then Err NameRequired else Ok a
      | Err e => Err e
      | Panic w => Panic w
      end
  end.

Definition Parse `{Decoder Pod} : bytes -> res manifest_error Pod := parse_manifest podMeta.
Definition ParseService `{Decoder Service} : bytes -> res manifest_error Service :=
  parse_manifest svcMeta.
Definition ParseConfigMap `{Decoder ConfigMap} : bytes -> res manifest_error ConfigMap :=
  parse_manifest cmMeta.
Definition ParseSecret `{Decoder Secret} : bytes -> res manifest_error Secret :=
  parse_manifest secMeta.

(** ** The engine of a pod *)

Definition AnnotationExecutablePath : string := "lok8s.io/executable-path".
Definition AnnotationWasmModule : string := "lok8s.io/wasm-module".
Definition EngineNative : string := "native".
Definition EngineWasm : string := "wasm".

(** The last path element of the image, up to its first colon. *)
Definition image_name (image : string) : string :=
  let parts := Split image "/" in
  let lastPart := default "" (last parts) in
  default "" (head (Split lastPart ":")).

Definition wasm_candidates (imageName : string) : list string :=
  [imageName +:+ ".wasm"; "./" +:+ imageName +:+ ".wasm"; PathJoin ["."; "bin"; imageName +:+ ".wasm"]].

Section Engine.
Context {F : Type} `{FS F}.

Definition ExtractEngineConfig (f : F) (pod : Pod) : res manifest_error (string * string) :=
  let annotations := Annotations (podMeta pod) in
  match go_get annotations AnnotationExecutablePath, go_get annotations AnnotationWasmModule with
  | Some _, Some _ => Err (TwoEngines (Name (podMeta pod)))
  | Some execPath, None =>
      if String.eqb execPath "" then Err (EmptyAnnotation AnnotationExecutablePath)
      else Ok (EngineNative, execPath)
  | None, Some wasmPath =>
      if String.eqb wasmPath "" then Err (EmptyAnnotation AnnotationWasmModule)
      else Ok (EngineWasm, wasmPath)
  | None, None =>
      match Containers (podSpec pod) with
      | c :: _ =>
          if String.eqb (cImage c) "" then Err (NoEngineConfig (Name (podMeta pod)))
          else
            let imageName := image_name (cImage c) in
            if HasSuffix imageName ".wasm" then Ok (EngineWasm, imageName)
            else match List.find (Stat f) (wasm_candidates imageName) with
                 | Some c => Ok (EngineWasm, c)
                 | None => Ok (EngineNative, imageName)
                 end
      | [] => Err (NoEngineConfig (Name (podMeta pod)))
      end
  end.
End Engine.

(** ** The environment *)

(** The inner loop, over the variables of one container. *)
Fixpoint collect_env (seen : gset string) (merged : list EnvVar) (env : list EnvVar)
    : gset string * list EnvVar :=
  match env with
  | [] => (seen, merged)
  | e :: rest =>
      if decide (envName e ∈ seen) then collect_env seen merged rest
      else collect_env ({[envName e]} ∪ seen) (merged ++ [e]) rest
  end.

Definition CollectEnvVars (containers : list Container) : list EnvVar :=
  (foldl (fun '(seen, merged) c => collect_env seen merged (cEnv c)) (∅, []) containers).2.

(** ** Properties *)

Lemma collect_env_app seen merged a b :
  collect_env seen merged (a ++ b) =
    let '(seen, merged) := collect_env seen merged a in collect_env seen merged b.
Proof.
  revert seen merged. induction a as [|e a IH]; intros seen merged; [done|]. simpl.
  destruct (decide _); apply IH.
Qed.

Lemma CollectEnvVars_concat cs :
  CollectEnvVars cs = (collect_env ∅ [] (flat_map cEnv cs)).2.
Proof.
  unfold CollectEnvVars. generalize (∅ : gset string) ([] : list EnvVar).
  induction cs as [|c cs IH]; intros seen merged; [done|]. cbn [foldl flat_map].
  rewrite collect_env_app. destruct (collect_env seen merged (cEnv c)) as [s m]. apply IH.
Qed.

(** The value a variable gets in a list of settings where the first one counts. *)
Definition first_value (name : string) (env : list EnvVar) : option string :=
  envValue <$> List.find (fun e => String.eqb (envName e) name) env.

Lemma find_app {A} (p : A -> bool) l k :
  List.find p (l ++ k) = match List.find p l with Some x => Some x | None => List.find p k end.
Proof. induction l as [|x l IH]; simpl; [done|]. by destruct (p x). Qed.

Lemma collect_env_inv seen merged env :
  (forall n, n ∈ seen <-> n ∈ (envName <$> merged)) -> NoDup (envName <$> merged) ->
  let '(seen', merged') := collect_env seen merged env in
  NoDup (envName <$> merged') /\
  forall n, first_value n merged' = match first_value n merged with
    | Some v => Some v
    | None => first_value n env
    end.
Proof.
  revert seen merged. induction env as [|e env IH]; intros seen merged Hs Hnd; simpl.
  - split; [done|]. intros n. by destruct (first_value n merged).
  - assert (Hfind : forall n, n ∈ (envName <$> merged) <-> is_Some (first_value n merged)).
    { intros n. unfold first_value. rewrite fmap_is_Some. clear. induction merged as [|x m IHm].
      - rewrite elem_of_nil. simpl. split; [done|]. by intros [].
      - rewrite fmap_cons, elem_of_cons. simpl.
        destruct (String.eqb_spec (envName x) n) as [E|E]; [split; eauto|].
        rewrite IHm. split; [intros [?|?]; [congruence|done]|auto]. }
    destruct (decide (envName e ∈ seen)) as [Hin|Hni].
    + specialize (IH seen merged Hs Hnd). destruct (collect_env seen merged env) as [s m].
      destruct IH as [H1 H2]. split; [done|]. intros n. rewrite H2.
      apply Hs, Hfind in Hin as [v Hv].
      destruct (first_value n merged) eqn:E; [done|].
      unfold first_value at 2. simpl. destruct (String.eqb_spec (envName e) n); [congruence|done].
    + specialize (IH ({[envName e]} ∪ seen) (merged ++ [e])).
      destruct (collect_env _ _ env) as [s m]. destruct IH as [H1 H2].
      * intros n. rewrite fmap_app, elem_of_app, elem_of_union, elem_of_singleton, Hs.
        simpl. rewrite list_elem_of_singleton. tauto.
      * rewrite fmap_app. apply NoDup_app. split_and!; [done| |apply NoDup_singleton].
        intros n Hn Hn'. apply list_elem_of_singleton in Hn' as ->. by apply Hni, Hs.
      * split; [done|]. intros n. rewrite H2. unfold first_value. rewrite find_app. simpl.
        destruct (List.find _ merged); simpl; [done|]. by destruct (String.eqb (envName e) n).
Qed.

(** The collected environment has one entry per name, with the value of the first
    container that sets it. *)
Theorem CollectEnvVars_first_wins cs :
  NoDup (envName <$> CollectEnvVars cs) /\
  forall name, first_value name (CollectEnvVars cs) = first_value name (flat_map cEnv cs).
Proof.
  rewrite CollectEnvVars_concat.
  pose proof (collect_env_inv ∅ [] (flat_map cEnv cs)) as Hi.
  destruct (collect_env _ _ _) as [s m]. simpl. destruct Hi as [H1 H2]; [set_solver|constructor|].
  split; [done|]. intros name. apply H2.
Qed.

Lemma last_Split_app c a b :
  lacks c b = true -> last (Split (a +:+ String c EmptyString +:+ b) (String c EmptyString)) = Some b.
Proof. intros Hb. by rewrite Split_char_app, (Split_lacks c _ b), last_snoc by done. Qed.

Lemma head_Split_char c a b :
  lacks c a = true -> head (Split (a +:+ String c EmptyString +:+ b) (String c EmptyString)) = Some a.
Proof. intros Ha. by rewrite Split_char_app, (Split_lacks c _ a) by done. Qed.

(** The target of a pod without annotations is the bare name of its image: of
    ["registry:5000/team/name:tag"] it is [name], whatever the registry and the tag
    are; a name ending in [.wasm] or with a module file beside it runs as
    WebAssembly, any other natively. *)
Theorem ExtractEngineConfig_image {F} `{FS F} (f : F) pod c cs registry name tag :
  go_get (Annotations (podMeta pod)) AnnotationExecutablePath = None ->
  go_get (Annotations (podMeta pod)) AnnotationWasmModule = None ->
  Containers (podSpec pod) = c :: cs ->
  cImage c = registry +:+ "/" +:+ name +:+ ":" +:+ tag ->
  lacks "/" name = true -> lacks ":" name = true -> lacks "/" tag = true ->
  ExtractEngineConfig f pod = Ok
    (if HasSuffix name ".wasm" then (EngineWasm, name)
     else match List.find (Stat f) (wasm_candidates name) with
          | Some file => (EngineWasm, file)
          | None => (EngineNative, name)
          end).
Proof.
  intros H1 H2 Hc Hi Hn1 Hn2 Ht. unfold ExtractEngineConfig. rewrite H1, H2, Hc, Hi.
  assert (Hne : String.eqb (registry +:+ "/" +:+ name +:+ ":" +:+ tag) "" = false)
    by (by destruct registry).
  rewrite Hne. unfold image_name.
  rewrite last_Split_app by (unfold lacks in *; rewrite !all_chars_app, Hn1, Ht; done).
  cbn [from_option id]. unfold default, id, from_option. rewrite head_Split_char by done.
  destruct (HasSuffix name ".wasm"); [done|]. by destruct (List.find _ _).
Qed.

Lemma ExtractEngineConfig_image_witness :
  ExtractEngineConfig ([] : memfiles) (mkPod (mkTypeMeta "" "") (mkObjectMeta "p" "" "" None None 0 "")
    (mkPodSpec [mkContainer "c" "docker.io:5000/library/nginx:1.25" [] [] [] [] [] None None] [] "" [])
    emptyPodStatus) = Ok ("native", "nginx").
Proof.
  exact (ExtractEngineConfig_image ([] : memfiles) (mkPod (mkTypeMeta "" "")
    (mkObjectMeta "p" "" "" None None 0 "")
    (mkPodSpec [mkContainer "c" "docker.io:5000/library/nginx:1.25" [] [] [] [] [] None None] [] "" [])
    emptyPodStatus) (mkContainer "c" "docker.io:5000/library/nginx:1.25" [] [] [] [] [] None None) []
    "docker.io:5000/library" "nginx" "1.25" eq_refl eq_refl eq_refl eq_refl eq_refl eq_refl eq_refl).
Defined.
