(* ===== verification/Table.v ===== *)
(** * Tables for listings (src/discovery/table.go)

    A listing asked for with [Accept: ...;as=Table] is one row per object; a cell is
    a string or an integer, and the object itself is carried along as JSON. *)

From S2P Require Import Prelude Types GoStrings Store Health.

Inductive cell := CStr (s : string) | CInt (z : Z).

Record TableColumnDefinition := mkColumn {
  colName : string; colType : string; colFormat : string; colDescription : string }.

Record TableRow := mkRow { Cells : list cell; rowObject : bytes }.

Record Table := mkTableOf {
  tblType : TypeMeta;
  ColumnDefinitions : list TableColumnDefinition;
  Rows : list TableRow;
}.

Definition Minute : Z := 60 * Second.
Definition Hour : Z := 60 * Minute.

(** [time.Since]: a [Duration] saturates at the limits of [int64]. *)
Definition Since (now t : Time) : Z := Z.max (- 2 ^ 63) (Z.min (2 ^ 63 - 1) (now - t)).

(** The truncations go through [float64] in the code; below a nanosecond from the
    next unit, at ages of years, its rounding could show the next number. *)
Definition translateTimestamp (now timestamp : Time) : string :=
  if IsZero timestamp then "<unknown>"
  else
    let diff := Since now timestamp in
    if (diff <? Second)%Z then "0s"
    else if (diff <? Minute)%Z then Itoa (diff / Second) +:+ "s"
    else if (diff <? Hour)%Z then Itoa (diff / Minute) +:+ "m"
    else if (diff <? 24 * Hour)%Z then Itoa (diff / Hour) +:+ "h"
    else Itoa (diff / Hour / 24) +:+ "d".

Definition column (name type : string) : TableColumnDefinition := mkColumn name type "" "".
Definition name_column : TableColumnDefinition := mkColumn "Name" "string" "name" "".

(** The rows of a table: the cells of each object and its JSON ([nil] if that fails). *)
Definition make_table {A} `{Codec A} (cols : list TableColumnDefinition) (cells : A -> list cell)
    (objs : list A) : Table :=
  mkTableOf (mkTypeMeta "meta.k8s.io/v1" "Table") cols
    ((fun a => mkRow (cells a) (default [] (marshal a))) <$> objs).

Section Tables.
Context (now : Time) `{UnicodeCase}.

Definition age (m : ObjectMeta) : cell := CStr (translateTimestamp now (CreationTimestamp m)).

(** *** Pods *)

Definition pod_columns : list TableColumnDefinition :=
  [mkColumn "Name" "string" "name" "Name of the pod";
   mkColumn "Ready" "string" "" "Ready status";
   mkColumn "Status" "string" "" "Phase status";
   mkColumn "Port" "string" "" "Allocated host port";
   mkColumn "Restarts" "string" "" "Number of restarts";
   mkColumn "Age" "string" "" "Creation age"].

Definition pod_ready_text (pod : Pod) : string :=
  match ContainerStatuses (podStatus pod) with
  | cs :: _ => if csReady cs then "1/1" else "0/1"
  | [] => "0/1"
  end.

Definition pod_restarts (pod : Pod) : Z :=
  match ContainerStatuses (podStatus pod) with
  | cs :: _ => csRestartCount cs
  | [] => RestartCount (podStatus pod)
  end.

Definition pod_port_text (pod : Pod) : string :=
  if (0 <? HostPort (podStatus pod))%Z then Itoa (HostPort (podStatus pod)) else "<none>".

Definition pod_cells (pod : Pod) : list cell :=
  [CStr (Name (podMeta pod)); CStr (pod_ready_text pod); CStr (Phase (podStatus pod));
   CStr (pod_port_text pod); CStr (Itoa (pod_restarts pod)); age (podMeta pod)].

Definition ConvertPodsToTable `{Codec Pod} : list Pod -> Table := make_table pod_columns pod_cells.

(** *** Config maps and secrets *)

Definition configmap_cells (cm : ConfigMap) : list cell :=
  [CStr (Name (cmMeta cm)); CInt (Z.of_nat (go_len (cmData cm))); age (cmMeta cm)].

Definition ConvertConfigMapsToTable `{Codec ConfigMap} : list ConfigMap -> Table :=
  make_table [name_column; column "Data" "integer"; column "Age" "string"] configmap_cells.

Definition secret_cells (sec : Secret) : list cell :=
  [CStr (Name (secMeta sec)); CStr (secType sec); CInt (Z.of_nat (go_len (secData sec)));
   age (secMeta sec)].

Definition ConvertSecretsToTable `{Codec Secret} : list Secret -> Table :=
  make_table [name_column; column "Type" "string"; column "Data" "integer"; column "Age" "string"]
    secret_cells.

(** *** Services *)

Definition ports_text (ports : list ServicePort) : string :=
  match ports with
  | [] => "<none>"
  | p :: _ =>
      let proto := if String.eqb (spProtocol p) "" then "TCP" else spProtocol p in
      let s := Itoa (spPort p) +:+ "/" +:+ ToUpper proto in
      if (0 <? spNodePort p)%Z then s +:+ ":" +:+ Itoa (spNodePort p) else s
  end.

Definition service_cells (svc : Service) : list cell :=
  [CStr (Name (svcMeta svc)); CStr (svcSpecType (svcSpec svc)); CStr "127.0.0.1"; CStr "<none>";
   CStr (ports_text (svcPorts (svcSpec svc))); age (svcMeta svc)].

Definition ConvertServicesToTable `{Codec Service} : list Service -> Table :=
  make_table [name_column; column "Type" "string"; column "Cluster-IP" "string";
    column "External-IP" "string"; column "Port(s)" "string"; column "Age" "string"] service_cells.

(** *** Deployments and replica sets *)

Definition deployment_cells (dep : Deployment) : list cell :=
  let desired := deref_or 1 (depReplicas (depSpec dep)) in
  [CStr (Name (depMeta dep));
   CStr (Itoa (dsReadyReplicas (depStatus dep)) +:+ "/" +:+ Itoa desired);
   CInt (dsUpdatedReplicas (depStatus dep)); CInt (dsAvailableReplicas (depStatus dep));
   age (depMeta dep)].

Definition ConvertDeploymentsToTable `{Codec Deployment} : list Deployment -> Table :=
  make_table [name_column; column "Ready" "string"; column "Up-to-date" "integer";
    column "Available" "integer"; column "Age" "string"] deployment_cells.

Definition replicaset_cells (rs : ReplicaSet) : list cell :=
  [CStr (Name (rsMeta rs)); CInt (deref_or 1 (rsReplicas (rsSpec rs)));
   CInt (rssReplicas (rsStatus rs)); CInt (rssReadyReplicas (rsStatus rs)); age (rsMeta rs)].

Definition ConvertReplicaSetsToTable `{Codec ReplicaSet} : list ReplicaSet -> Table :=
  make_table [name_column; column "Desired" "integer"; column "Current" "integer";
    column "Ready" "integer"; column "Age" "string"] replicaset_cells.
End Tables.

(** ** Ages *)

(** The units of an age: the suffix, its length, and the first length not shown in it. *)
Definition age_unit (u : string) : option (Z * Z) :=
  match u with
  | "s" => Some (Second, Minute)
  | "m" => Some (Minute, Hour)
  | "h" => Some (Hour, 24 * Hour)%Z
  | "d" => Some (24 * Hour, 2 ^ 63)%Z
  | _ => None
  end.

(** An age of a second or more is shown as a positive whole number of one unit,
    rounded down, in the largest unit that fits. *)
Theorem translateTimestamp_floor now t :
  IsZero t = false -> (Second <= Since now t)%Z ->
  exists n u len limit, translateTimestamp now t = Itoa n +:+ u /\ age_unit u = Some (len, limit) /\
    (1 <= n)%Z /\ (n * len <= Since now t < (n + 1) * len)%Z /\ (len <= Since now t < limit)%Z.
Proof.
  intros Hz Hs. unfold translateTimestamp. rewrite Hz.
  assert (Hmax : (Since now t < 2 ^ 63)%Z) by (unfold Since; lia).
  assert (Hdiv : forall len, (0 < len)%Z -> (len <= Since now t)%Z ->
    (1 <= Since now t / len)%Z /\
    (Since now t / len * len <= Since now t < (Since now t / len + 1) * len)%Z).
  { intros len Hl Hge. pose proof (Z.div_mod (Since now t) len ltac:(lia)).
    pose proof (Z.mod_pos_bound (Since now t) len Hl).
    split; [apply Z.div_le_lower_bound; lia | nia]. }
  set (d := Since now t) in *. unfold Hour, Minute, Second in *.
  destruct (Z.ltb_spec d 1000000000); [lia|].
  destruct (Z.ltb_spec d (60 * 1000000000)).
  { exists (d / 1000000000)%Z, "s", 1000000000%Z, (60 * 1000000000)%Z.
    destruct (Hdiv 1000000000%Z); [lia..|]. by split_and!; try lia. }
  destruct (Z.ltb_spec d (60 * (60 * 1000000000))).
  { exists (d / (60 * 1000000000))%Z, "m", (60 * 1000000000)%Z, (60 * (60 * 1000000000))%Z.
    destruct (Hdiv (60 * 1000000000)%Z); [lia..|]. by split_and!; try lia. }
  destruct (Z.ltb_spec d (24 * (60 * (60 * 1000000000)))).
  { exists (d / (60 * (60 * 1000000000)))%Z, "h", (60 * (60 * 1000000000))%Z,
      (24 * (60 * (60 * 1000000000)))%Z.
    destruct (Hdiv (60 * (60 * 1000000000))%Z); [lia..|]. by split_and!; try lia. }
  rewrite Z.div_div by lia.
  exists (d / (60 * (60 * 1000000000) * 24))%Z, "d", (24 * (60 * (60 * 1000000000)))%Z, (2 ^ 63)%Z.
  destruct (Hdiv (60 * (60 * 1000000000) * 24)%Z); [lia..|]. split_and!; try lia; done.
Qed.

Lemma translateTimestamp_floor_witness :
  translateTimestamp (1000 + 90 * Minute) 1000 = "1h" /\
  exists n u len limit, translateTimestamp (1000 + 90 * Minute) 1000 = Itoa n +:+ u /\
    age_unit u = Some (len, limit).
Proof.
  split; [reflexivity|].
  destruct (translateTimestamp_floor (1000 + 90 * Minute) 1000 eq_refl ltac:(vm_compute; discriminate))
    as (n & u & len & limit & E1 & E2 & _).
  exists n, u, len, limit. split; [exact E1|exact E2].
Defined.
