(* ===== verification/Server.v ===== *)
(** * The API server (src/api/server.go)

    The server holds the records of the pods, the stores and the managers, and is
    the [PodManager] of the controllers.  Each store keeps its own view of the
    database file, which is sound because each writes to buckets of its own. *)

From S2P Require Import Prelude Types GoStrings Store Stores PortPool Hub SvcProxy Path Volume Lifecycle Manifest.

(** ** Routes *)

Definition pod_prefix : string := "/api/v1/namespaces/{ns}/".
Definition apps_prefix : string := "/apis/apps/v1/namespaces/{ns}/".

(** [mux.HandleFunc]: method, pattern and handler. *)
Definition routes : list (string * string * string) :=
  [("POST", pod_prefix +:+ "pods", "handleCreatePod");
   ("GET", pod_prefix +:+ "pods/{name}/log", "handleGetPodLogs");
   ("GET", pod_prefix +:+ "pods/{name}", "handleGetPod");
   ("GET", pod_prefix +:+ "pods", "handleListPods");
   ("DELETE", pod_prefix +:+ "pods/{name}", "handleDeletePod");
   ("POST", pod_prefix +:+ "services", "handleCreateService");
   ("GET", pod_prefix +:+ "services", "handleListServices");
   ("GET", pod_prefix +:+ "services/{name}", "handleGetService");
   ("DELETE", pod_prefix +:+ "services/{name}", "handleDeleteService");
   ("POST", pod_prefix +:+ "configmaps", "handleCreateConfigMap");
   ("GET", pod_prefix +:+ "configmaps", "handleListConfigMaps");
   ("GET", pod_prefix +:+ "configmaps/{name}", "handleGetConfigMap");
   ("DELETE", pod_prefix +:+ "configmaps/{name}", "handleDeleteConfigMap");
   ("POST", pod_prefix +:+ "secrets", "handleCreateSecret");
   ("GET", pod_prefix +:+ "secrets", "handleListSecrets");
   ("GET", pod_prefix +:+ "secrets/{name}", "handleGetSecret");
   ("DELETE", pod_prefix +:+ "secrets/{name}", "handleDeleteSecret");
   ("POST", apps_prefix +:+ "deployments", "handleCreateDeployment");
   ("GET", apps_prefix +:+ "deployments", "handleListDeployments");
   ("GET", apps_prefix +:+ "deployments/{name}", "handleGetDeployment");
   ("PUT", apps_prefix +:+ "deployments/{name}", "handleUpdateDeployment");
   ("DELETE", apps_prefix +:+ "deployments/{name}", "handleDeleteDeployment");
   ("POST", apps_prefix +:+ "replicasets", "handleCreateReplicaSet");
   ("GET", apps_prefix +:+ "replicasets", "handleListReplicaSets");
   ("GET", apps_prefix +:+ "replicasets/{name}", "handleGetReplicaSet");
   ("PUT", apps_prefix +:+ "replicasets/{name}", "handleUpdateReplicaSet");
   ("DELETE", apps_prefix +:+ "replicasets/{name}", "handleDeleteReplicaSet");
   ("GET", "/api", "HandleAPIRoot"); ("GET", "/api/v1", "HandleAPIV1");
   ("GET", "/apis", "HandleAPIs"); ("GET", "/apis/apps/v1", "HandleAPIsAppsV1");
   ("GET", "/version", "HandleVersion");
   ("GET", "/.well-known/openid-configuration", "HandleOpenIDConfig")].

(** ** State *)

(** The texts of errors, which embed those of the operating system; [StartTime] is
    formatted by package [time]. *)
Class Texts := {
  launch_error_text : launch_error -> string;
  manifest_error_text : manifest_error -> string;
  proxy_error_text : proxy_error -> string;
  format_time : Time -> string;
}.

Record Server (F W N L T : Type) := mkServer {
  sv_pods : gmap string Pod;
  sv_pods_db : option T;
  sv_services : ServiceStore T;
  sv_config : ConfigStore T;
  sv_ctl : ControllerStore T;
  sv_lm : LifecycleManager L;
  sv_proxies : gmap string ServiceProxy;
  sv_host : Host F W N;
}.
Arguments mkServer {F W N L T}.
Arguments sv_pods {F W N L T}.
Arguments sv_pods_db {F W N L T}.
Arguments sv_services {F W N L T}.
Arguments sv_config {F W N L T}.
Arguments sv_ctl {F W N L T}.
Arguments sv_lm {F W N L T}.
Arguments sv_proxies {F W N L T}.
Arguments sv_host {F W N L T}.

(** What a request or a tick draws from outside: the time, a UUID, iteration orders. *)
Record env_draw := mkEnvDraw {
  d_now : Time;
  d_uuid : string;
  d_orders : orders;
  d_services : shuffle Service;
}.

Section Server.
Context {F W N L T : Type} `{FS F} `{PodEngines F W} `{TCP N} `{Bolt T}.
Context `{Codec Pod, Codec Service, Codec ConfigMap, Codec Secret, Codec Deployment, Codec ReplicaSet}.
Context `{Texts} `{UnicodeCase}.
Context (TempDir : string) (NewLog : L).
Abbreviation server := (Server F W N L T).
Implicit Types (sv : server) (pod : Pod).

(** [NewServer]: the stores are loaded from the database. *)
Definition NewServer (lm : LifecycleManager L) (h : Host F W N) (cfg : ConfigStore T)
    (ctl : ControllerStore T) (db : option T) : server :=
  mkServer (kv_load_all "pods" db) db (NewServiceStore db) cfg ctl lm ∅ h.

Definition set_sv_pods sv (m : gmap string Pod * option T) : server :=
  mkServer m.1 m.2 (sv_services sv) (sv_config sv) (sv_ctl sv) (sv_lm sv) (sv_proxies sv) (sv_host sv).
Definition set_sv_services sv st : server :=
  mkServer (sv_pods sv) (sv_pods_db sv) st (sv_config sv) (sv_ctl sv) (sv_lm sv) (sv_proxies sv) (sv_host sv).
Definition set_sv_config sv st : server :=
  mkServer (sv_pods sv) (sv_pods_db sv) (sv_services sv) st (sv_ctl sv) (sv_lm sv) (sv_proxies sv) (sv_host sv).
Definition set_sv_ctl sv st : server :=
  mkServer (sv_pods sv) (sv_pods_db sv) (sv_services sv) (sv_config sv) st (sv_lm sv) (sv_proxies sv) (sv_host sv).
Definition set_sv_lm sv (s : LifecycleManager L * Host F W N) : server :=
  mkServer (sv_pods sv) (sv_pods_db sv) (sv_services sv) (sv_config sv) (sv_ctl sv) s.1 (sv_proxies sv) s.2.

(** The proxy manager shares the pool and the network of the host. *)
Definition proxy_manager sv : ProxyManager N :=
  mkProxyManager (sv_proxies sv) (h_pool (sv_host sv)) (h_net (sv_host sv)).
Definition set_proxy_manager sv (pm : ProxyManager N) : server :=
  mkServer (sv_pods sv) (sv_pods_db sv) (sv_services sv) (sv_config sv) (sv_ctl sv) (sv_lm sv)
    (proxies pm) (mkHost (pm_pool pm) (pm_net pm) (h_files (sv_host sv)) (h_eng (sv_host sv))).

(** ** The records of the pods *)

Definition storePod sv pod : server :=
  set_sv_pods sv (kv_store "pods" podMeta (sv_pods sv, sv_pods_db sv) pod).
Definition loadPod sv (namespace name : string) : option Pod := kv_load (sv_pods sv) namespace name.
Definition deletePod sv (namespace name : string) : server :=
  set_sv_pods sv (kv_delete "pods" (sv_pods sv, sv_pods_db sv) namespace name).
Definition allPods (o : shuffle Pod) sv (namespace : string) : list Pod :=
  kv_list podMeta o (sv_pods sv) namespace.

(** [if status, managed := s.lifecycle.Status(...); managed { pod.Status = status }] *)
Definition refresh_status sv pod : Pod :=
  match LStatus (sv_lm sv) (sv_host sv) (Namespace (podMeta pod)) (Name (podMeta pod)) with
  | Some status => set_podStatus pod status
  | None => pod
  end.

Definition ListPodsOf (o : shuffle Pod) sv (namespace : string) : list Pod :=
  refresh_status sv <$> allPods o sv namespace.

(** ** Launching and deleting *)

(** [PodStatus{Phase: PodPending, StartTime: ...}] *)
Definition pending_status (now : Time) : PodStatus :=
  mkPodStatus PodPending "" (format_time now) 0 [] [] "" 0.

Definition failed_with pod (msg : string) : Pod :=
  set_podStatus pod (set_Message (set_Phase (podStatus pod) PodFailed) msg).

(** The environment of a pod: its own variables, then the services of [ns]. *)
Definition pod_env (d : env_draw) sv (ns : string) pod : list EnvVar :=
  CollectEnvVars (Containers (podSpec pod)) ++
  GenerateServiceEnv (d_services d) ns (sv_services sv) (proxy_manager sv).

(** From the pending status to the stored outcome: the end of [LaunchPod] and the
    middle of [handleCreatePod]. *)
Definition launch_and_store (d : env_draw) sv pod (engineType target : string) (env : list EnvVar)
    : server * Pod * res launch_error unit :=
  let pod := set_podStatus pod (pending_status (d_now d)) in
  match Launch TempDir NewLog (d_orders d) (sv_config sv) (sv_lm sv) (sv_host sv) pod
          engineType target env with
  | (s, pod, Err e) =>
      let pod := failed_with pod (launch_error_text e) in
      (storePod (set_sv_lm sv s) pod, pod, Err e)
  | (s, pod, Panic w) => (set_sv_lm sv s, pod, Panic w)
  | (s, pod, Ok _) =>
      let pod := set_podStatus pod (set_Phase (podStatus pod) PodRunning) in
      (storePod (set_sv_lm sv s) pod, pod, Ok tt)
  end.

Inductive server_error :=
| ConfigError (e : manifest_error)
| LaunchError (e : launch_error).

Definition SLaunchPod (d : env_draw) sv pod : server * Pod * res server_error unit :=
  let sv := storePod sv pod in
  match ExtractEngineConfig (h_files (sv_host sv)) pod with
  | Err e =>
      let pod := failed_with pod (manifest_error_text e) in
      (storePod sv pod, pod, Err (ConfigError e))
  | Panic w => (sv, pod, Panic w)
  | Ok (engineType, target) =>
      match launch_and_store d sv pod engineType target (pod_env d sv (Namespace (podMeta pod)) pod) with
      | (sv, pod, Ok _) => (sv, pod, Ok tt)
      | (sv, pod, Err e) => (sv, pod, Err (LaunchError e))
      | (sv, pod, Panic w) => (sv, pod, Panic w)
      end
  end.

(** [_ = s.lifecycle.Terminate(...)]: an unmanaged pod is no error. *)
Definition terminate (o : shuffle Z) sv (namespace name : string) : server * res launch_error unit :=
  match Terminate TempDir o (sv_lm sv) (sv_host sv) namespace name with
  | (s, Some (Panic w)) => (set_sv_lm sv s, Panic w)
  | (s, _) => (set_sv_lm sv s, Ok tt)
  end.

Definition SDeletePod (o : shuffle Z) sv (namespace name : string) : server * res launch_error unit :=
  match terminate o sv namespace name with
  | (sv, Ok _) => (deletePod sv namespace name, Ok tt)
  | r => r
  end.

(** ** Recovery after a restart *)

Definition node_port (s : Service) : Z :=
  match svcPorts (svcSpec s) with p0 :: _ => spNodePort p0 | [] => 0%Z end.

(** [_ = s.portPool.Reserve(key, port)] *)
Definition reserve sv (key : string) (port : Z) : server :=
  let h := sv_host sv in
  set_sv_lm sv (sv_lm sv, mkHost (Reserve (h_pool h) key port).1 (h_net h) (h_files h) (h_eng h)).

Definition recover_service sv (s : Service) : server :=
  if (0 <? node_port s)%Z then
    let sv := reserve sv (key_of (svcMeta s)) (node_port s) in
    set_proxy_manager sv (StartProxy (proxy_manager sv) s).1
  else sv.

Definition to_recover pod : bool :=
  String.eqb (Phase (podStatus pod)) PodRunning || String.eqb (Phase (podStatus pod)) PodPending.

Definition recover_pod (d : env_draw) sv pod : server :=
  if to_recover pod then
    let sv := if (0 <? HostPort (podStatus pod))%Z
              then reserve sv (key_of (podMeta pod)) (HostPort (podStatus pod)) else sv in
    (SLaunchPod d sv pod).1.1
  else sv.

(** The errors are logged and the loops go on. *)
Definition RecoverState (d : Pod -> env_draw) (o_svc : shuffle Service) (o_pod : shuffle Pod)
    sv : server :=
  let sv := foldl recover_service sv (ListServices o_svc (sv_services sv) "") in
  foldl (fun sv pod => recover_pod (d pod) sv pod) sv (allPods o_pod sv "").
End Server.
