(* ===== verification/ServerPods.v ===== *)
(** * The server as the pod manager of the controllers (src/api/server.go)

    [Server] implements the interface [PodManager]: the replica set controller
    launches, deletes and lists pods through it.  This file is that implementation
    and the proof that it keeps the promises of [PodManagerLaws], given engines that
    keep those of [EngineLaws]; so the theorems about the controller hold of the
    server. *)

From S2P Require Import Prelude Types GoStrings Store Stores PortPool Hub SvcProxy Path Volume Lifecycle Manifest Deployment ReplicaSetCtl Server.

Section ServerPods.
Context {F W N L T : Type} `{FS F} `{PodEngines F W} `{TCP N} `{Bolt T}.
Context `{Codec Pod, Codec Service, Codec ConfigMap, Codec Secret, Codec Deployment, Codec ReplicaSet}.
Context `{Texts} `{UnicodeCase}.
Context (TempDir : string) (NewLog : L).
(** What the launches draw, one after the other; the order of the watchers. *)
Context (draws : nat -> env_draw) (o_watchers : shuffle Z).
Abbreviation server := (Server F W N L T).

(** The server with the number of launches so far. *)
Definition world : Type := (server * nat)%type.

Definition server_error_text (e : server_error) : string :=
  match e with ConfigError e => manifest_error_text e | LaunchError e => launch_error_text e end.

(** An error as the caller sees it; a panic would end the daemon. *)
Definition seen_error {A E} (text : E -> string) (r : res E A) : option string :=
  match r with Ok _ => None | Err e => Some (text e) | Panic w => Some w end.

Definition W_LaunchPod (w : world) (pod : Pod) : world * option string :=
  let '(sv, _, r) := SLaunchPod TempDir NewLog (draws w.2) w.1 pod in
  ((sv, S w.2), seen_error server_error_text r).

Definition W_DeletePod (w : world) (namespace name : string) : world * option string :=
  let '(sv, r) := SDeletePod TempDir o_watchers w.1 namespace name in
  ((sv, w.2), seen_error launch_error_text r).

Definition W_ListPods (o : shuffle Pod) (w : world) (namespace : string) : list Pod :=
  ListPodsOf o w.1 namespace.

#[export] Instance server_PodManager : PodManager world := {
  LaunchPod := W_LaunchPod;
  DeletePod := W_DeletePod;
  ListPods := W_ListPods;
}.

(** ** What a launch does to the engines and to the map of managed pods *)

Section Launch.
Context `{!EngineLaws F W}.
Implicit Types (lm : LifecycleManager L) (h : Host F W N) (mp : managedPod L) (sv : server).

(** The workloads of other names are as they were. *)
Definition same_engines (name : string) h h' : Prop :=
  (forall n, registered (h_eng h') n = registered (h_eng h) n) /\
  forall et n, n <> name -> eng_Status (h_eng h') et n = eng_Status (h_eng h) et n.

Lemma same_engines_refl name h h' : h_eng h' = h_eng h -> same_engines name h h'.
Proof. intros E. split; intros *; by rewrite E. Qed.

Lemma same_engines_trans name h1 h2 h3 :
  same_engines name h1 h2 -> same_engines name h2 h3 -> same_engines name h1 h3.
Proof. intros [A1 B1] [A2 B2]. split; intros *; [by rewrite A2|]. intros Hn. by rewrite B2, B1. Qed.

Lemma init_engines name h ics env h' r :
  runInitContainers h ics env = (h', r) -> same_engines name h h'.
Proof.
  revert h. induction ics as [|ic ics IH]; intros h; cbn [runInitContainers].
  { intros [= <- <-]. by apply same_engines_refl. }
  destruct (cCommand ic) as [|prog args]; [apply IH|].
  destruct (run_init _ _ _ _ _) as [[w f] ok] eqn:ER. apply init_frame in ER as [A B].
  assert (Hs : same_engines name h (set_eng h (w, f))) by (split; intros *; [apply A|intros _; apply B]).
  destruct ok; intros E.
  - apply IH in E. by eapply same_engines_trans.
  - by injection E as <- <-.
Qed.

Lemma allocate_port_engines h key pod : h_eng (allocate_port h key pod).1 = h_eng h.
Proof.
  unfold allocate_port. destruct (has_ports pod); [|done].
  by destruct (Allocate _ _) as [pool [p|e|x]].
Qed.

Lemma allocate_port_pod h key pod h' port pod' :
  allocate_port h key pod = (h', Ok (port, pod')) -> podMeta pod' = podMeta pod /\ podSpec pod' = podSpec pod.
Proof.
  unfold allocate_port. destruct (has_ports pod); [|by intros [= <- <- <-]].
  destruct (Allocate _ _) as [pool [p|e|x]]; [|done..]. intros [= <- <- <-]. by case_match.
Qed.

Lemma Launch_engines ord (cfg : ConfigStore T) lm h pod et tg env lm' h' pod' :
  let key := podKey (Namespace (podMeta pod)) (Name (podMeta pod)) in
  Launch TempDir NewLog ord cfg lm h pod et tg env = ((lm', h'), pod', Ok tt) ->
  exists mp, lm_pods lm !! key = None /\ lm_pods lm' = <[key := mp]> (lm_pods lm) /\
    mp_engineType mp = et /\ registered (h_eng h') et = true /\
    eng_Status (h_eng h') et (Name (podMeta pod)) = PodRunning /\
    same_engines (Name (podMeta pod)) h h'.
Proof.
  intros key. unfold Launch. fold key. destruct (lm_pods lm !! key) eqn:Ek; [done|].
  pose proof (allocate_port_engines h key pod) as He1.
  destruct (allocate_port h key pod) as [h1 [[port pod1]|e|x]] eqn:EA; [|done..].
  apply allocate_port_pod in EA as [Em _]. simpl in He1.
  destruct (container_port pod1); [|done..]. destruct (ProjectVolumes _ _ _ _ _) as [f [projected|e|x]]; [|done..].
  unfold run_pod. destruct (runInitContainers _ _ _) as [h2 [c|]] eqn:EI; [done|].
  apply (init_engines (Name (podMeta pod))) in EI. cbn [mp_engineType].
  destruct (negb _) eqn:Er; [done|]. apply negb_false_iff in Er.
  destruct (eng_Start _ _ _ _ _ _ _) as [[w f2] [err|]] eqn:ES; [done|].
  pose proof (Start_frame _ _ _ _ _ _ _ _ _ _ ES) as [A B].
  pose proof (Start_runs _ _ _ _ _ _ _ _ _ Er ES) as Hrun. rewrite Em in B, Hrun.
  set (mp := mkManagedPod _ _ _ _ _ _ _ _ _ _).
  destruct (start_proxy_host (set_eng h2 (w, f2)) mp port a) as (_ & _ & He3).
  destruct (start_proxy_mp (set_eng h2 (w, f2)) mp port a) as [px Epx].
  cbn [mp_hostPort mp].
  destruct (start_proxy _ _ _ _) as [h3 mp3]. simpl in He3, Epx. subst mp3.
  destruct (emit _ _ _ _ _) as [lm3|e|x] eqn:EE; [|done..].
  intros [= <- <- <-]. apply emit_pods in EE. simpl in EE.
  exists (set_ready (set_proxy mp px) true). rewrite He3. simpl. split_and!; [done| |done| |done|].
  - by rewrite EE, insert_insert_eq.
  - by rewrite A.
  - eapply same_engines_trans; [by apply (same_engines_refl _ h h1)|].
    eapply same_engines_trans; [exact EI|]. split; intros *; rewrite He3; simpl; [apply A|apply B].
Qed.

Lemma tear_down_engines h mp key name : same_engines name h (tear_down TempDir h mp key name).
Proof.
  destruct (Stop_frame (h_eng h) (mp_engineType mp) name) as [A B].
  unfold tear_down, stop_engine, close_proxy, release_if.
  destruct (mp_proxy mp), (0 <? mp_hostPort mp)%Z; cbn [h_eng set_files set_pool set_net];
    destruct (registered _ _); split; cbn [h_eng set_files set_pool set_net]; auto.
Qed.

(** ** The promises *)

(** The records sit under their own keys, no two of them share a bare name, and the
    watchers are in order. *)
Definition world_wf (w : world) : Prop :=
  lm_ok (sv_lm w.1) /\ keyed podMeta (sv_pods w.1) /\
  forall k1 k2 p q, sv_pods w.1 !! k1 = Some p -> sv_pods w.1 !! k2 = Some q ->
    Name (podMeta p) = Name (podMeta q) -> k1 = k2.

(** Nothing on record has the key or the bare name of the pod. *)
Definition world_fresh (w : world) (p : Pod) : Prop :=
  forall k q, sv_pods w.1 !! k = Some q -> Name (podMeta q) <> Name (podMeta p) /\ k <> pod_key p.

Lemma pod_key_refresh sv p : pod_key (refresh_status sv p) = pod_key p.
Proof. unfold refresh_status. by destruct (LStatus _ _ _ _). Qed.

Lemma name_refresh sv p : Name (podMeta (refresh_status sv p)) = Name (podMeta p).
Proof. unfold refresh_status. by destruct (LStatus _ _ _ _). Qed.

Lemma in_namespace_refresh ns sv p :
  in_namespace podMeta ns (refresh_status sv p) = in_namespace podMeta ns p.
Proof. unfold in_namespace, refresh_status. by destruct (LStatus _ _ _ _). Qed.

Lemma elem_of_W_list w ns p :
  p ∈ W_ListPods in_order w ns <-> in_namespace podMeta ns p = true /\
    exists k q, sv_pods w.1 !! k = Some q /\ p = refresh_status w.1 q.
Proof.
  unfold W_ListPods, ListPodsOf, allPods. rewrite list_elem_of_fmap.
  setoid_rewrite elem_of_kv_list. split.
  - intros (q & -> & Hn & k & Hk). rewrite in_namespace_refresh. eauto.
  - intros (Hn & k & q & Hk & ->). rewrite in_namespace_refresh in Hn. eauto.
Qed.

Lemma W_list_NoDup w ns :
  keyed podMeta (sv_pods w.1) -> NoDup (pod_key <$> W_ListPods in_order w ns).
Proof.
  intros Hk. unfold W_ListPods, ListPodsOf, allPods, kv_list. rewrite <- list_fmap_compose.
  rewrite (list_fmap_ext _ pod_key) by (intros; apply pod_key_refresh).
  apply NoDup_fmap_bool_filter. unfold map_values; simpl. rewrite <- list_fmap_compose.
  rewrite (list_fmap_ext _ fst); [apply NoDup_fst_map_to_list|].
  intros i [k p] Hi; simpl. apply list_elem_of_lookup_2, elem_of_map_to_list in Hi.
  symmetry. by apply Hk.
Qed.

(** The status of a record depends on the managed pod under its key and on the
    engine's word about its name. *)
Lemma refresh_frame sv sv' q name :
  same_engines name (sv_host sv) (sv_host sv') -> Name (podMeta q) <> name ->
  lm_pods (sv_lm sv') !! pod_key q = lm_pods (sv_lm sv) !! pod_key q ->
  refresh_status sv' q = refresh_status sv q.
Proof.
  intros [Hr Hs] Hn Hl. unfold refresh_status, LStatus.
  change (podKey (Namespace (podMeta q)) (Name (podMeta q))) with (pod_key q). rewrite Hl.
  destruct (lm_pods (sv_lm sv) !! pod_key q) as [mp|]; [|done]. simpl. f_equal.
  unfold pod_status. by rewrite Hr, Hs.
Qed.

Lemma set_podStatus_same p : set_podStatus p (podStatus p) = p.
Proof. by destruct p. Qed.

Lemma Launch_pod ord (cfg : ConfigStore T) lm h pod et tg env s pod' :
  Launch TempDir NewLog ord cfg lm h pod et tg env = (s, pod', Ok tt) ->
  exists st, pod' = set_podStatus pod st.
Proof.
  unfold Launch. destruct (lm_pods lm !! _); [done|].
  destruct (allocate_port _ _ pod) as [h1 [[port pod1]|e|x]] eqn:EA; [|done..].
  assert (Ep : exists st, pod1 = set_podStatus pod st).
  { unfold allocate_port in EA. destruct (has_ports pod).
    - destruct (Allocate _ _) as [pool [q|e|x]]; [|done..]. injection EA as <- <- <-.
      case_match; [by eexists|]. exists (podStatus pod). by rewrite set_podStatus_same.
    - injection EA as <- <- <-. exists (podStatus pod). by rewrite set_podStatus_same. }
  destruct (container_port pod1); [|done..]. destruct (ProjectVolumes _ _ _ _ _) as [f [pr|e|x]]; [|done..].
  destruct (run_pod _ _ _ _ _ _ _ _) as [s1 r]. by intros [= <- <- ->].
Qed.

Lemma Launch_lm_ok ord (cfg : ConfigStore T) lm h pod et tg env lm' h' pod' r :
  lm_ok lm -> Launch TempDir NewLog ord cfg lm h pod et tg env = ((lm', h'), pod', r) -> lm_ok lm'.
Proof.
  intros Hok. unfold Launch. destruct (lm_pods lm !! _) eqn:Ek; [by intros [= <- _ _ _]|].
  destruct (allocate_port _ _ pod) as [h1 [[port pod1]|e|x]]; [|by intros [= <- _ _ _]..].
  destruct (container_port pod1) as [cp|e|x]; [|by intros [= <- _ _ _]..].
  destruct (ProjectVolumes _ _ _ _ _) as [f [pr|e|x]]; [|by intros [= <- _ _ _]..].
  match goal with |- context [run_pod _ _ _ ?hh ?m ?k ?q ?c] =>
    pose proof (run_pod_spec TempDir ord lm hh m k q c Hok Ek) as HR;
    destruct (run_pod TempDir ord lm hh m k q c) as [[lm2 h2] [u|e|x]] end; [| |done];
    intros [= <- _ _ _]; [apply HR|by destruct HR as [-> _]].
Qed.

(** A successful launch: the record that is left, and the launch it came from. *)
Lemma SLaunchPod_Ok d sv p sv' p' :
  SLaunchPod TempDir NewLog d sv p = (sv', p', Ok tt) ->
  exists st pod1 pod2 et tg env,
    p' = set_podStatus p st /\ Phase st = PodRunning /\ podMeta pod1 = podMeta p /\
    sv_pods sv' = <[pod_key p := p']> (sv_pods sv) /\ sv_ctl sv' = sv_ctl sv /\
    Launch TempDir NewLog (d_orders d) (sv_config sv) (sv_lm sv) (sv_host sv) pod1 et tg env =
      ((sv_lm sv', sv_host sv'), pod2, Ok tt).
Proof.
  unfold SLaunchPod. set (sv1 := storePod sv p).
  destruct (ExtractEngineConfig _ p) as [[et tg]|e|x]; [|done..].
  unfold launch_and_store. set (pod1 := set_podStatus p _). set (env := pod_env _ _ _ _).
  destruct (Launch _ _ _ _ _ _ pod1 _ _ _) as [[s pod2] [[]|e|x]] eqn:EL; [|done..].
  intros [= <- <-]. destruct (Launch_pod _ _ _ _ _ _ _ _ _ _ EL) as [st ->].
  exists (set_Phase st PodRunning), pod1, (set_podStatus pod1 st), et, tg, env.
  split_and!; [done|done|done| |done|].
  - simpl. change (key_of (podMeta p)) with (pod_key p). by rewrite insert_insert_eq.
  - destruct s as [lm h]. exact EL.
Qed.

Lemma pod_active_running p st :
  Phase st = PodRunning -> pod_active (set_podStatus p st) = true.
Proof. intros E. unfold pod_active. simpl. by rewrite E. Qed.

(** The list after one more record. *)
Lemma W_list_insert w sv' i ns p p' :
  world_wf w -> world_fresh w p -> pod_key p' = pod_key p ->
  sv_pods sv' = <[pod_key p := p']> (sv_pods w.1) ->
  keyed podMeta (sv_pods sv') ->
  (forall k q, sv_pods w.1 !! k = Some q -> refresh_status sv' q = refresh_status w.1 q) ->
  W_ListPods in_order (sv', i) ns ≡ₚ
    List.filter (in_namespace podMeta ns) [refresh_status sv' p'] ++ W_ListPods in_order w ns.
Proof.
  intros (_ & Hk & _) Hf Ek Ep Hk' Href. apply NoDup_Permutation.
  - by eapply (NoDup_fmap_1 pod_key), W_list_NoDup.
  - apply NoDup_app. split_and!; [by apply NoDup_bool_filter, NoDup_singleton| |
      by eapply (NoDup_fmap_1 pod_key), W_list_NoDup].
    intros x Hx Hin. apply elem_of_bool_filter in Hx as [Hx _].
    apply list_elem_of_singleton in Hx as ->.
    apply elem_of_W_list in Hin as (_ & k & q & Hq & E).
    destruct (Hf _ _ Hq) as [_ Hne]. apply Hne. rewrite (Hk _ _ Hq).
    change (pod_key q = pod_key p). rewrite <- Ek, <- (pod_key_refresh sv' p'), E. symmetry. apply pod_key_refresh.
  - intros x. rewrite elem_of_app, !elem_of_W_list, elem_of_bool_filter, list_elem_of_singleton.
    simpl. rewrite Ep. split.
    + intros (Hn & k & q & Hq & ->). apply lookup_insert_Some in Hq as [[<- <-]|[Hne Hq]]; [by left|].
      right. split; [done|]. exists k, q. split; [done|]. by apply (Href k).
    + intros [[-> Hn]|(Hn & k & q & Hq & ->)]; (split; [done|]).
      * exists (pod_key p), p'. by rewrite lookup_insert_eq.
      * exists k, q. rewrite <- (Href k q Hq). split; [|done]. rewrite lookup_insert_ne; [done|].
        intros <-. by destruct (Hf _ _ Hq).
Qed.

Lemma W_LaunchPod_listed w p w' :
  world_wf w -> world_fresh w p -> W_LaunchPod w p = (w', None) ->
  world_wf w' /\ (forall q, world_fresh w q -> apart p q -> world_fresh w' q) /\
  exists st, pod_active (set_podStatus p st) = true /\
    forall ns, W_ListPods in_order w' ns ≡ₚ
      List.filter (in_namespace podMeta ns) [set_podStatus p st] ++ W_ListPods in_order w ns.
Proof.
  intros Hwf Hf. pose proof Hwf as (Hlm & Hk & Hu). unfold W_LaunchPod.
  destruct (SLaunchPod _ _ _ _ _) as [[sv' p'] [[]|e|x]] eqn:ES; [|done..]. intros [= <-].
  destruct (SLaunchPod_Ok _ _ _ _ _ ES) as (st & pod1 & pod2 & et & tg & env & -> & Hst & Em & Ep & _ & EL).
  destruct (Launch_engines _ _ _ _ _ _ _ _ _ _ _ EL) as (mp & Hn & Hl & Het & Hreg & Hrun & Hsame).
  rewrite Em in Hl, Hrun, Hsame, Hn. change (podKey _ _) with (pod_key p) in Hl, Hn.
  assert (Hk' : keyed podMeta (sv_pods sv')).
  { intros k q. rewrite Ep, lookup_insert_Some. intros [[<- <-]|[_ Hq]]; [done|by apply Hk]. }
  assert (Href : forall k q, sv_pods w.1 !! k = Some q -> refresh_status sv' q = refresh_status w.1 q).
  { intros k q Hq. destruct (Hf _ _ Hq) as [Hne Hnk]. apply (refresh_frame _ _ _ (Name (podMeta p))); [done|done|].
    rewrite Hl, lookup_insert_ne; [done|]. rewrite (Hk _ _ Hq) in Hnk. by intros E. }
  split_and!.
  - split_and!; simpl; [|done|].
    + by eapply Launch_lm_ok.
    + intros k1 k2 q1 q2. rewrite Ep, !lookup_insert_Some. simpl.
      intros [[<- <-]|[H1' Hq1]] [[<- <-]|[H2' Hq2]] E; simpl in E; [done| | |by eapply Hu].
      * destruct (Hf _ _ Hq2). congruence.
      * destruct (Hf _ _ Hq1). congruence.
  - intros q Hq [Hap1 Hap2] k q' . simpl. rewrite Ep, lookup_insert_Some.
    intros [[<- <-]|[_ Hq']]; [split; [exact Hap2|done]|by apply Hq].
  - assert (Er : refresh_status sv' (set_podStatus p st) = set_podStatus p (pod_status (sv_host sv') mp (Name (podMeta p)))).
    { unfold refresh_status, LStatus. simpl. change (podKey _ _) with (pod_key p).
      rewrite Hl, lookup_insert_eq. done. }
    exists (pod_status (sv_host sv') mp (Name (podMeta p))). split.
    + apply pod_active_running. unfold pod_status. rewrite Het, Hreg. exact Hrun.
    + intros ns. rewrite <- Er. by apply (W_list_insert w sv' (S w.2) ns p (set_podStatus p st)).
Qed.

(** The deletion of a listed pod. *)
Lemma terminate_frame o sv ns name sv' r :
  lm_ok (sv_lm sv) -> terminate TempDir o sv ns name = (sv', r) ->
  r = Ok tt /\ lm_ok (sv_lm sv') /\ sv_pods sv' = sv_pods sv /\ sv_ctl sv' = sv_ctl sv /\
  same_engines name (sv_host sv) (sv_host sv') /\
  forall k, k <> podKey ns name -> lm_pods (sv_lm sv') !! k = lm_pods (sv_lm sv) !! k.
Proof.
  intros Hok. unfold terminate.
  destruct (lm_pods (sv_lm sv) !! podKey ns name) as [mp|] eqn:E.
  - destruct (Terminate_spec TempDir o _ (sv_host sv) ns name mp Hok E) as (ws & -> & Hok').
    intros [= <- <-]. simpl. split_and!; [done|done|done|done|apply tear_down_engines|].
    intros k Hk. by rewrite lookup_delete_ne.
  - unfold Terminate. rewrite E. intros [= <- <-]. simpl.
    split_and!; [done|done|done|done|by apply same_engines_refl|done].
Qed.

Lemma SDeletePod_frame o sv ns name sv' r :
  lm_ok (sv_lm sv) -> SDeletePod TempDir o sv ns name = (sv', r) ->
  r = Ok tt /\ lm_ok (sv_lm sv') /\ sv_pods sv' = delete (key ns name) (sv_pods sv) /\
  sv_ctl sv' = sv_ctl sv /\ same_engines name (sv_host sv) (sv_host sv') /\
  forall k, k <> podKey ns name -> lm_pods (sv_lm sv') !! k = lm_pods (sv_lm sv) !! k.
Proof.
  intros Hok. unfold SDeletePod. destruct (terminate TempDir o sv ns name) as [sv1 r1] eqn:E.
  destruct (terminate_frame _ _ _ _ _ _ Hok E) as (-> & H1' & H2' & H3' & H4' & H5').
  intros [= <- <-]. simpl. by rewrite H2'.
Qed.

Lemma W_DeletePod_listed w ns name w' p ns0 :
  world_wf w -> p ∈ W_ListPods in_order w ns0 -> pod_key p = key ns name ->
  Name (podMeta p) = name -> W_DeletePod w ns name = (w', None) ->
  world_wf w' /\ forall ns', W_ListPods in_order w' ns' ≡ₚ
    List.filter (fun p => negb (String.eqb (pod_key p) (key ns name))) (W_ListPods in_order w ns').
Proof.
  intros (Hlm & Hk & Hu) Hin Ek En. unfold W_DeletePod.
  destruct (SDeletePod _ _ _ _ _) as [sv' r] eqn:ES.
  destruct (SDeletePod_frame _ _ _ _ _ _ Hlm ES) as (-> & Hlm' & Hp & _ & Hsame & Hl).
  intros [= <-]. apply elem_of_W_list in Hin as (_ & k0 & q0 & Hq0 & ->).
  rewrite pod_key_refresh in Ek. rewrite name_refresh in En. pose proof (Hk _ _ Hq0) as Ek0.
  assert (Ek1 : k0 = key ns name) by (rewrite Ek0; exact Ek).
  assert (Hk' : keyed podMeta (sv_pods sv')).
  { intros k q. rewrite Hp. intros [_ Hq]%lookup_delete_Some. by apply Hk. }
  assert (Href : forall k q, k <> key ns name -> sv_pods w.1 !! k = Some q ->
    refresh_status sv' q = refresh_status w.1 q).
  { intros k q Hne Hq. apply (refresh_frame _ _ _ name); [done| |].
    - intros E. apply Hne. rewrite <- Ek1. eapply Hu; [done..|]. by rewrite E, En.
    - apply Hl. rewrite (Hk _ _ Hq) in Hne. exact Hne. }
  split.
  - split_and!; [done|done|]. simpl. intros k1 k2 q1 q2. rewrite Hp.
    intros [_ H1']%lookup_delete_Some [_ H2']%lookup_delete_Some. by eapply Hu.
  - intros ns'. apply NoDup_Permutation.
    + by eapply (NoDup_fmap_1 pod_key), W_list_NoDup.
    + eapply NoDup_bool_filter, (NoDup_fmap_1 pod_key). by apply W_list_NoDup.
    + intros x. rewrite elem_of_bool_filter, !elem_of_W_list, negb_true_iff, String.eqb_neq.
      simpl. rewrite Hp. split.
      * intros (Hn & k & q & [Hne Hq]%lookup_delete_Some & ->).
        rewrite pod_key_refresh. split.
        -- split; [done|]. exists k, q. split; [done|]. by apply (Href k).
        -- rewrite <- (Hk _ _ Hq : k = pod_key q). by intros ->.
      * intros [(Hn & k & q & Hq & ->) Hne]. rewrite pod_key_refresh in Hne. split; [done|].
        exists k, q. pose proof (Hk _ _ Hq) as Ekq. change (key_of _) with (pod_key q) in Ekq.
        split; [|symmetry; apply (Href k); [congruence|done]].
        apply lookup_delete_Some. split; [congruence|done].
Qed.

#[export] Instance server_laws : PodManagerLaws world.
Proof.
  refine (Build_PodManagerLaws _ _ world_wf world_fresh _ _ _ _ _).
  - intros o w ns. simpl. unfold W_ListPods, ListPodsOf, allPods, kv_list.
    apply fmap_Permutation. by rewrite (shuffle_perm o).
  - intros w ns (_ & Hk & _). by apply W_list_NoDup.
  - apply W_LaunchPod_listed.
  - apply W_DeletePod_listed.
  - intros w ns name (Hlm & _). simpl. unfold W_DeletePod.
    destruct (SDeletePod _ _ _ _ _) as [sv' r] eqn:ES.
    by destruct (SDeletePod_frame _ _ _ _ _ _ Hlm ES) as (-> & _).
Defined.
End Launch.
End ServerPods.
