(* ===== verification/Races.v ===== *)
(** * Launches that race (src/engine/lifecycle.go, src/engine/native.go)

    [Lifecycle.Launch] is the whole function as one step.  Here it is cut where
    another goroutine can get in between: every access to the map of pods, to the port
    pool, to the engine and to the watchers is a step of its own.  Run alone the steps
    are [Launch] ([run_is_Launch]); two launches of one pod are not safe, because the
    test for a managed pod and the entry in the map are two accesses
    ([racing_launches_orphan]).  The engines have the same gap between the test for a
    running workload and the record of the new one ([racing_starts_lose_one]). *)

From S2P Require Import Prelude Types GoStrings Hub PortPool Store Stores SvcProxy Path Volume Health Engine Lifecycle HostEngines Manifest Deployment ReplicaSetCtl Server ServerPods.

(** ** Launch in steps *)

(** Where a launch is.  [mp] is the object the goroutine made; the map of pods holds a
    pointer to it once it is stored. *)
Inductive launch_pc (L : Type) :=
| PCheck (pod : Pod)
| PAllocate (pod : Pod)
| PProject (pod : Pod) (hostPort : Z)
| PStore (mp : managedPod L) (pod : Pod) (containerPort : Z)
| PInit (mp : managedPod L) (pod : Pod) (containerPort : Z)
| PStart (mp : managedPod L) (pod : Pod) (containerPort : Z)
| PProxy (mp : managedPod L) (pod : Pod) (containerPort : Z)
| PReady (mp : managedPod L) (pod : Pod)
| PAnnounce (pod : Pod)
| PRelease (pod : Pod) (hostPort : Z) (e : launch_error)
| PUndoPort (pod : Pod) (hostPort : Z) (e : launch_error)
| PUndoVolumes (pod : Pod) (e : launch_error)
| PUndoEntry (pod : Pod) (e : launch_error)
| PDone (pod : Pod) (r : res launch_error unit).
Arguments PCheck {L}.
Arguments PAllocate {L}.
Arguments PProject {L}.
Arguments PStore {L}.
Arguments PInit {L}.
Arguments PStart {L}.
Arguments PProxy {L}.
Arguments PReady {L}.
Arguments PAnnounce {L}.
Arguments PRelease {L}.
Arguments PUndoPort {L}.
Arguments PUndoVolumes {L}.
Arguments PUndoEntry {L}.
Arguments PDone {L}.

(** The manager, the host, and whose object each entry of the map points to. *)
Record shared (F W N L : Type) := mkShared {
  sh_lm : LifecycleManager L;
  sh_host : Host F W N;
  sh_who : gmap string nat;
}.
Arguments mkShared {F W N L}.
Arguments sh_lm {F W N L}.
Arguments sh_host {F W N L}.
Arguments sh_who {F W N L}.

Section Races.
Context {F W N L T : Type} `{FS F} `{PodEngines F W} `{TCP N}.
Context (TempDir : string) (NewLog : L).
Abbreviation state := (shared F W N L).
Abbreviation pc_t := (launch_pc L).
Implicit Types (s : state) (pc : pc_t).

Definition set_host s h : state := mkShared (sh_lm s) h (sh_who s).

(** [lm.pods.Store(key, mp)] and [lm.pods.Delete(key)] *)
Definition store_entry s (me : nat) (key : string) (mp : managedPod L) : state :=
  mkShared (set_pods (sh_lm s) (<[key := mp]> (lm_pods (sh_lm s)))) (sh_host s)
    (<[key := me]> (sh_who s)).
Definition delete_entry s (key : string) : state :=
  mkShared (set_pods (sh_lm s) (delete key (lm_pods (sh_lm s)))) (sh_host s) (delete key (sh_who s)).

(** A write to the object of launch [me]: the map shows it if it points there. *)
Definition update_mine s (me : nat) (key : string) (mp : managedPod L) : state :=
  if decide (sh_who s !! key = Some me)
  then mkShared (set_pods (sh_lm s) (<[key := mp]> (lm_pods (sh_lm s)))) (sh_host s) (sh_who s)
  else s.

(** One step of the launch [me]. *)
Definition launch_step (ord : orders) (cfg : ConfigStore T) (engineType target : string)
    (env : list EnvVar) (me : nat) s pc : state * pc_t :=
  let lm := sh_lm s in
  let h := sh_host s in
  match pc with
  | PCheck pod =>
      let key := pod_key_of pod in
      match lm_pods lm !! key with
      | Some _ => (s, PDone pod (Err (AlreadyManaged key)))
      | None => (s, PAllocate pod)
      end
  | PAllocate pod =>
      match allocate_port h (pod_key_of pod) pod with
      | (h, Ok (hostPort, pod)) => (set_host s h, PProject pod hostPort)
      | (h, Err e) => (set_host s h, PDone pod (Err e))
      | (h, Panic w) => (set_host s h, PDone pod (Panic w))
      end
  | PProject pod hostPort =>
      let env := if (0 <? hostPort)%Z then env ++ [mkEnvVar "LOK8S_PORT" (Itoa hostPort)] else env in
      match container_port pod with
      | Err e => (s, PRelease pod hostPort e)
      | Panic w => (s, PDone pod (Panic w))
      | Ok containerPort =>
          match ProjectVolumes TempDir (o_data ord) (h_files h) cfg pod with
          | (f, Err e) => (set_host s (set_files h f), PRelease pod hostPort (ProjectionFailed e))
          | (f, Panic w) => (set_host s (set_files h f), PDone pod (Panic w))
          | (f, Ok projected) =>
              (set_host s (set_files h f),
               PStore (mkManagedPod pod engineType target env NewLog 0 false hostPort None projected)
                 pod containerPort)
          end
      end
  | PRelease pod hostPort e =>
      (set_host s (release_if h hostPort (pod_key_of pod)), PDone pod (Err e))
  | PStore mp pod cp => (store_entry s me (pod_key_of pod) mp, PInit mp pod cp)
  | PInit mp pod cp =>
      match runInitContainers h (InitContainers (podSpec pod)) (mp_env mp) with
      | (h, Some c) => (set_host s h, PUndoPort pod (mp_hostPort mp) (InitFailed c))
      | (h, None) => (set_host s h, PStart mp pod cp)
      end
  | PStart mp pod cp =>
      if negb (registered (h_eng h) (mp_engineType mp))
      then (s, PUndoPort pod (mp_hostPort mp) (NoEngine (mp_engineType mp)))
      else
        match eng_Start (h_eng h) (h_files h) (mp_engineType mp) pod (mp_target mp) (mp_env mp)
                (mp_volumes mp) with
        | (wf, Some err) => (set_host s (set_eng h wf), PUndoPort pod (mp_hostPort mp) (EngineFailed err))
        | (wf, None) => (set_host s (set_eng h wf), PProxy mp pod cp)
        end
  | PUndoPort pod hostPort e => (set_host s (release_if h hostPort (pod_key_of pod)), PUndoVolumes pod e)
  | PUndoVolumes pod e =>
      (set_host s (set_files h (CleanupVolumes TempDir (h_files h) pod)), PUndoEntry pod e)
  | PUndoEntry pod e => (delete_entry s (pod_key_of pod), PDone pod (Err e))
  | PProxy mp pod cp =>
      let '(h, mp) := start_proxy h mp (mp_hostPort mp) cp in
      (update_mine (set_host s h) me (pod_key_of pod) mp, PReady mp pod)
  | PReady mp pod => (update_mine s me (pod_key_of pod) (set_ready mp true), PAnnounce pod)
  | PAnnounce pod =>
      match emit (o_watch ord) lm "ADDED" pod
              (default (podStatus pod) (LStatus lm h (Namespace (podMeta pod)) (Name (podMeta pod)))) with
      | Ok lm => (mkShared lm h (sh_who s), PDone pod (Ok tt))
      | Err e => (s, PDone pod (Err e))
      | Panic w => (s, PDone pod (Panic w))
      end
  | PDone pod r => (s, PDone pod r)
  end.

(** A launch that nothing interrupts; ten steps are always enough. *)
Fixpoint launch_run (fuel : nat) (ord : orders) (cfg : ConfigStore T) (engineType target : string)
    (env : list EnvVar) (me : nat) s pc : state * pc_t :=
  match fuel with
  | O => (s, pc)
  | S fuel =>
      let '(s, pc) := launch_step ord cfg engineType target env me s pc in
      launch_run fuel ord cfg engineType target env me s pc
  end.

Definition launch_fuel : nat := 10.

Lemma launch_run_done n ord cfg et tg env me s pod r :
  launch_run n ord cfg et tg env me s (PDone pod r) = (s, PDone pod r).
Proof. induction n as [|n IH]; [done|]. exact IH. Qed.

Lemma set_host_twice s h1 h2 : set_host (set_host s h1) h2 = set_host s h2.
Proof. done. Qed.

Lemma who_eq s me key mp : sh_who (store_entry s me key mp) !! key = Some me.
Proof. apply lookup_insert_eq. Qed.

(** The steps of a launch, run alone, are [Launch]: same manager, same host, same pod
    for the caller, same result, on every path. *)
Lemma run_is_Launch ord (cfg : ConfigStore T) et tg env me s pod :
  let '(s', pc) := launch_run launch_fuel ord cfg et tg env me s (PCheck pod) in
  exists pod' r, pc = PDone pod' r /\
    Launch TempDir NewLog ord cfg (sh_lm s) (sh_host s) pod et tg env =
      ((sh_lm s', sh_host s'), pod', r).
Proof.
  unfold Launch, launch_fuel. fold (pod_key_of pod). cbn [launch_run launch_step].
  destruct (lm_pods (sh_lm s) !! pod_key_of pod) eqn:Ek.
  { eexists _, _. split; [done|]. done. }
  cbn [launch_run launch_step].
  pose proof (allocate_port_spec (sh_host s) (pod_key_of pod) pod) as HA.
  destruct (allocate_port (sh_host s) (pod_key_of pod) pod) as [h1 [[port pod1]|e|x]]; [| |done].
  2: { eexists _, _. split; [done|]. done. }
  destruct HA as (Epod & _). destruct (with_port_same pod port) as [Em Es]. rewrite <- Epod in Em, Es.
  assert (Ekey : pod_key_of pod1 = pod_key_of pod) by (unfold pod_key_of; by rewrite Em).
  cbn [launch_run launch_step].
  destruct (container_port pod1) as [cp|e|x].
  2: { cbn. rewrite Ekey. eexists _, _. split; [done|]. done. }
  2: { eexists _, _. split; [done|]. done. }
  cbn [sh_host set_host].
  destruct (ProjectVolumes _ _ _ _ _) as [f [projected|e|x]].
  2: { cbn. rewrite Ekey. eexists _, _. split; [done|]. done. }
  2: { eexists _, _. split; [done|]. done. }
  set (mp := mkManagedPod _ _ _ _ _ _ _ _ _ _). cbn [launch_run launch_step].
  unfold run_pod. rewrite Ekey. cbn [sh_host store_entry set_host].
  destruct (runInitContainers _ _ _) as [h2 [c|]].
  { cbn. rewrite Ekey. eexists _, _. split; [done|]. done. }
  cbn [launch_run launch_step sh_host set_host].
  destruct (negb _).
  { cbn. rewrite Ekey. eexists _, _. split; [done|]. done. }
  destruct (eng_Start _ _ _ _ _ _ _) as [wf [err|]].
  { cbn. rewrite Ekey. eexists _, _. split; [done|]. done. }
  cbn [launch_run launch_step sh_host set_host].
  destruct (start_proxy _ _ _ _) as [h3 mp3]. rewrite Ekey.
  unfold update_mine. cbn [sh_who set_host store_entry].
  rewrite decide_True by apply lookup_insert_eq. cbn [launch_run launch_step].
  rewrite Ekey. unfold update_mine. cbn [sh_who sh_lm sh_host].
  rewrite decide_True by apply lookup_insert_eq. cbn [sh_lm sh_host sh_who lm_pods set_pods].
  unfold set_pods. cbn [lm_pods lm_watchers resourceVersion]. rewrite insert_insert_eq.
  cbn [sh_lm sh_host set_host store_entry set_pods lm_pods lm_watchers resourceVersion].
  rewrite ?insert_insert_eq.
  destruct (emit _ _ _ _ _) as [lm2|e|x]; eexists _, _; (split; [done|]); done.
Qed.
End Races.

(** ** Two launches of one pod *)

Section Orphan.
Context {F W N L T : Type} `{FS F} `{EngineLaws F W} `{TCP N}.
Context (TempDir : string) (NewLog : L).
Implicit Types (s : shared F W N L).

(** A workload that runs is not started again; [host_engines_refuse] proves it of the
    engines of the daemon. *)
Definition refuses_running : Prop :=
  forall w (f : F) et pod tg env vols,
    registered w et = true -> eng_Status w et (Name (podMeta pod)) = PodRunning ->
    exists err, eng_Start w f et pod tg env vols = ((w, f), Some err).

Lemma init_status (h : Host F W N) ics env h' r :
  runInitContainers h ics env = (h', r) ->
  (forall et, registered (h_eng h') et = registered (h_eng h) et) /\
  forall et n, eng_Status (h_eng h') et n = eng_Status (h_eng h) et n.
Proof.
  revert h. induction ics as [|ic ics IH]; intros h; cbn [runInitContainers].
  { by intros [= <- <-]. }
  destruct (cCommand ic) as [|prog args]; [apply IH|].
  destruct (run_init _ _ _ _ _) as [[w f] b] eqn:ER. apply init_frame in ER as [A B].
  destruct b; intros E; [|by injection E as <- <-].
  apply IH in E as [A' B']. simpl in *. split; intros *; [by rewrite A'|by rewrite B'].
Qed.

Lemma allocate_again (h : Host F W N) key pod :
  (has_ports pod = true -> exists q, allocated (h_pool h) !! key = Some q) ->
  exists h1 port, allocate_port h key pod = (h1, Ok (port, with_port pod port)) /\
    h_pool h1 = h_pool h /\ h_eng h1 = h_eng h /\
    (has_ports pod = true -> allocated (h_pool h) !! key = Some port).
Proof.
  intros Hl. unfold allocate_port. destruct (has_ports pod) eqn:Ep.
  - destruct (Hl eq_refl) as [q Hq]. unfold Allocate. rewrite Hq.
    eexists _, q. split; [reflexivity|]. done.
  - exists h, 0%Z. done.
Qed.

(** The three steps that undo a launch. *)
Lemma undo_run n ord (cfg : ConfigStore T) et tg env me s pod port e :
  (forall q, allocated (h_pool (sh_host s)) !! pod_key_of pod = Some q -> has_ports pod = true -> port = q /\ (0 < q)%Z) ->
  let '(s', pc) := launch_run TempDir NewLog (3 + n) ord cfg et tg env me s (PUndoPort pod port e) in
  pc = PDone pod (Err e) /\ lm_pods (sh_lm s') !! pod_key_of pod = None /\
  h_eng (sh_host s') = h_eng (sh_host s) /\
  (has_ports pod = true -> allocated (h_pool (sh_host s')) !! pod_key_of pod = None).
Proof.
  intros Hq. cbn [launch_run launch_step Nat.add]. rewrite launch_run_done.
  destruct (release_if_pool (sh_host s) port (pod_key_of pod)) as (_ & _ & Ee & Ep).
  split_and!; [done|apply lookup_delete_eq|exact Ee|]. intros Hports. simpl. rewrite Ep.
  destruct (allocated (h_pool (sh_host s)) !! pod_key_of pod) as [q|] eqn:El.
  - destruct (Hq q eq_refl Hports) as [-> Hpos]. destruct (Z.ltb_spec 0 q); [|lia].
    unfold Release. rewrite El. apply lookup_delete_eq.
  - case_match; [|done]. unfold Release. by rewrite El.
Qed.

Lemma has_ports_with_port pod port : has_ports (with_port pod port) = has_ports pod.
Proof. unfold has_ports. by rewrite (proj2 (with_port_same pod port)). Qed.

Lemma pod_key_with_port pod port : pod_key_of (with_port pod port) = pod_key_of pod.
Proof. unfold pod_key_of. by rewrite (proj1 (with_port_same pod port)). Qed.

(** What the loser of the race does, from the test it has passed. *)
Lemma loser_run ord (cfg : ConfigStore T) et tg env me s pod mp cp :
  refuses_running -> lm_pods (sh_lm s) !! pod_key_of pod = Some mp -> container_port pod = Ok cp ->
  registered (h_eng (sh_host s)) et = true ->
  eng_Status (h_eng (sh_host s)) et (Name (podMeta pod)) = PodRunning ->
  (has_ports pod = true -> exists q, (0 < q)%Z /\ allocated (h_pool (sh_host s)) !! pod_key_of pod = Some q) ->
  let '(s', pc) := launch_run TempDir NewLog launch_fuel ord cfg et tg env me s (PAllocate pod) in
  exists podB e, pc = PDone podB (Err e) /\
    eng_Status (h_eng (sh_host s')) et (Name (podMeta pod)) = PodRunning /\
    (has_ports pod = true -> allocated (h_pool (sh_host s')) !! pod_key_of pod = None) /\
    match e with
    | ProjectionFailed _ => lm_pods (sh_lm s') !! pod_key_of pod = Some mp
    | _ => lm_pods (sh_lm s') !! pod_key_of pod = None
    end.
Proof.
  intros Href Hmp Hcp Hreg Hrun Hl. unfold launch_fuel. cbn [launch_run launch_step].
  destruct (allocate_again (sh_host s) (pod_key_of pod) pod) as (h1 & port & -> & Ep1 & Ee1 & Hport).
  { intros Hp. destruct (Hl Hp) as (q & _ & ?). eauto. }
  assert (Hq : has_ports pod = true -> (0 < port)%Z /\ allocated (h_pool h1) !! pod_key_of pod = Some port).
  { intros Hp. destruct (Hl Hp) as (q & Hpos & Eq). rewrite Ep1. rewrite (Hport Hp) in Eq |- *.
    by injection Eq as ->. }
  destruct (with_port_same pod port) as [Em Es]. set (pod1 := with_port pod port) in *.
  assert (Ekey : pod_key_of pod1 = pod_key_of pod) by apply pod_key_with_port.
  assert (Ehp : has_ports pod1 = has_ports pod) by apply has_ports_with_port.
  assert (Ecp : container_port pod1 = Ok cp) by (unfold container_port; by rewrite Em).
  cbn [launch_run launch_step sh_host set_host]. rewrite Ecp.
  destruct (ProjectVolumes TempDir (o_data ord) (h_files h1) cfg pod1) as [f [projected|e|x]] eqn:EP.
  3: { by apply ProjectVolumes_no_panic in EP. }
  2: { cbn. eexists _, _. split; [done|]. rewrite Ekey.
       destruct (release_if_pool (set_files h1 f) port (pod_key_of pod)) as (_ & _ & -> & ->).
       split_and!; [by cbn; rewrite Ee1| |done]. intros Hp. destruct (Hq Hp) as [Hpos Ha].
       destruct (Z.ltb_spec 0 port); [|lia]. unfold Release. simpl. rewrite Ha. apply lookup_delete_eq. }
  set (mp1 := mkManagedPod _ _ _ _ _ _ _ _ _ _). cbn [launch_run launch_step sh_host set_host store_entry].
  destruct (runInitContainers _ _ _) as [h2 [c|]] eqn:EI;
    pose proof (init_status _ _ _ _ _ EI) as [Ir Is]; apply runInitContainers_host in EI as [Ip _];
    cbn [h_pool h_eng set_files] in Ir, Is, Ip.
  - pose proof (undo_run 2 ord cfg et tg env me
      (set_host (store_entry (set_host (set_host s h1) (set_files h1 f)) me (pod_key_of pod1) mp1) h2)
      pod1 port (InitFailed c)) as HU.
    cbn [Nat.add launch_run launch_step] in HU.
    rewrite Ekey, Ehp in HU. cbn [sh_host set_host] in HU.
    destruct HU as (_ & Hn & He & Ha).
    { intros q. rewrite Ip. intros Eq Hp. destruct (Hq Hp) as [? Ea]. split; congruence. }
    eexists _, _. split; [done|]. rewrite ?Ekey, ?Ehp in *. split_and!; [|exact Ha|exact Hn].
    transitivity (eng_Status (h_eng h2) et (Name (podMeta pod)));
      [exact (f_equal (fun w => eng_Status w et _) He)|by rewrite Is, Ee1].
  - cbn [launch_run launch_step sh_host set_host]. cbn [mp_engineType mp1]. rewrite Ir, Ee1, Hreg.
    cbn [negb].
    destruct (Href (h_eng h2) (h_files h2) et pod1 tg (mp_env mp1) projected) as [err Est].
    { by rewrite Ir, Ee1. } { by rewrite Em, Is, Ee1. }
    cbn [mp_target mp_env mp_volumes mp1] in Est |- *. rewrite Est.
    cbn [launch_run launch_step].
    pose proof (undo_run 1 ord cfg et tg env me
      (set_host (set_host (store_entry (set_host (set_host s h1) (set_files h1 f)) me (pod_key_of pod1) mp1) h2)
        (set_eng h2 (h_eng h2, h_files h2))) pod1 port (EngineFailed err)) as HU.
    cbn [Nat.add launch_run launch_step] in HU.
    rewrite Ekey, Ehp in HU. cbn [sh_host set_host set_eng h_pool h_eng] in HU.
    destruct HU as (_ & Hn & He & Ha).
    { intros q. rewrite Ip. intros Eq Hp. destruct (Hq Hp) as [? Ea]. split; congruence. }
    eexists _, _. split; [done|]. rewrite ?Ekey, ?Ehp in *. split_and!; [|exact Ha|exact Hn].
    transitivity (eng_Status (h_eng h2) et (Name (podMeta pod)));
      [exact (f_equal (fun w => eng_Status w et _) He)|by rewrite Is, Ee1].
Qed.

Lemma Launch_container_port ord (cfg : ConfigStore T) lm (h : Host F W N) pod et tg env out pod' :
  Launch TempDir NewLog ord cfg lm h pod et tg env = (out, pod', Ok tt) ->
  exists cp, container_port pod = Ok cp.
Proof.
  unfold Launch. destruct (lm_pods lm !! _); [done|].
  pose proof (allocate_port_spec h (podKey (Namespace (podMeta pod)) (Name (podMeta pod))) pod) as HA.
  destruct (allocate_port _ _ pod) as [h1 [[port pod1]|e|x]]; [|done..].
  destruct HA as (-> & _).
  unfold container_port. rewrite (proj1 (with_port_same pod port)).
  destruct (go_get _ _) as [v|]; [destruct (Atoi v); [eauto|done]|eauto].
Qed.

(** C40. Two launches of one pod race: the second tests for a managed pod before the first
    has stored it, and goes on when the first has succeeded.  It is told so with an
    error, but the clean-up of that error is of what the first launch made: the lease
    of the host port is given back and the pod is taken out of the manager, while its
    workload keeps running.  (If the volumes fail, only the lease is lost.) *)
Theorem racing_launches_orphan ord ord' (cfg : ConfigStore T) et tg env s pod sA podA :
  refuses_running ->
  launch_run TempDir NewLog launch_fuel ord cfg et tg env 1 s (PCheck pod) = (sA, PDone podA (Ok tt)) ->
  (has_ports pod = true -> exists q, (0 < q)%Z /\ allocated (h_pool (sh_host sA)) !! pod_key_of pod = Some q) ->
  launch_step TempDir NewLog ord' cfg et tg env 2 s (PCheck pod) = (s, PAllocate pod) /\
  exists mp, lm_pods (sh_lm sA) !! pod_key_of pod = Some mp /\
  let '(sB, pc) := launch_run TempDir NewLog launch_fuel ord' cfg et tg env 2 sA (PAllocate pod) in
  exists podB e, pc = PDone podB (Err e) /\
    eng_Status (h_eng (sh_host sB)) et (Name (podMeta pod)) = PodRunning /\
    (has_ports pod = true -> allocated (h_pool (sh_host sB)) !! pod_key_of pod = None) /\
    match e with
    | ProjectionFailed _ => lm_pods (sh_lm sB) !! pod_key_of pod = Some mp
    | _ => lm_pods (sh_lm sB) !! pod_key_of pod = None
    end.
Proof.
  intros Href HA Hl. pose proof (run_is_Launch TempDir NewLog ord cfg et tg env 1 s pod) as HE.
  rewrite HA in HE. destruct HE as (pod' & r & [= <- <-] & EL).
  destruct (Launch_container_port _ _ _ _ _ _ _ _ _ _ EL) as [cp Hcp].
  destruct (Launch_engines TempDir NewLog _ _ _ _ _ _ _ _ _ _ _ EL) as (mp & Hn & Hm & _ & Hreg & Hrun & _).
  fold (pod_key_of pod) in Hn, Hm. split.
  - cbn [launch_step]. by rewrite Hn.
  - exists mp. rewrite Hm, lookup_insert_eq. split; [done|].
    apply (loser_run ord' cfg et tg env 2 sA pod mp cp); try done. by rewrite Hm, lookup_insert_eq.
Qed.
End Orphan.

(** The engines of the daemon refuse a name that runs. *)
Lemma already_running_status procs name :
  already_running procs name = String.eqb (Engine.Status procs name) PodRunning.
Proof. unfold already_running, Engine.Status. by destruct (procs !! name). Qed.

Lemma host_engines_refuse {F OS : Type} `{FS F} `{Exec OS} `{RunCommand F OS} `{UnicodeCase}
    `{EngineTexts} (depth : nat) :
  refuses_running (F := F) (W := EngineWorld OS) (H0 := host_engines depth).
Proof.
  intros w f et pod tg env vols. simpl. unfold ew_Start, ew_Status.
  destruct (RegistryGet (ew_registry w) et) as [[]|] eqn:Er; [| |done]; intros _ Hrun.
  - unfold NativeStart, native_spawn. cbn [nw_files nw_os nw_procs]. destruct w as [reg os nat wasm]; simpl in *.
    destruct (resolveExecutable f os tg) as [path|e|x]; [|eauto..].
    rewrite already_running_status, Hrun. eauto.
  - unfold WasmStart, wasm_test, WasmStatus in *. destruct w as [reg os nat wasm]; simpl in *.
    destruct (ReadFile f tg); [|eauto]. rewrite already_running_status, Hrun. eauto.
Qed.

(** ** Two starts of one name

    [NativeEngine.Start] tests the table under a read lock, spawns the process, and
    records it under a write lock. *)

Section Starts.
Context {F : Type} `{FS F} {OS : Type} `{Exec OS} `{UnicodeCase}.
Context (depth : nat).
Implicit Types w : NativeWorld F OS.

(** Two starts of one name that both pass the test (two namespaces may use the name)
    both spawn a process, and the table knows the second alone: [Stop] never kills
    the first, and when the first ends, the name is reported as ended although the
    second runs and may then be started a third time. *)
Theorem racing_starts_lose_one w pod1 pod2 tg1 tg2 env1 env2 vols1 vols2 w1 w2 pid1 pid2 err :
  let name := Name (podMeta pod1) in
  Name (podMeta pod2) = name ->
  native_spawn depth w pod1 tg1 env1 vols1 = (w1, Ok pid1) ->
  native_spawn depth w1 pod2 tg2 env2 vols2 = (w2, Ok pid2) ->
  let w' := native_record (native_record w2 name pid1) name pid2 in
  nw_procs w' = <[name := mkProc pid2 PodRunning]> (nw_procs w) /\
  NativeStop w' name = (mkNativeWorld (nw_files w') (Kill (nw_os w') pid2) (nw_procs w'), Ok tt) /\
  NativeStatus (NativeExit w' name err) name = exit_phase err /\
  already_running (nw_procs (NativeExit w' name err)) name = false.
Proof.
  intros name En E1 E2 w'. apply native_spawn_procs in E1 as [E1 _], E2 as [E2 _].
  assert (Ep : nw_procs w' = <[name := mkProc pid2 PodRunning]> (nw_procs w)).
  { unfold w', native_record, record_start; simpl. by rewrite insert_insert_eq, E2, E1. }
  unfold NativeStop, NativeExit, NativeStatus, Engine.Status, already_running, record_exit.
  cbn [nw_procs]. rewrite Ep, !lookup_insert_eq. cbn [pr_phase].
  split_and!; [done|done|done|]. simpl. by destruct err.
Qed.
End Starts.

(** ** A host to run *)

#[local] Instance quiet_commands : RunCommand memfiles Z := { RunToEnd os f _ _ _ := ((os, f), true) }.
#[local] Instance ascii_case : UnicodeCase := { unicode_upper s := s; unicode_lower s := s }.
#[local] Instance engine_texts : EngineTexts := {
  engine_error_text e := match e with AlreadyRunning n => "pod already running: " +:+ n | _ => "failed" end }.
#[local] Instance ex_engines : PodEngines memfiles (EngineWorld Z) := host_engines 3.
#[local] Instance ex_engines_laws : EngineLaws memfiles (EngineWorld Z) := host_engines_laws 3.

Definition ex_shared : shared memfiles (EngineWorld Z) (gset Z) unit :=
  mkShared NewLifecycleManager (mkHost (NewPortPool 30000 30010) ∅ [] (new_engine_world 100%Z)) ∅.
Definition ex_run (me : nat) (s : shared memfiles (EngineWorld Z) (gset Z) unit) (pc : launch_pc unit) :=
  launch_run "/tmp" tt launch_fuel ex_orders ex_cfg "native" "web" [] me s pc.

Lemma racing_launches_orphan_witness :
  let pod := ex_lpod "default" [] in
  let sA := (ex_run 1 ex_shared (PCheck pod)).1 in
  let '(sB, pc) := ex_run 2 sA (PAllocate pod) in
  (exists podB, pc = PDone podB (Err (EngineFailed "pod already running: web"))) /\
  lm_pods (sh_lm sB) !! "default/web" = None /\
  allocated (h_pool (sh_host sB)) !! "default/web" = None /\
  eng_Status (h_eng (sh_host sB)) "native" "web" = PodRunning.
Proof.
  intros pod sA.
  assert (Eo : exists podA, (ex_run 1 ex_shared (PCheck pod)).2 = PDone podA (Ok tt))
    by (vm_compute; eexists; reflexivity).
  destruct Eo as [podA Eo].
  assert (EA : ex_run 1 ex_shared (PCheck pod) = (sA, PDone podA (Ok tt)))
    by (unfold sA; rewrite <- Eo; apply surjective_pairing).
  assert (Hl : has_ports pod = true -> exists q, (0 < q)%Z /\
    allocated (h_pool (sh_host sA)) !! pod_key_of pod = Some q).
  { intros _. exists 30000%Z. split; [done|]. vm_compute. reflexivity. }
  unfold ex_run, ex_engines in EA.
  destruct (racing_launches_orphan "/tmp" tt ex_orders ex_orders ex_cfg "native" "web" [] ex_shared pod sA podA
    (host_engines_refuse 3) EA Hl) as (_ & mp & _ & HR).
  change (launch_run _ _ _ _ _ _ _ _ _ _ _) with (ex_run 2 sA (PAllocate pod)) in HR.
  assert (Ee : exists podB, (ex_run 2 sA (PAllocate pod)).2 = PDone podB (Err (EngineFailed "pod already running: web")))
    by (vm_compute; eexists; reflexivity).
  destruct Ee as [podB Ee]. destruct (ex_run 2 sA (PAllocate pod)) as [sB pc]. simpl in Ee. subst pc.
  destruct HR as (podB' & e & [= <- <-] & Hrun & Ha & Hn).
  split_and!; [by exists podB|exact Hn|by apply Ha|exact Hrun].
Defined.

Lemma racing_starts_lose_one_witness :
  let w := mkNativeWorld ([] : memfiles) 100%Z ∅ in
  let '(w1, r1) := native_spawn 3 w (ex_lpod "a" []) "web" [] ∅ in
  let '(w2, r2) := native_spawn 3 w1 (ex_lpod "b" []) "web" [] ∅ in
  r1 = Ok 100%Z /\ r2 = Ok 101%Z /\
  NativeStatus (NativeExit (native_record (native_record w2 "web" 100) "web" 101) "web" false) "web" = PodSucceeded.
Proof.
  intros w. destruct (native_spawn 3 w (ex_lpod "a" []) "web" [] ∅) as [w1 r1] eqn:E1.
  destruct (native_spawn 3 w1 (ex_lpod "b" []) "web" [] ∅) as [w2 r2] eqn:E2.
  pose proof E1 as E1'. vm_compute in E1'. injection E1' as <- <-.
  pose proof E2 as E2'. vm_compute in E2'. injection E2' as <- <-.
  split; [done|]. split; [done|].
  exact (proj1 (proj2 (proj2 (racing_starts_lose_one 3 w (ex_lpod "a" []) (ex_lpod "b" []) "web" "web" [] [] ∅ ∅
    _ _ 100 101 false eq_refl E1 E2)))).
Defined.
