(* ===== verification/Handlers.v ===== *)
(** * The HTTP handlers (src/api/handler.go, src/api/deployment_handler.go)

    A handler takes the state of the server and a request to a new state and a
    reply.  Requests and replies carry what the code reads and writes; headers and
    the encoding of the body as JSON are left to [net/http] and [encoding/json]. *)

From S2P Require Import Prelude Types GoStrings Selector Store Stores PortPool Hub SvcProxy Path Volume Lifecycle Manifest Deployment Table Server.

(** [rq_body] is [None] when the body cannot be read; [rq_query] is [Query().Get];
    [rq_stream] tells whether the connection can be flushed. *)
Record Request := mkRequest {
  rq_ns : string;
  rq_name : string;
  rq_body : option bytes;
  rq_query : string -> string;
  rq_accept : string;
  rq_stream : bool;
}.

Inductive api_object :=
| OPod (p : Pod) | OService (s : Service) | OConfigMap (c : ConfigMap) | OSecret (s : Secret)
| ODeployment (d : Deployment) | OReplicaSet (r : ReplicaSet).

(** What a list handler encodes. *)
Inductive api_list :=
| LPods (l : PodList) | LServices (l : ServiceList) | LConfigMaps (l : ConfigMapList) | LSecrets (l : SecretList)
| LDeployments (l : DeploymentList) | LReplicaSets (l : ReplicaSetList).

Inductive reply :=
| Failure (code : Z) (message : string)
| Success (message : string)
| Object (code : Z) (o : api_object)
| Items (l : api_list)
| AsTable (t : Table)
| LogText (text : bytes) (follow : bool)
| Stream (id : Z)
| PlainError (code : Z) (message : string).

Definition StatusOK : Z := 200.
Definition StatusCreated : Z := 201.
Definition StatusBadRequest : Z := 400.
Definition StatusNotFound : Z := 404.
Definition StatusUnprocessableEntity : Z := 422.
Definition StatusInternalServerError : Z := 500.

(** The text of the error of [json.Unmarshal] on a body. *)
Class JsonTexts := { json_error_text : bytes -> string }.

(** The metadata a create handler sets. *)
Definition created_meta (now : Time) (uuid ns : string) (m : ObjectMeta) : ObjectMeta :=
  mkObjectMeta (Name m) (if String.eqb (Namespace m) "" then ns else Namespace m) uuid
    (Annotations m) (Labels m) now (ResourceVersion m).

(** [q.Get("watch") == "true" || q.Get("watch") == "1"] *)
Definition wants_watch (r : Request) : bool :=
  String.eqb (rq_query r "watch") "true" || String.eqb (rq_query r "watch") "1".

Definition wants_table (r : Request) : bool := Contains (rq_accept r) "as=Table".

Section Handlers.
Context {F W N L T : Type} `{FS F} `{PodEngines F W} `{TCP N} `{Bolt T}.
Context `{Codec Pod, Codec Service, Codec ConfigMap, Codec Secret, Codec Deployment, Codec ReplicaSet}.
Context `{Decoder Pod, Decoder Service, Decoder ConfigMap, Decoder Secret}.
Context `{Texts} `{JsonTexts} `{UnicodeCase}.
Context (TempDir : string) (NewLog : L).
Context (ReadAll : L -> bytes) (TailLines : L -> Z -> bytes).
Abbreviation server := (Server F W N L T).
Implicit Types (sv : server) (r : Request) (d : env_draw).

(** A handler may also panic, which [net/http] recovers per connection. *)
Abbreviation outcome := (server * res launch_error reply)%type.

Definition ok sv (rp : reply) : outcome := (sv, Ok rp).

(** ** Pods *)

Definition handleCreatePod d sv r : outcome :=
  match rq_body r with
  | None => ok sv (Failure StatusBadRequest "failed to read request body")
  | Some body =>
      match Parse body with
      | Err e => ok sv (Failure StatusUnprocessableEntity (manifest_error_text e))
      | Panic w => (sv, Panic w)
      | Ok pod =>
          let pod := mkPod (mkTypeMeta "v1" "Pod")
            (created_meta (d_now d) (d_uuid d) (rq_ns r) (podMeta pod)) (podSpec pod) (podStatus pod) in
          match ExtractEngineConfig (h_files (sv_host sv)) pod with
          | Err e => ok sv (Failure StatusUnprocessableEntity (manifest_error_text e))
          | Panic w => (sv, Panic w)
          | Ok (engineType, target) =>
              match launch_and_store TempDir NewLog d sv pod engineType target
                      (pod_env d sv (rq_ns r) pod) with
              | (sv, pod, Ok _) => ok sv (Object StatusCreated (OPod pod))
              | (sv, pod, Err e) => ok sv (Failure StatusInternalServerError (launch_error_text e))
              | (sv, pod, Panic w) => (sv, Panic w)
              end
          end
      end
  end.

Definition handleGetPod sv r : outcome :=
  match loadPod sv (rq_ns r) (rq_name r) with
  | None => ok sv (Failure StatusNotFound "pod not found")
  | Some pod =>
      match LStatus (sv_lm sv) (sv_host sv) (rq_ns r) (rq_name r) with
      | Some status =>
          let pod := set_podStatus pod status in ok (storePod sv pod) (Object StatusOK (OPod pod))
      | None => ok sv (Object StatusOK (OPod pod))
      end
  end.

(** The loop over the pods of the namespace: status first, then the selectors. *)
Definition filtered_pods (o : shuffle Pod) sv r : list Pod :=
  List.filter (fun pod => MatchPod pod (rq_query r "labelSelector") (rq_query r "fieldSelector"))
    (refresh_status sv <$> allPods o sv (rq_ns r)).

Definition handleWatchPods sv r : outcome :=
  let '(lm, id) := Watch (sv_lm sv) in
  let sv := set_sv_lm sv (lm, sv_host sv) in
  if rq_stream r then ok sv (Stream id)
  else ok sv (Failure StatusInternalServerError "streaming not supported").

(** The events the watch passes on. *)
Definition watch_passes r (ev : WatchEvent) : bool :=
  (String.eqb (rq_ns r) "" || String.eqb (Namespace (podMeta (weObject ev))) (rq_ns r)) &&
  MatchPod (weObject ev) (rq_query r "labelSelector") (rq_query r "fieldSelector").

Definition handleListPods (now : Time) (o : shuffle Pod) sv r : outcome :=
  if wants_watch r then handleWatchPods sv r
  else
    let pods := filtered_pods o sv r in
    if wants_table r then ok sv (AsTable (ConvertPodsToTable now pods))
    else ok sv (Items (LPods (mkPodList (mkTypeMeta "v1" "PodList") pods))).

Definition handleDeletePod (o : shuffle Z) sv r : outcome :=
  match loadPod sv (rq_ns r) (rq_name r) with
  | None => ok sv (Failure StatusNotFound "pod not found")
  | Some _ =>
      match terminate TempDir o sv (rq_ns r) (rq_name r) with
      | (sv, Ok _) => ok (deletePod sv (rq_ns r) (rq_name r)) (Success "pod deleted")
      | (sv, Err e) => (sv, Err e)
      | (sv, Panic w) => (sv, Panic w)
      end
  end.

(** The number of lines asked for; [None] when the parameter is not one. *)
Definition tail_lines r : option Z :=
  if String.eqb (rq_query r "tailLines") "" then Some 0%Z
  else match Atoi (rq_query r "tailLines") with
       | Some n => if (n <? 0)%Z then None else Some n
       | None => None
       end.

Definition handleGetPodLogs sv r : outcome :=
  match loadPod sv (rq_ns r) (rq_name r) with
  | None => ok sv (Failure StatusNotFound "pod not found")
  | Some _ =>
      match Logs (sv_lm sv) (rq_ns r) (rq_name r) with
      | None => ok sv (Failure StatusNotFound "pod logs not found or not running")
      | Some rb =>
          match tail_lines r with
          | None => ok sv (Failure StatusBadRequest "invalid tailLines parameter")
          | Some n =>
              let follow := String.eqb (rq_query r "follow") "true" in
              if follow && negb (rq_stream r)
              then ok sv (PlainError StatusInternalServerError "Streaming unsupported!")
              else ok sv (LogText (if (0 <? n)%Z then TailLines rb n else ReadAll rb) follow)
          end
      end
  end.

(** ** Services *)

(** [svc.Spec.Ports[0].NodePort = port], and [Port] if it was 0. *)
Definition set_node_port (s : Service) (port : Z) : Service :=
  match svcPorts (svcSpec s) with
  | [] => s
  | p :: ps =>
      mkService (svcType s) (svcMeta s)
        (mkServiceSpec (mkServicePort (spName p) (spProtocol p)
           (if (spPort p =? 0)%Z then port else spPort p) (spTargetPort p) port :: ps)
           (svcSelector (svcSpec s)) (svcSpecType (svcSpec s)))
        (svcStatus s)
  end.

Definition handleCreateService d sv r : outcome :=
  match rq_body r with
  | None => ok sv (Failure StatusBadRequest "failed to read request body")
  | Some body =>
      match ParseService body with
      | Err e => ok sv (Failure StatusUnprocessableEntity (manifest_error_text e))
      | Panic w => (sv, Panic w)
      | Ok s =>
          let s := mkService (mkTypeMeta "v1" "Service")
            (created_meta (d_now d) (d_uuid d) (rq_ns r) (svcMeta s)) (svcSpec s) (svcStatus s) in
          match StartProxy (proxy_manager sv) s with
          | (pm, Err e) =>
              ok (set_proxy_manager sv pm) (Failure StatusInternalServerError
                ("failed to start service proxy: " +:+ proxy_error_text e))
          | (pm, Panic w) => (set_proxy_manager sv pm, Panic w)
          | (pm, Ok port) =>
              let s := set_node_port s port in
              let sv := set_proxy_manager sv pm in
              ok (set_sv_services sv (StoreService (sv_services sv) s)) (Object StatusCreated (OService s))
          end
      end
  end.

Definition handleListServices (now : Time) (o : shuffle Service) sv r : outcome :=
  let svcs := List.filter
    (fun s => MatchService s (rq_query r "labelSelector") (rq_query r "fieldSelector"))
    (ListServices o (sv_services sv) (rq_ns r)) in
  if wants_table r then ok sv (AsTable (ConvertServicesToTable now svcs))
  else ok sv (Items (LServices (mkServiceList (mkTypeMeta "v1" "ServiceList") svcs))).

Definition handleGetService sv r : outcome :=
  match LoadService (sv_services sv) (rq_ns r) (rq_name r) with
  | None => ok sv (Failure StatusNotFound "service not found")
  | Some s => ok sv (Object StatusOK (OService s))
  end.

Definition handleDeleteService sv r : outcome :=
  match LoadService (sv_services sv) (rq_ns r) (rq_name r) with
  | None => ok sv (Failure StatusNotFound "service not found")
  | Some _ =>
      let sv := set_proxy_manager sv (StopProxy (proxy_manager sv) (rq_ns r) (rq_name r)) in
      ok (set_sv_services sv (DeleteService (sv_services sv) (rq_ns r) (rq_name r)))
        (Success "service deleted")
  end.

(** ** Config maps *)

Definition handleCreateConfigMap d sv r : outcome :=
  match rq_body r with
  | None => ok sv (Failure StatusBadRequest "failed to read request body")
  | Some body =>
      match ParseConfigMap body with
      | Err e => ok sv (Failure StatusUnprocessableEntity (manifest_error_text e))
      | Panic w => (sv, Panic w)
      | Ok cm =>
          let cm := mkConfigMap (mkTypeMeta "v1" "ConfigMap")
            (created_meta (d_now d) (d_uuid d) (rq_ns r) (cmMeta cm)) (cmData cm) in
          ok (set_sv_config sv (StoreConfigMap (sv_config sv) cm)) (Object StatusCreated (OConfigMap cm))
      end
  end.

Definition handleListConfigMaps (now : Time) (o : shuffle ConfigMap) sv r : outcome :=
  let cms := List.filter
    (fun cm => MatchConfigMap cm (rq_query r "labelSelector") (rq_query r "fieldSelector"))
    (ListConfigMaps o (sv_config sv) (rq_ns r)) in
  if wants_table r then ok sv (AsTable (ConvertConfigMapsToTable now cms))
  else ok sv (Items (LConfigMaps (mkConfigMapList (mkTypeMeta "v1" "ConfigMapList") cms))).

Definition handleGetConfigMap sv r : outcome :=
  match LoadConfigMap (sv_config sv) (rq_ns r) (rq_name r) with
  | None => ok sv (Failure StatusNotFound "configmap not found")
  | Some cm => ok sv (Object StatusOK (OConfigMap cm))
  end.

Definition handleDeleteConfigMap sv r : outcome :=
  match LoadConfigMap (sv_config sv) (rq_ns r) (rq_name r) with
  | None => ok sv (Failure StatusNotFound "configmap not found")
  | Some _ => ok (set_sv_config sv (DeleteConfigMap (sv_config sv) (rq_ns r) (rq_name r)))
                (Success "configmap deleted")
  end.

(** ** Secrets *)

(** The reply is the caller's secret after [StoreSecret], whose [Data] map it may
    have filled. *)
Definition handleCreateSecret d sv r : outcome :=
  match rq_body r with
  | None => ok sv (Failure StatusBadRequest "failed to read request body")
  | Some body =>
      match ParseSecret body with
      | Err e => ok sv (Failure StatusUnprocessableEntity (manifest_error_text e))
      | Panic w => (sv, Panic w)
      | Ok sec =>
          let sec := mkSecret (mkTypeMeta "v1" "Secret")
            (created_meta (d_now d) (d_uuid d) (rq_ns r) (secMeta sec)) (secData sec)
            (secStringData sec) (secType sec) in
          let '(cfg, sec) := StoreSecret (sv_config sv) sec in
          ok (set_sv_config sv cfg) (Object StatusCreated (OSecret sec))
      end
  end.

Definition handleListSecrets (now : Time) (o : shuffle Secret) sv r : outcome :=
  let secs := List.filter
    (fun sec => MatchSecret sec (rq_query r "labelSelector") (rq_query r "fieldSelector"))
    (ListSecrets o (sv_config sv) (rq_ns r)) in
  if wants_table r then ok sv (AsTable (ConvertSecretsToTable now secs))
  else ok sv (Items (LSecrets (mkSecretList (mkTypeMeta "v1" "SecretList") secs))).

Definition handleGetSecret sv r : outcome :=
  match LoadSecret (sv_config sv) (rq_ns r) (rq_name r) with
  | None => ok sv (Failure StatusNotFound "secret not found")
  | Some sec => ok sv (Object StatusOK (OSecret sec))
  end.

Definition handleDeleteSecret sv r : outcome :=
  match LoadSecret (sv_config sv) (rq_ns r) (rq_name r) with
  | None => ok sv (Failure StatusNotFound "secret not found")
  | Some _ => ok (set_sv_config sv (DeleteSecret (sv_config sv) (rq_ns r) (rq_name r)))
                (Success "secret deleted")
  end.

(** ** Deployments *)

Definition handleCreateDeployment d sv r : outcome :=
  match rq_body r with
  | None => ok sv (Failure StatusBadRequest "failed to read request body")
  | Some body =>
      match unmarshal (A := Deployment) body with
      | None => ok sv (Failure StatusBadRequest ("invalid deployment json: " +:+ json_error_text body))
      | Some dep =>
          let dep := mkDeployment (mkTypeMeta "apps/v1" "Deployment")
            (created_meta (d_now d) (d_uuid d) (rq_ns r) (depMeta dep)) (depSpec dep) (depStatus dep) in
          ok (set_sv_ctl sv (StoreDeployment (sv_ctl sv) dep)) (Object StatusCreated (ODeployment dep))
      end
  end.

Definition match_meta r (m : ObjectMeta) : bool :=
  MatchMetadataFields (Name m) (Namespace m) (rq_query r "fieldSelector") &&
  Selector.MatchLabels (Labels m) (rq_query r "labelSelector").

Definition handleListDeployments (now : Time) (o : shuffle Deployment) sv r : outcome :=
  let deps := List.filter (fun dep => match_meta r (depMeta dep))
    (ListDeployments o (sv_ctl sv) (rq_ns r)) in
  if wants_table r then ok sv (AsTable (ConvertDeploymentsToTable now deps))
  else ok sv (Items (LDeployments (mkDeploymentList (mkTypeMeta "apps/v1" "DeploymentList") deps))).

Definition handleGetDeployment sv r : outcome :=
  match LoadDeployment (sv_ctl sv) (rq_ns r) (rq_name r) with
  | None => ok sv (Failure StatusNotFound "deployment not found")
  | Some dep => ok sv (Object StatusOK (ODeployment dep))
  end.

(** The metadata an update keeps and replaces. *)
Definition updated_meta (uuid : string) (existing new : ObjectMeta) : ObjectMeta :=
  mkObjectMeta (Name existing) (Namespace existing) (UID existing) (Annotations new) (Labels new)
    (CreationTimestamp existing) uuid.

Definition handleUpdateDeployment d sv r : outcome :=
  match rq_body r with
  | None => ok sv (Failure StatusBadRequest "failed to read body")
  | Some body =>
      match unmarshal (A := Deployment) body with
      | None => ok sv (Failure StatusBadRequest ("invalid deployment json: " +:+ json_error_text body))
      | Some dep =>
          match LoadDeployment (sv_ctl sv) (rq_ns r) (rq_name r) with
          | None => ok sv (Failure StatusNotFound "deployment not found")
          | Some existing =>
              let existing := mkDeployment (depType existing)
                (updated_meta (d_uuid d) (depMeta existing) (depMeta dep)) (depSpec dep)
                (depStatus existing) in
              ok (set_sv_ctl sv (StoreDeployment (sv_ctl sv) existing))
                (Object StatusOK (ODeployment existing))
          end
      end
  end.

(** [cascadeDeleteReplicaSet]: each pod is terminated, then deleted ([DeletePod]
    terminates it again, which finds nothing). *)
Fixpoint cascade_pods (o : shuffle Z) sv (owner : string) (pods : list Pod)
    : server * res launch_error unit :=
  match pods with
  | [] => (sv, Ok tt)
  | pod :: rest =>
      if annotated (Annotations (podMeta pod)) owner_annotation owner then
        match terminate TempDir o sv (Namespace (podMeta pod)) (Name (podMeta pod)) with
        | (sv, Ok _) =>
            match SDeletePod TempDir o sv (Namespace (podMeta pod)) (Name (podMeta pod)) with
            | (sv, Ok _) => cascade_pods o sv owner rest
            | r => r
            end
        | r => r
        end
      else cascade_pods o sv owner rest
  end.

Definition cascadeDeleteReplicaSet (o : shuffle Z) (op : shuffle Pod) sv (rs : ReplicaSet)
    : server * res launch_error unit :=
  match cascade_pods o sv ("ReplicaSet/" +:+ Name (rsMeta rs)) (allPods op sv (Namespace (rsMeta rs))) with
  | (sv, Ok _) =>
      (set_sv_ctl sv (DeleteReplicaSet (sv_ctl sv) (Namespace (rsMeta rs)) (Name (rsMeta rs))), Ok tt)
  | r => r
  end.

Fixpoint cascade_sets (o : shuffle Z) (op : ReplicaSet -> shuffle Pod) sv (owner : string)
    (rss : list ReplicaSet) : server * res launch_error unit :=
  match rss with
  | [] => (sv, Ok tt)
  | rs :: rest =>
      if annotated (Annotations (rsMeta rs)) owner_annotation owner then
        match cascadeDeleteReplicaSet o (op rs) sv rs with
        | (sv, Ok _) => cascade_sets o op sv owner rest
        | r => r
        end
      else cascade_sets o op sv owner rest
  end.

Definition handleDeleteDeployment (o : shuffle Z) (ors : shuffle ReplicaSet)
    (op : ReplicaSet -> shuffle Pod) sv r : outcome :=
  match LoadDeployment (sv_ctl sv) (rq_ns r) (rq_name r) with
  | None => ok sv (Failure StatusNotFound "deployment not found")
  | Some _ =>
      match cascade_sets o op sv ("Deployment/" +:+ rq_name r) (ListReplicaSets ors (sv_ctl sv) (rq_ns r)) with
      | (sv, Ok _) =>
          ok (set_sv_ctl sv (DeleteDeployment (sv_ctl sv) (rq_ns r) (rq_name r)))
            (Success "deployment deleted")
      | (sv, Err e) => (sv, Err e)
      | (sv, Panic w) => (sv, Panic w)
      end
  end.

(** ** Replica sets *)

Definition handleCreateReplicaSet d sv r : outcome :=
  match rq_body r with
  | None => ok sv (Failure StatusBadRequest "failed to read request body")
  | Some body =>
      match unmarshal (A := ReplicaSet) body with
      | None => ok sv (Failure StatusBadRequest ("invalid replicaset json: " +:+ json_error_text body))
      | Some rs =>
          let rs := mkReplicaSet (mkTypeMeta "apps/v1" "ReplicaSet")
            (created_meta (d_now d) (d_uuid d) (rq_ns r) (rsMeta rs)) (rsSpec rs) (rsStatus rs) in
          ok (set_sv_ctl sv (StoreReplicaSet (sv_ctl sv) rs)) (Object StatusCreated (OReplicaSet rs))
      end
  end.

Definition handleListReplicaSets (now : Time) (o : shuffle ReplicaSet) sv r : outcome :=
  let rss := List.filter (fun rs => match_meta r (rsMeta rs))
    (ListReplicaSets o (sv_ctl sv) (rq_ns r)) in
  if wants_table r then ok sv (AsTable (ConvertReplicaSetsToTable now rss))
  else ok sv (Items (LReplicaSets (mkReplicaSetList (mkTypeMeta "apps/v1" "ReplicaSetList") rss))).

Definition handleGetReplicaSet sv r : outcome :=
  match LoadReplicaSet (sv_ctl sv) (rq_ns r) (rq_name r) with
  | None => ok sv (Failure StatusNotFound "replicaset not found")
  | Some rs => ok sv (Object StatusOK (OReplicaSet rs))
  end.

Definition handleUpdateReplicaSet d sv r : outcome :=
  match rq_body r with
  | None => ok sv (Failure StatusBadRequest "failed to read body")
  | Some body =>
      match unmarshal (A := ReplicaSet) body with
      | None => ok sv (Failure StatusBadRequest ("invalid replicaset json: " +:+ json_error_text body))
      | Some rs =>
          match LoadReplicaSet (sv_ctl sv) (rq_ns r) (rq_name r) with
          | None => ok sv (Failure StatusNotFound "replicaset not found")
          | Some existing =>
              let existing := mkReplicaSet (rsType existing)
                (updated_meta (d_uuid d) (rsMeta existing) (rsMeta rs)) (rsSpec rs)
                (rsStatus existing) in
              ok (set_sv_ctl sv (StoreReplicaSet (sv_ctl sv) existing))
                (Object StatusOK (OReplicaSet existing))
          end
      end
  end.

Definition handleDeleteReplicaSet (o : shuffle Z) (op : shuffle Pod) sv r : outcome :=
  match LoadReplicaSet (sv_ctl sv) (rq_ns r) (rq_name r) with
  | None => ok sv (Failure StatusNotFound "replicaset not found")
  | Some rs =>
      match cascadeDeleteReplicaSet o op sv rs with
      | (sv, Ok _) => ok sv (Success "replicaset deleted")
      | (sv, Err e) => (sv, Err e)
      | (sv, Panic w) => (sv, Panic w)
      end
  end.
End Handlers.

