(* ===== verification/Demo.v ===== *)
(** * A daemon in memory, for the witnesses

    Instances that are good enough to run the server: nothing is written to the
    database, case mapping is that of ASCII, error texts are fixed, and a manifest is
    just the name of the object. *)

From S2P Require Import Prelude Types GoStrings Store Stores PortPool Hub SvcProxy Path Volume Lifecycle Manifest Server Handlers.

#[export] Instance no_codec {A} : Codec A := { marshal _ := None; unmarshal _ := None }.
#[export] Instance ascii_case : UnicodeCase := { unicode_upper s := s; unicode_lower s := s }.
#[export] Instance plain_texts : Texts := {
  launch_error_text _ := "launch failed";
  manifest_error_text _ := "invalid manifest";
  proxy_error_text _ := "proxy failed";
  format_time _ := "2024-01-01T00:00:00Z";
}.
#[export] Instance plain_json_texts : JsonTexts := { json_error_text _ := "invalid character" }.

Definition ex_meta (name : string) (annotations : gomap string) : ObjectMeta :=
  mkObjectMeta name "" "" annotations None 0 "".
Definition ex_native : gomap string := Some {[AnnotationExecutablePath := "web"]}.

#[export] Instance name_pods : Decoder Pod := {
  json_decode _ := None;
  yaml_decode b := Some (mkPod (mkTypeMeta "v1" "Pod") (ex_meta (string_of b) ex_native)
    (mkPodSpec [] [] RestartNever []) emptyPodStatus) }.
#[export] Instance name_configmaps : Decoder ConfigMap := {
  json_decode _ := None;
  yaml_decode b := Some (mkConfigMap (mkTypeMeta "v1" "ConfigMap") (ex_meta (string_of b) None) None) }.
#[export] Instance no_services : Decoder Service := { json_decode _ := None; yaml_decode _ := None }.
#[export] Instance no_secrets : Decoder Secret := { json_decode _ := None; yaml_decode _ := None }.

(** What a create handler draws: the time, a UUID and orders. *)
Definition ex_env_draw : env_draw := mkEnvDraw 7 "uid-7" ex_orders in_order.
