(* ===== verification/Rollout.v ===== *)
(** * From a deployment to its pods

    The two controllers meet in the store: a tick of the deployment controller makes
    the replica set of a new deployment, a tick of the replica set controller launches
    its pods through the server, and the next tick of the deployment controller
    reports them.  The theorems compose the laws of [Deployment], of [ReplicaSetCtl]
    and of the server as a [PodManager] ([ServerPods]). *)

From S2P Require Import Prelude Types GoStrings Store Stores PortPool Hub SvcProxy Path Volume Lifecycle Manifest Deployment ReplicaSetCtl Server ServerPods Handlers Demo.

Section Rollout.
Context {T : Type} `{Bolt T}.
Context `{Codec Deployment, Codec ReplicaSet, Codec PodSpec}.
Implicit Types (s : ControllerStore T) (dep : Deployment) (rs : ReplicaSet).

(** The deployment has one replica set, that of its current template. *)
Record only_new s dep (hash : string) rs : Prop := {
  on_wf : dep_wf s dep hash;
  on_new : new_rs (replicaSets s) dep hash = Some rs;
  on_old : forall o, old_list o s dep hash = [];
}.

Lemma old_list_nil s dep hash o o' : old_list o s dep hash = [] -> old_list o' s dep hash = [].
Proof.
  intros E. apply Permutation_nil_r. rewrite <- E. unfold old_list, ListReplicaSets, kv_list.
  by rewrite (shuffle_perm o), (shuffle_perm o').
Qed.

(** A deployment without replica sets gets that of its template, at full size. *)
Lemma Reconcile_first o1 o2 now s dep :
  let hash := hashTemplateSpec (depTemplate (depSpec dep)) in
  dep_wf s dep hash -> new_rs (replicaSets s) dep hash = None -> old_list in_order s dep hash = [] ->
  only_new (Reconcile o1 o2 now s dep) dep hash (make_rs now dep hash (desired_replicas dep)).
Proof.
  intros hash Hwf Hn Ho. pose proof (old_list_nil s dep hash _ o1 Ho) as Ho1.
  assert (Et : tick_new o1 now s dep hash = make_rs now dep hash (desired_replicas dep)).
  { unfold tick_new, new_before. by rewrite Hn, Ho1. }
  split.
  - by apply (dep_wf_tick o1 now s), Reconcile_tick.
  - pose proof (Reconcile_new_rs o1 o2 now s dep Hwf) as En. fold hash in En. rewrite En, Et, Ho1. unfold new_after, replicas. simpl.
    by rewrite Z.eqb_refl.
  - intros o. apply Permutation_nil_r.
    pose proof (Reconcile_old_list o1 o2 o now s dep Hwf) as Eo. fold hash in Eo. rewrite Eo.
    unfold tick_old. by rewrite Ho1.
Qed.

(** A reconciled deployment at its size stays as it is. *)
Lemma Reconcile_again o1 o2 now s dep rs :
  let hash := hashTemplateSpec (depTemplate (depSpec dep)) in
  only_new s dep hash rs -> replicas rs = desired_replicas dep ->
  only_new (Reconcile o1 o2 now s dep) dep hash rs.
Proof.
  intros hash [Hwf Hn Ho] Hr.
  assert (Et : tick_new o1 now s dep hash = rs) by (unfold tick_new, new_before; by rewrite Hn).
  split.
  - by apply (dep_wf_tick o1 now s), Reconcile_tick.
  - pose proof (Reconcile_new_rs o1 o2 now s dep Hwf) as En. fold hash in En. rewrite En, Et, Ho. unfold new_after.
    by rewrite Hr, Z.eqb_refl.
  - intros o. apply Permutation_nil_r.
    pose proof (Reconcile_old_list o1 o2 o now s dep Hwf) as Eo. fold hash in Eo. rewrite Eo.
    unfold tick_old. by rewrite Ho.
Qed.

Lemma only_new_key s dep hash rs : only_new s dep hash rs -> rs_key rs = new_key dep hash.
Proof. intros [Hwf Hn _]. symmetry. by apply (wf_keyed _ _ _ Hwf). Qed.

Lemma only_new_facts s dep hash rs :
  only_new s dep hash rs ->
  replicaSets s !! rs_key rs = Some rs /\ Namespace (rsMeta rs) = Namespace (depMeta dep) /\
  Name (rsMeta rs) = new_name dep hash /\ is_new dep hash rs = true.
Proof.
  intros Hon. pose proof (only_new_key _ _ _ _ Hon) as Ek. destruct Hon as [Hwf Hn _].
  unfold new_rs in Hn. rewrite <- Ek in Hn.
  destruct (new_key_inv s dep hash rs Hwf Hn Ek) as [Hns Hname].
  split_and!; [done..|]. by apply (is_new_key s dep hash rs Hwf Hn Hns).
Qed.

(** The replica set controller rewrites the status of the replica set. *)
Lemma only_new_report s dep hash rs rs' :
  only_new s dep hash rs -> rsMeta rs' = rsMeta rs ->
  only_new (StoreReplicaSet s rs') dep hash rs'.
Proof.
  intros Hon Em. pose proof (only_new_key _ _ _ _ Hon) as Ek.
  destruct (only_new_facts _ _ _ _ Hon) as (_ & Hns & Hname & Hnew0). destruct Hon as [Hwf Hn Ho].
  assert (Ek' : key_of (rsMeta rs') = new_key dep hash) by (rewrite Em; exact Ek).
  assert (Hnew : is_new dep hash rs' = true).
  { unfold is_new, owned_by, has_hash in *. by rewrite Em. }
  assert (Hl : forall k x, replicaSets (StoreReplicaSet s rs') !! k = Some x ->
    k = new_key dep hash /\ x = rs' \/ k <> new_key dep hash /\ replicaSets s !! k = Some x).
  { intros k x. simpl. rewrite Ek', lookup_insert_Some. naive_solver. }
  split; [split; try apply Hwf| |].
  - intros k x [[-> ->]|[_ Hk]]%Hl; [by rewrite Ek'|by apply (wf_keyed _ _ _ Hwf)].
  - intros k x [[-> ->]|[_ Hk]]%Hl; [|by eapply wf_slash].
    rewrite Em, Hns. apply Hwf.
  - intros k x [[-> ->]|[_ Hk]]%Hl Hnsx; [|by eapply wf_named].
    split; [|done]. intros _. exists hash. split; [|by rewrite Em].
    unfold is_new in Hnew. by apply andb_true_iff in Hnew as [_ ?].
  - unfold new_rs. simpl. rewrite Ek'. apply lookup_insert_eq.
  - intros o. apply (old_list_nil _ _ _ in_order).
    destruct (old_list in_order (StoreReplicaSet s rs') dep hash) as [|x l] eqn:El; [done|].
    assert (Hx : x ∈ old_list in_order (StoreReplicaSet s rs') dep hash) by (rewrite El; left).
    apply elem_of_bool_filter in Hx as [Hx Hold].
    apply elem_of_kv_list in Hx as [Hin [k [[-> ->]|[Hne Hk]]%Hl]].
    + unfold is_old, is_new in *. bool_z. congruence.
    + assert (Hx : x ∈ old_list in_order s dep hash).
      { apply elem_of_bool_filter. split; [|done]. apply elem_of_kv_list. eauto. }
      rewrite Ho in Hx. by apply elem_of_nil in Hx.
Qed.

Lemma owned_list_only s dep hash rs : only_new s dep hash rs -> owned_list s dep ≡ₚ [rs].
Proof.
  intros Hon. pose proof (only_new_key _ _ _ _ Hon) as Ek.
  destruct (only_new_facts _ _ _ _ Hon) as (Hl & Hns & _ & Hnew). destruct Hon as [Hwf Hn Ho].
  apply NoDup_Permutation.
  - apply NoDup_bool_filter, (NoDup_fmap_1 rs_key), NoDup_ListReplicaSets, Hwf.
  - apply NoDup_singleton.
  - intros x. unfold owned_list. rewrite elem_of_bool_filter, list_elem_of_singleton. split.
    + intros [Hx Hown]. destruct (has_hash hash x) eqn:Eh.
      * pose proof Hx as Hx'. apply elem_of_ListReplicaSets in Hx' as [Hxn Hxl]; [|apply Hwf..].
        destruct (wf_named _ _ _ Hwf _ _ Hxl Hxn) as [Hh _].
        destruct (Hh Hown) as (h & Hhh & Hname). pose proof (has_hash_inj _ _ _ Hhh Eh) as ->.
        assert (Exk : rs_key x = new_key dep hash).
        { unfold rs_key, key_of, new_key. by rewrite Hxn, Hname. }
        rewrite Exk, <- Ek in Hxl. congruence.
      * exfalso. assert (Hin : x ∈ old_list in_order s dep hash).
        { apply elem_of_bool_filter. split; [done|]. unfold is_old. by rewrite Hown, Eh. }
        rewrite Ho in Hin. by apply elem_of_nil in Hin.
    + intros ->. split.
      * apply elem_of_ListReplicaSets; [apply Hwf..|done].
      * unfold is_new in Hnew. by apply andb_true_iff in Hnew as [? _].
Qed.

(** ** The whole way, against any pod manager *)

Section Pods.
Context {W : Type} `{PodManagerLaws W}.

Lemma rollout_reports o1 o2 now s dep rs n :
  let hash := hashTemplateSpec (depTemplate (depSpec dep)) in
  only_new s dep hash rs -> replicas rs = desired_replicas dep ->
  rssReplicas (rsStatus rs) = n -> in_i32 n ->
  exists st, LoadDeployment (Reconcile o1 o2 now s dep) (Namespace (depMeta dep)) (Name (depMeta dep)) =
      Some (set_depStatus dep st) /\ dsReplicas st = n /\ dsUpdatedReplicas st = n.
Proof.
  intros hash Hon Hr En Hi. pose proof (Reconcile_again o1 o2 now s dep rs Hon Hr) as Hon'.
  destruct (Reconcile_stored_status o1 o2 now s dep (on_wf _ _ _ _ Hon))
    as (st & E & Ers & _ & _ & Eu & _).
  exists st. split_and!; [exact E| |].
  - rewrite Ers. pose proof (owned_list_only _ _ _ _ Hon') as Hp. fold hash in Hp.
    rewrite (Permutation_length_1_inv (Permutation_sym Hp)). simpl. rewrite En, Z.add_0_r. by apply i32_id.
  - rewrite (on_new _ _ _ _ Hon') in Eu. simpl in Eu. by injection Eu as <-.
Qed.

Lemma rollout_outcome o1 o2 o3 o4 p1 p2 now now' draws (w : W) s dep :
  let hash := hashTemplateSpec (depTemplate (depSpec dep)) in
  let rs := make_rs now dep hash (desired_replicas dep) in
  let s1 := Reconcile o1 o2 now s dep in
  dep_wf s dep hash -> new_rs (replicaSets s) dep hash = None -> old_list in_order s dep hash = [] ->
  desired_ok dep -> pm_wf w -> (Z.of_nat (length (active_pods w rs)) < 2 ^ 31)%Z ->
  draws_fresh w rs (draws <$> seq 0 (missing w rs)) ->
  LoadReplicaSet s1 (Namespace (depMeta dep)) (new_name dep hash) = Some rs /\
  match RSReconcile p1 p2 draws w s1 rs with
  | ((w', s'), Ok _) =>
      pm_wf w' /\ Z.of_nat (length (active_pods w' rs)) = desired_replicas dep /\
      exists st, LoadDeployment (Reconcile o3 o4 now' s' dep) (Namespace (depMeta dep)) (Name (depMeta dep))
          = Some (set_depStatus dep st) /\
        dsReplicas st = desired_replicas dep /\ dsUpdatedReplicas st = desired_replicas dep
  | ((w', s'), Err err) => s' = s1 /\ stopped_launching w rs (draws <$> seq 0 (missing w rs)) w' err
  | (_, Panic _) => False
  end.
Proof.
  intros hash rs s1 Hwf Hn Ho Hd Hw Hact Hf.
  pose proof (Reconcile_first o1 o2 now s dep Hwf Hn Ho) as Hon. fold hash rs s1 in Hon.
  split; [apply Hon|].
  pose proof (RSReconcile_outcome p1 p2 draws w s1 rs Hw Hd Hact Hf) as HR.
  destruct (RSReconcile _ _ _ _ _ _) as [[w' s'] [u|e|x]]; [|done..].
  destruct HR as (Hw' & Hc & rs' & -> & Em & Es & Est). split_and!; [done|done|].
  apply (only_new_report _ _ _ _ rs') in Hon; [|done].
  eapply rollout_reports; [exact Hon| |exact Est|].
  - unfold replicas. by rewrite Es.
  - unfold desired_ok in Hd. change (rs_desired rs) with (desired_replicas dep). range_lia.
Qed.
End Pods.
End Rollout.

(** ** The whole way, on the server *)

Section Server.
Context {F W N L T : Type} `{FS F} `{EngineLaws F W} `{TCP N} `{Bolt T}.
Context `{Codec Pod, Codec Service, Codec ConfigMap, Codec Secret, Codec Deployment, Codec ReplicaSet}.
Context `{Codec PodSpec}.
Context `{Texts} `{UnicodeCase}.
Context (TempDir : string) (NewLog : L) (env : nat -> env_draw) (ow : shuffle Z).
Abbreviation server := (Server F W N L T).

#[local] Instance pods_of_server : PodManager (server * nat) := server_PodManager TempDir NewLog env ow.
#[local] Instance pods_of_server_laws : PodManagerLaws (server * nat) := server_laws TempDir NewLog env ow.

(** C6. A new deployment, of no negative number of replicas, comes up, on a server whose pods have pairwise different bare
    names and whose replica sets are recorded as the controller names them ([dep_wf];
    names across namespaces too: an engine knows a pod by its bare name, see
    [Lifecycle.namesakes_share_engine]) and with random draws that name the new pods
    unlike one another and unlike any pod there is: one reconciliation stores the
    replica set of its template at full size; one reconciliation of that replica set
    on the server either ends with exactly the desired number of active pods, and the
    next reconciliation of the deployment then reports them all, total and updated; or
    it stops at the first launch that fails, with that launch's error, the pods
    launched before it active and the store untouched.  It never panics. *)
Theorem deployment_comes_up o1 o2 o3 o4 p1 p2 now now' draws (sv : server) n dep :
  let hash := hashTemplateSpec (depTemplate (depSpec dep)) in
  let rs := make_rs now dep hash (desired_replicas dep) in
  let s1 := Reconcile o1 o2 now (sv_ctl sv) dep in
  dep_wf (sv_ctl sv) dep hash -> new_rs (replicaSets (sv_ctl sv)) dep hash = None ->
  old_list in_order (sv_ctl sv) dep hash = [] -> desired_ok dep -> world_wf (sv, n) ->
  (Z.of_nat (length (active_pods (sv, n) rs)) < 2 ^ 31)%Z ->
  draws_fresh (sv, n) rs (draws <$> seq 0 (missing (sv, n) rs)) ->
  LoadReplicaSet s1 (Namespace (depMeta dep)) (new_name dep hash) = Some rs /\
  match RSReconcile p1 p2 draws (sv, n) s1 rs with
  | ((w', s'), Ok _) =>
      world_wf w' /\ Z.of_nat (length (active_pods w' rs)) = desired_replicas dep /\
      exists st, LoadDeployment (Reconcile o3 o4 now' s' dep) (Namespace (depMeta dep)) (Name (depMeta dep))
          = Some (set_depStatus dep st) /\
        dsReplicas st = desired_replicas dep /\ dsUpdatedReplicas st = desired_replicas dep
  | ((w', s'), Err err) => s' = s1 /\
      exists ds1 d ds2 w0 e, draws <$> seq 0 (missing (sv, n) rs) = ds1 ++ d :: ds2 /\
        launch_pods (sv, n) rs ds1 = (w0, None) /\ world_wf w0 /\
        length (active_pods w0 rs) = length ds1 + length (active_pods (sv, n) rs) /\
        LaunchPod w0 (make_pod rs d) = (w', Some e) /\
        err = "failed to launch pod " +:+ Name (podMeta (make_pod rs d)) +:+ ": " +:+ e
  | (_, Panic _) => False
  end.
Proof.
  intros hash rs s1 Hwf Hn Ho Hd Hw.
  exact (rollout_outcome (W := (server * nat)%type) o1 o2 o3 o4 p1 p2 now now' draws (sv, n)
    (sv_ctl sv) dep Hwf Hn Ho Hd Hw).
Qed.
End Server.

(** ** A daemon to run *)

(** Three replicas of a native program. *)
Definition ex_app : Deployment :=
  mkDeployment (mkTypeMeta "apps/v1" "Deployment") (mkObjectMeta "web" "default" "u" None None 0 "")
    (mkDeploymentSpec (Some 3%Z) None (mkPodTemplateSpec
       (mkObjectMeta "" "" "" (Some {[AnnotationExecutablePath := "/bin/web"]}) None 0 "")
       (mkPodSpec [mkContainer "main" "web" [] [] [] [mkContainerPort "" 80 "TCP"] [] None None] []
          RestartAlways [])))
    (mkDeploymentStatus 0 0 0 0 0).

Definition ex_daemon : Server memfiles (gmap string PodPhase) (gset Z) unit memdb :=
  mkServer ∅ None (mkServiceStore ∅ None) (mkConfigStore ∅ ∅ None)
    (mkControllerStore {["default/web" := ex_app]} ∅ None) NewLifecycleManager ∅ ex_host.

Definition ex_env (n : nat) : env_draw := ex_env_draw.

Definition ex_rs_of_app : ReplicaSet :=
  make_rs 7 ex_app (hashTemplateSpec (depTemplate (depSpec ex_app))) 3.
Definition ex_first : ControllerStore memdb := Reconcile in_order in_order 7 (sv_ctl ex_daemon) ex_app.
#[local] Instance ex_pods : PodManager (Server memfiles (gmap string PodPhase) (gset Z) unit memdb * nat) :=
  server_PodManager "/tmp" tt ex_env in_order.

Lemma ex_app_wf : dep_wf (sv_ctl ex_daemon) ex_app (hashTemplateSpec (depTemplate (depSpec ex_app))).
Proof. split; try done; intros k x Hk; by rewrite lookup_empty in Hk. Qed.

Lemma ex_daemon_wf : world_wf (ex_daemon, 0).
Proof. split_and!; simpl; [apply ex_new_ok|..]; intros k x *; by rewrite lookup_empty. Qed.

Lemma deployment_comes_up_witness :
  exists w' s', RSReconcile in_order in_order ex_draw (ex_daemon, 0) ex_first ex_rs_of_app = ((w', s'), Ok tt) /\
    Z.of_nat (length (active_pods w' ex_rs_of_app)) = 3%Z.
Proof.
  assert (Hf : draws_fresh (H1 := server_laws "/tmp" tt ex_env in_order) (ex_daemon, 0) ex_rs_of_app
    (ex_draw <$> seq 0 (missing (ex_daemon, 0) ex_rs_of_app))).
  { split.
    - apply Forall_forall. intros d _ k q Hq. simpl in Hq. by rewrite lookup_empty in Hq.
    - vm_compute. repeat constructor; discriminate. }
  pose proof (deployment_comes_up "/tmp" tt ex_env in_order in_order in_order in_order in_order in_order
    in_order 7 7 ex_draw ex_daemon 0 ex_app ex_app_wf eq_refl eq_refl ltac:(by vm_compute)
    ex_daemon_wf ltac:(by vm_compute) Hf) as [_ HR].
  assert (E : (RSReconcile in_order in_order ex_draw (ex_daemon, 0) ex_first ex_rs_of_app).2 = Ok tt)
    by (vm_compute; reflexivity).
  match type of HR with context [RSReconcile ?a ?b ?c ?d ?e ?f] =>
    change (RSReconcile a b c d e f) with
      (RSReconcile in_order in_order ex_draw (ex_daemon, 0) ex_first ex_rs_of_app) in HR end.
  destruct (RSReconcile in_order in_order ex_draw (ex_daemon, 0) ex_first ex_rs_of_app) as [[w' s'] r].
  simpl in E. subst r. exists w', s'. split; [done|]. apply HR.
Defined.
