(* ===== verification/LogStream.v ===== *)
(** * Logs that are followed (src/api/handler.go, src/logs/ringbuffer.go)

    [handleGetPodLogs] with [follow]: the text there is, then the chunks of a follower,
    one after the other, against the writes of the pod at any moment. *)

From S2P Require Import Prelude Hub Logs.

Import RingBuffer.

(** Where the handler is: before the text there is, before [rb.Follow], in the loop. *)
Inductive log_pc := AtSnapshot | AtFollow | InLoop (id : Z) | Ended.

(** The standard output and the standard error of a pod are two [MultiWriter]s on one
    buffer, so that goroutines write to it concurrently; a writer is a number.  A [Write]
    holds [rb.mu] for the data and [rb.subsMu] for the followers, one after the other:
    [unsent] has the chunk of each writer that is between the two.  [ls_out] is the body
    of the reply. *)
Record log_stream := mkLogStream {
  ls_rb : RingBuffer;
  unsent : gmap nat bytes;
  ls_pc : log_pc;
  ls_out : bytes;
}.

Inductive log_event :=
| WriteData (w : nat) (p : bytes)
| SendChunk (o : shuffle Z) (w : nat)
| TakeText (tailLines : Z) (follow : bool)
| StartFollow
| Deliver.

Definition log_step (e : log_event) (s : log_stream) : option log_stream :=
  let rb := ls_rb s in
  match e, ls_pc s with
  | WriteData w p, pc =>
      if decide (p = [] \/ is_Some (unsent s !! w)) then None
      else Some (mkLogStream (write_data rb p) (<[w := p]> (unsent s)) pc (ls_out s))
  | SendChunk o w, pc =>
      match unsent s !! w with
      | Some p =>
          match broadcast o rb p with
          | Ok rb => Some (mkLogStream rb (delete w (unsent s)) pc (ls_out s))
          | _ => None
          end
      | None => None
      end
  | TakeText tailLines follow, AtSnapshot =>
      Some (mkLogStream rb (unsent s) (if follow then AtFollow else Ended)
        (ls_out s ++ (if (0 <? tailLines)%Z then TailLines rb tailLines else ReadAll rb)))
  | StartFollow, AtFollow =>
      let '(rb, id) := Follow rb in Some (mkLogStream rb (unsent s) (InLoop id) (ls_out s))
  | Deliver, InLoop id =>
      match recv (subs rb) id with
      | Some (chunk, h) => Some (mkLogStream (with_subs rb h) (unsent s) (InLoop id) (ls_out s ++ chunk))
      | None => None
      end
  | _, _ => None
  end.

Fixpoint log_run (es : list log_event) (s : log_stream) : option log_stream :=
  match es with [] => Some s | e :: es => s ← log_step e s; log_run es s end.

(** The chunks that wait for the handler. *)
Definition waiting (s : log_stream) : list bytes :=
  match ls_pc s with
  | InLoop id => match hub_chans (subs (ls_rb s)) !! id with Some c => ch_buf c | None => [] end
  | _ => []
  end.

Definition written (es : list log_event) : list (nat * bytes) :=
  omap (fun e => match e with WriteData w p => Some (w, p) | _ => None end) es.
Definition sends (es : list log_event) : nat :=
  length (List.filter (fun e => match e with SendChunk _ _ => true | _ => false end) es).

(** The chunks of the writer [w], in order. *)
Definition by_writer (w : nat) (l : list (nat * bytes)) : list bytes :=
  omap (fun '(v, p) => if decide (v = w) then Some p else None) l.

Lemma by_writer_app w l1 l2 : by_writer w (l1 ++ l2) = by_writer w l1 ++ by_writer w l2.
Proof. apply omap_app. Qed.

(** The handler is in its loop, and its channel has room for [room] more chunks. *)
Record streaming (s : log_stream) (room : nat) : Prop := {
  st_hub : hub_ok follow_cap (subs (ls_rb s), ∅);
  st_chan : exists id buf, ls_pc s = InLoop id /\ id ∈ hub_subs (subs (ls_rb s)) /\
    hub_chans (subs (ls_rb s)) !! id = Some (Chan buf false) /\ length buf + room <= follow_cap;
}.

Lemma write_data_subs rb p : subs (write_data rb p) = subs rb.
Proof. unfold write_data. by repeat case_match. Qed.

(** One step: what was received or waits grows by the chunks sent, and each writer sends
    what it has written, in order. *)
Lemma log_step_stream e s s' room :
  streaming s room -> sends [e] <= room -> log_step e s = Some s' ->
  streaming s' (room - sends [e]) /\
  exists sent, ls_out s' ++ concat (waiting s') = ls_out s ++ concat (waiting s) ++ concat sent.*2 /\
    forall w, by_writer w sent ++ option_list (unsent s' !! w) =
      option_list (unsent s !! w) ++ by_writer w (written [e]).
Proof.
  intros [Hh (id & buf & Hpc & Hid & Hc & Hroom)] Hs. unfold log_step, waiting. rewrite Hpc.
  destruct e as [v p|o v|tl fo| |]; try done.
  - case_decide as Hp; [done|]. intros [= <-]. simpl.
    rewrite !write_data_subs, Hc. simpl. split.
    + split; simpl; rewrite write_data_subs; [done|]. exists id, buf. split_and!; [done..|lia].
    + exists []. simpl. rewrite app_nil_r. split; [done|]. intros w. case_decide as Hw.
      * subst w. rewrite lookup_insert_eq. destruct (unsent s !! v) eqn:Eu; [|done].
        destruct Hp. right. by eexists.
      * rewrite lookup_insert_ne by done. by rewrite app_nil_r.
  - destruct (unsent s !! v) as [p|] eqn:Eu; [|done]. simpl.
    unfold broadcast. destruct (publish_spec follow_cap o (subs (ls_rb s)) p (hub_ok_open _ _ Hh))
      as (h & Ep & Hsub & _ & Hl). rewrite Ep. simpl. intros [= <-]. simpl.
    assert (Hc' : hub_chans h !! id = Some (Chan (buf ++ [p]) false)).
    { rewrite Hl, decide_True, Hc by done. simpl. unfold bump. cbn [ch_buf]. by rewrite decide_True by (unfold sends in Hs; simpl in Hs; lia). }
    unfold sends in *; simpl in Hs; simpl length. split.
    + split; simpl; [by eapply hub_ok_publish|]. exists id, (buf ++ [p]).
      rewrite Hsub, length_app. simpl. split_and!; [done..|lia].
    + exists [(v, p)]. rewrite Hc', Hc. simpl. split; [by rewrite concat_app|]. intros w. rewrite app_nil_r.
      case_decide as Hw; [subst w; by rewrite lookup_delete_eq, Eu|]. by rewrite lookup_delete_ne.
  - destruct (recv (subs (ls_rb s)) id) as [[chunk h]|] eqn:Er; [|done]. intros [= <-]. simpl.
    unfold recv in Er. rewrite Hc in Er. destruct buf as [|c buf]; [done|]. injection Er as <- Eh. split.
    + split; simpl; [subst h; eapply hub_ok_recv; [exact Hh|]; unfold recv; by rewrite Hc|].
      exists id, buf. subst h. simpl. simpl in Hroom. rewrite lookup_insert_eq. split_and!; [done..|lia].
    + exists []. subst h. simpl. rewrite lookup_insert_eq, Hc. simpl. rewrite app_nil_r, <- app_assoc.
      split; [done|]. intros w. by rewrite app_nil_r.
Qed.

Lemma log_run_stream es s s' room :
  streaming s room -> sends es <= room -> log_run es s = Some s' ->
  exists sent, ls_out s' ++ concat (waiting s') = ls_out s ++ concat (waiting s) ++ concat sent.*2 /\
    forall w, by_writer w sent ++ option_list (unsent s' !! w) =
      option_list (unsent s !! w) ++ by_writer w (written es).
Proof.
  revert s room. induction es as [|e es IH]; intros s room Hst Hs; cbn [log_run].
  { intros [= <-]. exists []. simpl. rewrite app_nil_r. split; [done|]. intros w. by rewrite app_nil_r. }
  assert (Es : sends (e :: es) = sends [e] + sends es) by (unfold sends; destruct e; done).
  destruct (log_step e s) as [s1|] eqn:E1; [|done]. cbn [mbind option_bind]. intros Hr.
  destruct (log_step_stream e s s1 room Hst ltac:(lia) E1) as [Hst1 (l1 & Eq1 & Hw1)].
  destruct (IH s1 _ Hst1 ltac:(lia) Hr) as (l2 & Eq2 & Hw2).
  assert (Ew : written (e :: es) = written [e] ++ written es) by (unfold written; by destruct e).
  exists (l1 ++ l2). split.
  - rewrite Eq2, (app_assoc (ls_out s1)), Eq1, fmap_app, concat_app. by rewrite <- !app_assoc.
  - intros w. by rewrite by_writer_app, <- app_assoc, Hw2, (app_assoc (by_writer w l1)), Hw1, Ew, by_writer_app, app_assoc.
Qed.

(** C30. [logs -f], without [--tail], when no write of the pod is under way at the first of the
    two reads or made before the second.  Whatever its streams write
    afterwards, concurrently and in any interleaving with the deliveries, what the client
    received and what waits in its channel are together the text there was and a sequence
    of whole chunks; each writer has in it all it has written, in order, but for the one
    chunk it may be about to send.  This as long as no more chunks were sent than the
    channel holds.  Chunks of two writers may come in another order than in the buffer. *)
Theorem log_stream_complete rb h es s' :
  ring_ok rb h -> sends es <= follow_cap ->
  log_run ([TakeText 0 true; StartFollow] ++ es) (mkLogStream rb ∅ AtSnapshot []) = Some s' ->
  exists sent, ls_out s' ++ concat (waiting s') = ReadAll rb ++ concat sent.*2 /\
    forall w, by_writer w sent ++ option_list (unsent s' !! w) = by_writer w (written es).
Proof.
  intros [_ Hh] Hs. cbn [app log_run log_step ls_pc ls_rb unsent ls_out mbind option_bind].
  destruct (Follow rb) as [rb1 id] eqn:EF. cbn [log_run mbind option_bind].
  unfold Follow in EF. injection EF as <- <-. intros Hr.
  eapply (log_run_stream es _ s' follow_cap) in Hr; [|split; simpl|done].
  - destruct Hr as (sent & E & Hw). exists sent. rewrite E. unfold waiting. simpl. rewrite lookup_insert_eq.
    split; [done|]. intros w. by rewrite Hw.
  - by apply (hub_ok_subscribe _ (subs rb)).
  - exists (hub_nextID (subs rb)), []. simpl. rewrite lookup_insert_eq. split_and!; [done|set_solver|done|lia].
Qed.

Lemma send_chunk_ok o rb p :
  hub_ok follow_cap (subs rb, ∅) ->
  exists h, broadcast o rb p = Ok (with_subs rb h) /\ hub_nextID h = hub_nextID (subs rb) /\
    forall id, hub_chans h !! id = if decide (id ∈ hub_subs (subs rb)) then (fun c => bump follow_cap c p) <$> hub_chans (subs rb) !! id
      else hub_chans (subs rb) !! id.
Proof.
  intros Hh. destruct (publish_spec follow_cap o (subs rb) p (hub_ok_open _ _ Hh)) as (h & E & _ & Hn & Hl).
  exists h. unfold broadcast. by rewrite E.
Qed.

(** The two reads of the handler are not one: a chunk written between them is in neither
    and never reaches the client, and a chunk on its way between the two critical
    sections of [Write] is in both and reaches the client twice. *)
Theorem log_stream_races rb h p o :
  ring_ok rb h -> p <> [] -> length (h ++ p) <= capacity rb -> (Z.of_nat (length (h ++ p)) < 2 ^ 64)%Z ->
  (exists s, log_run [TakeText 0 true; WriteData 0 p; SendChunk o 0; StartFollow] (mkLogStream rb ∅ AtSnapshot [])
       = Some s /\ ls_out s = h /\ waiting s = [] /\ unsent s = ∅) /\
  (exists s, log_run [WriteData 0 p; TakeText 0 true; StartFollow; SendChunk o 0] (mkLogStream rb ∅ AtSnapshot [])
       = Some s /\ ls_out s = h ++ p /\ waiting s = [p] /\ unsent s = ∅).
Proof.
  intros [Hrep Hh] Hp Hlen Hz. rewrite length_app in Hz.
  assert (Hread : ReadAll rb = h).
  { rewrite (ReadAll_rep rb h Hrep) by lia. rewrite lastn_all; [done|]. rewrite length_app in Hlen. lia. }
  pose proof (write_data_rep rb h p Hrep) as Hrep'.
  assert (Hread' : ReadAll (write_data rb p) = h ++ p).
  { rewrite (ReadAll_rep _ _ Hrep') by (rewrite length_app; lia). rewrite lastn_all; [done|].
    by rewrite write_data_capacity. }
  assert (Hh' : hub_ok follow_cap (subs (write_data rb p), ∅)) by (by rewrite write_data_subs).
  split.
  - destruct (send_chunk_ok o (write_data rb p) p Hh') as (hb & E & Hn & _).
    cbn [log_run log_step ls_pc ls_rb unsent ls_out mbind option_bind].
    rewrite decide_False by (rewrite lookup_empty; intros [?|[? ?]]; done). cbn [mbind option_bind]. simpl. rewrite lookup_insert_eq, E. simpl.
    eexists. split; [reflexivity|]. simpl. rewrite Hread, delete_insert_id by done. unfold waiting. simpl.
    by rewrite lookup_insert_eq.
  - cbn [log_run log_step ls_pc ls_rb unsent ls_out mbind option_bind].
    rewrite decide_False by (rewrite lookup_empty; intros [?|[? ?]]; done). cbn [mbind option_bind]. simpl.
    set (rb2 := mkRingBuffer _ _ _ _ _ _).
    assert (Hh2 : hub_ok follow_cap (subs rb2, ∅)) by (unfold rb2; simpl; by apply (hub_ok_subscribe _ (subs (write_data rb p)))).
    destruct (send_chunk_ok o rb2 p Hh2) as (hb & E & _ & Hl). rewrite lookup_insert_eq, E. simpl.
    eexists. split; [reflexivity|]. simpl. rewrite Hread', delete_insert_id by done. split_and!; [done| |done].
    unfold waiting. simpl. rewrite Hl, decide_True by (simpl; set_solver). simpl.
    by rewrite lookup_insert_eq.
Qed.

Definition ex_ring : RingBuffer := (Write in_order (NewRingBuffer 16) (bytes_of "one")).1.

Lemma ex_ring_ok : ring_ok ex_ring (bytes_of "one").
Proof.
  destruct (Write_ok in_order (NewRingBuffer 16) [] (bytes_of "one") (NewRingBuffer_ok 16)) as (rb & E & Hok & _).
  unfold ex_ring. rewrite E. exact Hok.
Qed.

(** The two streams write at once, the second one sends first. *)
Definition ex_writes : list log_event :=
  [WriteData 1 (bytes_of "two"); WriteData 2 (bytes_of "err"); SendChunk in_order 2; Deliver; SendChunk in_order 1;
   WriteData 1 (bytes_of "six")].

Lemma log_stream_complete_witness :
  exists s sent, log_run ([TakeText 0 true; StartFollow] ++ ex_writes) (mkLogStream ex_ring ∅ AtSnapshot []) = Some s /\
    ls_out s = bytes_of "oneerr" /\ ls_out s ++ concat (waiting s) = bytes_of "one" ++ concat sent.*2 /\
    by_writer 2 sent = [bytes_of "err"].
Proof.
  destruct (log_run ([TakeText 0 true; StartFollow] ++ ex_writes) (mkLogStream ex_ring ∅ AtSnapshot []))
    as [s|] eqn:E; [|by vm_compute in E].
  destruct (log_stream_complete ex_ring (bytes_of "one") ex_writes s) as (sent & Eo & Hw);
    [exact ex_ring_ok|vm_compute; lia|exact E|].
  assert (Ev : (fun s => (ls_out s, unsent s !! 2)) <$>
    log_run ([TakeText 0 true; StartFollow] ++ ex_writes) (mkLogStream ex_ring ∅ AtSnapshot []) =
    Some (bytes_of "oneerr", None)) by (vm_compute; reflexivity).
  rewrite E in Ev. injection Ev as Ev Eu. exists s, sent. split_and!; [done|done|exact Eo|].
  specialize (Hw 2). rewrite Eu in Hw. simpl in Hw. rewrite app_nil_r in Hw. rewrite Hw. reflexivity.
Defined.

Lemma log_stream_races_witness :
  exists s, log_run [TakeText 0 true; WriteData 0 (bytes_of "two"); SendChunk in_order 0; StartFollow]
      (mkLogStream ex_ring ∅ AtSnapshot []) = Some s /\ ls_out s = bytes_of "one" /\ waiting s = [].
Proof.
  destruct (log_stream_races ex_ring (bytes_of "one") (bytes_of "two") in_order ex_ring_ok)
    as [(s & E & Ho & Hw & _) _]; [done|vm_compute; lia|vm_compute; reflexivity|].
  by exists s.
Defined.
