(* ===== verification/WatchStream.v ===== *)
(** * Watches (src/engine/lifecycle.go, src/api/handler.go)

    A watch has a channel among the watchers of the lifecycle manager, a goroutine of
    [Watch] that replays the pods there are and waits for the end of the request, and
    the loop of [handleWatchPods]; the events of the manager come in between at any
    moment.  The branch for an error of [json.Marshal] is left out: it refuses nothing
    that an event can hold. *)

From S2P Require Import Prelude Types GoStrings Selector Store Stores PortPool Hub SvcProxy Path Volume Health Lifecycle Manifest Table Server Handlers.

(** [merge l1 l2 l]: [l] is an interleaving of [l1] and [l2]. *)
Inductive merge {A} : list A -> list A -> list A -> Prop :=
| MergeNil : merge [] [] []
| MergeLeft x l1 l2 l : merge l1 l2 l -> merge (l1 ++ [x]) l2 (l ++ [x])
| MergeRight x l1 l2 l : merge l1 l2 l -> merge l1 (l2 ++ [x]) (l ++ [x]).

(** The goroutine of [Watch]: before [ListActivePods]; with events [ADDED] to send;
    waiting for the end of the context; between the [delete] and the [close]; done; or
    returned in the middle of its events. *)
Inductive watch_pc := Listing | Replaying (evs : list WatchEvent) | Parked | Unregistered | Closed | Abandoned.

(** [w_done] is the end of the context of the request; [w_body] are the events in the
    reply, [w_seen] those taken from the channel. *)
Record watch := mkWatch {
  w_hub : hub WatchEvent;
  w_id : Z;
  w_pc : watch_pc;
  w_done : bool;
  w_seen : list WatchEvent;
  w_body : list WatchEvent;
}.

Inductive watch_event :=
| Publish (o : shuffle Z) (e : WatchEvent)
| OtherWatch
| ListPods (evs : list WatchEvent)
| Send
| Park
| Quit
| Unregister
| CloseCh
| Take
| Cancel.

Definition set_watch (w : watch) (h : hub WatchEvent) (pc : watch_pc) : watch :=
  mkWatch h (w_id w) pc (w_done w) (w_seen w) (w_body w).

(** [ch <- e]: the sender waits for room. *)
Definition send (h : hub WatchEvent) (id : Z) (e : WatchEvent) : option (hub WatchEvent) :=
  match hub_chans h !! id with
  | Some c =>
      if negb (ch_closed c) && (length (ch_buf c) <? watch_cap)
      then Some (Hub (hub_subs h) (<[id := Chan (ch_buf c ++ [e]) false]> (hub_chans h)) (hub_nextID h))
      else None
  | None => None
  end.

(** [evs] in [ListPods] is what [Lifecycle.replay] finds at that moment. *)
Definition watch_step (r : Request) (ev : watch_event) (w : watch) : option watch :=
  let h := w_hub w in
  match ev, w_pc w with
  | Publish o e, pc => match publish watch_cap o h e with Ok h => Some (set_watch w h pc) | _ => None end
  | OtherWatch, pc => Some (set_watch w (subscribe h).1 pc)
  | ListPods evs, Listing => Some (set_watch w h (Replaying evs))
  | Send, Replaying (e :: evs) => h ← send h (w_id w) e; Some (set_watch w h (Replaying evs))
  | Park, Replaying [] => Some (set_watch w h Parked)
  | Quit, Replaying (_ :: _) => if w_done w then Some (set_watch w h Abandoned) else None
  | Unregister, Parked => if w_done w then Some (set_watch w (unsubscribe h (w_id w)) Unregistered) else None
  | CloseCh, Unregistered =>
      match close_chan h (w_id w) with Ok h => Some (set_watch w h Closed) | _ => None end
  | Take, pc =>
      match recv h (w_id w) with
      | Some (e, h) =>
          Some (mkWatch h (w_id w) pc (w_done w) (w_seen w ++ [e])
            (w_body w ++ if watch_passes r e then [e] else []))
      | None => None
      end
  | Cancel, pc => Some (mkWatch h (w_id w) pc true (w_seen w) (w_body w))
  | _, _ => None
  end.

Fixpoint watch_run (r : Request) (es : list watch_event) (w : watch) : option watch :=
  match es with [] => Some w | e :: es => w ← watch_step r e w; watch_run r es w end.

(** [handleWatchPods] registers and starts the goroutine. *)
Definition start_watch (h : hub WatchEvent) : watch :=
  mkWatch (subscribe h).1 (subscribe h).2 Listing false [] [].

Definition published (es : list watch_event) : list WatchEvent :=
  omap (fun e => match e with Publish _ e => Some e | _ => None end) es.
Definition listed (es : list watch_event) : list WatchEvent :=
  mjoin ((fun e => match e with ListPods evs => evs | _ => [] end) <$> es).
Definition still_to_send (w : watch) : list WatchEvent :=
  match w_pc w with Replaying evs => evs | _ => [] end.

(** The client is still there. *)
Definition connected (e : watch_event) : Prop :=
  match e with Cancel => False | _ => True end.

Definition passing (r : Request) (evs : list WatchEvent) : list WatchEvent :=
  List.filter (watch_passes r) evs.

(** What holds while the client is connected, [pub] and [lst] being the events
    published and listed so far. *)
Record watching (r : Request) (w : watch) (pub lst : list WatchEvent) : Prop := {
  wa_hub : hub_ok watch_cap (w_hub w, ∅);
  wa_done : w_done w = false;
  wa_id : w_id w ∈ hub_subs (w_hub w);
  wa_body : w_body w = passing r (w_seen w);
  wa_pc : match w_pc w with Listing => lst = [] | Replaying _ | Parked => True | _ => False end;
  wa_order : exists buf sent pubs, hub_chans (w_hub w) !! w_id w = Some (Chan buf false) /\
    merge sent pubs (w_seen w ++ buf) /\ lst = sent ++ still_to_send w /\ pubs `sublist_of` pub /\
    (length pub + length lst <= watch_cap -> pubs = pub);
}.

Lemma merge_length {A} (l1 l2 l : list A) : merge l1 l2 l -> length l = length l1 + length l2.
Proof. induction 1; rewrite ?length_app; simpl; lia. Qed.

Lemma watching_start r h : hub_ok watch_cap (h, ∅) -> watching r (start_watch h) [] [].
Proof.
  intros Hh. unfold start_watch. split; simpl; try done.
  - by apply (hub_ok_subscribe _ h).
  - set_solver.
  - exists [], [], []. rewrite lookup_insert_eq. split_and!; [done|constructor|done..].
Qed.

Lemma published_snoc es e : published (es ++ [e]) = published es ++ published [e].
Proof. unfold published. by rewrite omap_app. Qed.
Lemma listed_snoc es e : listed (es ++ [e]) = listed es ++ listed [e].
Proof. unfold listed. by rewrite fmap_app, join_app. Qed.

Lemma watching_publish r w pub lst o e w' :
  watching r w pub lst -> watch_step r (Publish o e) w = Some w' -> watching r w' (pub ++ [e]) lst.
Proof.
  intros [Hh Hd Hid Hb Hpc (buf & sent & pubs & Hc & Hm & Hl & Hsub & Hall)]. simpl.
  destruct (publish watch_cap o (w_hub w) e) as [h| |] eqn:E; [|done..]. intros [= <-].
  destruct (publish_at watch_cap o _ _ _ _ _ Hh E Hid Hc) as [Hc' Hs'].
  split; simpl; try done; [by eapply hub_ok_publish|by rewrite Hs'|].
  unfold bump in Hc'. cbn [ch_buf] in Hc'. unfold still_to_send in *. simpl. case_decide as Hroom.
  - exists (buf ++ [e]), sent, (pubs ++ [e]). split_and!; [done| |done|by apply sublist_app|].
    + rewrite app_assoc. by apply MergeRight.
    + rewrite length_app. simpl. intros Hlen. rewrite Hall; [done|lia].
  - exists buf, sent, pubs. split_and!; [done..| |].
    + by apply sublist_inserts_r.
    + rewrite length_app. simpl. intros Hlen. exfalso.
      pose proof (merge_length _ _ _ Hm) as El. rewrite length_app in El.
      apply sublist_length in Hsub. rewrite Hl, length_app in Hlen. lia.
Qed.

Lemma watching_step r w pub lst e w' :
  watching r w pub lst -> connected e -> watch_step r e w = Some w' ->
  watching r w' (pub ++ published [e]) (lst ++ listed [e]).
Proof.
  intros Hw Hcon E. destruct e as [o e| |evs| | | | | | |]; unfold published, listed; simpl;
    rewrite ?app_nil_r; [by eapply watching_publish| | | | | | | | |done];
    destruct Hw as [Hh Hd Hid Hb Hpc (buf & sent & pubs & Hc & Hm & Hl & Hsub & Hall)];
    unfold watch_step in E.
  - injection E as <-. pose proof (proj2 (proj2 Hh) _ _ Hc) as [Hlt _]. simpl in Hlt.
    split; simpl; try done; [by apply (hub_ok_subscribe _ (w_hub w))|set_solver|].
    exists buf, sent, pubs. rewrite lookup_insert_ne by lia. by split_and!.
  - destruct (w_pc w) eqn:Epc; try done. injection E as <-. split; simpl; try done.
    exists buf, sent, pubs. unfold still_to_send in *. rewrite Epc in Hl. simpl. rewrite Hpc in Hl |- *.
    rewrite app_nil_r in Hl. subst sent. split_and!; [done..|].
    intros Hlen. apply Hall. rewrite Hpc. simpl in *. lia.
  - destruct (w_pc w) as [|[|e evs]| | | |] eqn:Epc; try done. unfold send in E. rewrite Hc in E. simpl in E.
    destruct (length buf <? watch_cap) eqn:Er; [|done]. injection E as <-.
    apply Nat.ltb_lt in Er. pose proof (proj2 (proj2 Hh) _ _ Hc) as [Hlt _]. simpl in Hlt.
    unfold still_to_send in *. rewrite Epc in Hl. split; simpl; try done.
    + destruct Hh as (Ho & Hdis & Hbnd). split_and!; simpl; [|done|].
      * intros id Hi. destruct (decide (id = w_id w)) as [->|Hne]; [rewrite lookup_insert_eq; eauto|].
        rewrite lookup_insert_ne by done. by apply Ho.
      * intros id c. destruct (decide (id = w_id w)) as [->|Hne].
        -- rewrite lookup_insert_eq. intros [= <-]. simpl. rewrite length_app. simpl. split; [done|lia].
        -- rewrite lookup_insert_ne by done. apply Hbnd.
    + exists (buf ++ [e]), (sent ++ [e]), pubs. rewrite lookup_insert_eq.
      split_and!; [done| |by rewrite Hl, <- app_assoc|done|done].
      rewrite app_assoc. by apply MergeLeft.
  - destruct (w_pc w) as [|[|e evs]| | | |] eqn:Epc; try done. injection E as <-.
    split; simpl; try done. exists buf, sent, pubs. unfold still_to_send in *. rewrite Epc in Hl. by split_and!.
  - destruct (w_pc w) as [|[|e evs]| | | |]; try done. by rewrite Hd in E.
  - destruct (w_pc w) as [| | | | |]; try done. by rewrite Hd in E.
  - by destruct (w_pc w).
  - assert (Er : exists e h, recv (w_hub w) (w_id w) = Some (e, h) /\ w' = mkWatch h (w_id w) (w_pc w) (w_done w)
      (w_seen w ++ [e]) (w_body w ++ if watch_passes r e then [e] else [])).
    { destruct (w_pc w); destruct (recv (w_hub w) (w_id w)) as [[e h]|]; try done; injection E as <-; eauto. }
    destruct Er as (e & h & Er & ->).
    pose proof (hub_ok_recv _ _ _ _ _ _ Hh Er) as Hh'.
    unfold recv in Er. rewrite Hc in Er. destruct buf as [|b buf]; [done|]. injection Er as <- <-.
    split; simpl; try done.
    + rewrite Hb. unfold passing. rewrite List.filter_app. simpl. by destruct (watch_passes r b).
    + exists buf, sent, pubs. rewrite lookup_insert_eq. split_and!; try done. by rewrite <- app_assoc.
Qed.

Lemma watching_run r es w pub lst w' :
  watching r w pub lst -> Forall connected es -> watch_run r es w = Some w' ->
  watching r w' (pub ++ published es) (lst ++ listed es).
Proof.
  revert w pub lst. induction es as [|e es IH]; intros w pub lst Hw Hcon; cbn [watch_run].
  { intros [= <-]. unfold published, listed. simpl. by rewrite !app_nil_r. }
  apply Forall_cons in Hcon as [H1 H2]. destruct (watch_step r e w) as [w1|] eqn:E1; [|done].
  cbn [mbind option_bind]. intros Hr. pose proof (watching_step _ _ _ _ _ _ Hw H1 E1) as Hw1.
  assert (Ep : published (e :: es) = published [e] ++ published es) by (unfold published; by destruct e).
  assert (El : listed (e :: es) = listed [e] ++ listed es) by (unfold listed; simpl; by rewrite app_nil_r).
  rewrite Ep, El, !app_assoc. by apply (IH w1).
Qed.

(** C31. A watch, against the events of the lifecycle manager in any interleaving, while the
    client is connected: what it has taken or will take from its channel is an
    interleaving of the replayed pods, in their order and without gaps, and of events
    published since it registered, in their order; all of them while replay and events
    together do not exceed the channel; and the reply has exactly those that match. *)
Theorem watch_in_order r h es w :
  hub_ok watch_cap (h, ∅) -> Forall connected es -> watch_run r es (start_watch h) = Some w ->
  exists buf sent pubs, hub_chans (w_hub w) !! w_id w = Some (Chan buf false) /\
    merge sent pubs (w_seen w ++ buf) /\ w_body w = passing r (w_seen w) /\
    listed es = sent ++ still_to_send w /\ pubs `sublist_of` published es /\
    (length (published es) + length (listed es) <= watch_cap -> pubs = published es).
Proof.
  intros Hh Hcon Hr. pose proof (watching_run _ _ _ _ _ _ (watching_start r h Hh) Hcon Hr) as Hw.
  destruct (wa_order _ _ _ _ Hw) as (buf & sent & pubs & Hc & Hm & Hl & Hs & Hall).
  exists buf, sent, pubs. split_and!; try done. apply (wa_body _ _ _ _ Hw).
Qed.

(** What stays of a watch whose goroutine returned in the middle of the replay. *)
Definition leaked (w : watch) : Prop :=
  w_pc w = Abandoned /\ hub_ok watch_cap (w_hub w, ∅) /\ w_id w ∈ hub_subs (w_hub w).

Lemma leaked_step r e w w' : leaked w -> watch_step r e w = Some w' -> leaked w' /\ w_id w' = w_id w.
Proof.
  intros (Hpc & Hh & Hid) E. unfold watch_step in E. rewrite Hpc in E. destruct e; try done.
  - destruct (publish watch_cap o (w_hub w) e) as [h| |] eqn:Ep; [|done..]. injection E as <-.
    destruct (publish_spec watch_cap o (w_hub w) e (hub_ok_open _ _ Hh)) as (h' & Ep' & Hs & _).
    rewrite Ep in Ep'. injection Ep' as <-.
    split; [|done]. split_and!; simpl; [done|by eapply hub_ok_publish|by rewrite Hs].
  - injection E as <-. split; [|done]. split_and!; simpl; [done|by apply (hub_ok_subscribe _ (w_hub w))|set_solver].
  - destruct (recv (w_hub w) (w_id w)) as [[e h]|] eqn:Er; [|done]. injection E as <-.
    pose proof (hub_ok_recv _ _ _ _ _ _ Hh Er) as Hh'. split; [|done]. split_and!; simpl; [done|done|].
    unfold recv in Er. destruct (hub_chans (w_hub w) !! w_id w) as [[[|b bs] cl]|]; try done.
    by injection Er as _ <-.
  - injection E as <-. split; [|done]. by split_and!.
Qed.

Lemma leaked_run r es w w' : leaked w -> watch_run r es w = Some w' -> leaked w' /\ w_id w' = w_id w.
Proof.
  revert w. induction es as [|e es IH]; intros w Hl; cbn [watch_run]; [by intros [= <-]|].
  destruct (watch_step r e w) as [w1|] eqn:E; [|done]. cbn [mbind option_bind]. intros Hr.
  destruct (leaked_step _ _ _ _ Hl E) as [Hl1 Ei]. destruct (IH _ Hl1 Hr) as [Hl' Ei']. split; [done|congruence].
Qed.

(** A client that goes away while the pods are replayed leaves its watch behind: the
    goroutine can return, and then the channel stays registered and is never closed,
    whatever happens afterwards. *)
Theorem watch_replay_leaks r h e evs :
  hub_ok watch_cap (h, ∅) ->
  exists w, watch_run r [ListPods (e :: evs); Cancel; Quit] (start_watch h) = Some w /\
    forall es w', watch_run r es w = Some w' ->
      w_id w ∈ hub_subs (w_hub w') /\
      exists c, hub_chans (w_hub w') !! w_id w = Some c /\ ch_closed c = false.
Proof.
  intros Hh. eexists. split; [reflexivity|]. intros es w' Hr.
  match type of Hr with watch_run _ _ ?w = _ => assert (Hl : leaked w) end.
  { split_and!; simpl; [done|by apply (hub_ok_subscribe _ h)|set_solver]. }
  destruct (leaked_run _ _ _ _ Hl Hr) as [(_ & Hh' & Hid) Ei]. simpl in Ei. rewrite Ei in Hid.
  split; [done|]. apply Hh'. set_solver.
Qed.

(** The replay of a list: all events reach the channel when there is room. *)
Lemma replay_sends r evs w buf :
  w_pc w = Replaying evs -> hub_chans (w_hub w) !! w_id w = Some (Chan buf false) ->
  length buf + length evs <= watch_cap ->
  exists w', watch_run r (replicate (length evs) Send) w = Some w' /\
    hub_chans (w_hub w') !! w_id w' = Some (Chan (buf ++ evs) false) /\ w_id w' = w_id w.
Proof.
  revert w buf. induction evs as [|e evs IH]; intros w buf Hpc Hc Hlen; cbn [length replicate watch_run].
  { exists w. by rewrite app_nil_r. }
  unfold watch_step. rewrite Hpc. unfold send. rewrite Hc. cbn [ch_closed ch_buf negb andb].
  cbn [length] in Hlen. destruct (Nat.ltb_spec (length buf) watch_cap); [|lia]. cbn [mbind option_bind].
  match goal with |- context [watch_run r _ ?w1] => destruct (IH w1 (buf ++ [e])) as (w' & E & Hc' & Ei) end.
  - done.
  - simpl. apply lookup_insert_eq.
  - rewrite length_app. simpl. lia.
  - exists w'. split; [exact E|]. by rewrite <- app_assoc in Hc'.
Qed.

Section Stale.
Context {F W N L : Type} `{FS F} `{PodEngines F W} `{TCP N}.
Context (TempDir : string).
Implicit Types (lm : LifecycleManager L) (h : Host F W N).

Lemma Terminate_publishes o lm h ns name mp :
  lm_pods lm !! podKey ns name = Some mp -> hub_ok watch_cap (lm_watchers lm, ∅) ->
  exists lm' h' ev, Terminate TempDir o lm h ns name = ((lm', h'), Some (Ok tt)) /\
    lm_pods lm' = delete (podKey ns name) (lm_pods lm) /\ weType ev = "DELETED" /\
    podMeta (mp_pod mp) = set_ResourceVersion (podMeta (weObject ev)) (ResourceVersion (podMeta (mp_pod mp))) /\
    publish watch_cap o (lm_watchers lm) ev = Ok (lm_watchers lm').
Proof.
  intros Hmp Hh. unfold Terminate. rewrite Hmp. unfold emit, broadcast. cbn [lm_watchers set_pods].
  match goal with |- context [publish _ _ _ ?ev] => set (e := ev) end.
  destruct (publish_spec watch_cap o (lm_watchers lm) e (hub_ok_open _ _ Hh)) as (ws & E & _).
  rewrite E. eexists _, _, e. split; [reflexivity|]. split_and!; [done|done| |done].
  unfold e. simpl. by destruct (podMeta (mp_pod mp)).
Qed.

(** A pod that is deleted between the listing and the replay is announced again after
    its end: its [DELETED] comes first, the replayed [ADDED] is the last word of the
    watch on a pod that is gone. *)
Theorem watch_replays_deleted r lm h o op ns name mp :
  hub_ok watch_cap (lm_watchers lm, ∅) -> lm_pods lm !! podKey ns name = Some mp ->
  S (size (lm_pods lm)) <= watch_cap ->
  let evs := replay op (Watch lm).1 h in
  exists lm' h' ev w, Terminate TempDir o (Watch lm).1 h ns name = ((lm', h'), Some (Ok tt)) /\
    lm_pods lm' !! podKey ns name = None /\ weType ev = "DELETED" /\
    watch_run r ([ListPods evs; Publish o ev] ++ replicate (length evs) Send) (start_watch (lm_watchers lm)) = Some w /\
    hub_chans (w_hub w) !! w_id w = Some (Chan (ev :: evs) false) /\
    exists ev', ev' ∈ evs /\ weType ev' = "ADDED" /\ podMeta (weObject ev') = podMeta (mp_pod mp).
Proof.
  intros Hh Hmp Hsize evs.
  assert (Hh1 : hub_ok watch_cap (lm_watchers (Watch lm).1, ∅)) by (by apply (hub_ok_subscribe _ (lm_watchers lm))).
  destruct (Terminate_publishes o (Watch lm).1 h ns name mp Hmp Hh1) as (lm' & h' & ev & ET & Ep & Et & _ & EP).
  pose proof (publish_at watch_cap o _ _ ev (subscribe (lm_watchers lm)).2 [] Hh1 EP) as Hat.
  destruct Hat as [Hc _]; [simpl; set_solver|simpl; apply lookup_insert_eq|].
  assert (Elen : length evs = size (lm_pods lm)).
  { unfold evs, replay, ListActivePods. rewrite !length_fmap, length_shuffle, length_fmap.
    apply length_map_to_list. }
  set (w1 := set_watch (start_watch (lm_watchers lm)) (lm_watchers lm') (Replaying evs)).
  destruct (replay_sends r evs w1 [ev]) as (w & Er & Hw & _); [done|exact Hc|simpl; lia|].
  exists lm', h', ev, w. split_and!; [done|by rewrite Ep, lookup_delete_eq|done| |exact Hw|].
  - cbn [app watch_run watch_step w_pc start_watch set_watch mbind option_bind].
    change (w_hub _) with (lm_watchers (Watch lm).1). rewrite EP. exact Er.
  - exists (mkWatchEvent "ADDED" (set_podStatus (mp_pod mp) (status_or_empty (Watch lm).1 h
      (Namespace (podMeta (mp_pod mp))) (Name (podMeta (mp_pod mp)))))).
    split_and!; [|done|done]. unfold evs, replay, ListActivePods.
    apply list_elem_of_fmap_2, list_elem_of_fmap. exists mp. split; [done|]. apply elem_of_shuffle.
    apply (list_elem_of_fmap_2' snd _ (podKey ns name, mp)); [|done]. by apply elem_of_map_to_list.
Qed.
End Stale.

(** A watch of one pod that is running. *)
Definition ex_lm : LifecycleManager unit := mkLM {["default/web" := ex_managed "default" 30000 []]} empty_hub 1.
Definition ex_rq : Request := mkRequest "default" "" None (fun _ => "") "" true.
Definition ex_event (type : string) : WatchEvent := mkWatchEvent type (mp_pod (ex_managed "default" 30000 [])).

Lemma ex_empty_hub : hub_ok watch_cap (empty_hub (E := WatchEvent), ∅).
Proof. apply (hub_reach_ok watch_cap), ReachInit. Qed.

Lemma watch_in_order_witness :
  exists w, watch_run ex_rq [ListPods [ex_event "ADDED"]; Publish in_order (ex_event "MODIFIED"); Send; Take; Park]
      (start_watch empty_hub) = Some w /\
    exists buf sent pubs, hub_chans (w_hub w) !! w_id w = Some (Chan buf false) /\
      merge sent pubs (w_seen w ++ buf) /\ pubs = [ex_event "MODIFIED"].
Proof.
  eexists. split; [vm_compute; reflexivity|].
  edestruct (watch_in_order ex_rq empty_hub
    [ListPods [ex_event "ADDED"]; Publish in_order (ex_event "MODIFIED"); Send; Take; Park])
    as (buf & sent & pubs & Hc & Hm & _ & _ & _ & Hall).
  - exact ex_empty_hub.
  - by repeat constructor.
  - vm_compute. reflexivity.
  - exists buf, sent, pubs. split; [exact Hc|]. split; [exact Hm|]. apply Hall. vm_compute. lia.
Defined.

Lemma watch_replay_leaks_witness :
  exists w, watch_run ex_rq [ListPods [ex_event "ADDED"]; Cancel; Quit] (start_watch empty_hub) = Some w /\
    w_id w ∈ hub_subs (w_hub w).
Proof.
  destruct (watch_replay_leaks ex_rq empty_hub (ex_event "ADDED") [] ex_empty_hub) as (w & E & Hw).
  exists w. split; [exact E|]. apply (Hw [] w eq_refl).
Defined.

Lemma watch_replays_deleted_witness :
  exists lm' h' ev, Terminate "/tmp" in_order (Watch ex_lm).1 ex_host "default" "web" = ((lm', h'), Some (Ok tt)) /\
    lm_pods lm' !! "default/web" = None /\ weType ev = "DELETED".
Proof.
  destruct (watch_replays_deleted "/tmp" ex_rq ex_lm ex_host in_order in_order "default" "web"
    (ex_managed "default" 30000 []) ex_empty_hub eq_refl) as (lm' & h' & ev & w & E & Hn & Ht & _).
  - vm_compute. lia.
  - exists lm', h', ev. split; [exact E|]. by split.
Defined.
