(* ===== verification/Discovery.v ===== *)
(** * Discovery (src/discovery/endpoints.go) and routing

    The resources the server advertises, and the dispatch of a request to the handler
    its method and path are registered for ([Server.routes]).  Of [http.ServeMux] the
    part is modelled that the registered patterns use: literal segments and wildcards
    of one segment. *)

From S2P Require Import Prelude Types GoStrings Server.

(** ** What the server advertises *)

Record APIResource := mkAPIResource {
  arName : string;
  arNamespaced : bool;
  arKind : string;
  arVerbs : list string;
}.

Record APIResourceList := mkAPIResourceList {
  arlKind : string;
  arlGroupVersion : string;
  arlResources : list APIResource;
}.

Record APIGroupList := mkAPIGroupList { aglKind : string; aglAPIVersions : list string }.

(** What [json.Encode] is given when it is not a struct: a [map[string]interface{}]. *)
Inductive json :=
| JString (s : string)
| JArray (l : list json)
| JObject (fields : list (string * json)).

Definition HandleAPIRoot : APIGroupList := mkAPIGroupList "APIVersions" ["v1"].

Definition apps_version : json :=
  JObject [("groupVersion", JString "apps/v1"); ("version", JString "v1")].

Definition HandleAPIs : json := JObject
  [("kind", JString "APIGroupList");
   ("groups", JArray [JObject
     [("name", JString "apps"); ("versions", JArray [apps_version]);
      ("preferredVersion", apps_version)]])].

Definition HandleVersion : json := JObject
  [("major", JString "1"); ("minor", JString "29"); ("gitVersion", JString "v1.29.0");
   ("gitCommit", JString "3f7f50a30b0431868357879e68d37449c25f4ab3");
   ("gitTreeState", JString "clean"); ("buildDate", JString "2023-12-13T08:51:44Z");
   ("goVersion", JString "go1.21.5"); ("compiler", JString "gc");
   ("platform", JString "linux/amd64")].

Definition HandleOpenIDConfig : json := JObject
  [("issuer", JString "https://kubernetes.default.svc.cluster.local");
   ("jwks_uri", JString "https://kubernetes.default.svc.cluster.local/openid/v1/jwks");
   ("response_types_supported", JArray [JString "code"]);
   ("subject_types_supported", JArray [JString "public"]);
   ("id_token_signing_alg_values_supported", JArray [JString "RS256"])].

Definition HandleAPIV1 : APIResourceList := mkAPIResourceList "APIResourceList" "v1"
  [mkAPIResource "pods" true "Pod" ["create"; "delete"; "get"; "list"; "watch"];
   mkAPIResource "pods/log" true "Pod" ["get"];
   mkAPIResource "services" true "Service" ["create"; "delete"; "get"; "list"];
   mkAPIResource "configmaps" true "ConfigMap" ["create"; "delete"; "get"; "list"];
   mkAPIResource "secrets" true "Secret" ["create"; "delete"; "get"; "list"]].

Definition HandleAPIsAppsV1 : APIResourceList := mkAPIResourceList "APIResourceList" "apps/v1"
  [mkAPIResource "deployments" true "Deployment"
     ["create"; "delete"; "get"; "list"; "watch"; "update"];
   mkAPIResource "replicasets" true "ReplicaSet"
     ["create"; "delete"; "get"; "list"; "watch"; "update"]].

(** ** Dispatch *)

Inductive segment := Lit (s : string) | Wild (name : string).

Definition parse_segment (s : string) : segment :=
  match s with
  | String c rest => if Ascii.eqb c "{" then Wild (TrimSuffix rest "}") else Lit s
  | EmptyString => Lit s
  end.

Definition segments (path : string) : list string := tail (Split path "/").
Definition parse_pattern (p : string) : list segment := parse_segment <$> segments p.

(** The values of the wildcards of a pattern that matches. *)
Fixpoint match_segments (p : list segment) (path : list string) : option (list (string * string)) :=
  match p, path with
  | [], [] => Some []
  | Lit l :: p, s :: path => if String.eqb l s then match_segments p path else None
  | Wild n :: p, s :: path =>
      if String.eqb s "" then None else cons (n, s) <$> match_segments p path
  | _, _ => None
  end.

(** A pattern for [GET] also serves [HEAD]. *)
Definition method_matches (pattern method : string) : bool :=
  String.eqb pattern method || (String.eqb pattern "GET" && String.eqb method "HEAD").

Definition route_match (method path : string) (route : string * string * string)
    : option (string * list (string * string)) :=
  let '(m, pattern, handler) := route in
  if method_matches m method
  then pair handler <$> match_segments (parse_pattern pattern) (segments path)
  else None.

(** The handler of a request and the values of [PathValue]; [None] is [404] or [405]. *)
Definition dispatch (method path : string) : option (string * list (string * string)) :=
  head (omap (route_match method path) routes).

(** ** The routes do not overlap *)

Definition segs_overlap (a b : segment) : bool :=
  match a, b with Lit a, Lit b => String.eqb a b | _, _ => true end.

Fixpoint patterns_overlap (p q : list segment) : bool :=
  match p, q with
  | [], [] => true
  | a :: p, b :: q => segs_overlap a b && patterns_overlap p q
  | _, _ => false
  end.

Definition methods_overlap (m n : string) : bool := method_matches m n || method_matches n m.

Definition routes_overlap (a b : string * string * string) : bool :=
  methods_overlap a.1.1 b.1.1 && patterns_overlap (parse_pattern a.1.2) (parse_pattern b.1.2).

Lemma match_segments_overlap p q path a b :
  match_segments p path = Some a -> match_segments q path = Some b -> patterns_overlap p q = true.
Proof.
  revert q path a b. induction p as [|x p IH]; intros q [|s path] a b Ha Hb;
    destruct q as [|y q]; try done; try (by destruct x); try (by destruct y).
  simpl. apply andb_true_iff. split.
  - destruct x as [x|n], y as [y|m]; try done; simpl in *.
    destruct (String.eqb_spec x s), (String.eqb_spec y s); try done. apply String.eqb_eq. congruence.
  - assert (Hrest : forall z r c, match_segments (z :: r) (s :: path) = Some c ->
      is_Some (match_segments r path)).
    { intros z r c. destruct z; simpl; case_match; try done; destruct (match_segments r path); eauto. }
    destruct (Hrest _ _ _ Ha) as [a' Ha'], (Hrest _ _ _ Hb) as [b' Hb']. by eapply IH.
Qed.

Lemma route_match_overlap m path r1 r2 :
  is_Some (route_match m path r1) -> is_Some (route_match m path r2) -> routes_overlap r1 r2 = true.
Proof.
  destruct r1 as [[m1 p1] h1], r2 as [[m2 p2] h2]. unfold route_match, routes_overlap; simpl.
  intros [x Hx] [y Hy].
  destruct (method_matches m1 m) eqn:E1; [|done]. destruct (method_matches m2 m) eqn:E2; [|done].
  apply andb_true_iff. split.
  - unfold methods_overlap, method_matches in *.
    destruct (String.eqb_spec m1 m), (String.eqb_spec m2 m); subst; simpl in *;
      rewrite ?String.eqb_refl, ?E1, ?E2, ?orb_true_r; try done.
    apply andb_true_iff in E1 as [E1%String.eqb_eq _], E2 as [E2%String.eqb_eq _]. by subst.
  - destruct (match_segments (parse_pattern p1) _) eqn:M1; [|done].
    destruct (match_segments (parse_pattern p2) _) eqn:M2; [|done].
    by eapply match_segments_overlap.
Qed.

(** No two different entries of a list satisfy [f]. *)
Fixpoint pairwise {A} (f : A -> A -> bool) (l : list A) : bool :=
  match l with
  | [] => true
  | x :: l => forallb (fun y => negb (f x y)) l && pairwise f l
  end.

Lemma omap_at_most_one {A B} (g : A -> option B) (f : A -> A -> bool) l :
  (forall x y, is_Some (g x) -> is_Some (g y) -> f x y = true) -> pairwise f l = true ->
  length (omap g l) <= 1.
Proof.
  intros Hf. induction l as [|x l IH]; [simpl; lia|]. cbn [pairwise].
  intros [Hx Hl]%andb_true_iff. destruct (g x) as [b|] eqn:E.
  - assert (Hn : omap g l = []).
    { destruct (omap g l) as [|c cs] eqn:Eo; [done|].
      assert (Hc : c ∈ omap g l) by (rewrite Eo; left).
      apply list_elem_of_omap in Hc as (y & Hy & Ey).
      apply forallb_forall with (x := y) in Hx; [|by apply list_elem_of_In].
      rewrite (Hf x y) in Hx by eauto. done. }
    change (omap g (x :: l)) with (match g x with Some b => b :: omap g l | None => omap g l end).
    rewrite E, Hn. done.
  - change (omap g (x :: l)) with (match g x with Some b => b :: omap g l | None => omap g l end).
    rewrite E. by apply IH.
Qed.

Lemma routes_pairwise : pairwise routes_overlap routes = true.
Proof. vm_compute. reflexivity. Qed.

(** The registration of the routes cannot conflict (which would panic), and a
    request has at most one handler. *)
Theorem routes_unambiguous method path :
  pairwise routes_overlap routes = true /\ length (omap (route_match method path) routes) <= 1.
Proof.
  split; [apply routes_pairwise|].
  apply (omap_at_most_one _ routes_overlap); [apply route_match_overlap|apply routes_pairwise].
Qed.

Lemma dispatch_route method path r x :
  r ∈ routes -> route_match method path r = Some x -> dispatch method path = Some x.
Proof.
  intros Hr Hm. unfold dispatch.
  assert (Hl : length (omap (route_match method path) routes) <= 1)
    by (apply (omap_at_most_one _ routes_overlap); [apply route_match_overlap|apply routes_pairwise]).
  assert (Hx : x ∈ omap (route_match method path) routes) by (apply list_elem_of_omap; eauto).
  destruct (omap _ _) as [|y [|z l]]; simpl in *; [by apply elem_of_nil in Hx| |lia].
  by apply list_elem_of_singleton in Hx as ->.
Qed.

(** ** The advertised verbs are served *)

(** What a client reads in a reply. *)
Definition jfield (k : string) (j : json) : option json :=
  match j with JObject fs => snd <$> List.find (fun kv => String.eqb kv.1 k) fs | _ => None end.
Definition jitems (j : option json) : list json :=
  match j with Some (JArray l) => l | _ => [] end.
Definition jtext (j : option json) : list string :=
  match j with Some (JString s) => [s] | _ => [] end.

(** The versions of the groups of [/apis]. *)
Definition group_versions (j : json) : list string :=
  g ← jitems (jfield "groups" j); v ← jitems (jfield "versions" g); jtext (jfield "groupVersion" v).

(** The method of a verb and what it adds to the path of the collection. *)
Definition verb_request (verb : string) : option (string * string) :=
  match verb with
  | "create" => Some ("POST", "")
  | "list" | "watch" => Some ("GET", "")
  | "get" => Some ("GET", "/n")
  | "update" => Some ("PUT", "/n")
  | "delete" => Some ("DELETE", "/n")
  | _ => None
  end.

(** The request for a verb on a resource, in the namespace [d], on the object [n]. *)
Definition resource_path (groupVersion : string) (res : string) (suffix : string) : string :=
  (if String.eqb groupVersion "v1" then "/api/v1" else "/apis/" +:+ groupVersion) +:+
  match Split res "/" with
  | [res; sub] => "/namespaces/d/" +:+ res +:+ suffix +:+ "/" +:+ sub
  | _ => "/namespaces/d/" +:+ res +:+ suffix
  end.

Definition verb_served (gv : string) (r : APIResource) (verb : string) : bool :=
  match verb_request verb with
  | Some (method, suffix) =>
      match dispatch method (resource_path gv (arName r) suffix) with Some _ => true | None => false end
  | None => false
  end.

(** Discovery and routing agree: every verb advertised for a resource, and every
    group version, has a handler. *)
Theorem advertised_served rl r verb :
  rl ∈ [HandleAPIV1; HandleAPIsAppsV1] -> r ∈ arlResources rl -> verb ∈ arVerbs r ->
  verb_served (arlGroupVersion rl) r verb = true /\
  Forall (fun v => is_Some (dispatch "GET" ("/api/" +:+ v))) (aglAPIVersions HandleAPIRoot) /\
  Forall (fun v => is_Some (dispatch "GET" ("/apis/" +:+ v))) (group_versions HandleAPIs) /\
  arlGroupVersion <$> [HandleAPIV1; HandleAPIsAppsV1] =
    aglAPIVersions HandleAPIRoot ++ group_versions HandleAPIs.
Proof.
  intros Hrl Hr Hv. split_and!; [|repeat constructor; by eexists..|reflexivity].
  assert (Hall : forallb (fun rl => forallb (fun r =>
    forallb (verb_served (arlGroupVersion rl) r) (arVerbs r)) (arlResources rl))
    [HandleAPIV1; HandleAPIsAppsV1] = true) by (vm_compute; reflexivity).
  apply list_elem_of_In in Hrl, Hr, Hv.
  eapply forallb_forall in Hall; [|exact Hrl]. eapply forallb_forall in Hall; [|exact Hr].
  eapply forallb_forall in Hall; [|exact Hv]. exact Hall.
Qed.

Lemma advertised_served_witness :
  verb_served "apps/v1" (mkAPIResource "replicasets" true "ReplicaSet"
    ["create"; "delete"; "get"; "list"; "watch"; "update"]) "update" = true.
Proof.
  refine (proj1 (advertised_served HandleAPIsAppsV1 (mkAPIResource "replicasets" true "ReplicaSet"
    ["create"; "delete"; "get"; "list"; "watch"; "update"]) "update" _ _ _)).
  - right. left.
  - right. left.
  - do 5 right. left.
Defined.
