(* ===== verification/Api.v ===== *)
(** * Serving a request (src/api/server.go, NewServer; src/api/handler.go)

    A request has a method, a path, a query, a body and what its connection can do.
    [serve] is the [ServeMux] of [NewServer]: it finds the route ([Discovery.dispatch]),
    hands the values of the wildcards to the handler as [PathValue], and runs it on
    the server.  What a handler draws from outside (the clock, a UUID, the orders of
    its ranges) is an argument. *)

From S2P Require Import Prelude Types GoStrings Selector Store Stores PortPool Hub SvcProxy Path Volume Lifecycle Manifest Deployment Table Server Handlers Discovery.

Record http_request := mkHttp {
  hr_method : string;
  hr_path : string;
  hr_body : option bytes;
  hr_query : string -> string;
  hr_accept : string;
  hr_stream : bool;
}.

(** The reply of a handler of the server or of discovery; [NoRoute] is the [404] or
    [405] of the [ServeMux] itself. *)
Inductive response :=
| Reply (rp : reply)
| Groups (l : APIGroupList)
| Resources (l : APIResourceList)
| Document (j : json)
| NoRoute.

(** [r.PathValue(name)]: empty when the pattern has no such wildcard. *)
Fixpoint PathValue (values : list (string * string)) (name : string) : string :=
  match values with
  | [] => ""
  | (n, v) :: values => if String.eqb n name then v else PathValue values name
  end.

Definition request_of (rq : http_request) (values : list (string * string)) : Request :=
  mkRequest (PathValue values "ns") (PathValue values "name") (hr_body rq) (hr_query rq)
    (hr_accept rq) (hr_stream rq).

(** What the handlers draw. *)
Record api_draw := mkApiDraw {
  ad_env : env_draw;
  ad_watchers : shuffle Z;
  ad_pods : shuffle Pod;
  ad_services : shuffle Service;
  ad_configmaps : shuffle ConfigMap;
  ad_secrets : shuffle Secret;
  ad_deployments : shuffle Deployment;
  ad_replicasets : shuffle ReplicaSet;
  ad_owned : ReplicaSet -> shuffle Pod;
}.

Section Api.
Context {F W N L T : Type} `{FS F} `{PodEngines F W} `{TCP N} `{Bolt T}.
Context `{Codec Pod, Codec Service, Codec ConfigMap, Codec Secret, Codec Deployment, Codec ReplicaSet}.
Context `{Decoder Pod, Decoder Service, Decoder ConfigMap, Decoder Secret}.
Context `{Texts} `{JsonTexts} `{UnicodeCase}.
Context (TempDir : string) (NewLog : L).
Context (ReadAll : L -> bytes) (TailLines : L -> Z -> bytes).
Abbreviation server := (Server F W N L T).
Abbreviation handler := (api_draw -> server -> Request -> server * res launch_error response).

(** A handler that answers through [writeJSON] and its kin, and one of discovery. *)
Definition replying (f : api_draw -> server -> Request -> server * res launch_error reply) : handler :=
  fun d sv r => match f d sv r with
                | (sv, Ok rp) => (sv, Ok (Reply rp))
                | (sv, Err e) => (sv, Err e)
                | (sv, Panic w) => (sv, Panic w)
                end.
Definition constant (resp : response) : handler := fun _ sv _ => (sv, Ok resp).

Definition now_of (d : api_draw) : Time := d_now (ad_env d).

(** The handlers [NewServer] registers, by the names of [Server.routes]. *)
Definition handler_table : list (string * handler) :=
  [("handleCreatePod", replying (fun d => handleCreatePod TempDir NewLog (ad_env d)));
   ("handleGetPodLogs", replying (fun _ => handleGetPodLogs ReadAll TailLines));
   ("handleGetPod", replying (fun _ => handleGetPod));
   ("handleListPods", replying (fun d => handleListPods (now_of d) (ad_pods d)));
   ("handleDeletePod", replying (fun d => handleDeletePod TempDir (ad_watchers d)));
   ("handleCreateService", replying (fun d => handleCreateService (ad_env d)));
   ("handleListServices", replying (fun d => handleListServices (now_of d) (ad_services d)));
   ("handleGetService", replying (fun _ => handleGetService));
   ("handleDeleteService", replying (fun _ => handleDeleteService));
   ("handleCreateConfigMap", replying (fun d => handleCreateConfigMap (ad_env d)));
   ("handleListConfigMaps", replying (fun d => handleListConfigMaps (now_of d) (ad_configmaps d)));
   ("handleGetConfigMap", replying (fun _ => handleGetConfigMap));
   ("handleDeleteConfigMap", replying (fun _ => handleDeleteConfigMap));
   ("handleCreateSecret", replying (fun d => handleCreateSecret (ad_env d)));
   ("handleListSecrets", replying (fun d => handleListSecrets (now_of d) (ad_secrets d)));
   ("handleGetSecret", replying (fun _ => handleGetSecret));
   ("handleDeleteSecret", replying (fun _ => handleDeleteSecret));
   ("handleCreateDeployment", replying (fun d => handleCreateDeployment (ad_env d)));
   ("handleListDeployments", replying (fun d => handleListDeployments (now_of d) (ad_deployments d)));
   ("handleGetDeployment", replying (fun _ => handleGetDeployment));
   ("handleUpdateDeployment", replying (fun d => handleUpdateDeployment (ad_env d)));
   ("handleDeleteDeployment",
     replying (fun d => handleDeleteDeployment TempDir (ad_watchers d) (ad_replicasets d) (ad_owned d)));
   ("handleCreateReplicaSet", replying (fun d => handleCreateReplicaSet (ad_env d)));
   ("handleListReplicaSets", replying (fun d => handleListReplicaSets (now_of d) (ad_replicasets d)));
   ("handleGetReplicaSet", replying (fun _ => handleGetReplicaSet));
   ("handleUpdateReplicaSet", replying (fun d => handleUpdateReplicaSet (ad_env d)));
   ("handleDeleteReplicaSet", replying (fun d => handleDeleteReplicaSet TempDir (ad_watchers d) (ad_pods d)));
   ("HandleAPIRoot", constant (Groups HandleAPIRoot));
   ("HandleAPIV1", constant (Resources HandleAPIV1));
   ("HandleAPIs", constant (Document HandleAPIs));
   ("HandleAPIsAppsV1", constant (Resources HandleAPIsAppsV1));
   ("HandleVersion", constant (Document HandleVersion));
   ("HandleOpenIDConfig", constant (Document HandleOpenIDConfig))].

Definition handler_of (name : string) : option handler :=
  snd <$> List.find (fun nh => String.eqb nh.1 name) handler_table.

(** The request of a client, from the wire to the reply. *)
Definition serve (d : api_draw) (sv : server) (rq : http_request)
    : server * res launch_error response :=
  match dispatch (hr_method rq) (hr_path rq) with
  | None => (sv, Ok NoRoute)
  | Some (name, values) =>
      match handler_of name with
      | Some h => h d sv (request_of rq values)
      | None => (sv, Ok NoRoute)
      end
  end.

(** ** Every route has its handler *)

Lemma handler_table_names : handler_table.*1 = routes.*2.
Proof. reflexivity. Qed.

Lemma handler_of_elem name h : handler_of name = Some h -> (name, h) ∈ handler_table.
Proof.
  unfold handler_of. destruct (List.find _ _) as [[n k]|] eqn:E; [|done]. intros [= <-].
  apply List.find_some in E as [Hin En]. apply String.eqb_eq in En. simpl in En. subst n.
  by apply list_elem_of_In.
Qed.

Lemma handler_of_route r : r ∈ routes -> is_Some (handler_of r.2).
Proof.
  intros Hr. unfold handler_of. destruct (List.find _ _) as [nh|] eqn:E; [by eexists|].
  assert (Hin : r.2 ∈ handler_table.*1).
  { rewrite handler_table_names. by apply (list_elem_of_fmap_2 snd). }
  apply list_elem_of_fmap in Hin as ([n h] & En & Hin).
  pose proof (List.find_none _ _ E (n, h) (proj1 (list_elem_of_In _ _) Hin)) as Hf.
  simpl in *. by rewrite En, String.eqb_refl in Hf.
Qed.

(** What [serve] does is what the handler of the one route that matches does. *)
Lemma serve_route d sv rq route values :
  route ∈ routes -> route_match (hr_method rq) (hr_path rq) route = Some (route.2, values) ->
  exists h, (route.2, h) ∈ handler_table /\ serve d sv rq = h d sv (request_of rq values).
Proof.
  intros Hr Hm. unfold serve. rewrite (dispatch_route _ _ _ _ Hr Hm).
  destruct (handler_of_route route Hr) as [h Eh]. rewrite Eh. exists h. split; [|done].
  by apply handler_of_elem.
Qed.

(** To show something of every request it is enough to show it of the handlers. *)
Lemma serve_cases (P : server -> server * res launch_error response -> Prop) d sv rq :
  P sv (sv, Ok NoRoute) ->
  (forall name h r, (name, h) ∈ handler_table -> P sv (h d sv r)) -> P sv (serve d sv rq).
Proof.
  intros Hno Hh. unfold serve. destruct (dispatch _ _) as [[name values]|]; [|done].
  destruct (handler_of name) as [h|] eqn:E; [|done].
  eapply Hh. by apply handler_of_elem.
Qed.
End Api.
