(* ===== verification/Cli.v ===== *)
(** * The command line client (src/main.go)

    Parsing the arguments, finding the endpoint of a resource, applying manifests,
    printing tables and logs.  The connection to the server is the interface
    [Client], the YAML decoder the interface [ManifestYaml]; what a command prints is
    the list of its lines. *)

From S2P Require Import Prelude Types GoStrings Path Store Health Table Server Discovery.

(** ** Arguments *)

(** The loop of [runCli]; a flag at the end without its value is dropped. *)
Fixpoint cli_flags (args : list string) (serverAddr namespace : string) (cleanArgs : list string)
    : string * string * list string :=
  match args with
  | [] => (serverAddr, namespace, cleanArgs)
  | arg :: rest =>
      if String.eqb arg "-s" || String.eqb arg "--server" then
        match rest with
        | v :: rest => cli_flags rest v namespace cleanArgs
        | [] => (serverAddr, namespace, cleanArgs)
        end
      else if HasPrefix arg "-s=" then cli_flags rest (TrimPrefix arg "-s=") namespace cleanArgs
      else if HasPrefix arg "--server=" then
        cli_flags rest (TrimPrefix arg "--server=") namespace cleanArgs
      else if String.eqb arg "-n" || String.eqb arg "--namespace" then
        match rest with
        | v :: rest => cli_flags rest serverAddr v cleanArgs
        | [] => (serverAddr, namespace, cleanArgs)
        end
      else if HasPrefix arg "-n=" then cli_flags rest serverAddr (TrimPrefix arg "-n=") cleanArgs
      else if HasPrefix arg "--namespace=" then
        cli_flags rest serverAddr (TrimPrefix arg "--namespace=") cleanArgs
      else cli_flags rest serverAddr namespace (cleanArgs ++ [arg])
  end.

Inductive command :=
| CmdApply (args : list string)
| CmdGet (args : list string)
| CmdDelete (args : list string)
| CmdLogs (args : list string)
| CmdUnknown (cmd : string)
| CmdUsage.

(** The [switch] on the first word. *)
Definition command_of (cleanArgs : list string) : command :=
  match cleanArgs with
  | [] => CmdUsage
  | "apply" :: args => CmdApply args
  | "get" :: args => CmdGet args
  | "delete" :: args => CmdDelete args
  | "logs" :: args => CmdLogs args
  | cmd :: _ => CmdUnknown cmd
  end.

(** [runCli] up to the call of the command: the address, the namespace, the command. *)
Definition runCli (args : list string) : string * string * command :=
  let '(serverAddr, namespace, cleanArgs) := cli_flags args "" "" [] in
  let serverAddr := if String.eqb serverAddr "" then "http://localhost:8080" else serverAddr in
  let namespace := if String.eqb namespace "" then "default" else namespace in
  (TrimSuffix serverAddr "/", namespace, command_of cleanArgs).

(** [main]: the words that start the daemon. *)
Definition starts_server (args : list string) : bool :=
  match args with
  | a :: _ => existsb (String.eqb a) ["server"; "daemon"; "apiserver"; "start"]
  | [] => false
  end.

(** ** Endpoints *)

(** The group prefix and the resource of the [switch] on the kind. *)
Definition endpoint_kind (kind : string) : option (string * string) :=
  if existsb (String.eqb kind) ["pod"; "pods"; "po"] then Some ("/api/v1", "pods")
  else if existsb (String.eqb kind) ["service"; "services"; "svc"] then Some ("/api/v1", "services")
  else if existsb (String.eqb kind) ["configmap"; "configmaps"; "cm"] then Some ("/api/v1", "configmaps")
  else if existsb (String.eqb kind) ["secret"; "secrets"] then Some ("/api/v1", "secrets")
  else if existsb (String.eqb kind) ["deployment"; "deployments"; "deploy"] then
    Some ("/apis/apps/v1", "deployments")
  else if existsb (String.eqb kind) ["replicaset"; "replicasets"; "rs"] then
    Some ("/apis/apps/v1", "replicasets")
  else None.

(** The path of an endpoint, after the address of the server. *)
Definition endpoint_path (group resource namespace name : string) : string :=
  group +:+ "/namespaces/" +:+ namespace +:+ "/" +:+ resource +:+
  (if String.eqb name "" then "" else "/" +:+ name).

(** [None] is the error [unknown resource kind]. *)
Definition getEndpoint `{UnicodeCase} (serverAddr namespace kind name : string) : option string :=
  match endpoint_kind (ToLower kind) with
  | Some (group, resource) => Some (serverAddr +:+ endpoint_path group resource namespace name)
  | None => None
  end.

(** ** The connection *)

(** A request (method, URL, [Accept] header, body) and the status code and body of its
    reply, [None] if it fails; the message of a [StatusResponse]. *)
Class Client (H : Type) := {
  http_do : H -> string -> string -> string -> bytes -> H * option (Z * bytes);
  status_message : bytes -> string;
}.

(** [rawManifest] and the conversion to JSON; [None] is an error of either step. *)
Record rawManifest := mkRaw {
  rawAPIVersion : string; rawKind : string; rawName : string; rawNamespace : string }.
Class ManifestYaml := {
  yaml_raw : bytes -> option rawManifest;
  yaml_to_json : bytes -> option bytes;
}.

(** The message of a reply that is not a success. *)
Definition reply_message {H} `{Client H} (body : bytes) : string :=
  if String.eqb (status_message body) "" then string_of body else status_message body.

(** ** [apply] *)

Fixpoint apply_file (args : list string) : string :=
  match args with
  | [] => ""
  | arg :: rest =>
      if String.eqb arg "-f" || String.eqb arg "--file" then
        match rest with v :: _ => v | [] => "" end
      else if HasPrefix arg "-f=" then TrimPrefix arg "-f="
      else if HasPrefix arg "--file=" then TrimPrefix arg "--file="
      else apply_file rest
  end.

Definition doc_separator : string := String "010" "---".

Definition splitYAML (data : string) : list string :=
  List.filter (fun part => negb (String.eqb part "")) (TrimSpace <$> Split data doc_separator).

Inductive apply_outcome :=
| ParseFailed
| IncompleteManifest
| UnknownKind (kind : string)
| ConnectionFailed
| Applied (kind name : string)
| Refused (kind name message : string) (code : Z).

(** How a command ends: normally, with [os.Exit(1)], or in a run-time panic. *)
Inductive exit_status (A : Type) := Done (a : A) | Exit1 | Crash.
Arguments Done {A} a.
Arguments Exit1 {A}.
Arguments Crash {A}.

Section Commands.
Context {H : Type} `{Client H} `{ManifestYaml} `{UnicodeCase}.

(** The body of the loop over the documents. *)
Definition apply_doc (h : H) (serverAddr namespace : string) (doc : bytes) : H * apply_outcome :=
  match yaml_raw doc with
  | None => (h, ParseFailed)
  | Some raw =>
      if String.eqb (rawAPIVersion raw) "" || String.eqb (rawKind raw) "" || String.eqb (rawName raw) ""
      then (h, IncompleteManifest)
      else
        let ns := if String.eqb (rawNamespace raw) "" then namespace else rawNamespace raw in
        match yaml_to_json doc with
        | None => (h, ParseFailed)
        | Some jsonData =>
            match getEndpoint serverAddr ns (rawKind raw) "" with
            | None => (h, UnknownKind (ToLower (rawKind raw)))
            | Some url =>
                match http_do h "POST" url "" jsonData with
                | (h, None) => (h, ConnectionFailed)
                | (h, Some (code, body)) =>
                    if (code =? 201)%Z || (code =? 200)%Z
                    then (h, Applied (ToLower (rawKind raw)) (rawName raw))
                    else (h, Refused (ToLower (rawKind raw)) (rawName raw) (reply_message body) code)
                end
            end
        end
  end.

(** Every document is tried; a failed one does not stop the others. *)
Fixpoint apply_docs (h : H) (serverAddr namespace : string) (docs : list string)
    : H * list apply_outcome :=
  match docs with
  | [] => (h, [])
  | doc :: docs =>
      let '(h, r) := apply_doc h serverAddr namespace (bytes_of doc) in
      let '(h, rs) := apply_docs h serverAddr namespace docs in
      (h, r :: rs)
  end.

(** [handleApply]; [readFile] is [os.ReadFile]. *)
Definition handleApply (readFile : string -> option bytes) (h : H) (serverAddr namespace : string)
    (args : list string) : H * exit_status (list apply_outcome) :=
  if String.eqb (apply_file args) "" then (h, Exit1)
  else match readFile (apply_file args) with
       | None => (h, Exit1)
       | Some data =>
           let '(h, rs) := apply_docs h serverAddr namespace (splitYAML (string_of data)) in
           (h, Done rs)
       end.

(** ** [delete] *)

Inductive delete_outcome := Deleted (kind name : string) | DeleteFailed (message : string) (code : Z).

Definition handleDelete (h : H) (serverAddr namespace : string) (args : list string)
    : H * exit_status delete_outcome :=
  match args with
  | resourceType :: name :: _ =>
      match getEndpoint serverAddr namespace resourceType name with
      | None => (h, Exit1)
      | Some url =>
          match http_do h "DELETE" url "" [] with
          | (h, None) => (h, Exit1)
          | (h, Some (code, body)) =>
              if (code =? 200)%Z then (h, Done (Deleted (ToLower resourceType) name))
              else (h, Done (DeleteFailed (reply_message body) code))
          end
      end
  | _ => (h, Exit1)
  end.
End Commands.

(** ** Printing a table *)

(** A cell after its trip through JSON: [%v] of a number below [10^21] is its digits. *)
Definition cell_text (c : cell) : string := match c with CStr s => s | CInt z => Itoa z end.

(** The widest text of each column; a cell beyond the columns is an index out of
    range ([None]). *)
Fixpoint widen (widths : list nat) (cells : list cell) : option (list nat) :=
  match widths, cells with
  | widths, [] => Some widths
  | w :: widths, c :: cells => cons (Nat.max w (String.length (cell_text c))) <$> widen widths cells
  | [], _ :: _ => None
  end.

Fixpoint widen_rows (widths : list nat) (rows : list TableRow) : option (list nat) :=
  match rows with
  | [] => Some widths
  | row :: rows => match widen widths (Cells row) with
                   | Some widths => widen_rows widths rows
                   | None => None
                   end
  end.

Fixpoint spaces (n : nat) : string := match n with O => "" | S n => String " " (spaces n) end.

(** The characters of a text in UTF-8, which what comes out of JSON always is: the bytes
    that do not continue a character. *)
Fixpoint rune_count (s : string) : nat :=
  match s with
  | EmptyString => 0
  | String c s =>
      (if ((128 <=? code c)%N && (code c <? 192)%N)%bool then 0 else 1) + rune_count s
  end.

(** [%-*s] followed by three spaces; the padding counts characters, the widths bytes. *)
Definition padded (w : nat) (s : string) : string :=
  s +:+ spaces (w - rune_count s) +:+ "   ".

Definition table_line (widths : list nat) (texts : list string) : string :=
  foldr String.append "" (zip_with padded widths texts).

Definition print_table `{UnicodeCase} (t : Table) : option (list string) :=
  match ColumnDefinitions t with
  | [] => Some ["No resources found."]
  | cols =>
      match widen_rows ((fun c => String.length (colName c)) <$> cols) (Rows t) with
      | None => None
      | Some widths =>
          Some (table_line widths ((fun c => ToUpper (colName c)) <$> cols) ::
                ((fun row => table_line widths (cell_text <$> Cells row)) <$> Rows t))
      end
  end.

(** ** [get] *)

(** [json.Indent] and the decoding of a table. *)
Class ReplyJson := {
  json_indent : bytes -> option string;
  decode_table : bytes -> option Table;
}.

Definition table_accept : string := "application/json;as=Table;v=v1;g=meta.k8s.io".

Definition handleGet {H} `{Client H} `{ReplyJson} `{UnicodeCase} (h : H) (serverAddr namespace : string)
    (args : list string) : H * exit_status (list string) :=
  match args with
  | [] => (h, Exit1)
  | resourceType :: rest =>
      let name := default "" (head rest) in
      match getEndpoint serverAddr namespace resourceType name with
      | None => (h, Exit1)
      | Some url =>
          match http_do h "GET" url (if String.eqb name "" then table_accept else "") [] with
          | (h, None) => (h, Exit1)
          | (h, Some (code, body)) =>
              if negb (code =? 200)%Z then (h, Exit1)
              else if negb (String.eqb name "") then
                (h, Done [default (string_of body) (json_indent body)])
              else
                match decode_table body with
                | None => (h, Done [string_of body])
                | Some table =>
                    match print_table table with
                    | Some lines => (h, Done lines)
                    | None => (h, Crash)
                    end
                end
          end
      end
  end.

(** ** [logs] *)

Record log_flags := mkLogFlags {
  lf_pod : string; lf_selector : string; lf_follow : bool; lf_tail : string; lf_all : bool }.

(** [None] is an unknown flag or a second pod name. *)
Fixpoint logs_args (args : list string) (f : log_flags) : option log_flags :=
  match args with
  | [] => Some f
  | arg :: rest =>
      let '(mkLogFlags pod sel follow tail all) := f in
      if String.eqb arg "-f" || String.eqb arg "--follow" then
        logs_args rest (mkLogFlags pod sel true tail all)
      else if HasPrefix arg "--tail=" then
        logs_args rest (mkLogFlags pod sel follow (TrimPrefix arg "--tail=") all)
      else if String.eqb arg "--tail" then
        match rest with
        | v :: rest => logs_args rest (mkLogFlags pod sel follow v all)
        | [] => Some f
        end
      else if String.eqb arg "-l" || String.eqb arg "--selector" then
        match rest with
        | v :: rest => logs_args rest (mkLogFlags pod v follow tail all)
        | [] => Some f
        end
      else if HasPrefix arg "-l=" then
        logs_args rest (mkLogFlags pod (TrimPrefix arg "-l=") follow tail all)
      else if HasPrefix arg "--selector=" then
        logs_args rest (mkLogFlags pod (TrimPrefix arg "--selector=") follow tail all)
      else if String.eqb arg "--all" then logs_args rest (mkLogFlags pod sel follow tail true)
      else if HasPrefix arg "-" then None
      else if String.eqb pod "" then logs_args rest (mkLogFlags arg sel follow tail all)
      else None
  end.

Definition no_log_flags : log_flags := mkLogFlags "" "" false "" false.

(** The request for the pods to read from, when no pod is named. *)
Definition pods_url (serverAddr namespace : string) (f : log_flags) : string :=
  serverAddr +:+ "/api/v1/namespaces/" +:+ namespace +:+ "/pods" +:+
  (if String.eqb (lf_selector f) "" then ""
   else "?labelSelector=" +:+ ReplaceAll (lf_selector f) " " "").

Inductive log_targets := NamedPod (name : string) | ListedPods (url : string) | NoTarget.

Definition logs_target (serverAddr namespace : string) (f : log_flags) : log_targets :=
  if negb (String.eqb (lf_pod f) "") then NamedPod (lf_pod f)
  else if negb (String.eqb (lf_selector f) "") || lf_all f then
    ListedPods (pods_url serverAddr namespace f)
  else NoTarget.

Definition log_url (serverAddr namespace pod : string) (f : log_flags) : string :=
  let params := (if lf_follow f then ["follow=true"] else []) ++
    (if String.eqb (lf_tail f) "" then [] else ["tailLines=" +:+ lf_tail f]) in
  serverAddr +:+ "/api/v1/namespaces/" +:+ namespace +:+ "/pods/" +:+ pod +:+ "/log" +:+
  match params with [] => "" | _ => "?" +:+ Join params "&" end.

Definition escape (s : string) : string := String "027" s.
Definition colors : list string :=
  escape <$> ["[32m"; "[33m"; "[34m"; "[35m"; "[36m"; "[91m"; "[92m"; "[93m"; "[94m"; "[95m"; "[96m"].

(** The prefix of the lines of the pod number [idx] of [count]. *)
Definition color_prefix (count idx : nat) (pod : string) : string :=
  if (1 <? count)%nat then
    default "" (colors !! (idx mod length colors)) +:+ "[" +:+ pod +:+ "] " +:+ escape "[0m"
  else "".

(** The loop over [ReadString('\n')]: each line of the reply after the prefix, the
    last one also when it has no newline. *)
Fixpoint prefix_lines (prefix : string) (at_start : bool) (body : string) : string :=
  match body with
  | EmptyString => ""
  | String c rest =>
      (if at_start then prefix else "") +:+ String c (prefix_lines prefix (Ascii.eqb c "010") rest)
  end.

(** ** Arguments in any order *)

Inductive flag_form := Short | Long | ShortEq | LongEq.

Definition render_flag (short long : string) (form : flag_form) (v : string) : list string :=
  match form with
  | Short => [short; v]
  | Long => [long; v]
  | ShortEq => [short +:+ "=" +:+ v]
  | LongEq => [long +:+ "=" +:+ v]
  end.

(** A command line as a user thinks of it. *)
Inductive cli_item :=
| ServerFlag (form : flag_form) (v : string)
| NamespaceFlag (form : flag_form) (v : string)
| Word (w : string).

Definition render_item (i : cli_item) : list string :=
  match i with
  | ServerFlag form v => render_flag "-s" "--server" form v
  | NamespaceFlag form v => render_flag "-n" "--namespace" form v
  | Word w => [w]
  end.

Definition item_server (i : cli_item) : option string :=
  match i with ServerFlag _ v => Some v | _ => None end.
Definition item_namespace (i : cli_item) : option string :=
  match i with NamespaceFlag _ v => Some v | _ => None end.
Definition item_word (i : cli_item) : option string :=
  match i with Word w => Some w | _ => None end.

(** A word that the parser does not take for one of the two flags. *)
Definition plain_word (w : string) : bool :=
  forallb (fun f => negb (String.eqb w f)) ["-s"; "--server"; "-n"; "--namespace"] &&
  forallb (fun f => negb (HasPrefix w f)) ["-s="; "--server="; "-n="; "--namespace="].

Definition item_ok (i : cli_item) : bool :=
  match i with Word w => plain_word w | _ => true end.

Lemma drop_string_app p v : drop_string (String.length p) (p +:+ v) = v.
Proof. induction p as [|c p IH]; [by destruct v|]. exact IH. Qed.

Lemma TrimPrefix_app p v : TrimPrefix (p +:+ v) p = v.
Proof. unfold TrimPrefix. by rewrite HasPrefix_app, drop_string_app. Qed.

Lemma cli_flags_item i rest s n clean :
  item_ok i = true ->
  cli_flags (render_item i ++ rest) s n clean =
    cli_flags rest (default s (item_server i)) (default n (item_namespace i))
      (clean ++ option_list (item_word i)).
Proof.
  intros Hi. destruct i as [[] v|[] v|w]; cbn [item_server item_namespace item_word option_list];
    rewrite ?app_nil_r; try reflexivity.
  - change (render_item (ServerFlag ShortEq v)) with ["-s=" +:+ v]. cbn [app cli_flags].
    rewrite HasPrefix_app, TrimPrefix_app. reflexivity.
  - change (render_item (ServerFlag LongEq v)) with ["--server=" +:+ v]. cbn [app cli_flags].
    rewrite HasPrefix_app, TrimPrefix_app. reflexivity.
  - change (render_item (NamespaceFlag ShortEq v)) with ["-n=" +:+ v]. cbn [app cli_flags].
    rewrite HasPrefix_app, TrimPrefix_app. reflexivity.
  - change (render_item (NamespaceFlag LongEq v)) with ["--namespace=" +:+ v]. cbn [app cli_flags].
    rewrite HasPrefix_app, TrimPrefix_app. reflexivity.
  - cbn [item_ok] in Hi. unfold plain_word in Hi. cbn [forallb] in Hi. rewrite !andb_true_iff in Hi.
    destruct Hi as [(E1 & E2 & E3 & E4 & _) (P1 & P2 & P3 & P4 & _)].
    apply negb_true_iff in E1, E2, E3, E4, P1, P2, P3, P4.
    cbn [render_item app cli_flags]. by rewrite E1, E2, E3, E4, P1, P2, P3, P4.
Qed.

(** The last value given, if any. *)
Definition last_of (d : string) (l : list string) : string := default d (last l).

Lemma last_of_cons d x l : last_of d (x :: l) = last_of x l.
Proof.
  unfold last_of. revert d x. induction l as [|y l IH]; intros d x; [done|].
  change (last (x :: y :: l)) with (last (y :: l)). by rewrite (IH d), <- (IH x).
Qed.

Lemma cli_flags_items items rest s n clean :
  forallb item_ok items = true ->
  cli_flags ((items ≫= render_item) ++ rest) s n clean =
    cli_flags rest (last_of s (omap item_server items)) (last_of n (omap item_namespace items))
     (clean ++ omap item_word items).
Proof.
  revert s n clean. induction items as [|i items IH]; intros s n clean.
  { intros _. cbn. by rewrite app_nil_r. }
  cbn [forallb]. intros [Hi His]%andb_true_iff. rewrite bind_cons, <- app_assoc, cli_flags_item, IH by done.
  destruct i; cbn -[last_of cli_flags]; rewrite ?last_of_cons, ?app_nil_r, <- ?app_assoc; done.
Qed.

(** What is left of a flag at the end of the line without its value. *)
Definition dangling : list (list string) := [[]; ["-s"]; ["--server"]; ["-n"]; ["--namespace"]].

Lemma cli_flags_dangling rest s n clean : rest ∈ dangling -> cli_flags rest s n clean = (s, n, clean).
Proof.
  intros Hr. rewrite list_elem_of_In in Hr. simpl in Hr. repeat destruct Hr as [<-|Hr]; done.
Qed.

(** C36. The global flags may stand anywhere, in any of their four forms: the command is
    made of the other words in their order.  The address is the last one given, less a
    slash at its end, and the default when none was given or the last is empty; the same
    goes for the namespace, whatever becomes of the address.  A flag at the end without its value
    counts for nothing. *)
Theorem flags_anywhere items rest :
  forallb item_ok items = true -> rest ∈ dangling ->
  let '(addr, ns, cmd) := runCli ((items ≫= render_item) ++ rest) in
  cmd = command_of (omap item_word items) /\
  match last (omap item_server items) with
  | None | Some "" => addr = "http://localhost:8080"
  | Some v => addr = TrimSuffix v "/"
  end /\
  match last (omap item_namespace items) with
  | None | Some "" => ns = "default"
  | Some v => ns = v
  end.
Proof.
  intros Hok Hr. unfold runCli. rewrite cli_flags_items, cli_flags_dangling by done.
  split; [done|]. unfold last_of.
  destruct (last (omap item_server items)) as [[|c v]|], (last (omap item_namespace items)) as [[|d w]|]; done.
Qed.

Lemma flags_anywhere_witness :
  runCli ["get"; "-n"; "kube"; "pods"; "-n=prod"; "-s"] = ("http://localhost:8080", "prod", CmdGet ["pods"]).
Proof.
  pose proof (flags_anywhere [Word "get"; NamespaceFlag Short "kube"; Word "pods"; NamespaceFlag ShortEq "prod"] ["-s"]
    eq_refl) as Hf.
  change (([Word "get"; NamespaceFlag Short "kube"; Word "pods"; NamespaceFlag ShortEq "prod"] ≫= render_item) ++ ["-s"])
    with ["get"; "-n"; "kube"; "pods"; "-n=prod"; "-s"] in Hf.
  destruct (runCli _) as [[addr ns] cmd]. destruct Hf as (-> & Ha & Hn); [right; left|].
  simpl in Ha, Hn. rewrite Ha, Hn. reflexivity.
Defined.

(** ** Every endpoint of the client is a route of the server *)

(** A namespace or a name that stands for itself in a URL. *)
Definition url_name (s : string) : Prop :=
  plain s /\ lacks "?" s = true /\ lacks "#" s = true /\ lacks "%" s = true.

Lemma url_name_lacks s : url_name s -> lacks "/" s = true /\ s <> "".
Proof. intros [(H1 & _ & _ & H2) _]. done. Qed.

Lemma segments_Join parts :
  Forall (fun p => lacks "/" p = true) parts -> segments (Join ("" :: parts) "/") = parts.
Proof.
  intros Hp. unfold segments. rewrite Split_Join; [done| |done]. by constructor.
Qed.

Lemma endpoint_segments group resource ns name parts :
  endpoint_path group resource ns name = Join ("" :: parts) "/" ->
  Forall (fun p => lacks "/" p = true) parts ->
  segments (endpoint_path group resource ns name) = parts.
Proof. intros ->. apply segments_Join. Qed.

(** The kinds of resources, as the handlers are named. *)
Definition handler_kinds : list (string * string * string) :=
  [("/api/v1", "pods", "Pod"); ("/api/v1", "services", "Service");
   ("/api/v1", "configmaps", "ConfigMap"); ("/api/v1", "secrets", "Secret");
   ("/apis/apps/v1", "deployments", "Deployment"); ("/apis/apps/v1", "replicasets", "ReplicaSet")].

Lemma endpoint_kind_handled kind group resource :
  endpoint_kind kind = Some (group, resource) ->
  exists K, (group, resource, K) ∈ handler_kinds.
Proof.
  unfold endpoint_kind, handler_kinds. intros E.
  repeat (case_match; [injection E as <- <-; eexists; repeat (left || right)|]); done.
Qed.

(** The pattern of the collection of a resource and of an object in it. *)
Definition collection_pattern (group resource : string) : string :=
  group +:+ "/namespaces/{ns}/" +:+ resource.

Lemma match_wild_lit n s l :
  s <> "" -> match_segments [Wild n; Lit l] [s; l] = Some [(n, s)].
Proof. intros Hs. cbn. by rewrite (proj2 (String.eqb_neq s "")), String.eqb_refl. Qed.

Lemma match_wild_lit_wild n s l n2 s2 :
  s <> "" -> s2 <> "" ->
  match_segments [Wild n; Lit l; Wild n2] [s; l; s2] = Some [(n, s); (n2, s2)].
Proof.
  intros Hs Hs2. cbn. by rewrite (proj2 (String.eqb_neq s "")), String.eqb_refl,
    (proj2 (String.eqb_neq s2 "")).
Qed.

(** The segments of the path of an endpoint. *)
Definition endpoint_parts (group resource ns name : string) : list string :=
  segments group ++ ["namespaces"; ns; resource] ++ (if String.eqb name "" then [] else [name]).

Lemma endpoint_segments_kind group resource K ns name :
  (group, resource, K) ∈ handler_kinds -> lacks "/" ns = true -> lacks "/" name = true ->
  segments (endpoint_path group resource ns name) = endpoint_parts group resource ns name.
Proof.
  intros HK Hns Hname. unfold endpoint_path, endpoint_parts.
  rewrite list_elem_of_In in HK. simpl in HK.
  destruct (String.eqb name "");
    repeat destruct HK as [[= <- <- <-]|HK]; try done;
    (etrans; [|apply segments_Join; repeat constructor; done]); reflexivity.
Qed.

Lemma match_collection group resource K ns name :
  (group, resource, K) ∈ handler_kinds -> ns <> "" ->
  match_segments (parse_pattern (collection_pattern group resource))
    (endpoint_parts group resource ns "") = Some [("ns", ns)] /\
  (name <> "" -> match_segments (parse_pattern (collection_pattern group resource +:+ "/{name}"))
    (endpoint_parts group resource ns name) = Some [("ns", ns); ("name", name)]).
Proof.
  intros HK Hns. unfold endpoint_parts. rewrite list_elem_of_In in HK. simpl in HK.
  destruct ns as [|c ns]; [done|].
  split; [|destruct name as [|d name]; [done|intros _]];
    repeat destruct HK as [[= <- <- <-]|HK]; done.
Qed.

Lemma dispatch_endpoint m group resource K ns name pattern h x :
  (group, resource, K) ∈ handler_kinds -> lacks "/" ns = true -> lacks "/" name = true ->
  (m, pattern, h) ∈ routes ->
  match_segments (parse_pattern pattern) (endpoint_parts group resource ns name) = Some x ->
  dispatch m (endpoint_path group resource ns name) = Some (h, x).
Proof.
  intros HK Hns Hn Hr Hx. eapply dispatch_route; [exact Hr|].
  unfold route_match, method_matches. rewrite String.eqb_refl. cbn [orb].
  erewrite endpoint_segments_kind by done. by rewrite Hx.
Qed.

Lemma handler_routes group resource K :
  (group, resource, K) ∈ handler_kinds ->
  ("GET", collection_pattern group resource, "handleList" +:+ K +:+ "s") ∈ routes /\
  ("POST", collection_pattern group resource, "handleCreate" +:+ K) ∈ routes /\
  ("GET", collection_pattern group resource +:+ "/{name}", "handleGet" +:+ K) ∈ routes /\
  ("DELETE", collection_pattern group resource +:+ "/{name}", "handleDelete" +:+ K) ∈ routes.
Proof.
  intros HK. rewrite list_elem_of_In in HK. simpl in HK.
  repeat destruct HK as [[= <- <- <-]|HK]; try done;
    split_and!; apply (bool_decide_unpack _); vm_compute; exact I.
Qed.

(** C35. The client only asks for what the server serves: for every kind or alias it
    accepts, in any case, and a namespace and a name that stand for themselves in a URL
    (not empty, no slash, question mark, hash or percent sign, not a dot or two), the path it builds
    is dispatched to the handlers of that kind, with the namespace and the name it was
    given.  Other names are not escaped, see [name_as_path]. *)
Theorem endpoint_served `{UnicodeCase} serverAddr ns kind name url :
  getEndpoint serverAddr ns kind name = Some url -> url_name ns -> name = "" \/ url_name name ->
  exists group resource K path, endpoint_kind (ToLower kind) = Some (group, resource) /\
    (group, resource, K) ∈ handler_kinds /\ url = serverAddr +:+ path /\
    if String.eqb name "" then
      dispatch "GET" path = Some ("handleList" +:+ K +:+ "s", [("ns", ns)]) /\
      dispatch "POST" path = Some ("handleCreate" +:+ K, [("ns", ns)])
    else
      dispatch "GET" path = Some ("handleGet" +:+ K, [("ns", ns); ("name", name)]) /\
      dispatch "DELETE" path = Some ("handleDelete" +:+ K, [("ns", ns); ("name", name)]).
Proof.
  unfold getEndpoint. destruct (endpoint_kind (ToLower kind)) as [[group resource]|] eqn:Hk; [|done].
  intros [= <-] [Hl Hne]%url_name_lacks Hname.
  destruct (endpoint_kind_handled _ _ _ Hk) as [K HK].
  exists group, resource, K, (endpoint_path group resource ns name). do 3 (split; [done|]).
  destruct (handler_routes _ _ _ HK) as (R1 & R2 & R3 & R4).
  destruct (match_collection _ _ _ ns name HK Hne) as [M1 M2].
  destruct Hname as [->|[Hl2 Hne2]%url_name_lacks]; [simpl|rewrite (proj2 (String.eqb_neq name "")) by done];
    split; eapply dispatch_endpoint; eauto.
Qed.

#[local] Instance ascii_case : UnicodeCase := { unicode_upper s := s; unicode_lower s := s }.

Lemma endpoint_served_witness :
  exists path, getEndpoint "http://h" "prod" "Deploy" "web" = Some ("http://h" +:+ path) /\
    dispatch "DELETE" path = Some ("handleDeleteDeployment", [("ns", "prod"); ("name", "web")]).
Proof.
  destruct (endpoint_served "http://h" "prod" "Deploy" "web"
    "http://h/apis/apps/v1/namespaces/prod/deployments/web" eq_refl)
    as (group & resource & K & path & Ek & HK & Eu & _ & E).
  - by apply (bool_decide_unpack _).
  - right. by apply (bool_decide_unpack _).
  - exists path. rewrite <- Eu. split; [reflexivity|]. vm_compute in Ek. injection Ek as <- <-.
    rewrite list_elem_of_In in HK. simpl in HK.
    repeat destruct HK as [[= <-]|HK]; try discriminate; [exact E|destruct HK].
Defined.

(** A name with a slash asks for something else than the object of that name. *)
Lemma name_as_path :
  dispatch "GET" (endpoint_path "/api/v1" "pods" "default" "web/log") =
    Some ("handleGetPodLogs", [("ns", "default"); ("name", "web")]).
Proof. reflexivity. Qed.

(** ** Documents *)

Lemma HasPrefix_app_lacks c p a b :
  lacks c p = true -> HasPrefix a p = false -> HasPrefix (a +:+ String c b) p = false.
Proof.
  revert p. induction a as [|d a IH]; intros [|e p] Hp Ha; try done.
  - apply lacks_cons in Hp as [Hne _]. change ("" +:+ String c b) with (String c b).
    by apply prefix_char_ne.
  - apply lacks_cons in Hp as [_ Hp]. rewrite append_cons.
    destruct (ascii_dec e d) as [->|Hne]; [|by apply prefix_char_ne].
    rewrite HasPrefix_cons in *. by apply IH.
Qed.

(** Splitting at the first occurrence of a separator whose first byte does not come
    back in it. *)
Lemma Split_first c p a b :
  lacks c p = true -> Contains a (String c p) = false ->
  Split (a +:+ String c p +:+ b) (String c p) = a :: Split b (String c p).
Proof.
  intros Hp Ha. unfold Split. induction a as [|d a IH].
  - change ("" +:+ String c p +:+ b) with (String c (p +:+ b)). cbn [split_from].
    rewrite HasPrefix_cons, HasPrefix_app. simpl. by rewrite Nat.sub_0_r, split_skip.
  - cbn [Contains] in Ha. apply orb_false_iff in Ha as [Hd Ha].
    rewrite append_cons. cbn [split_from].
    assert (E : HasPrefix (String d (a +:+ String c p +:+ b)) (String c p) = false).
    { destruct (ascii_dec c d) as [->|Hne]; [|by apply prefix_char_ne].
      rewrite HasPrefix_cons in *. by apply (HasPrefix_app_lacks d p a (p +:+ b)). }
    by rewrite E, IH.
Qed.

Lemma Split_none sep a : Contains a sep = false -> Split a sep = [a].
Proof.
  unfold Split. induction a as [|d a IH]; [done|]. cbn [Contains split_from].
  intros [-> Ha]%orb_false_iff. by rewrite IH.
Qed.

Lemma TrimSpace_newline s : TrimSpace (String "010" s) = TrimSpace s.
Proof. reflexivity. Qed.

(** A document as a file may hold it: without blanks around it and without a line
    that starts with three dashes. *)
Definition document (d : string) : bool :=
  negb (String.eqb d "") && String.eqb (TrimSpace d) d &&
  negb (Contains (String "010" d) doc_separator).

Lemma document_inv d :
  document d = true -> d <> "" /\ TrimSpace d = d /\ Contains (String "010" d) doc_separator = false.
Proof.
  unfold document. rewrite !andb_true_iff, !negb_true_iff. intros [[H1 H2] H3].
  by apply String.eqb_neq in H1; apply String.eqb_eq in H2.
Qed.

Lemma splitYAML_parts ds d :
  Forall (fun d => document d = true) (d :: ds) ->
  Split (String "010" (Join (d :: ds) (doc_separator +:+ String "010" ""))) doc_separator =
    String "010" <$> (d :: ds).
Proof.
  revert d. induction ds as [|e ds IH]; intros d [Hd Hds]%Forall_cons;
    apply document_inv in Hd as (_ & _ & Hd).
  - cbn [Join]. by rewrite Split_none.
  - change (Join (d :: e :: ds) (doc_separator +:+ String "010" ""))
      with (d +:+ doc_separator +:+ String "010" (Join (e :: ds) (doc_separator +:+ String "010" ""))).
    rewrite <- append_cons. unfold doc_separator at 1. rewrite Split_first by done.
    fold doc_separator. rewrite IH by done. done.
Qed.

Lemma splitYAML_first ds d :
  Forall (fun d => document d = true) (d :: ds) ->
  Split (Join (d :: ds) (doc_separator +:+ String "010" "")) doc_separator =
    d :: (String "010" <$> ds).
Proof.
  intros Hall. pose proof Hall as [(_ & _ & Hd)%document_inv Hds]%Forall_cons.
  assert (Hd' : Contains d doc_separator = false) by (apply orb_false_iff in Hd; apply Hd).
  destruct ds as [|e ds]; [by apply Split_none|].
  change (Join (d :: e :: ds) (doc_separator +:+ String "010" ""))
    with (d +:+ doc_separator +:+ String "010" (Join (e :: ds) (doc_separator +:+ String "010" ""))).
  unfold doc_separator at 1. rewrite Split_first by done. fold doc_separator.
  by rewrite splitYAML_parts.
Qed.

Lemma documents_trimmed ds :
  Forall (fun d => document d = true) ds -> TrimSpace <$> ds = ds.
Proof.
  induction 1 as [|d ds (_ & Hd & _)%document_inv _ IH]; [done|]. by rewrite fmap_cons, IH, Hd.
Qed.

Lemma documents_newline ds :
  Forall (fun d => document d = true) ds -> TrimSpace <$> (String "010" <$> ds) = ds.
Proof.
  intros Hds. rewrite <- list_fmap_compose. etrans; [|by apply documents_trimmed].
  apply list_fmap_ext. intros i d _. apply TrimSpace_newline.
Qed.

Lemma documents_kept ds :
  Forall (fun d => document d = true) ds ->
  List.filter (fun part => negb (String.eqb part "")) ds = ds.
Proof.
  induction 1 as [|d ds (Hd & _)%document_inv _ IH]; [done|].
  cbn [List.filter]. rewrite (proj2 (String.eqb_neq d "")) by done. simpl. by rewrite IH.
Qed.

(** A file made of documents separated by lines of three dashes is split into
    those documents, also when it starts with such a line. *)
Theorem splitYAML_join ds :
  Forall (fun d => document d = true) ds ->
  splitYAML (Join ds (doc_separator +:+ String "010" "")) = ds /\
  splitYAML (doc_separator +:+ String "010" (Join ds (doc_separator +:+ String "010" ""))) = ds.
Proof.
  intros Hds. unfold splitYAML. destruct ds as [|d ds]; [done|].
  pose proof Hds as [(_ & Hd & _)%document_inv Hds']%Forall_cons. split.
  - rewrite splitYAML_first, fmap_cons, documents_newline, Hd by done. by apply documents_kept.
  - change (doc_separator +:+ ?x) with ("" +:+ String "010" "---" +:+ x).
    unfold doc_separator at 2. rewrite Split_first by done. fold doc_separator.
    rewrite splitYAML_parts by done. rewrite fmap_cons, documents_newline by done.
    by apply (documents_kept (d :: ds)).
Qed.

Lemma splitYAML_join_witness :
  splitYAML ("kind: Pod" +:+ String "010" "---" +:+ String "010" "kind: Secret") =
    ["kind: Pod"; "kind: Secret"].
Proof.
  refine (proj1 (splitYAML_join ["kind: Pod"; "kind: Secret"] _)).
  constructor; [reflexivity|]. constructor; [reflexivity|constructor].
Defined.

(** ** Tables line up *)

Lemma rune_count_app s t : rune_count (s +:+ t) = rune_count s + rune_count t.
Proof. induction s as [|c s IH]; [done|]. rewrite append_cons. simpl. rewrite IH. lia. Qed.

Lemma rune_count_spaces n : rune_count (spaces n) = n.
Proof. induction n as [|n IH]; [done|]. simpl. by rewrite IH. Qed.

Lemma rune_count_le s : rune_count s <= String.length s.
Proof. induction s as [|c s IH]; simpl; [done|]. case_match; lia. Qed.

Lemma rune_count_padded w s : rune_count s <= w -> rune_count (padded w s) = w + 3.
Proof.
  intros Hs. unfold padded. rewrite !rune_count_app, rune_count_spaces.
  change (rune_count "   ") with 3. lia.
Qed.

(** The width of a line. *)
Definition line_width (widths : list nat) : nat := foldr (fun w n => w + 3 + n) 0 widths.

Lemma rune_count_line widths texts :
  Forall2 (fun w s => rune_count s <= w) widths texts ->
  rune_count (table_line widths texts) = line_width widths.
Proof.
  unfold table_line. induction 1 as [|w s widths texts Hs _ IH]; [done|].
  cbn [zip_with foldr line_width]. rewrite rune_count_app, rune_count_padded, IH by done. done.
Qed.

Lemma widen_spec widths cells :
  length widths = length cells ->
  exists widths', widen widths cells = Some widths' /\
    Forall2 le widths widths' /\ Forall2 (fun w c => String.length (cell_text c) <= w) widths' cells.
Proof.
  revert cells. induction widths as [|w widths IH]; intros [|c cells] Hlen; try done.
  - exists []. split_and!; [done|constructor..].
  - destruct (IH cells) as (widths' & E & H1 & H2); [by injection Hlen|].
    exists (Nat.max w (String.length (cell_text c)) :: widths'). cbn [widen]. rewrite E.
    split_and!; [done|constructor; [lia|done]..].
Qed.

Lemma Forall2_le_trans {A} (f : A -> nat) widths widths' (l : list A) :
  Forall2 le widths widths' -> Forall2 (fun w c => f c <= w) widths l ->
  Forall2 (fun w c => f c <= w) widths' l.
Proof.
  intros H. revert l. induction H as [|w w' ws ws' Hw _ IH]; intros l Hl;
    [by inversion Hl|]. destruct l as [|c l]; [by inversion Hl|].
  apply Forall2_cons in Hl as [Hc Hl]. constructor; [lia|by apply IH].
Qed.

Lemma widen_rows_spec widths rows :
  Forall (fun row => length (Cells row) = length widths) rows ->
  exists widths', widen_rows widths rows = Some widths' /\ Forall2 le widths widths' /\
    Forall (fun row => Forall2 (fun w c => String.length (cell_text c) <= w) widths' (Cells row)) rows.
Proof.
  revert widths. induction rows as [|row rows IH]; intros widths Hrows.
  { exists widths. split_and!; [done| |constructor]. clear. induction widths; by constructor. }
  apply Forall_cons in Hrows as [Hrow Hrows].
  destruct (widen_spec widths (Cells row)) as (w1 & E1 & L1 & C1); [done|].
  destruct (IH w1) as (w2 & E2 & L2 & C2).
  { apply Forall2_length in L1. by rewrite <- L1. }
  exists w2. cbn [widen_rows]. rewrite E1. split_and!; [done| |constructor; [|done]].
  - by etrans.
  - by apply (Forall2_le_trans (fun c => String.length (cell_text c)) w1).
Qed.

(** Each row has a cell per column, and the names of the columns are ASCII. *)
Definition table_fits (t : Table) : Prop :=
  ColumnDefinitions t <> [] /\
  Forall (fun c => is_ascii (colName c) = true) (ColumnDefinitions t) /\
  Forall (fun row => length (Cells row) = length (ColumnDefinitions t)) (Rows t).

Lemma length_map_string f s : String.length (map_string f s) = String.length s.
Proof. induction s as [|c s IH]; [done|]. simpl. by rewrite IH. Qed.

Lemma ToUpper_length `{UnicodeCase} s :
  is_ascii s = true -> String.length (ToUpper s) = String.length s.
Proof. intros Hs. unfold ToUpper. rewrite Hs. apply length_map_string. Qed.

Lemma headers_fit `{UnicodeCase} cols widths :
  Forall (fun c => is_ascii (colName c) = true) cols ->
  Forall2 le ((fun c => String.length (colName c)) <$> cols) widths ->
  Forall2 (fun w s => rune_count s <= w) widths ((fun c => ToUpper (colName c)) <$> cols).
Proof.
  intros Hasc. revert widths. induction Hasc as [|c cols Hc _ IH]; intros widths Hle.
  - apply Forall2_nil_inv_l in Hle as ->. constructor.
  - rewrite fmap_cons in Hle. apply Forall2_cons_inv_l in Hle as (w & ws & Hw & Hle & ->).
    rewrite fmap_cons. constructor; [|by apply IH].
    etrans; [apply rune_count_le|]. by rewrite ToUpper_length.
Qed.

Lemma print_table_aligned `{UnicodeCase} t :
  table_fits t -> exists lines width, print_table t = Some lines /\
    Forall (fun l => rune_count l = width) lines /\ length lines = S (length (Rows t)).
Proof.
  intros (Hne & Hasc & Hrows). unfold print_table.
  destruct (ColumnDefinitions t) as [|col cols]; [done|].
  destruct (widen_rows_spec ((fun c => String.length (colName c)) <$> col :: cols) (Rows t))
    as (widths & E & Hle & Hc).
  { by rewrite length_fmap. }
  rewrite E. exists (table_line widths ((fun c => ToUpper (colName c)) <$> col :: cols) ::
    ((fun row => table_line widths (cell_text <$> Cells row)) <$> Rows t)), (line_width widths).
  split; [done|]. split; [constructor|by rewrite length_cons, length_fmap].
  - by apply rune_count_line, headers_fit.
  - rewrite Forall_fmap. eapply Forall_impl; [exact Hc|]. intros row Hrow. simpl.
    apply rune_count_line. rewrite Forall2_fmap_r. eapply Forall2_impl; [exact Hrow|].
    intros w c Hw. exact (Nat.le_trans _ _ _ (rune_count_le _) Hw).
Qed.

(** The client prints every listing of the server without running past its
    columns, one line per object below the header, all lines of one width. *)
Theorem listings_line_up `{UnicodeCase} `{Codec Pod, Codec Service, Codec ConfigMap, Codec Secret,
    Codec Deployment, Codec ReplicaSet} now pods svcs cms secs deps rss t :
  t ∈ [ConvertPodsToTable now pods; ConvertServicesToTable now svcs; ConvertConfigMapsToTable now cms;
       ConvertSecretsToTable now secs; ConvertDeploymentsToTable now deps;
       ConvertReplicaSetsToTable now rss] ->
  exists lines width, print_table t = Some lines /\ Forall (fun l => rune_count l = width) lines /\
    length lines = S (length (Rows t)).
Proof.
  intros Ht. apply print_table_aligned.
  assert (Hmk : forall A (C : Codec A) cols (cells : A -> list cell) objs, cols <> [] ->
    forallb (fun c => is_ascii (colName c)) cols = true ->
    (forall a, length (cells a) = length cols) -> table_fits (make_table cols cells objs)).
  { intros A C cols cells objs Hne Hasc Hlen. split_and!; [done| |].
    - apply Forall_forall. intros c Hc. eapply forallb_forall in Hasc; [exact Hasc|].
      by apply list_elem_of_In.
    - cbn [Rows make_table ColumnDefinitions]. apply Forall_fmap, Forall_true. intros a. apply Hlen. }
  rewrite list_elem_of_In in Ht. simpl in Ht.
  repeat destruct Ht as [<-|Ht]; try done; by apply Hmk.
Qed.

#[local] Instance no_codec {A} : Codec A := { marshal _ := None; unmarshal _ := None }.

Lemma listings_line_up_witness :
  let t := ConvertConfigMapsToTable 0 [mkConfigMap (mkTypeMeta "v1" "ConfigMap")
    (mkObjectMeta "a-long-name" "default" "" None None 0 "") None] in
  print_table t = Some ["NAME          DATA   AGE         "; "a-long-name   0      <unknown>   "] /\
  exists lines width, print_table t = Some lines /\ Forall (fun l => rune_count l = width) lines.
Proof.
  intros t. split; [reflexivity|].
  destruct (listings_line_up 0 [] [] [mkConfigMap (mkTypeMeta "v1" "ConfigMap")
    (mkObjectMeta "a-long-name" "default" "" None None 0 "") None] [] [] [] t) as (lines & w & H1 & H2 & _).
  - right. right. left.
  - exists lines, w. split; [exact H1|exact H2].
Defined.
