(* ===== verification/Terminal.v ===== *)
(** * The client that prints logs (src/main.go)

    [handleLogs] finds the pods, starts a goroutine per pod that reads the log line by
    line and prints each line after a prefix, and waits for all of them; the prints of
    the goroutines come in any interleaving. *)

From S2P Require Import Prelude GoStrings Logs Cli.


(** What the goroutine of one pod gets: no connection, or a status with a body that may
    break off with an error. *)
Inductive log_reply :=
| NoConnection (err : string)
| LogReply (code : Z) (body : bytes) (broken : option string).

(** The names of the pods of a [PodList]. *)
Class PodListJson := { decode_pod_names : bytes -> option (list string) }.

Section Terminal.
Context {H : Type} `{Client H} `{PodListJson}.
Implicit Types (pods : list string).

(** The prints of one goroutine, each a [fmt.Print] of its own: the lines that
    [ReadString('\n')] cuts, after the prefix. *)
Definition goroutine_prints (colorPrefix pName : string) (reply : log_reply) : list string :=
  match reply with
  | NoConnection err => ["Error connecting for " +:+ pName +:+ ": " +:+ err +:+ string_of [newline]]
  | LogReply code body broken =>
      if (code =? 200)%Z then
        ((fun line => colorPrefix +:+ string_of line) <$> lines_of body) ++
        match broken with
        | Some err => ["Error reading stream for " +:+ pName +:+ ": " +:+ err +:+ string_of [newline]]
        | None => []
        end
      else ["Error getting logs for " +:+ pName +:+ ": " +:+ reply_message body +:+ " (Status: " +:+
            Itoa code +:+ ")" +:+ string_of [newline]]
  end.

(** What every goroutine has still to print, and the terminal: the prints so far, each
    with the index of its goroutine. *)
Record terminal := mkTerminal { todo : list (list string); shown : list (nat * string) }.

(** The pods whose logs are asked for; [None] ends the client with status 1. *)
Definition pods_to_stream (h : H) (serverAddr namespace : string) (f : log_flags) : H * option (list string) :=
  match logs_target serverAddr namespace f with
  | NamedPod podName => (h, Some [podName])
  | ListedPods url =>
      match http_do h "GET" url "" [] with
      | (h, None) => (h, None)
      | (h, Some (code, body)) => (h, if negb (code =? 200)%Z then None else decode_pod_names body)
      end
  | NoTarget => (h, None)
  end.

(** A goroutine per pod; [get] is what [http.Get] returns for a URL. *)
Definition start_readers (get : string -> log_reply) (serverAddr namespace : string) (f : log_flags) pods : terminal :=
  mkTerminal (imap (fun idx pName => goroutine_prints (color_prefix (length pods) idx pName) pName
    (get (log_url serverAddr namespace pName f))) pods) [].

(** [handleLogs] up to [wg.Wait]; without a pod there is one line to print. *)
Definition handleLogs (get : string -> log_reply) (h : H) (serverAddr namespace : string) (args : list string)
    : H * exit_status terminal :=
  match logs_args args no_log_flags with
  | None => (h, Exit1)
  | Some f =>
      match pods_to_stream h serverAddr namespace f with
      | (h, None) => (h, Exit1)
      | (h, Some []) => (h, Done (mkTerminal [] [(0, "No matching pods found." +:+ string_of [newline])]))
      | (h, Some pods) => (h, Done (start_readers get serverAddr namespace f pods))
      end
  end.

(** Goroutine [i] prints. *)
Definition print_step (i : nat) (t : terminal) : option terminal :=
  match todo t !! i with
  | Some (l :: ls) => Some (mkTerminal (<[i := ls]> (todo t)) (shown t ++ [(i, l)]))
  | _ => None
  end.

Fixpoint print_run (turns : list nat) (t : terminal) : option terminal :=
  match turns with [] => Some t | i :: turns => t ← print_step i t; print_run turns t end.

(** [wg.Wait] returns. *)
Definition all_returned (t : terminal) : bool :=
  forallb (fun ls => match ls with [] => true | _ => false end) (todo t).

(** The prints of goroutine [i]. *)
Definition prints_of (i : nat) (shown : list (nat * string)) : list string :=
  snd <$> List.filter (fun p => p.1 =? i) shown.

Definition left_to_print (t : terminal) : nat := sum_list_with length (todo t).

Lemma prints_of_snoc i s j l : prints_of i (s ++ [(j, l)]) = prints_of i s ++ if j =? i then [l] else [].
Proof. unfold prints_of. rewrite List.filter_app, fmap_app. simpl. by destruct (j =? i). Qed.

Lemma print_step_spec i t t' :
  print_step i t = Some t' ->
  S (left_to_print t') = left_to_print t /\ length (todo t') = length (todo t) /\
  forall k, prints_of k (shown t') ++ default [] (todo t' !! k) = prints_of k (shown t) ++ default [] (todo t !! k).
Proof.
  unfold print_step. destruct (todo t !! i) as [[|l ls]|] eqn:E; [done| |done]. intros [= <-].
  assert (Hi : i < length (todo t)) by (by eapply lookup_lt_Some). split_and!; simpl.
  - unfold left_to_print. simpl. rewrite <- (take_drop_middle (todo t) i (l :: ls) E) at 2.
    rewrite insert_take_drop by done. rewrite !sum_list_with_app. simpl. lia.
  - apply length_insert.
  - intros k. rewrite prints_of_snoc. destruct (Nat.eqb_spec i k) as [->|Hne].
    + rewrite list_lookup_insert_eq, E by done. simpl. by rewrite <- app_assoc.
    + by rewrite list_lookup_insert_ne, app_nil_r.
Qed.

Lemma print_run_spec turns t t' :
  print_run turns t = Some t' ->
  length turns + left_to_print t' = left_to_print t /\ length (todo t') = length (todo t) /\
  forall k, prints_of k (shown t') ++ default [] (todo t' !! k) = prints_of k (shown t) ++ default [] (todo t !! k).
Proof.
  revert t. induction turns as [|i turns IH]; intros t; cbn [print_run]; [by intros [= <-]|].
  destruct (print_step i t) as [t1|] eqn:E; [|done]. cbn [mbind option_bind]. intros Hr.
  destruct (print_step_spec _ _ _ E) as (E1 & E2 & E3). destruct (IH _ Hr) as (E4 & E5 & E6).
  split_and!; [simpl; lia|congruence|]. intros k. by rewrite E6, E3.
Qed.

(** While a goroutine has something to print, one can. *)
Lemma someone_prints t : all_returned t = false -> exists i t', print_step i t = Some t'.
Proof.
  intros Ha. unfold all_returned in Ha.
  assert (Hf : exists i l ls, todo t !! i = Some (l :: ls)).
  { induction (todo t) as [|[|l ls] ts IH]; [done| |by exists 0, l, ls].
    destruct (IH Ha) as (i & l & ls & E). by exists (S i), l, ls. }
  destruct Hf as (i & l & ls & E). exists i. unfold print_step. rewrite E. eauto.
Qed.

Lemma all_returned_nothing t k : all_returned t = true -> default [] (todo t !! k) = [].
Proof.
  intros Ha. unfold all_returned in Ha. rewrite forallb_forall in Ha.
  destruct (todo t !! k) as [ls|] eqn:E; [|done]. apply list_elem_of_lookup_2, list_elem_of_In in E.
  specialize (Ha _ E). by destruct ls.
Qed.

(** The text of some prints. *)
Definition text (prints : list string) : string := foldr (fun a b => a +:+ b) "" prints.

Lemma ascii_newline c : Ascii.eqb (ascii_of_byte c) "010" = bool_decide (c = newline).
Proof. by destruct c. Qed.

Lemma prefix_lines_started pfx b :
  prefix_lines pfx true (string_of b) =
    match b with [] => "" | _ => pfx +:+ prefix_lines pfx false (string_of b) end.
Proof. by destruct b. Qed.

Lemma prefix_lines_rest pfx b :
  prefix_lines pfx false (string_of b) =
    match lines_of b with
    | [] => ""
    | l :: ls => string_of l +:+ text ((fun line => pfx +:+ string_of line) <$> ls)
    end.
Proof.
  induction b as [|c b IH]; [done|].
  change (string_of (c :: b)) with (String (ascii_of_byte c) (string_of b)). cbn [prefix_lines lines_of].
  rewrite ascii_newline. simpl (_ +:+ String _ _). case_decide as Hc.
  - rewrite bool_decide_true by done. rewrite prefix_lines_started, IH. subst c.
    destruct b as [|c b]; [done|]. destruct (lines_of (c :: b)) as [|l ls] eqn:El.
    + by apply lines_of_nil in El.
    + simpl. unfold text. simpl. by rewrite append_assoc.
  - rewrite bool_decide_false by done. rewrite IH. destruct (lines_of b) as [|l ls] eqn:El; [|done].
    by apply lines_of_nil in El as ->.
Qed.

Lemma prefix_lines_text pfx b :
  text ((fun line => pfx +:+ string_of line) <$> lines_of b) = prefix_lines pfx true (string_of b).
Proof.
  rewrite prefix_lines_started, prefix_lines_rest. destruct b as [|c b]; [done|].
  destruct (lines_of (c :: b)) as [|l ls] eqn:El; [by apply lines_of_nil in El|].
  simpl. unfold text at 1. simpl. by rewrite append_assoc.
Qed.

Lemma start_readers_todo get serverAddr namespace f pods idx pName :
  pods !! idx = Some pName ->
  todo (start_readers get serverAddr namespace f pods) !! idx =
    Some (goroutine_prints (color_prefix (length pods) idx pName) pName (get (log_url serverAddr namespace pName f))).
Proof. intros E. simpl. by rewrite list_lookup_imap, E. Qed.

(** C32. The client prints the logs of several pods at once, in any interleaving of its
    goroutines: it never gets stuck before all have returned, it prints a fixed number
    of times, and then every pod's prints are on the terminal, whole and in order; the
    log of a pod whose request went well is there with the prefix before every line. *)
Theorem logs_printed get serverAddr namespace f pods turns t :
  let start := start_readers get serverAddr namespace f pods in
  print_run turns start = Some t ->
  length turns + left_to_print t = left_to_print start /\
  (all_returned t = false -> exists i t', print_step i t = Some t') /\
  (all_returned t = true -> forall idx pName, pods !! idx = Some pName ->
     let prefix := color_prefix (length pods) idx pName in
     let reply := get (log_url serverAddr namespace pName f) in
     prints_of idx (shown t) = goroutine_prints prefix pName reply /\
     forall body, reply = LogReply 200 body None ->
       text (prints_of idx (shown t)) = prefix_lines prefix true (string_of body)).
Proof.
  intros start Hr. destruct (print_run_spec _ _ _ Hr) as (E1 & _ & E3).
  split_and!; [done|by apply someone_prints|]. intros Ha idx pName Hp prefix reply.
  assert (E : prints_of idx (shown t) = goroutine_prints prefix pName reply).
  { specialize (E3 idx). rewrite (all_returned_nothing _ _ Ha), app_nil_r in E3.
    unfold start in E3. by rewrite (start_readers_todo _ _ _ _ _ _ _ Hp) in E3. }
  split; [done|]. intros body Eb. rewrite E, Eb. simpl. rewrite app_nil_r. apply prefix_lines_text.
Qed.
End Terminal.

(** Two pods, one of which is not there. *)
#[local] Instance ex_client : Client unit := { http_do h _ _ _ _ := (h, None); status_message _ := "" }.
Definition ex_get (url : string) : log_reply :=
  if String.eqb url "http://localhost:8080/api/v1/namespaces/default/pods/web/log"
  then LogReply 200 (bytes_of "up" ++ [newline] ++ bytes_of "ready") None
  else LogReply 404 (bytes_of "pod not found") None.
Definition ex_start : terminal := start_readers ex_get "http://localhost:8080" "default" no_log_flags ["web"; "db"].

Lemma logs_printed_witness :
  exists t, print_run [0; 1; 0] ex_start = Some t /\ all_returned t = true /\
    text (prints_of 0 (shown t)) =
      prefix_lines (color_prefix 2 0 "web") true (string_of (bytes_of "up" ++ [newline] ++ bytes_of "ready")).
Proof.
  destruct (print_run [0; 1; 0] ex_start) as [t|] eqn:E; [|by vm_compute in E].
  exists t. split; [done|]. assert (Ha : all_returned t = true).
  { change t with (default t (Some t)). rewrite <- E. by vm_compute. }
  split; [exact Ha|].
  exact (proj2 (proj2 (proj2 (logs_printed ex_get "http://localhost:8080" "default" no_log_flags ["web"; "db"]
    [0; 1; 0] t E)) Ha 0 "web" eq_refl) _ eq_refl).
Defined.
