(* ===== verification/ApiLaws.v ===== *)
(** * Properties of the API server and of its handlers

    What the create, get, list and delete handlers promise to a client, against the
    state of the server ([Server]) and the laws of the stores and of the lifecycle
    manager.  The last part runs the theorems on a server in memory. *)

From S2P Require Import Prelude Types GoStrings Selector Store Stores PortPool Hub SvcProxy Path Volume Lifecycle Manifest Deployment Table Server Handlers Demo.

Section Laws.
Context {F W N L T : Type} `{FSLaws F} `{PodEngines F W} `{TCP N} `{Bolt T}.
Context `{Codec Pod, Codec Service, Codec ConfigMap, Codec Secret, Codec Deployment, Codec ReplicaSet}.
Context `{Decoder Pod, Decoder Service, Decoder ConfigMap, Decoder Secret}.
Context `{Texts} `{JsonTexts} `{UnicodeCase}.
Context (TempDir : string) (NewLog : L).
Abbreviation server := (Server F W N L T).
Implicit Types (sv : server) (r : Request) (d : env_draw).

Lemma loadPod_storePod sv pod :
  loadPod (storePod sv pod) (Namespace (podMeta pod)) (Name (podMeta pod)) = Some pod.
Proof. by apply (kv_load_store_eq "pods" podMeta (sv_pods sv, sv_pods_db sv)). Qed.

Lemma terminate_spec o sv ns name :
  lm_ok (sv_lm sv) ->
  exists lm h, terminate TempDir o sv ns name = (set_sv_lm sv (lm, h), Ok tt) /\ lm_ok lm.
Proof.
  intros Hok. unfold terminate.
  destruct (lm_pods (sv_lm sv) !! podKey ns name) as [mp|] eqn:E.
  - destruct (Terminate_spec TempDir o (sv_lm sv) (sv_host sv) ns name mp Hok E) as (ws & -> & Hok').
    by do 2 eexists.
  - unfold Terminate. rewrite E. by do 2 eexists.
Qed.

(** The parts of the server a deletion of pods does not touch. *)
Definition same_stores sv sv' : Prop :=
  sv_ctl sv' = sv_ctl sv /\ sv_config sv' = sv_config sv /\ sv_services sv' = sv_services sv /\
  sv_proxies sv' = sv_proxies sv.

Lemma SDeletePod_spec o sv ns name :
  lm_ok (sv_lm sv) ->
  exists sv', SDeletePod TempDir o sv ns name = (sv', Ok tt) /\ lm_ok (sv_lm sv') /\
    same_stores sv sv' /\ sv_pods sv' = delete (key ns name) (sv_pods sv).
Proof.
  intros Hok. unfold SDeletePod.
  destruct (terminate_spec o sv ns name Hok) as (lm & h & -> & Hok').
  eexists. split; [reflexivity|]. by repeat split.
Qed.

Lemma cascade_pods_spec o sv owner pods :
  lm_ok (sv_lm sv) ->
  exists sv', cascade_pods TempDir o sv owner pods = (sv', Ok tt) /\ lm_ok (sv_lm sv') /\
    same_stores sv sv' /\
    forall k p, sv_pods sv' !! k = Some p -> sv_pods sv !! k = Some p /\
      k ∉ ((fun q => key_of (podMeta q)) <$>
        List.filter (fun q => annotated (Annotations (podMeta q)) owner_annotation owner) pods).
Proof.
  revert sv. induction pods as [|pod pods IH]; intros sv Hok; cbn [cascade_pods List.filter].
  { exists sv. split_and!; [done..|]. intros k p Hk. split; [done|]. apply not_elem_of_nil. }
  destruct (annotated _ _ _); [|by apply IH].
  destruct (terminate_spec o sv (Namespace (podMeta pod)) (Name (podMeta pod)) Hok)
    as (lm & h & -> & Hok1).
  destruct (SDeletePod_spec o (set_sv_lm sv (lm, h)) (Namespace (podMeta pod)) (Name (podMeta pod)) Hok1)
    as (sv2 & -> & Hok2 & Hs2 & Hp2).
  destruct (IH sv2 Hok2) as (sv' & -> & Hok' & Hs' & Hp').
  exists sv'. split_and!; [done..| |].
  - destruct Hs2 as (E1 & E2 & E3 & E4), Hs' as (E1' & E2' & E3' & E4'). simpl in *.
    unfold same_stores. by rewrite E1', E2', E3', E4'.
  - intros k p Hk. apply Hp' in Hk as [Hk Hni]. rewrite Hp2 in Hk. simpl in Hk.
    apply lookup_delete_Some in Hk as [Hne Hk]. split; [done|].
    rewrite fmap_cons, not_elem_of_cons. split; [|done]. intros E. by apply Hne.
Qed.

(** No pod of the namespace of [rs] that it owns is on record. *)
Definition orphaned (pods : gmap string Pod) (rs : ReplicaSet) : Prop :=
  forall k p, pods !! k = Some p -> Namespace (podMeta p) = Namespace (rsMeta rs) ->
    annotated (Annotations (podMeta p)) owner_annotation ("ReplicaSet/" +:+ Name (rsMeta rs)) = false.

Lemma cascadeDeleteReplicaSet_spec o op sv rs :
  lm_ok (sv_lm sv) -> keyed podMeta (sv_pods sv) ->
  exists sv', cascadeDeleteReplicaSet TempDir o op sv rs = (sv', Ok tt) /\ lm_ok (sv_lm sv') /\
    sv_pods sv' ⊆ sv_pods sv /\ orphaned (sv_pods sv') rs /\
    deployments (sv_ctl sv') = deployments (sv_ctl sv) /\
    replicaSets (sv_ctl sv') = delete (key_of (rsMeta rs)) (replicaSets (sv_ctl sv)).
Proof.
  intros Hok Hk. unfold cascadeDeleteReplicaSet.
  destruct (cascade_pods_spec o sv ("ReplicaSet/" +:+ Name (rsMeta rs))
    (allPods op sv (Namespace (rsMeta rs))) Hok) as (sv1 & -> & Hok1 & (Hc & _) & Hp).
  eexists. split; [reflexivity|]. simpl. split_and!; [done| | |by rewrite Hc|by rewrite Hc].
  - apply map_subseteq_spec. intros k p Hl. by apply Hp.
  - intros k p Hl Hns. apply Hp in Hl as [Hl Hni].
    destruct (annotated _ _ _) eqn:Ea; [|done]. exfalso. apply Hni.
    rewrite (Hk _ _ Hl). apply (list_elem_of_fmap_2 (fun q => key_of (podMeta q))).
    apply elem_of_bool_filter. split; [|done]. unfold allPods. apply elem_of_kv_list.
    split; [|by exists k]. unfold in_namespace. by rewrite Hns, String.eqb_refl, orb_true_r.
Qed.

Lemma orphaned_sub pods pods' rs : pods' ⊆ pods -> orphaned pods rs -> orphaned pods' rs.
Proof. intros Hs Ho k p Hl. apply (Ho k). by eapply lookup_weaken. Qed.

Lemma keyed_sub (pods pods' : gmap string Pod) :
  pods' ⊆ pods -> keyed podMeta pods -> keyed podMeta pods'.
Proof. intros Hs Hk k p Hl. apply Hk. by eapply lookup_weaken. Qed.

Lemma cascade_sets_spec o op sv owner rss :
  lm_ok (sv_lm sv) -> keyed podMeta (sv_pods sv) ->
  exists sv', cascade_sets TempDir o op sv owner rss = (sv', Ok tt) /\ lm_ok (sv_lm sv') /\
    sv_pods sv' ⊆ sv_pods sv /\ deployments (sv_ctl sv') = deployments (sv_ctl sv) /\
    (forall k rs, replicaSets (sv_ctl sv') !! k = Some rs -> replicaSets (sv_ctl sv) !! k = Some rs) /\
    forall rs, rs ∈ rss -> annotated (Annotations (rsMeta rs)) owner_annotation owner = true ->
      orphaned (sv_pods sv') rs /\ replicaSets (sv_ctl sv') !! key_of (rsMeta rs) = None.
Proof.
  revert sv. induction rss as [|rs rss IH]; intros sv Hok Hk; cbn [cascade_sets].
  { exists sv. split_and!; [done..|]. intros rs Hin. by apply elem_of_nil in Hin. }
  destruct (annotated _ _ _) eqn:Ea.
  - destruct (cascadeDeleteReplicaSet_spec o (op rs) sv rs Hok Hk)
      as (sv1 & -> & Hok1 & Hsub1 & Ho1 & Hd1 & Hr1).
    destruct (IH sv1 Hok1 (keyed_sub _ _ Hsub1 Hk)) as (sv' & -> & Hok' & Hsub' & Hd' & Hr' & Hall).
    exists sv'. split_and!; [done..|by etrans|by rewrite Hd'| |].
    + intros k x Hl. apply Hr' in Hl. rewrite Hr1 in Hl. by apply lookup_delete_Some in Hl as [_ ?].
    + intros x Hin Hx. apply elem_of_cons in Hin as [->|Hin]; [|by apply Hall]. split.
      * by eapply orphaned_sub.
      * destruct (replicaSets (sv_ctl sv') !! _) as [y|] eqn:E; [|done].
        apply Hr' in E. by rewrite Hr1, lookup_delete_eq in E.
  - destruct (IH sv Hok Hk) as (sv' & -> & Hok' & Hsub' & Hd' & Hr' & Hall).
    exists sv'. split_and!; [done..|]. intros x Hin Hx.
    apply elem_of_cons in Hin as [->|Hin]; [congruence|by apply Hall].
Qed.

(** C25. Deleting a deployment cascades: the handler succeeds, the deployment is gone,
    and in its namespace no replica set it owned and no pod owned by such a replica
    set is on record any more. *)
Theorem handleDeleteDeployment_cascades o ors op sv r dep :
  lm_ok (sv_lm sv) -> keyed podMeta (sv_pods sv) -> keyed rsMeta (replicaSets (sv_ctl sv)) ->
  rq_ns r <> "" -> LoadDeployment (sv_ctl sv) (rq_ns r) (rq_name r) = Some dep ->
  exists sv', handleDeleteDeployment TempDir o ors op sv r = (sv', Ok (Success "deployment deleted")) /\
    LoadDeployment (sv_ctl sv') (rq_ns r) (rq_name r) = None /\
    (forall k rs, replicaSets (sv_ctl sv') !! k = Some rs -> Namespace (rsMeta rs) = rq_ns r ->
       annotated (Annotations (rsMeta rs)) owner_annotation ("Deployment/" +:+ rq_name r) = false) /\
    (forall k rs, replicaSets (sv_ctl sv) !! k = Some rs -> Namespace (rsMeta rs) = rq_ns r ->
       annotated (Annotations (rsMeta rs)) owner_annotation ("Deployment/" +:+ rq_name r) = true ->
       orphaned (sv_pods sv') rs).
Proof.
  intros Hok Hkp Hkr Hns Hdep. unfold handleDeleteDeployment. rewrite Hdep.
  destruct (cascade_sets_spec o op sv ("Deployment/" +:+ rq_name r)
    (ListReplicaSets ors (sv_ctl sv) (rq_ns r)) Hok Hkp)
    as (sv' & -> & _ & Hsub & Hd & Hr & Hall).
  eexists. split; [reflexivity|]. simpl.
  assert (Hlist : forall k rs, replicaSets (sv_ctl sv) !! k = Some rs ->
    Namespace (rsMeta rs) = rq_ns r -> rs ∈ ListReplicaSets ors (sv_ctl sv) (rq_ns r)).
  { intros k rs Hl Hn. apply elem_of_ListReplicaSets; [done..|]. split; [done|].
    unfold rs_key. by rewrite <- (Hkr _ _ Hl). }
  split_and!.
  - apply lookup_delete_eq.
  - intros k rs Hl Hn. destruct (annotated _ _ _) eqn:Ea; [|done]. exfalso.
    pose proof (Hr _ _ Hl) as Hl0. destruct (Hall rs (Hlist _ _ Hl0 Hn) Ea) as [_ Hno].
    rewrite <- (Hkr _ _ Hl0) in Hno. congruence.
  - intros k rs Hl Hn Ea. by apply (Hall rs (Hlist _ _ Hl Hn)).
Qed.

(** ** Creating pods *)

Lemma Launch_no_panic ord (cfg : ConfigStore T) lm h pod engineType target env s pod' w :
  lm_ok lm -> Launch TempDir NewLog ord cfg lm h pod engineType target env <> (s, pod', Panic w).
Proof.
  intros Hok. unfold Launch. set (key := podKey _ _).
  destruct (lm_pods lm !! key) as [mp0|] eqn:Ek; [done|].
  pose proof (allocate_port_spec h key pod) as HA.
  destruct (allocate_port h key pod) as [h1 [[port pod1]|e|x]]; [|done|done]. clear HA.
  unfold container_port.
  destruct (go_get _ _) as [val|]; [destruct (Atoi val); [|done]|];
    (pose proof (ProjectVolumes_no_panic TempDir (o_data ord) (h_files h1) cfg pod1) as HP;
     destruct (ProjectVolumes _ _ _ _ _) as [f [projected|e|x]];
       [|done|intros [= _ _ ->]; by apply (HP f w)]; clear HP;
     match goal with |- context [run_pod _ _ _ ?hh ?m _ _ ?c] =>
       pose proof (run_pod_spec TempDir ord lm hh m key pod1 c Hok Ek) as HR;
       destruct (run_pod TempDir ord lm hh m key pod1 c) as [[lm' h'] [u|e|x]] end; done).
Qed.

(** The pod of a POST as the handler completes it. *)
Definition posted d r pod : Pod :=
  mkPod (mkTypeMeta "v1" "Pod") (created_meta (d_now d) (d_uuid d) (rq_ns r) (podMeta pod))
    (podSpec pod) (podStatus pod).

(** The pod of the request, as the server completes it: the name, labels, annotations and
    specification of the body, its namespace or else that of the URL, and the UUID and
    the time drawn for this request. *)
Record requested d r (p0 pod : Pod) : Prop := {
  rd_name : Name (podMeta pod) = Name (podMeta p0);
  rd_namespace : Namespace (podMeta pod) =
    if decide (Namespace (podMeta p0) = "") then rq_ns r else Namespace (podMeta p0);
  rd_uid : UID (podMeta pod) = d_uuid d;
  rd_created : CreationTimestamp (podMeta pod) = d_now d;
  rd_labels : Labels (podMeta pod) = Labels (podMeta p0) /\ Annotations (podMeta pod) = Annotations (podMeta p0);
  rd_spec : podSpec pod = podSpec p0;
}.

(** What a client learns from the reply to a POST of a pod. *)
Definition create_reply_ok d r sv sv' (rp : reply) : Prop :=
  match rp with
  | Object code (OPod pod) =>
      code = StatusCreated /\ (exists body p0, rq_body r = Some body /\ Parse body = Ok p0 /\ requested d r p0 pod) /\
      Phase (podStatus pod) = PodRunning /\ sv_pods sv' = <[pod_key_of pod := pod]> (sv_pods sv) /\
      lm_pods (sv_lm sv) !! pod_key_of pod = None /\ is_Some (lm_pods (sv_lm sv') !! pod_key_of pod)
  | Failure code message =>
      code = StatusBadRequest /\ rq_body r = None /\ sv' = sv \/
      code = StatusUnprocessableEntity /\ sv' = sv /\
        (exists body e, rq_body r = Some body /\ message = manifest_error_text e /\
           (Parse body = Err e \/
            exists p0, Parse body = Ok p0 /\ ExtractEngineConfig (h_files (sv_host sv)) (posted d r p0) = Err e)) \/
      code = StatusInternalServerError /\ exists body p0 pod, rq_body r = Some body /\ Parse body = Ok p0 /\
        requested d r p0 pod /\ Phase (podStatus pod) = PodFailed /\ Message (podStatus pod) = message /\
        sv_pods sv' = <[pod_key_of pod := pod]> (sv_pods sv) /\ sv_lm sv' = sv_lm sv
  | _ => False
  end.

Lemma requested_posted d r p0 st : requested d r p0 (set_podStatus (posted d r p0) st).
Proof.
  split; try done. simpl. destruct (String.eqb (Namespace (podMeta p0)) "") eqn:E; bool_z.
  - by rewrite decide_True.
  - by rewrite decide_False.
Qed.

Lemma Parse_no_panic body w : Parse body <> Panic w.
Proof.
  unfold Parse, parse_manifest. destruct body; [done|].
  destruct (isJSON _); [destruct (json_decode _)|destruct (yaml_decode _)]; try done;
    by destruct (String.eqb _ _).
Qed.

Lemma ExtractEngineConfig_no_panic (f : F) pod w : ExtractEngineConfig f pod <> Panic w.
Proof. unfold ExtractEngineConfig. repeat case_match; done. Qed.

(** C24. A POST of a pod never panics (with a manager whose watchers have open channels, as
    they always have), and its reply is honest.  [201] comes with the pod of
    the body, completed with the UID drawn for the request: it runs, it was not managed
    before and is managed now, and it is on record as replied under its own key, all
    other records being as they were.  [400] says that the body could not be read,
    [422] that it is no manifest or names no engine, and both leave the server as it was.
    [500] says that the launch failed: the pod of the body is on record, under its own
    key, as failed with the message of the reply, all other records and everything
    managed being as they were (a record of the same key is replaced, see
    [duplicate_overwrites_record]). *)
Theorem handleCreatePod_honest d sv r :
  lm_ok (sv_lm sv) ->
  exists sv' rp, handleCreatePod TempDir NewLog d sv r = (sv', Ok rp) /\ create_reply_ok d r sv sv' rp.
Proof.
  intros Hok. unfold handleCreatePod.
  destruct (rq_body r) as [body|] eqn:EB; [|do 2 eexists; split; [reflexivity|by left]].
  destruct (Parse body) as [pod|e|w] eqn:EP;
    [|do 2 eexists; split; [reflexivity|right; left; split_and!; [done..|]]|by apply Parse_no_panic in EP].
  2: { exists body, e. auto. }
  fold (posted d r pod).
  destruct (ExtractEngineConfig _ _) as [[et tg]|e|w] eqn:EE;
    [|do 2 eexists; split; [reflexivity|right; left; split_and!; [done..|]]|by apply ExtractEngineConfig_no_panic in EE].
  2: { exists body, e. split_and!; [done..|]. right. by exists pod. }
  unfold launch_and_store. set (pod1 := set_podStatus _ _). set (env := pod_env _ _ _ _).
  destruct (Launch _ _ _ _ _ _ _ _ _ _) as [[[lm' h'] pod'] out] eqn:EL.
  apply Launch_result in EL as [[st ->] HL]; [|exact Hok].
  destruct out as [[]|e|w]; [| |done]; do 2 eexists; (split; [reflexivity|]).
  - destruct HL as (Hn & mp & El & _). split_and!; [done| |done|done|exact Hn|].
    + exists body, pod. split_and!; [done..|]. apply requested_posted.
    + simpl. rewrite El. apply lookup_insert_is_Some'. by left.
  - destruct HL as [-> _]. right. right. split; [done|].
    exists body, pod, (failed_with (set_podStatus pod1 st) (launch_error_text e)).
    split_and!; [done|done|apply requested_posted|done..].
Qed.

(** Posting a pod that is already managed is refused with [500] and leaves the
    running pod alone, but its record is replaced by that of the refused one, with
    the new UID and the phase [Failed]. *)
Theorem duplicate_overwrites_record d sv r body pod et tg mp :
  rq_body r = Some body -> Parse body = Ok pod ->
  ExtractEngineConfig (h_files (sv_host sv)) (posted d r pod) = Ok (et, tg) ->
  lm_pods (sv_lm sv) !! pod_key_of (posted d r pod) = Some mp ->
  exists sv' rec, handleCreatePod TempDir NewLog d sv r =
      (sv', Ok (Failure StatusInternalServerError
                  (launch_error_text (AlreadyManaged (pod_key_of (posted d r pod)))))) /\
    sv_lm sv' = sv_lm sv /\ sv_host sv' = sv_host sv /\
    loadPod sv' (Namespace (podMeta (posted d r pod))) (Name (podMeta pod)) = Some rec /\
    UID (podMeta rec) = d_uuid d /\ Phase (podStatus rec) = PodFailed.
Proof.
  intros Hb HP HE Hm. unfold handleCreatePod. rewrite Hb, HP. fold (posted d r pod).
  rewrite HE. unfold launch_and_store. rewrite (Launch_managed _ _ _ _ _ _ _ _ _ _ mp) by exact Hm.
  do 2 eexists. split; [reflexivity|]. split_and!; [done|done| | |].
  - match goal with |- loadPod (storePod _ ?p) _ _ = _ => apply (loadPod_storePod _ p) end.
  - done.
  - done.
Qed.

(** ** Listing pods *)

(** C26. On a server whose pods are on record under their own keys (as they always are, see
    [Cluster.daemon_serves]), a GET of the pods of a namespace, or of all with an empty
    one, that is not a watch (a watch leaves a watcher behind, see WatchStream) changes nothing and answers, as a
    list or, if the client accepts tables, as the table of the same pods, with exactly
    the pods on record there that satisfy both selectors, each of them once, and with the
    status the lifecycle manager reports for it. *)
Theorem handleListPods_exact now o sv r :
  wants_watch r = false -> keyed podMeta (sv_pods sv) ->
  exists pods, handleListPods now o sv r =
      (sv, Ok (if wants_table r then AsTable (ConvertPodsToTable now pods)
               else Items (LPods (mkPodList (mkTypeMeta "v1" "PodList") pods)))) /\
    NoDup (pod_key_of <$> pods) /\
    forall p, p ∈ pods <-> exists k q, sv_pods sv !! k = Some q /\
      (rq_ns r = "" \/ Namespace (podMeta q) = rq_ns r) /\ p = refresh_status sv q /\
      MatchPod p (rq_query r "labelSelector") (rq_query r "fieldSelector") = true.
Proof.
  intros Hw Hk. unfold handleListPods. rewrite Hw. exists (filtered_pods o sv r).
  split; [by destruct (wants_table r)|]. unfold filtered_pods, allPods. split.
  - apply NoDup_fmap_bool_filter. rewrite <- list_fmap_compose.
    rewrite (list_fmap_ext _ (fun p => key_of (podMeta p))).
    + apply NoDup_fmap_bool_filter. rewrite (shuffle_perm o). unfold map_values. rewrite <- list_fmap_compose.
      rewrite (list_fmap_ext _ fst); [apply NoDup_fst_map_to_list|].
      intros i [k q] Hi. simpl. apply list_elem_of_lookup_2, elem_of_map_to_list in Hi. symmetry. by apply Hk.
    + intros i q _. unfold compose, refresh_status, pod_key_of. by destruct (LStatus _ _ _ _).
  - intros p. split.
    + intros Hin. apply elem_of_bool_filter in Hin as [Hin Hm].
      apply list_elem_of_fmap in Hin as (q & -> & Hq). apply elem_of_kv_list in Hq as [Hns [k Hq]].
      exists k, q. split_and!; try done. unfold in_namespace in Hns.
      apply orb_true_iff in Hns as [E|E]; apply String.eqb_eq in E; auto.
    + intros (k & q & Hq & Hns & -> & Hm). apply elem_of_bool_filter. split; [|done].
      apply list_elem_of_fmap_2, elem_of_kv_list.
      split; [|by exists k]. unfold in_namespace. apply orb_true_iff.
      destruct Hns as [->| ->]; [left|right]; apply String.eqb_refl.
Qed.

(** ** Config maps *)

(** A config map round-trips through the API: after a POST the GET of the
    namespace it ended up in (that of the body if it has one, else that of the URL)
    replies with it, then DELETE removes it, GET is a [404], and every other config
    map is untouched. *)
Theorem configmap_roundtrip d sv r body cm g :
  rq_body r = Some body -> ParseConfigMap body = Ok cm ->
  let cm' := mkConfigMap (mkTypeMeta "v1" "ConfigMap")
    (created_meta (d_now d) (d_uuid d) (rq_ns r) (cmMeta cm)) (cmData cm) in
  rq_ns g = Namespace (cmMeta cm') -> rq_name g = Name (cmMeta cm) ->
  exists sv1 sv2,
    handleCreateConfigMap d sv r = (sv1, Ok (Object StatusCreated (OConfigMap cm'))) /\
    handleGetConfigMap sv1 g = (sv1, Ok (Object StatusOK (OConfigMap cm'))) /\
    handleDeleteConfigMap sv1 g = (sv2, Ok (Success "configmap deleted")) /\
    handleGetConfigMap sv2 g = (sv2, Ok (Failure StatusNotFound "configmap not found")) /\
    forall k, k <> key_of (cmMeta cm') ->
      configMaps (sv_config sv2) !! k = configMaps (sv_config sv) !! k.
Proof.
  intros Hb HP cm' Hns Hname. unfold handleCreateConfigMap. rewrite Hb, HP. fold cm'.
  set (sv1 := set_sv_config sv (StoreConfigMap (sv_config sv) cm')).
  assert (Hload : LoadConfigMap (sv_config sv1) (rq_ns g) (rq_name g) = Some cm').
  { rewrite Hns, Hname. unfold LoadConfigMap, sv1. simpl. apply lookup_insert_eq. }
  exists sv1. eexists. split_and!.
  - reflexivity.
  - unfold handleGetConfigMap. by rewrite Hload.
  - unfold handleDeleteConfigMap. by rewrite Hload.
  - unfold handleGetConfigMap, LoadConfigMap, kv_load. simpl. by rewrite lookup_delete_eq.
  - intros k Hk. simpl. unfold key_of in Hk. rewrite Hns, Hname.
    by rewrite lookup_delete_ne, lookup_insert_ne by (intros E; by apply Hk).
Qed.
End Laws.

(** ** A server in memory *)

Definition ex_server_t : Type := Server memfiles (gmap string PodPhase) (gset Z) unit memdb.

Definition ex_owned (name owner : string) : ObjectMeta :=
  mkObjectMeta name "default" "" (Some {[owner_annotation := owner]}) None 0 "".
Definition ex_dep : Deployment :=
  mkDeployment (mkTypeMeta "apps/v1" "Deployment") (mkObjectMeta "web" "default" "" None None 0 "")
    (mkDeploymentSpec None None (mkPodTemplateSpec (ex_meta "" None) (mkPodSpec [] [] "" [])))
    (mkDeploymentStatus 0 0 0 0 0).
Definition ex_rs : ReplicaSet :=
  mkReplicaSet (mkTypeMeta "apps/v1" "ReplicaSet") (ex_owned "web-1" "Deployment/web")
    (mkReplicaSetSpec None None (mkPodTemplateSpec (ex_meta "" None) (mkPodSpec [] [] "" [])))
    (mkReplicaSetStatus 0 0 0 0).
Definition ex_rs_pod : Pod :=
  mkPod (mkTypeMeta "v1" "Pod") (ex_owned "web-1-a" "ReplicaSet/web-1") (mkPodSpec [] [] "" [])
    emptyPodStatus.

Definition ex_server (pods : gmap string Pod) (lm : LifecycleManager unit) : ex_server_t :=
  mkServer pods None (mkServiceStore ∅ None) (mkConfigStore ∅ ∅ None)
    (mkControllerStore {["default/web" := ex_dep]} {["default/web-1" := ex_rs]} None) lm ∅ ex_host.

Definition ex_request (name body : string) : Request :=
  mkRequest "default" name (Some (bytes_of body)) (fun _ => "") "" false.

Lemma keyed_singleton {A} (meta : A -> ObjectMeta) a k :
  k = key_of (meta a) -> keyed meta {[k := a]}.
Proof. intros -> k' a' Hl. by apply lookup_singleton_Some in Hl as [<- <-]. Qed.

Lemma handleDeleteDeployment_cascades_witness :
  exists sv', handleDeleteDeployment "/tmp" in_order in_order (fun _ => in_order)
      (ex_server {["default/web-1-a" := ex_rs_pod]} NewLifecycleManager) (ex_request "web" "")
    = (sv', Ok (Success "deployment deleted")) /\ orphaned (sv_pods sv') ex_rs.
Proof.
  destruct (handleDeleteDeployment_cascades "/tmp" in_order in_order (fun _ => in_order)
    (ex_server {["default/web-1-a" := ex_rs_pod]} NewLifecycleManager) (ex_request "web" "") ex_dep)
    as (sv' & E & _ & _ & Ho).
  - apply ex_new_ok.
  - by apply keyed_singleton.
  - by apply keyed_singleton.
  - done.
  - reflexivity.
  - exists sv'. split; [exact E|]. by apply (Ho "default/web-1" ex_rs).
Defined.

Lemma handleCreatePod_honest_witness :
  exists sv' pod, handleCreatePod "/tmp" tt ex_env_draw (ex_server ∅ NewLifecycleManager)
      (ex_request "" "web") = (sv', Ok (Object StatusCreated (OPod pod))) /\
    loadPod sv' "default" "web" = Some pod.
Proof.
  destruct (handleCreatePod "/tmp" tt ex_env_draw (ex_server ∅ NewLifecycleManager) (ex_request "" "web"))
    as [sv' rp] eqn:E.
  destruct (handleCreatePod_honest "/tmp" tt ex_env_draw (ex_server ∅ NewLifecycleManager)
    (ex_request "" "web")) as (sv1 & rp1 & E1 & Hrp); [apply ex_new_ok|].
  rewrite E in E1. injection E1 as -> ->.
  assert (Ek : match rp1 with Object _ (OPod p) => (Namespace (podMeta p), Name (podMeta p))
    | _ => ("", "") end = ("default", "web")).
  { change rp1 with (match (sv1, @Ok launch_error reply rp1).2 with Ok x => x | _ => rp1 end).
    rewrite <- E. vm_compute. reflexivity. }
  destruct rp1 as [| |code [pod| | | | |]| | | | |]; try discriminate Ek.
  injection Ek as Ens En. destruct Hrp as (-> & _ & _ & Hl & _).
  exists sv1, pod. split; [reflexivity|]. unfold loadPod, kv_load. rewrite Hl.
  unfold pod_key_of. rewrite Ens, En. apply lookup_insert_eq.
Defined.

Lemma duplicate_overwrites_record_witness :
  exists sv' rec, handleCreatePod "/tmp" tt ex_env_draw
      (ex_server ∅ (mkLM {["default/web" := ex_managed "default" 30000 []]} empty_hub 1))
      (ex_request "" "web") = (sv', Ok (Failure 500 "launch failed")) /\
    loadPod sv' "default" "web" = Some rec /\ Phase (podStatus rec) = PodFailed.
Proof.
  destruct (duplicate_overwrites_record "/tmp" tt ex_env_draw
    (ex_server ∅ (mkLM {["default/web" := ex_managed "default" 30000 []]} empty_hub 1))
    (ex_request "" "web") (bytes_of "web")
    (mkPod (mkTypeMeta "v1" "Pod") (ex_meta "web" ex_native) (mkPodSpec [] [] RestartNever [])
      emptyPodStatus) "native" "web" (ex_managed "default" 30000 []))
    as (sv' & rec & E & _ & _ & Hl & _ & Hf);
    [reflexivity|vm_compute; reflexivity|vm_compute; reflexivity|reflexivity|].
  exists sv', rec. split; [exact E|]. split; [exact Hl|exact Hf].
Defined.

Lemma handleListPods_exact_witness :
  exists pods, handleListPods 0 in_order
      (ex_server {["default/web-1-a" := ex_rs_pod]} NewLifecycleManager) (ex_request "" "") =
    (ex_server {["default/web-1-a" := ex_rs_pod]} NewLifecycleManager,
     Ok (Items (LPods (mkPodList (mkTypeMeta "v1" "PodList") pods)))) /\ ex_rs_pod ∈ pods.
Proof.
  destruct (handleListPods_exact 0 in_order
    (ex_server {["default/web-1-a" := ex_rs_pod]} NewLifecycleManager) (ex_request "" "") eq_refl)
    as (pods & E & _ & Hin).
  { intros k q Hq. simpl in Hq. by apply lookup_singleton_Some in Hq as [<- <-]. }
  exists pods. split; [exact E|]. apply Hin. exists "default/web-1-a", ex_rs_pod.
  split_and!; [reflexivity|by right|reflexivity|reflexivity].
Defined.

Lemma configmap_roundtrip_witness :
  exists sv1 cm, handleCreateConfigMap ex_env_draw (ex_server ∅ NewLifecycleManager) (ex_request "" "app")
      = (sv1, Ok (Object StatusCreated (OConfigMap cm))) /\
    handleGetConfigMap sv1 (ex_request "app" "") = (sv1, Ok (Object StatusOK (OConfigMap cm))).
Proof.
  destruct (configmap_roundtrip ex_env_draw (ex_server ∅ NewLifecycleManager) (ex_request "" "app")
    (bytes_of "app") (mkConfigMap (mkTypeMeta "v1" "ConfigMap") (ex_meta "app" None) None)
    (ex_request "app" "")) as (sv1 & sv2 & E1 & E2 & _);
    [reflexivity|vm_compute; reflexivity|reflexivity|reflexivity|].
  eexists sv1, _. split; [exact E1|exact E2].
Defined.
