(* ===== verification/Cluster.v ===== *)
(** * The daemon as one system

    The requests, the ticks of the two controllers, the monitors and probes of the
    pods, the goroutines of the watches and the world outside are interleaved steps of
    one server.  [server_wf] is what all of them keep: records under their own keys,
    an open channel per watcher, a consistent port pool, and no two listening sockets
    on a port.  From it follows that no request ever panics. *)

From S2P Require Import Prelude Types GoStrings Selector Store Stores PortPool Hub SvcProxy Path Volume Health Lifecycle Manifest Deployment ReplicaSetCtl Table Server ServerPods Handlers Discovery Api Demo ApiLaws.

(** ** Sockets

    [hold] tells which port an owner listens on: the proxy of a service
    ([true, key]) or the proxy of a pod ([false, key]). *)

Abbreviation owner := (bool * string)%type.

Definition sockets_ok (hold : owner -> option Z) (bound : gset Z) : Prop :=
  (forall o p, hold o = Some p -> p ∈ bound) /\
  (forall o1 o2 p, hold o1 = Some p -> hold o2 = Some p -> o1 = o2).

Lemma sockets_weaken hold hold' (bound bound' : gset Z) :
  sockets_ok hold bound -> bound ⊆ bound' -> (forall o p, hold' o = Some p -> hold o = Some p) ->
  sockets_ok hold' bound'.
Proof. intros [Hb Hu] Hs Hh. split; [intros o p E; apply Hs, (Hb o); auto|eauto]. Qed.

Lemma sockets_add hold hold' (bound : gset Z) o p :
  sockets_ok hold bound -> p ∉ bound -> hold' o = Some p ->
  (forall o', o' <> o -> hold' o' = hold o') -> sockets_ok hold' ({[p]} ∪ bound).
Proof.
  intros [Hb Hu] Hp Ho Hoth. split.
  - intros o' q E. destruct (decide (o' = o)) as [->|Hne].
    + rewrite Ho in E. injection E as <-. set_solver.
    + rewrite Hoth in E by done. apply Hb in E. set_solver.
  - intros o1 o2 q E1 E2.
    destruct (decide (o1 = o)) as [->|H1], (decide (o2 = o)) as [->|H2]; [done| | |].
    + rewrite Ho in E1. injection E1 as <-. rewrite Hoth in E2 by done. by apply Hb in E2.
    + rewrite Ho in E2. injection E2 as <-. rewrite Hoth in E1 by done. by apply Hb in E1.
    + rewrite Hoth in E1, E2 by done. eauto.
Qed.

Lemma sockets_drop hold hold' (bound : gset Z) o p :
  sockets_ok hold bound -> hold o = Some p -> hold' o = None ->
  (forall o', o' <> o -> hold' o' = hold o') -> sockets_ok hold' (bound ∖ {[p]}).
Proof.
  intros [Hb Hu] Ho Hn Hoth.
  assert (Hsub : forall o' q, hold' o' = Some q -> o' <> o /\ hold o' = Some q).
  { intros o' q E. destruct (decide (o' = o)) as [->|Hne]; [congruence|]. by rewrite <- Hoth. }
  split.
  - intros o' q E. apply Hsub in E as [Hne E]. apply elem_of_difference.
    split; [by eapply Hb|]. rewrite elem_of_singleton. intros ->. by apply Hne, (Hu _ _ p).
  - intros o1 o2 q E1 E2. apply Hsub in E1 as [_ E1], E2 as [_ E2]. eauto.
Qed.

(** ** The system part of the server *)

Section System.
Context {F W N L T : Type} `{FS F} `{PodEngines F W} `{TCPLaws N}.
Context (TempDir : string) (NewLog : L).
Implicit Types (lm : LifecycleManager L) (h : Host F W N) (mp : managedPod L).
Implicit Types (px : gmap string ServiceProxy).

Definition hold lm px (o : owner) : option Z :=
  if o.1 then sp_port <$> px !! o.2 else lm_pods lm !! o.2 ≫= mp_proxy.

Record sys_wf lm px h : Prop := {
  sw_hub : lm_ok lm;
  sw_pool : pool_ok (h_pool h);
  sw_managed : forall k mp, lm_pods lm !! k = Some mp -> pod_key_of (mp_pod mp) = k;
  sw_proxies : forall k sp, px !! k = Some sp -> listener sp = Some (sp_port sp) /\ sp_closed sp = false;
  sw_sockets : sockets_ok (hold lm px) (listening (h_net h));
}.

Lemma sys_Launch ord (cfg : ConfigStore T) lm px h pod et tg env lm' h' pod' r :
  sys_wf lm px h -> Launch TempDir NewLog ord cfg lm h pod et tg env = ((lm', h'), pod', r) ->
  sys_wf lm' px h'.
Proof.
  intros [Hh Hp Hm Hx Hs] E.
  destruct (Launch_result TempDir NewLog ord cfg lm h pod et tg env lm' h' pod' r Hh E) as [_ HA].
  destruct (Launch_state TempDir NewLog ord cfg lm h pod et tg env lm' h' pod' r Hh Hp E)
    as [[-> ->]|(Hn & Hh' & Hp' & _)]; [done|].
  destruct r as [u|e|w]; [|by destruct HA as [-> En]; split; rewrite ?En|done].
  destruct HA as (_ & mp & El & Ek & Hpx). split; [done|done| |done|].
  - intros k m. rewrite El, lookup_insert_Some. intros [[<- <-]|[_ Hk]]; [done|by apply Hm].
  - assert (Hoth : forall o, o <> (false, pod_key_of pod) -> hold lm' px o = hold lm px o).
    { intros [[|] k] Hne; unfold hold; simpl; [done|]. rewrite El, lookup_insert_ne by congruence. done. }
    assert (Hkey : hold lm' px (false, pod_key_of pod) = mp_proxy mp)
      by (unfold hold; simpl; by rewrite El, lookup_insert_eq).
    destruct Hpx as [[Ex ->]|(p & Ex & EL)].
    + eapply sockets_weaken; [exact Hs|done|]. intros o p Ho.
      destruct (decide (o = (false, pod_key_of pod))) as [->|Hne]; [congruence|]. by rewrite <- Hoth.
    + apply Listen_ok in EL as [Hni ->]. eapply (sockets_add _ _ _ (false, pod_key_of pod));
        [exact Hs|done|by rewrite Hkey|done].
Qed.

Lemma tear_down_net h mp key name :
  h_net (tear_down TempDir h mp key name) =
    match mp_proxy mp with Some p => CloseListener (h_net h) p | None => h_net h end.
Proof.
  unfold tear_down, stop_engine, close_proxy.
  destruct (registered _ _), (mp_proxy mp); simpl; unfold release_if; by destruct (_ <? _)%Z.
Qed.

Lemma sys_Terminate o lm px h ns name lm' h' r :
  sys_wf lm px h -> Terminate TempDir o lm h ns name = ((lm', h'), r) -> sys_wf lm' px h'.
Proof.
  intros [Hh Hp Hm Hx Hs] E.
  destruct (lm_pods lm !! podKey ns name) as [mp|] eqn:Ek.
  2: { unfold Terminate in E. rewrite Ek in E. by injection E as <- <- _. }
  destruct (Terminate_spec TempDir o lm h ns name mp Hh Ek) as (ws & E' & Hh').
  rewrite E' in E. injection E as <- <- _. split; simpl; [done| | |done|].
  - rewrite tear_down_pool. by apply release_if_ok.
  - intros k m [_ Hk]%lookup_delete_Some. by apply Hm.
  - assert (Hkey : hold (mkLM (delete (podKey ns name) (lm_pods lm)) ws (i64 (resourceVersion lm + 1)))
      px (false, podKey ns name) = None) by (unfold hold; simpl; by rewrite lookup_delete_eq).
    assert (Hoth : forall o, o <> (false, podKey ns name) ->
      hold (mkLM (delete (podKey ns name) (lm_pods lm)) ws (i64 (resourceVersion lm + 1))) px o =
      hold lm px o).
    { intros [[|] k] Hne; unfold hold; simpl; [done|]. by rewrite lookup_delete_ne by congruence. }
    rewrite tear_down_net. destruct (mp_proxy mp) as [p|] eqn:Ep.
    + rewrite Close_ok. eapply (sockets_drop _ _ _ (false, podKey ns name)); [exact Hs| |done|done].
      unfold hold; simpl. by rewrite Ek.
    + eapply sockets_weaken; [exact Hs|done|]. intros q p Ho.
      destruct (decide (q = (false, podKey ns name))) as [->|Hne]; [congruence|]. by rewrite <- Hoth.
Qed.

(** A change of the status of a managed pod, with its announcement. *)
Lemma sys_update lm px h key mp mp' ws rv :
  sys_wf lm px h -> lm_pods lm !! key = Some mp ->
  mp_proxy mp' = mp_proxy mp -> mp_pod mp' = mp_pod mp ->
  lm_ok (mkLM (<[key := mp']> (lm_pods lm)) ws rv) ->
  sys_wf (mkLM (<[key := mp']> (lm_pods lm)) ws rv) px h.
Proof.
  intros [Hh Hp Hm Hx Hs] Ek Ep Epod Hok. split; [done|done| |done|].
  - intros k m. simpl. rewrite lookup_insert_Some. intros [[<- <-]|[_ Hk]]; [|by apply Hm].
    rewrite Epod. by apply Hm.
  - eapply sockets_weaken; [exact Hs|done|]. intros [[|] k] p; unfold hold; simpl; [done|].
    destruct (decide (k = key)) as [->|Hne]; [|by rewrite lookup_insert_ne].
    rewrite lookup_insert_eq, Ek. simpl. by rewrite Ep.
Qed.

(** The watchers may change on their own. *)
Lemma sys_watchers lm px h ws rv :
  sys_wf lm px h -> lm_ok (mkLM (lm_pods lm) ws rv) -> sys_wf (mkLM (lm_pods lm) ws rv) px h.
Proof. intros [Hh Hp Hm Hx Hs] Hok. by split. Qed.

(** The world outside: files, workloads, and sockets of other processes. *)
Lemma sys_host lm px h h' :
  sys_wf lm px h -> pool_ok (h_pool h') -> listening (h_net h) ⊆ listening (h_net h') ->
  sys_wf lm px h'.
Proof.
  intros [Hh Hp Hm Hx Hs] Hp' Hn. split; [done|done|done|done|].
  eapply sockets_weaken; [exact Hs|done|done].
Qed.

(** *** The proxies of the services *)

Lemma sys_Start lm px h pool key s port n sp :
  sys_wf lm px h -> pool_ok pool -> px !! key = None ->
  Start (h_net h) (NewServiceProxy s) port = Some (n, sp) ->
  sys_wf lm (<[key := sp]> px) (mkHost pool n (h_files h) (h_eng h)).
Proof.
  intros [Hh Hp Hm Hx Hs] Hpool Hn ES.
  apply Start_ok in ES as (Hni & Hl & Hlis & Hport & Hc & _).
  split; simpl; [done|done|done| |].
  - intros k x. rewrite lookup_insert_Some. intros [[<- <-]|[_ Hk]]; [|by eapply Hx].
    by rewrite Hlis, Hport, Hc.
  - rewrite Hl. eapply (sockets_add _ _ _ (true, key)); [exact Hs|done| |].
    + unfold hold; simpl. by rewrite lookup_insert_eq, <- Hport.
    + intros [[|] k] Hne; unfold hold; simpl; [|done]. by rewrite lookup_insert_ne by congruence.
Qed.

Lemma sys_StartProxy lm px h s pm r :
  sys_wf lm px h -> StartProxy (mkProxyManager px (h_pool h) (h_net h)) s = (pm, r) ->
  sys_wf lm (proxies pm) (mkHost (pm_pool pm) (pm_net pm) (h_files h) (h_eng h)) /\
  forall w, r <> Panic w.
Proof.
  intros Hw. unfold StartProxy. simpl.
  assert (Hsame : sys_wf lm px (mkHost (h_pool h) (h_net h) (h_files h) (h_eng h))) by (by destruct h).
  destruct (px !! _) as [sp|] eqn:En; [by intros [= <- <-]|].
  destruct (svcPorts (svcSpec s)) as [|p0 ps]; [by intros [= <- <-]|].
  assert (Hdyn : forall sp0, sp0 = NewServiceProxy s ->
    start_dynamic (mkProxyManager px (h_pool h) (h_net h)) (key_of (svcMeta s)) sp0 (spPort p0) = (pm, r) ->
    sys_wf lm (proxies pm) (mkHost (pm_pool pm) (pm_net pm) (h_files h) (h_eng h)) /\
    forall w, r <> Panic w).
  { intros sp0 ->. unfold start_dynamic. simpl.
    pose proof (Allocate_ok (h_pool h) (key_of (svcMeta s)) (sw_pool _ _ _ Hw)) as Hpo.
    destruct (Allocate _ _) as [pool [port|e|w]] eqn:EA; simpl in Hpo.
    - destruct (Start _ _ port) as [[n sp]|] eqn:ES; intros [= <- <-]; simpl; (split; [|done]).
      + by eapply sys_Start.
      + eapply sys_host; [exact Hw| |done]. simpl. by apply Release_ok.
    - intros [= <- <-]. split; [|done]. by eapply sys_host.
    - exfalso. unfold Allocate in EA. destruct (allocated (h_pool h) !! _); [done|].
      by destruct (scan_free _ _ _ _). }
  destruct (_ <? _)%Z; [|by apply Hdyn].
  destruct (Start _ _ (spPort p0)) as [[n sp]|] eqn:ES; [|by apply Hdyn].
  intros [= <- <-]. split; [|done]. eapply sys_Start; [done| |done|done]. by apply Hw.
Qed.

Lemma sys_StopProxy lm px h ns name :
  sys_wf lm px h ->
  let pm := StopProxy (mkProxyManager px (h_pool h) (h_net h)) ns name in
  sys_wf lm (proxies pm) (mkHost (pm_pool pm) (pm_net pm) (h_files h) (h_eng h)).
Proof.
  intros [Hh Hp Hm Hx Hs]. unfold StopProxy. simpl.
  destruct (px !! key ns name) as [sp|] eqn:Ek; [|by destruct h; split].
  destruct (Hx _ _ Ek) as [Hl Hc]. unfold Close. rewrite Hl, Hc. split; simpl; [done| |done| |].
  - by apply Release_ok.
  - intros k x [_ Hk]%lookup_delete_Some. by eapply Hx.
  - rewrite Close_ok. eapply (sockets_drop _ _ _ (true, key ns name)); [exact Hs| | |].
    + unfold hold; simpl. by rewrite Ek.
    + unfold hold; simpl. by rewrite lookup_delete_eq.
    + intros [[|] k] Hne; unfold hold; simpl; [|done]. by rewrite lookup_delete_ne by congruence.
Qed.

(** *** The monitors, the probes and the watches *)

Lemma sys_tick o lm px h key lm' st :
  sys_wf lm px h -> monitor_tick o lm h key = Ok (lm', st) -> sys_wf lm' px h.
Proof.
  intros Hw. pose proof (sw_hub _ _ _ Hw) as Hh. unfold monitor_tick.
  destruct (lm_pods lm !! key) as [mp|] eqn:Ek; [|by intros [= <- _]].
  destruct (negb (phase_final _)); [by intros [= <- _]|].
  destruct (negb (shouldRestart _ _)).
  - destruct (updatePodStatus_spec o lm h mp Hh) as (ws & -> & Hok). simpl. intros [= <- _].
    by apply sys_watchers.
  - set (mp' := set_ready _ _).
    destruct (updatePodStatus_spec o (set_mp lm key mp') h mp' Hh) as (ws & -> & Hok).
    simpl. intros [= <- _]. by eapply (sys_update lm px h key mp mp').
Qed.

Lemma sys_restart o lm px h key h' lm' st :
  sys_wf lm px h -> monitor_restart o lm h key = (h', Ok (lm', st)) -> sys_wf lm' px h'.
Proof.
  intros Hw. unfold monitor_restart.
  destruct (lm_pods lm !! key) as [mp|] eqn:Ek; [|by intros [= <- <- _]].
  destruct (eng_Start _ _ _ _ _ _ _) as [wf [err|]].
  all: assert (Hw' : sys_wf lm px (set_eng h wf)) by (eapply sys_host; [exact Hw|apply Hw|done]);
    pose proof (sw_hub _ _ _ Hw') as Hh.
  - destruct (updatePodStatus_spec o lm (set_eng h wf) mp Hh) as (ws & -> & Hok). simpl.
    intros [= <- <- _]. by apply sys_watchers.
  - set (mp' := set_ready mp true).
    destruct (updatePodStatus_spec o (set_mp lm key mp') (set_eng h wf) mp' Hh) as (ws & -> & Hok).
    simpl. intros [= <- <- _]. by eapply (sys_update lm px _ key mp mp').
Qed.

Lemma sys_readiness o lm px h key ev lm' :
  sys_wf lm px h -> readiness_event o lm h key ev = Ok lm' -> sys_wf lm' px h.
Proof.
  intros Hw. pose proof (sw_hub _ _ _ Hw) as Hh. unfold readiness_event.
  destruct (lm_pods lm !! key) as [mp|] eqn:Ek; [|by intros [= <-]].
  set (mp' := set_ready mp _). destruct (Bool.eqb _ _).
  - intros [= <-]. by eapply (sys_update lm px h key mp mp').
  - destruct (updatePodStatus_spec o (set_mp lm key mp') h mp' Hh) as (ws & -> & Hok). intros [= <-].
    by eapply (sys_update lm px h key mp mp').
Qed.

Lemma sys_liveness lm px h key ev : sys_wf lm px h -> sys_wf lm px (liveness_event h key lm ev).
Proof.
  intros Hw. eapply sys_host; [exact Hw| |]; unfold liveness_event;
    destruct ev, (lm_pods lm !! key); try done; apply Hw.
Qed.
End System.

(** ** Requests *)

Section Requests.
Context {F W N L T : Type} `{FS F} `{PodEngines F W} `{TCPLaws N} `{Bolt T}.
Context `{Codec Pod, Codec Service, Codec ConfigMap, Codec Secret, Codec Deployment, Codec ReplicaSet}.
Context `{Decoder Pod, Decoder Service, Decoder ConfigMap, Decoder Secret}.
Context `{Texts} `{JsonTexts} `{UnicodeCase}.
Context (TempDir : string) (NewLog : L).
Context (ReadAll : L -> bytes) (TailLines : L -> Z -> bytes).
Abbreviation server := (Server F W N L T).
Implicit Types (sv : server) (r : Request).

(** Every object is on record under its own namespace and name. *)
Record records_wf sv : Prop := {
  rw_pods : keyed podMeta (sv_pods sv);
  rw_services : keyed svcMeta (services (sv_services sv));
  rw_configmaps : keyed cmMeta (configMaps (sv_config sv));
  rw_secrets : keyed secMeta (secrets (sv_config sv));
  rw_deployments : keyed depMeta (deployments (sv_ctl sv));
  rw_replicasets : keyed rsMeta (replicaSets (sv_ctl sv));
}.

Record server_wf sv : Prop := {
  sv_sys : sys_wf (sv_lm sv) (sv_proxies sv) (sv_host sv);
  sv_records : records_wf sv;
}.

(** The changes of a single component. *)
Lemma wf_set_lm sv s :
  server_wf sv -> sys_wf s.1 (sv_proxies sv) s.2 -> server_wf (set_sv_lm sv s).
Proof. intros [_ [? ? ? ? ? ?]] Hs. by split. Qed.

Lemma wf_storePod sv pod : server_wf sv -> server_wf (storePod sv pod).
Proof.
  intros [Hs [? ? ? ? ? ?]]. split; [done|]. split; try done.
  by apply (keyed_store "pods" podMeta (sv_pods sv, sv_pods_db sv)).
Qed.

Lemma wf_deletePod sv ns name : server_wf sv -> server_wf (deletePod sv ns name).
Proof.
  intros [Hs [? ? ? ? ? ?]]. split; [done|]. split; try done.
  by apply (keyed_delete "pods" podMeta (sv_pods sv, sv_pods_db sv)).
Qed.

Definition ctl_wf (s : ControllerStore T) : Prop :=
  keyed depMeta (deployments s) /\ keyed rsMeta (replicaSets s).

Lemma wf_set_ctl sv s : server_wf sv -> ctl_wf s -> server_wf (set_sv_ctl sv s).
Proof. intros [Hs [? ? ? ? ? ?]] [Hd Hr]. by split. Qed.

Lemma wf_ctl sv : server_wf sv -> ctl_wf (sv_ctl sv).
Proof. intros [_ [? ? ? ? ? ?]]. by split. Qed.

Lemma ctl_StoreDeployment s dep : ctl_wf s -> ctl_wf (StoreDeployment s dep).
Proof. intros [Hd Hr]. split; [|done]. by apply (keyed_store "deployments" depMeta (deployments s, cs_db s)). Qed.
Lemma ctl_StoreReplicaSet s rs : ctl_wf s -> ctl_wf (StoreReplicaSet s rs).
Proof. intros [Hd Hr]. split; [done|]. by apply (keyed_store "replicasets" rsMeta (replicaSets s, cs_db s)). Qed.
Lemma ctl_DeleteDeployment s ns name : ctl_wf s -> ctl_wf (DeleteDeployment s ns name).
Proof. intros [Hd Hr]. split; [|done]. by apply (keyed_delete "deployments" depMeta (deployments s, cs_db s)). Qed.
Lemma ctl_DeleteReplicaSet s ns name : ctl_wf s -> ctl_wf (DeleteReplicaSet s ns name).
Proof. intros [Hd Hr]. split; [done|]. by apply (keyed_delete "replicasets" rsMeta (replicaSets s, cs_db s)). Qed.

Lemma wf_set_config sv cfg :
  server_wf sv -> keyed cmMeta (configMaps cfg) -> keyed secMeta (secrets cfg) ->
  server_wf (set_sv_config sv cfg).
Proof. intros [Hs [? ? ? ? ? ?]] Hc Hsec. by split. Qed.

Lemma wf_set_services sv st :
  server_wf sv -> keyed svcMeta (services st) -> server_wf (set_sv_services sv st).
Proof. intros [Hs [? ? ? ? ? ?]] Hc. by split. Qed.

(** *** Launching and terminating *)

Lemma wf_launch_and_store d sv pod et tg env :
  server_wf sv ->
  exists sv' pod' out, launch_and_store TempDir NewLog d sv pod et tg env = (sv', pod', out) /\
    server_wf sv' /\ forall w, out <> Panic w.
Proof.
  intros Hw. unfold launch_and_store. pose proof (sw_hub _ _ _ (sv_sys _ Hw)) as Hh.
  set (pod1 := set_podStatus pod _).
  destruct (Launch _ _ _ _ _ _ pod1 _ _ _) as [[[lm' h'] pod2] [u|e|w]] eqn:EL.
  3: { by apply Launch_no_panic in EL. }
  all: apply (sys_Launch TempDir NewLog _ _ _ _ _ _ _ _ _ _ _ _ _ (sv_sys _ Hw)) in EL;
    do 3 eexists; (split; [reflexivity|]); split; [|done]; by apply wf_storePod, wf_set_lm.
Qed.

Lemma wf_SLaunchPod d sv pod :
  server_wf sv ->
  exists sv' pod' out, SLaunchPod TempDir NewLog d sv pod = (sv', pod', out) /\
    server_wf sv' /\ forall w, out <> Panic w.
Proof.
  intros Hw. unfold SLaunchPod. apply (wf_storePod _ pod) in Hw.
  destruct (ExtractEngineConfig _ pod) as [[et tg]|e|w] eqn:EE.
  - destruct (wf_launch_and_store d (storePod sv pod) pod et tg
      (pod_env d (storePod sv pod) (Namespace (podMeta pod)) pod) Hw) as (sv' & pod' & out & -> & Hw' & Hr).
    destruct out as [u|e|w]; [| |by destruct (Hr w)]; do 3 eexists; by split.
  - do 3 eexists. split; [reflexivity|]. split; [by apply wf_storePod|done].
  - by apply ExtractEngineConfig_no_panic in EE.
Qed.

Lemma wf_terminate o sv ns name :
  server_wf sv -> exists sv', terminate TempDir o sv ns name = (sv', Ok tt) /\ server_wf sv'.
Proof.
  intros Hw. destruct (terminate_spec TempDir o sv ns name (sw_hub _ _ _ (sv_sys _ Hw)))
    as (lm & h & E & _).
  eexists. split; [exact E|]. apply wf_set_lm; [done|]. simpl.
  unfold terminate in E. destruct (Terminate _ _ _ _ _ _) as [[lm' h'] r] eqn:ET.
  apply (sys_Terminate TempDir _ _ _ _ _ _ _ _ _ (sv_sys _ Hw)) in ET.
  by destruct r as [[u|e|w]|]; injection E as -> ->.
Qed.

Lemma wf_SDeletePod o sv ns name :
  server_wf sv -> exists sv', SDeletePod TempDir o sv ns name = (sv', Ok tt) /\ server_wf sv'.
Proof.
  intros Hw. unfold SDeletePod. destruct (wf_terminate o sv ns name Hw) as (sv' & -> & Hw').
  eexists. split; [reflexivity|]. by apply wf_deletePod.
Qed.

Lemma wf_cascade_pods o sv owner pods :
  server_wf sv -> exists sv', cascade_pods TempDir o sv owner pods = (sv', Ok tt) /\ server_wf sv'.
Proof.
  revert sv. induction pods as [|pod pods IH]; intros sv Hw; cbn [cascade_pods]; [eauto|].
  destruct (annotated _ _ _); [|by apply IH].
  destruct (wf_terminate o sv (Namespace (podMeta pod)) (Name (podMeta pod)) Hw) as (sv1 & -> & Hw1).
  destruct (wf_SDeletePod o sv1 (Namespace (podMeta pod)) (Name (podMeta pod)) Hw1) as (sv2 & -> & Hw2).
  by apply IH.
Qed.

Lemma wf_cascadeDeleteReplicaSet o op sv rs :
  server_wf sv ->
  exists sv', cascadeDeleteReplicaSet TempDir o op sv rs = (sv', Ok tt) /\ server_wf sv'.
Proof.
  intros Hw. unfold cascadeDeleteReplicaSet.
  destruct (wf_cascade_pods o sv ("ReplicaSet/" +:+ Name (rsMeta rs))
    (allPods op sv (Namespace (rsMeta rs))) Hw) as (sv1 & -> & Hw1).
  eexists. split; [reflexivity|]. by apply wf_set_ctl, ctl_DeleteReplicaSet, wf_ctl.
Qed.

Lemma wf_cascade_sets o op sv owner rss :
  server_wf sv -> exists sv', cascade_sets TempDir o op sv owner rss = (sv', Ok tt) /\ server_wf sv'.
Proof.
  revert sv. induction rss as [|rs rss IH]; intros sv Hw; cbn [cascade_sets]; [eauto|].
  destruct (annotated _ _ _); [|by apply IH].
  destruct (wf_cascadeDeleteReplicaSet o (op rs) sv rs Hw) as (sv1 & -> & Hw1). by apply IH.
Qed.

(** *** The handlers

    A handler answers: it returns a reply, without a panic, and leaves a well-formed
    server. *)
Definition answers (s : server * res launch_error reply) : Prop :=
  exists sv' rp, s = (sv', Ok rp) /\ server_wf sv'.

Lemma answers_ok sv rp : server_wf sv -> answers (ok sv rp).
Proof. intros Hw. by exists sv, rp. Qed.
#[local] Hint Resolve answers_ok wf_storePod wf_deletePod wf_set_ctl wf_ctl ctl_StoreDeployment
  ctl_StoreReplicaSet ctl_DeleteDeployment ctl_DeleteReplicaSet : lok8s.

Lemma parse_manifest_no_panic {A} `{Decoder A} (meta : A -> ObjectMeta) body w :
  parse_manifest meta body <> Panic w.
Proof.
  unfold parse_manifest. destruct body; [done|].
  destruct (isJSON _); [destruct (json_decode _)|destruct (yaml_decode _)]; try done;
    by destruct (String.eqb _ _).
Qed.

(** Handlers that look something up and reply. *)
Ltac answer := repeat (case_match; simplify_eq/=); try (by eauto 6 with lok8s).

Lemma handleCreatePod_answers d sv r : server_wf sv -> answers (handleCreatePod TempDir NewLog d sv r).
Proof.
  intros Hw. unfold handleCreatePod. destruct (rq_body r) as [body|]; [|auto with lok8s].
  destruct (Parse body) as [pod|e|w] eqn:EP; [|auto with lok8s|by apply Parse_no_panic in EP].
  set (pod1 := mkPod _ _ _ _).
  destruct (ExtractEngineConfig _ _) as [[et tg]|e|w] eqn:EE;
    [|auto with lok8s|by apply ExtractEngineConfig_no_panic in EE].
  destruct (wf_launch_and_store d sv pod1 et tg (pod_env d sv (rq_ns r) pod1) Hw)
    as (sv' & pod' & out & -> & Hw' & Hno).
  destruct out as [u|e|w]; [auto with lok8s..|by destruct (Hno w)].
Qed.

Lemma handleGetPod_answers sv r : server_wf sv -> answers (handleGetPod sv r).
Proof. intros Hw. unfold handleGetPod. answer. Qed.

Lemma wf_Watch sv : server_wf sv -> server_wf (set_sv_lm sv ((Watch (sv_lm sv)).1, sv_host sv)).
Proof.
  intros Hw. apply wf_set_lm; [done|]. simpl. pose proof (sv_sys _ Hw) as Hs.
  apply sys_watchers; [by destruct (sv_lm sv)|]. destruct (sw_hub _ _ _ Hs) as [w Hh]. exists w.
  by apply hub_ok_subscribe.
Qed.

Lemma handleListPods_answers now o sv r : server_wf sv -> answers (handleListPods now o sv r).
Proof.
  intros Hw. unfold handleListPods. destruct (wants_watch r); [|by destruct (wants_table r); auto with lok8s].
  pose proof (wf_Watch sv Hw) as Hw'. unfold handleWatchPods.
  destruct (Watch (sv_lm sv)) as [lm id]. simpl in Hw'. destruct (rq_stream r); auto with lok8s.
Qed.

Lemma handleDeletePod_answers o sv r : server_wf sv -> answers (handleDeletePod TempDir o sv r).
Proof.
  intros Hw. unfold handleDeletePod. destruct (loadPod _ _ _); [|auto with lok8s].
  destruct (wf_terminate o sv (rq_ns r) (rq_name r) Hw) as (sv' & -> & Hw'). auto with lok8s.
Qed.

Lemma handleGetPodLogs_answers sv r : server_wf sv -> answers (handleGetPodLogs ReadAll TailLines sv r).
Proof. intros Hw. unfold handleGetPodLogs. answer. Qed.

Lemma wf_set_proxy_manager sv s pm out :
  server_wf sv -> StartProxy (proxy_manager sv) s = (pm, out) ->
  server_wf (set_proxy_manager sv pm) /\ forall w, out <> Panic w.
Proof.
  intros Hw E. destruct (sys_StartProxy _ _ _ _ _ _ (sv_sys _ Hw) E) as [Hs Hno].
  split; [|done]. destruct Hw as [_ [? ? ? ? ? ?]]. by split.
Qed.

Lemma handleCreateService_answers d sv r : server_wf sv -> answers (handleCreateService d sv r).
Proof.
  intros Hw. unfold handleCreateService. destruct (rq_body r) as [body|]; [|auto with lok8s].
  destruct (ParseService body) as [s|e|w] eqn:EP;
    [|auto with lok8s|by apply parse_manifest_no_panic in EP].
  destruct (StartProxy _ _) as [pm [port|e|w]] eqn:ES;
    destruct (wf_set_proxy_manager _ _ _ _ Hw ES) as [Hw' Hno];
    [|auto with lok8s|by destruct (Hno w)].
  apply answers_ok, wf_set_services; [done|].
  by apply (keyed_store "services" svcMeta (services (sv_services sv), svc_db (sv_services sv))), Hw.
Qed.

Lemma handleDeleteService_answers sv r : server_wf sv -> answers (handleDeleteService sv r).
Proof.
  intros Hw. unfold handleDeleteService. destruct (LoadService _ _ _); [|auto with lok8s].
  apply answers_ok, wf_set_services.
  - pose proof (sys_StopProxy _ _ _ (rq_ns r) (rq_name r) (sv_sys _ Hw)) as Hs.
    destruct Hw as [_ [? ? ? ? ? ?]]. by split.
  - by apply (keyed_delete "services" svcMeta (services (sv_services sv), svc_db (sv_services sv))), Hw.
Qed.

Lemma handleCreateConfigMap_answers d sv r : server_wf sv -> answers (handleCreateConfigMap d sv r).
Proof.
  intros Hw. unfold handleCreateConfigMap. destruct (rq_body r) as [body|]; [|auto with lok8s].
  destruct (ParseConfigMap body) as [cm|e|w] eqn:EP;
    [|auto with lok8s|by apply parse_manifest_no_panic in EP].
  apply answers_ok, wf_set_config; [done| |apply Hw].
  by apply (keyed_store "configmaps" cmMeta (configMaps (sv_config sv), cfg_db (sv_config sv))), Hw.
Qed.

Lemma handleDeleteConfigMap_answers sv r : server_wf sv -> answers (handleDeleteConfigMap sv r).
Proof.
  intros Hw. unfold handleDeleteConfigMap. destruct (LoadConfigMap _ _ _); [|auto with lok8s].
  apply answers_ok, wf_set_config; [done| |apply Hw].
  by apply (keyed_delete "configmaps" cmMeta (configMaps (sv_config sv), cfg_db (sv_config sv))), Hw.
Qed.

Lemma handleCreateSecret_answers d sv r : server_wf sv -> answers (handleCreateSecret d sv r).
Proof.
  intros Hw. unfold handleCreateSecret. destruct (rq_body r) as [body|]; [|auto with lok8s].
  destruct (ParseSecret body) as [sec|e|w] eqn:EP;
    [|auto with lok8s|by apply parse_manifest_no_panic in EP].
  apply answers_ok, wf_set_config; [done|apply Hw|].
  by apply (keyed_store "secrets" secMeta (secrets (sv_config sv), cfg_db (sv_config sv))), Hw.
Qed.

Lemma handleDeleteSecret_answers sv r : server_wf sv -> answers (handleDeleteSecret sv r).
Proof.
  intros Hw. unfold handleDeleteSecret. destruct (LoadSecret _ _ _); [|auto with lok8s].
  apply answers_ok, wf_set_config; [done|apply Hw|].
  by apply (keyed_delete "secrets" secMeta (secrets (sv_config sv), cfg_db (sv_config sv))), Hw.
Qed.

Lemma handleDeleteDeployment_answers o ors op sv r :
  server_wf sv -> answers (handleDeleteDeployment TempDir o ors op sv r).
Proof.
  intros Hw. unfold handleDeleteDeployment. destruct (LoadDeployment _ _ _); [|auto with lok8s].
  destruct (wf_cascade_sets o op sv ("Deployment/" +:+ rq_name r)
    (ListReplicaSets ors (sv_ctl sv) (rq_ns r)) Hw) as (sv' & -> & Hw'). auto with lok8s.
Qed.

Lemma handleDeleteReplicaSet_answers o op sv r :
  server_wf sv -> answers (handleDeleteReplicaSet TempDir o op sv r).
Proof.
  intros Hw. unfold handleDeleteReplicaSet. destruct (LoadReplicaSet _ _ _) as [rs|]; [|auto with lok8s].
  destruct (wf_cascadeDeleteReplicaSet o op sv rs Hw) as (sv' & -> & Hw'). auto with lok8s.
Qed.

(** The handlers that only touch the records of the controllers. *)
Lemma controller_handlers_answer d sv r :
  server_wf sv ->
  answers (handleCreateDeployment d sv r) /\ answers (handleUpdateDeployment d sv r) /\
  answers (handleCreateReplicaSet d sv r) /\ answers (handleUpdateReplicaSet d sv r).
Proof.
  intros Hw. unfold handleCreateDeployment, handleUpdateDeployment, handleCreateReplicaSet,
    handleUpdateReplicaSet. split_and!; answer.
Qed.

#[local] Hint Resolve handleCreatePod_answers handleGetPod_answers handleListPods_answers
  handleDeletePod_answers handleGetPodLogs_answers handleCreateService_answers
  handleDeleteService_answers handleCreateConfigMap_answers handleDeleteConfigMap_answers
  handleCreateSecret_answers handleDeleteSecret_answers handleDeleteDeployment_answers
  handleDeleteReplicaSet_answers : lok8s.

Lemma replying_answers f d sv r :
  answers (f d sv r) ->
  exists sv' resp, replying f d sv r = (sv', Ok resp) /\ server_wf sv'.
Proof. intros (sv' & rp & E & Hw). unfold replying. rewrite E. eauto. Qed.

Lemma handler_answers name h d sv r :
  (name, h) ∈ handler_table TempDir NewLog ReadAll TailLines -> server_wf sv ->
  exists sv' resp, h d sv r = (sv', Ok resp) /\ server_wf sv'.
Proof.
  intros Hin Hw. destruct (controller_handlers_answer (ad_env d) sv r Hw) as (? & ? & ? & ?).
  unfold handler_table in Hin.
  repeat (apply elem_of_cons in Hin as [Hin|Hin];
    [injection Hin as -> ->; first [by eexists _, _|
       apply replying_answers;
       first [by auto with lok8s|progress unfold handleListServices, handleGetService, handleListConfigMaps,
         handleGetConfigMap, handleListSecrets, handleGetSecret, handleListDeployments,
         handleGetDeployment, handleListReplicaSets, handleGetReplicaSet; answer]]|]).
  by apply elem_of_nil in Hin.
Qed.

Lemma serve_answers d sv rq :
  server_wf sv ->
  exists sv' resp, serve TempDir NewLog ReadAll TailLines d sv rq = (sv', Ok resp) /\ server_wf sv'.
Proof.
  intros Hw. apply (serve_cases TempDir NewLog ReadAll TailLines
    (fun _ out => exists sv' resp, out = (sv', Ok resp) /\ server_wf sv') d sv rq); [by eexists _, _|].
  intros name h r Hin. by apply (handler_answers name).
Qed.
End Requests.

(** ** The controllers on the server *)

(** What the replica set controller does to the pods and to the store is launches,
    deletions and writes of replica sets, so it keeps what these keep. *)
Section Invariants.
Context {T : Type} `{Bolt T} {W : Type} `{PodManager W}.
Context `{Codec Deployment, Codec ReplicaSet}.
Context (P : W -> Prop) (Q : ControllerStore T -> Prop).
Context (HL : forall w p, P w -> P (LaunchPod w p).1).
Context (HD : forall w ns name, P w -> P (DeletePod w ns name).1).
Context (HS : forall s rs, Q s -> Q (StoreReplicaSet s rs)).

Lemma launch_pods_keeps w rs ds : P w -> P (launch_pods w rs ds).1.
Proof using HL.
  revert w. induction ds as [|d ds IH]; intros w Hw; [done|]. cbn [launch_pods].
  pose proof (HL w (make_pod rs d) Hw) as Hl.
  destruct (LaunchPod w (make_pod rs d)) as [w1 [err|]]; [done|by apply IH].
Qed.

Lemma delete_pods_keeps w l i n : P w -> P (delete_pods w l i n).1.
Proof using HD.
  revert w i. induction n as [|n IH]; intros w i Hw; [done|]. cbn [delete_pods].
  destruct (if (_ <? _)%Z then _ else _) as [p|]; [|done].
  pose proof (HD w (Namespace (podMeta p)) (Name (podMeta p)) Hw) as Hd.
  destruct (DeletePod w _ _) as [w1 [err|]]; [done|by apply IH].
Qed.

Lemma RSReconcile_keeps o1 o2 draws w s rs :
  P w -> Q s -> P (RSReconcile o1 o2 draws w s rs).1.1 /\ Q (RSReconcile o1 o2 draws w s rs).1.2.
Proof using HL HD HS.
  intros Hw Hs. unfold RSReconcile. destruct (observe _ _) as [act rdy].
  destruct (_ <? _)%Z.
  - match goal with |- context [launch_pods w rs ?ds] => pose proof (launch_pods_keeps w rs ds Hw) as Hl;
      destruct (launch_pods w rs ds) as [w1 [err|]] end; [done|].
    destruct (observe _ _). split; [done|by apply HS].
  - destruct (_ <? _)%Z; [|split; [done|by apply HS]].
    match goal with |- context [delete_pods w ?l ?i ?n] => pose proof (delete_pods_keeps w l i n Hw) as Hd;
      destruct (delete_pods w l i n) as [w1 [u|e|p]] end; [|done..].
    split; [done|by apply HS].
Qed.

Lemma RSReconcileAll_keeps o o1 o2 draws w s :
  P w -> Q s ->
  P (RSReconcileAll o o1 o2 draws w s).1.1 /\ Q (RSReconcileAll o o1 o2 draws w s).1.2.
Proof using HL HD HS.
  unfold RSReconcileAll. generalize (ListReplicaSets o s ""), 0. intros rss.
  revert w s. induction rss as [|rs rss IH]; intros w s i Hw Hs; [done|]. cbn [RSReconcileList].
  pose proof (RSReconcile_keeps (o1 i) (o2 i) (draws i) w s rs Hw Hs) as [Hw1 Hs1].
  destruct (RSReconcile _ _ _ _ _ _) as [[w1 s1] [u|e|p]]; [by apply IH..|done].
Qed.
End Invariants.

(** The deployment controller writes replica sets and deployments. *)
Section Writes.
Context {T : Type} `{Bolt T}.
Context `{Codec Deployment, Codec ReplicaSet, Codec PodSpec}.
Context (Q : ControllerStore T -> Prop).
Context (HD : forall s dep, Q s -> Q (StoreDeployment s dep)).
Context (HS : forall s rs, Q s -> Q (StoreReplicaSet s rs)).

Lemma scale_down_keeps s r olds : Q s -> Q (scale_down s r olds).
Proof using HS. revert s r. induction olds as [|rs olds IH]; intros s r Hs; [done|]. by apply IH, HS. Qed.

Lemma Reconcile_keeps o1 o2 now s dep : Q s -> Q (Reconcile o1 o2 now s dep).
Proof using HD HS.
  intros Hs. unfold Reconcile. destruct (classify _ _ _) as [newRS olds].
  destruct (ensure_new_rs now s dep _ newRS olds) as [s1 nr] eqn:E.
  assert (Hs1 : Q s1).
  { unfold ensure_new_rs in E. destruct newRS; injection E as <- _; [done|by apply HS]. }
  apply HD. unfold scale. destruct olds as [|old olds].
  - destruct (negb _); [by apply HS|done].
  - apply scale_down_keeps. destruct (_ <? _)%Z; [by apply HS|done].
Qed.

Lemma ReconcileAll_keeps o o1 o2 now s : Q s -> Q (ReconcileAll o o1 o2 now s).
Proof using HD HS.
  unfold ReconcileAll. generalize (ListDeployments o s ""). intros deps. revert s.
  induction deps as [|dep deps IH]; intros s Hs; [done|]. by apply IH, Reconcile_keeps.
Qed.
End Writes.

(** ** The steps of the daemon *)

Section Daemon.
Context {F W N L T : Type} `{FS F} `{PodEngines F W} `{TCPLaws N} `{Bolt T}.
Context `{Codec Pod, Codec Service, Codec ConfigMap, Codec Secret, Codec Deployment, Codec ReplicaSet}.
Context `{Codec PodSpec}.
Context `{Decoder Pod, Decoder Service, Decoder ConfigMap, Decoder Secret}.
Context `{Texts} `{JsonTexts} `{UnicodeCase}.
Context (TempDir : string) (NewLog : L).
Context (ReadAll : L -> bytes) (TailLines : L -> Z -> bytes).
Abbreviation server := (Server F W N L T).
Implicit Types (sv : server).

(** [dc.ReconcileAll()], one tick. *)
Definition deployment_tick (o : shuffle Deployment) (o1 o2 : Deployment -> shuffle ReplicaSet)
    (now : Deployment -> Time) sv : server :=
  set_sv_ctl sv (ReconcileAll o o1 o2 now (sv_ctl sv)).

(** [rsc.ReconcileAll()], one tick: the pod manager is the server itself; a launch
    touches the pods, the controller writes the replica sets. *)
Definition replicaset_tick (env : nat -> env_draw) (ow : shuffle Z) (o : shuffle ReplicaSet)
    (o1 o2 : nat -> shuffle Pod) (draws : nat -> nat -> draw) sv : server * res string unit :=
  let _ := server_PodManager TempDir NewLog env ow in
  let '((w, s), r) := RSReconcileAll o o1 o2 draws (sv, 0) (sv_ctl sv) in
  (set_sv_ctl w.1 s, r).

(** What happens without a request or a tick: a pass of a monitor, a restart, a probe, a
    watch that ends or takes an event, and the world outside (files, workloads that
    end, sockets of others). *)
Inductive background_step : server -> server -> Prop :=
| StepMonitor o key sv lm' st :
    monitor_tick o (sv_lm sv) (sv_host sv) key = Ok (lm', st) ->
    background_step sv (set_sv_lm sv (lm', sv_host sv))
| StepRestart o key sv lm' h' st :
    monitor_restart o (sv_lm sv) (sv_host sv) key = (h', Ok (lm', st)) ->
    background_step sv (set_sv_lm sv (lm', h'))
| StepReadiness o key ev sv lm' :
    readiness_event o (sv_lm sv) (sv_host sv) key ev = Ok lm' ->
    background_step sv (set_sv_lm sv (lm', sv_host sv))
| StepLiveness key ev sv :
    background_step sv (set_sv_lm sv (sv_lm sv, liveness_event (sv_host sv) key (sv_lm sv) ev))
| StepUnwatch id sv :
    background_step sv (set_sv_lm sv (mkLM (lm_pods (sv_lm sv)) (unsubscribe (lm_watchers (sv_lm sv)) id)
      (resourceVersion (sv_lm sv)), sv_host sv))
| StepCloseWatch id ws sv :
    id ∉ hub_subs (lm_watchers (sv_lm sv)) -> close_chan (lm_watchers (sv_lm sv)) id = Ok ws ->
    background_step sv (set_sv_lm sv (mkLM (lm_pods (sv_lm sv)) ws (resourceVersion (sv_lm sv)), sv_host sv))
| StepReceive id e ws sv :
    recv (lm_watchers (sv_lm sv)) id = Some (e, ws) ->
    background_step sv (set_sv_lm sv (mkLM (lm_pods (sv_lm sv)) ws (resourceVersion (sv_lm sv)), sv_host sv))
| StepWorld n files eng sv :
    listening (h_net (sv_host sv)) ⊆ listening n ->
    background_step sv (set_sv_lm sv (sv_lm sv, mkHost (h_pool (sv_host sv)) n files eng)).

(** A pass of the replica set controller that panics ends the daemon: it is no step. *)
Inductive server_step : server -> server -> Prop :=
| StepRequest d rq sv sv' resp :
    serve TempDir NewLog ReadAll TailLines d sv rq = (sv', resp) -> server_step sv sv'
| StepDeployments o o1 o2 now sv : server_step sv (deployment_tick o o1 o2 now sv)
| StepReplicaSets env ow o o1 o2 draws sv sv' r :
    replicaset_tick env ow o o1 o2 draws sv = (sv', r) -> (forall p, r <> Panic p) -> server_step sv sv'
| StepRecover d o_svc o_pod sv : server_step sv (RecoverState TempDir NewLog d o_svc o_pod sv)
| StepBackground sv sv' : background_step sv sv' -> server_step sv sv'.

Definition server_reach : server -> server -> Prop := rtc server_step.

(** *** Each step keeps the server well formed *)

Lemma wf_deployment_tick o o1 o2 now sv : server_wf sv -> server_wf (deployment_tick o o1 o2 now sv).
Proof.
  intros Hw. apply wf_set_ctl; [done|].
  apply (ReconcileAll_keeps ctl_wf ctl_StoreDeployment ctl_StoreReplicaSet). by apply wf_ctl.
Qed.

Lemma wf_replicaset_tick env ow o o1 o2 draws sv :
  server_wf sv -> server_wf (replicaset_tick env ow o o1 o2 draws sv).1.
Proof.
  intros Hw. unfold replicaset_tick.
  pose proof (RSReconcileAll_keeps (H0 := server_PodManager TempDir NewLog env ow)
    (fun w => server_wf w.1) ctl_wf) as HK.
  specialize (HK ltac:(intros w p Hp; simpl; unfold W_LaunchPod;
    by destruct (wf_SLaunchPod TempDir NewLog (env w.2) w.1 p Hp) as (? & ? & ? & -> & ? & _))).
  specialize (HK ltac:(intros w ns name Hp; simpl; unfold W_DeletePod;
    by destruct (wf_SDeletePod TempDir ow w.1 ns name Hp) as (? & -> & ?))).
  specialize (HK ctl_StoreReplicaSet o o1 o2 draws (sv, 0) (sv_ctl sv) Hw (wf_ctl _ Hw)).
  destruct (RSReconcileAll _ _ _ _ _ _) as [[w s] r]. destruct HK as [H1' H2']. by apply wf_set_ctl.
Qed.

(** The recovery loops. *)
Lemma wf_reserve sv key port : server_wf sv -> server_wf (reserve sv key port).
Proof.
  intros Hw. apply wf_set_lm; [done|]. eapply sys_host; [apply Hw| |done]. simpl.
  by apply Reserve_ok, (sv_sys _ Hw).
Qed.

Lemma wf_recover_service sv s : server_wf sv -> server_wf (recover_service sv s).
Proof.
  intros Hw. unfold recover_service. destruct (_ <? _)%Z; [|done].
  apply (wf_reserve _ (key_of (svcMeta s)) (node_port s)) in Hw.
  destruct (StartProxy _ s) as [pm r] eqn:ES.
  by destruct (wf_set_proxy_manager _ _ _ _ Hw ES).
Qed.

Lemma wf_recover_pod d sv pod : server_wf sv -> server_wf (recover_pod TempDir NewLog d sv pod).
Proof.
  intros Hw. unfold recover_pod. destruct (to_recover pod); [|done].
  match goal with |- context [SLaunchPod _ _ d ?s pod] => assert (Hw1 : server_wf s);
    [destruct (_ <? _)%Z; [by apply wf_reserve|done]|] end.
  by destruct (wf_SLaunchPod TempDir NewLog d _ pod Hw1) as (sv' & pod' & out & -> & Hw' & _).
Qed.

Lemma wf_foldl {A} (f : server -> A -> server) l sv :
  (forall sv x, server_wf sv -> server_wf (f sv x)) -> server_wf sv -> server_wf (foldl f sv l).
Proof. intros Hf. revert sv. induction l as [|x l IH]; intros sv Hw; [done|]. by apply IH, Hf. Qed.

Lemma wf_RecoverState d o_svc o_pod sv :
  server_wf sv -> server_wf (RecoverState TempDir NewLog d o_svc o_pod sv).
Proof.
  intros Hw. unfold RecoverState. apply wf_foldl; [intros; by apply wf_recover_pod|].
  apply wf_foldl; [intros; by apply wf_recover_service|done].
Qed.

Lemma wf_set_watchers sv ws :
  server_wf sv -> lm_ok (mkLM (lm_pods (sv_lm sv)) ws (resourceVersion (sv_lm sv))) ->
  server_wf (set_sv_lm sv (mkLM (lm_pods (sv_lm sv)) ws (resourceVersion (sv_lm sv)), sv_host sv)).
Proof.
  intros Hw Hok. apply wf_set_lm; [done|]. simpl. apply sys_watchers; [|done].
  destruct (sv_lm sv) eqn:E. simpl. rewrite <- E. apply Hw.
Qed.

(** Only the channels of registered watchers have to be open. *)
Lemma lm_ok_registered (lm : LifecycleManager L) :
  lm_ok lm <-> hub_ok watch_cap (lm_watchers lm, ∅).
Proof.
  split; [|by exists ∅]. intros [w (Ho & Hd & Hb)]. split_and!; simpl in *; [|set_solver|done].
  intros id Hid. apply Ho. set_solver.
Qed.

Lemma wf_background sv sv' : server_wf sv -> background_step sv sv' -> server_wf sv'.
Proof.
  intros Hw Hs. destruct Hs.
  - apply wf_set_lm; [done|]. eapply sys_tick; [apply Hw|done].
  - apply wf_set_lm; [done|]. eapply sys_restart; [apply Hw|done].
  - apply wf_set_lm; [done|]. eapply sys_readiness; [apply Hw|done].
  - apply wf_set_lm; [done|]. apply sys_liveness, Hw.
  - apply wf_set_watchers; [done|]. pose proof (sw_hub _ _ _ (sv_sys _ Hw)) as Hh.
    apply lm_ok_registered in Hh as (Ho & Hd & Hb). apply lm_ok_registered.
    split_and!; simpl in *; [|set_solver|done]. intros i Hi. apply Ho. set_solver.
  - apply wf_set_watchers; [done|]. pose proof (sw_hub _ _ _ (sv_sys _ Hw)) as Hh.
    apply lm_ok_registered in Hh as Hh1. destruct Hh1 as (Ho & Hd & Hb). exists ∅.
    unfold close_chan in *. simpl.
    destruct (hub_chans _ !! id) as [c|] eqn:Ec; [|done]. destruct (ch_closed c); [done|]. simplify_eq.
    split_and!; simpl in *; [|set_solver|].
    + intros i Hi. rewrite lookup_insert_ne by set_solver. by apply Ho.
    + intros i c'. rewrite lookup_insert_Some. intros [[<- <-]|[_ Hi]]; [|by apply Hb].
      simpl. by apply (Hb id).
  - apply wf_set_watchers; [done|]. destruct (sw_hub _ _ _ (sv_sys _ Hw)) as [w Hh]. exists w. simpl.
    by eapply hub_ok_recv.
  - apply wf_set_lm; [done|]. eapply sys_host; [apply Hw| |done]. apply (sw_pool _ _ _ (sv_sys _ Hw)).
Qed.

Lemma server_wf_step sv sv' : server_wf sv -> server_step sv sv' -> server_wf sv'.
Proof.
  intros Hw Hs. destruct Hs.
  - destruct (serve_answers TempDir NewLog ReadAll TailLines d sv rq Hw) as (sv1 & rp & E & Hw1).
    congruence.
  - by apply wf_deployment_tick.
  - match goal with E : replicaset_tick ?a ?b ?c ?e ?f ?g ?s = _ |- _ =>
      pose proof (wf_replicaset_tick a b c e f g s Hw) as Hw1; by rewrite E in Hw1 end.
  - by apply wf_RecoverState.
  - by eapply wf_background.
Qed.

Lemma server_reach_wf sv sv' : server_wf sv -> server_reach sv sv' -> server_wf sv'.
Proof. intros Hw Hr. induction Hr as [|x y z Hs _ IH]; [done|]. by apply IH, (server_wf_step x). Qed.

(** The start: the objects of the database are under their own keys. *)
Lemma server_wf_new lm0 h0 cfg ctl db :
  lm0 = NewLifecycleManager -> pool_ok (h_pool h0) ->
  keyed podMeta (kv_load_all "pods" db) -> keyed svcMeta (kv_load_all "services" db) ->
  keyed cmMeta (configMaps cfg) -> keyed secMeta (secrets cfg) -> ctl_wf ctl ->
  server_wf (NewServer lm0 h0 cfg ctl db : server).
Proof.
  intros -> Hp Hpods Hsvc Hc Hs [Hd Hr]. split; [|by split].
  split; simpl; [|done| | |].
  - exists ∅. apply (hub_reach_ok watch_cap), ReachInit.
  - intros k mp. by rewrite lookup_empty.
  - intros k sp. by rewrite lookup_empty.
  - split; [intros [[|] k] p|intros [[|] k1] [[|] k2] p]; unfold hold; simpl; by rewrite ?lookup_empty.
Qed.

(** A pass of the replica set controller panics only over a replica set on record that
    asks for less than no pod. *)
Lemma replicaset_tick_panics env ow o o1 o2 draws sv sv' p :
  replicaset_tick env ow o o1 o2 draws sv = (sv', Panic p) ->
  exists rs, rs ∈ map_values (replicaSets (sv_ctl sv)) /\ (rs_desired rs < 0)%Z.
Proof.
  unfold replicaset_tick. destruct (RSReconcileAll _ _ _ _ _ _) as [[w s] r] eqn:E. intros [= _ ->].
  apply RSReconcileAll_panics in E as (rs & Hin & Hd). exists rs. split; [|done].
  apply elem_of_kv_list in Hin as [_ [k Hk]]. apply elem_of_map_values. eauto.
Qed.

(** C1. As long as the daemon runs (it ends when a pass of the replica set controller panics,
    and when a probe with an overflowing period starts, see [Monitor.long_period_panics]),
    whatever the interleaving of requests, passes of the controllers, monitors, probes,
    watches and the world outside since a well-formed start, requests being answered one
    at a time and passes being made between them: the next request is
    answered, no handler panics, no two proxies share a port of the host, every object
    is on record under its own key, and so it is after the request.  And the next pass
    of the replica set controller panics only when a replica set on record asks for a
    negative number of pods. *)
Theorem daemon_serves sv0 sv d rq :
  server_wf sv0 -> server_reach sv0 sv ->
  (exists sv' resp, serve TempDir NewLog ReadAll TailLines d sv rq = (sv', Ok resp) /\
    server_wf sv /\ server_wf sv') /\
  forall env ow o o1 o2 draws sv' p,
    replicaset_tick env ow o o1 o2 draws sv = (sv', Panic p) ->
    exists rs, rs ∈ map_values (replicaSets (sv_ctl sv)) /\ (rs_desired rs < 0)%Z.
Proof.
  intros Hw Hr. pose proof (server_reach_wf _ _ Hw Hr) as Hw'. split.
  - destruct (serve_answers TempDir NewLog ReadAll TailLines d sv rq Hw') as (sv' & resp & E & Hw2).
    by exists sv', resp.
  - intros *. apply replicaset_tick_panics.
Qed.
End Daemon.

(** ** A daemon to run *)

Definition ex_api_draw : api_draw :=
  mkApiDraw ex_env_draw in_order in_order in_order in_order in_order in_order in_order (fun _ => in_order).
Definition ex_post : http_request :=
  mkHttp "POST" "/api/v1/namespaces/default/pods" (Some (bytes_of "web")) (fun _ => "") "" false.
Definition ex_get : http_request :=
  mkHttp "GET" "/api/v1/namespaces/default/pods/web" None (fun _ => "") "" false.
Definition ex_serve (sv : ex_server_t) (rq : http_request) :=
  serve "/tmp" tt (fun _ => []) (fun _ _ => []) ex_api_draw sv rq.

Lemma ex_server_wf : server_wf (ex_server ∅ NewLifecycleManager).
Proof.
  split; split; simpl; try (by intros k x; rewrite lookup_empty); try by apply keyed_singleton.
  - apply ex_new_ok.
  - apply pool_exact_ok, NewPortPool_exact.
  - split; [intros [[|] k] p|intros [[|] k1] [[|] k2] p]; unfold hold; simpl; by rewrite ?lookup_empty.
Qed.

Lemma daemon_serves_witness :
  let sv := (ex_serve (ex_server ∅ NewLifecycleManager) ex_post).1 in
  exists sv' resp, ex_serve sv ex_get = (sv', Ok resp) /\ server_wf sv' /\
    exists pod, resp = Reply (Object StatusOK (OPod pod)) /\ Phase (podStatus pod) = PodRunning.
Proof.
  intros sv.
  destruct (daemon_serves "/tmp" tt (fun _ => []) (fun _ _ => [])
    (ex_server ∅ NewLifecycleManager) sv ex_api_draw ex_get ex_server_wf) as [(sv' & resp & E & _ & Hw) _].
  - apply rtc_once. by eapply (StepRequest _ _ _ _ ex_api_draw ex_post), surjective_pairing.
  - exists sv', resp. split; [exact E|]. split; [exact Hw|].
    assert (Er : (ex_serve sv ex_get).2 = Ok resp) by (unfold ex_serve; by rewrite E).
    vm_compute in Er. injection Er as <-. eexists. split; reflexivity.
Defined.
