(* ===== verification/Daemon.v ===== *)
(** * Start-up, recovery and shutdown (src/main.go, src/api/server.go)

    What the daemon does when it starts and when it ends: [RecoverState] brings the
    pods on record back, [lifecycle.Shutdown] ends every managed pod, and [runServer]
    puts both around the requests and the controllers. *)

From S2P Require Import Prelude Types GoStrings Selector Store Stores PortPool Hub SvcProxy Path Volume Health Lifecycle Manifest Deployment ReplicaSetCtl Table Server ServerPods Handlers Demo Rollout Discovery Api ApiLaws Loops Cluster.

(** ** Recovery *)

Section Recovery.
Context {F W N L T : Type} `{FS F} `{PodEngines F W} `{TCPLaws N} `{Bolt T}.
Context `{Codec Pod, Codec Service, Codec ConfigMap, Codec Secret, Codec Deployment, Codec ReplicaSet}.
Context `{Texts} `{UnicodeCase}.
Context (TempDir : string) (NewLog : L).
Abbreviation server := (Server F W N L T).
Implicit Types (sv : server) (pod : Pod).

Abbreviation managed sv k := (lm_pods (sv_lm sv) !! k).

(** What a launch leaves on record and in the manager. *)
Lemma SLaunchPod_outcome d sv pod sv' pod' out :
  lm_ok (sv_lm sv) -> SLaunchPod TempDir NewLog d sv pod = (sv', pod', out) ->
  sv_pods sv' = <[pod_key_of pod := pod']> (sv_pods sv) /\
  (forall k, k <> pod_key_of pod -> managed sv' k = managed sv k) /\
  match out with
  | Ok _ => Phase (podStatus pod') = PodRunning /\ managed sv (pod_key_of pod) = None /\
      is_Some (managed sv' (pod_key_of pod))
  | Err _ => Phase (podStatus pod') = PodFailed /\ sv_lm sv' = sv_lm sv
  | Panic _ => False
  end.
Proof.
  intros Hok. unfold SLaunchPod. set (sv1 := storePod sv pod).
  destruct (ExtractEngineConfig _ pod) as [[et tg]|e|w] eqn:EE.
  3: { by apply ExtractEngineConfig_no_panic in EE. }
  2: { intros [= <- <- <-]. simpl. split_and!; [|done..]. apply insert_insert_eq. }
  unfold launch_and_store. set (pod1 := set_podStatus pod _).
  destruct (Launch _ _ _ _ _ _ pod1 _ _ _) as [[[lm' h'] pod2] r] eqn:EL.
  apply Launch_result in EL as [[st ->] HL]; [|exact Hok]. change (pod_key_of pod1) with (pod_key_of pod) in HL.
  destruct r as [u|e|w]; [| |done]; intros [= <- <- <-]; simpl.
  - destruct HL as (Hn & mp & El & _ & _). rewrite El, lookup_insert_eq.
    split_and!; [apply insert_insert_eq| |done|done|done].
    intros k Hk. by rewrite lookup_insert_ne.
  - destruct HL as [-> _]. split_and!; [apply insert_insert_eq|done..].
Qed.

(** How a pod on record comes out of the recovery: a pod that ran or was pending is
    running under the manager again, or on record as failed; any other is left as it
    was. *)
Definition recovered sv sv' (pod : Pod) : Prop :=
  let k := pod_key_of pod in
  if to_recover pod
  then exists q, sv_pods sv' !! k = Some q /\
    (Phase (podStatus q) = PodRunning /\ is_Some (managed sv' k) \/
     Phase (podStatus q) = PodFailed /\ managed sv' k = None)
  else sv_pods sv' !! k = sv_pods sv !! k /\ managed sv' k = None.

Lemma recover_pod_spec d sv pod :
  server_wf sv -> managed sv (pod_key_of pod) = None ->
  let sv' := recover_pod TempDir NewLog d sv pod in
  server_wf sv' /\ recovered sv sv' pod /\
  forall k, k <> pod_key_of pod -> sv_pods sv' !! k = sv_pods sv !! k /\ managed sv' k = managed sv k.
Proof.
  intros Hw Hn sv'. split; [by apply wf_recover_pod|]. unfold sv', recovered, recover_pod.
  destruct (to_recover pod) eqn:Et; [|by split].
  set (sv1 := if (_ <? _)%Z then _ else _).
  assert (Hw1 : server_wf sv1) by (unfold sv1; destruct (_ <? _)%Z; [by apply wf_reserve|done]).
  assert (E1 : sv_pods sv1 = sv_pods sv /\ lm_pods (sv_lm sv1) = lm_pods (sv_lm sv))
    by (unfold sv1; by destruct (_ <? _)%Z).
  destruct E1 as [Ep El].
  destruct (SLaunchPod TempDir NewLog d sv1 pod) as [[sv2 pod2] out] eqn:ES. simpl.
  apply SLaunchPod_outcome in ES as (Hp2 & Hoth & Hout); [|apply (sw_hub _ _ _ (sv_sys _ Hw1))].
  split.
  - exists pod2. rewrite Hp2, lookup_insert_eq. split; [done|].
    destruct out as [u|e|w]; [left|right|done].
    + by destruct Hout as (? & _ & ?).
    + destruct Hout as [? ->]. by rewrite El.
  - intros k Hk. rewrite Hp2, lookup_insert_ne by done. by rewrite Ep, Hoth, El.
Qed.

Lemma recover_pods_spec d l sv :
  server_wf sv -> NoDup (pod_key_of <$> l) -> (forall pod, pod ∈ l -> managed sv (pod_key_of pod) = None) ->
  let sv' := foldl (fun sv pod => recover_pod TempDir NewLog (d pod) sv pod) sv l in
  server_wf sv' /\ (forall pod, pod ∈ l -> recovered sv sv' pod) /\
  forall k, k ∉ (pod_key_of <$> l) -> sv_pods sv' !! k = sv_pods sv !! k /\ managed sv' k = managed sv k.
Proof.
  revert sv. induction l as [|pod l IH]; intros sv Hw Hnd Hn; cbn [foldl].
  { split_and!; [done| |done]. intros pod Hin. by apply elem_of_nil in Hin. }
  rewrite fmap_cons in Hnd. apply NoDup_cons in Hnd as [Hni Hnd].
  destruct (recover_pod_spec (d pod) sv pod Hw (Hn _ (list_elem_of_here _ _))) as (Hw1 & Hr1 & Ho1).
  set (sv1 := recover_pod _ _ _ _ _) in *.
  assert (Hne : forall q, q ∈ l -> pod_key_of q <> pod_key_of pod).
  { intros q Hq E. apply Hni. rewrite <- E. by apply list_elem_of_fmap_2. }
  destruct (IH sv1 Hw1 Hnd) as (Hw' & Hr' & Ho').
  { intros q Hq. rewrite (proj2 (Ho1 _ (Hne _ Hq))). apply Hn. by right. }
  split_and!; [done| |].
  - intros q [->|Hq]%elem_of_cons.
    + destruct (Ho' _ Hni) as [E1 E2]. unfold recovered in *. by rewrite E1, E2.
    + pose proof (Hr' _ Hq) as Hrq. unfold recovered in *.
      destruct (Ho1 _ (Hne _ Hq)) as [E1 _]. by rewrite E1 in Hrq.
  - intros k. rewrite fmap_cons, not_elem_of_cons. intros [Hk1 Hk2].
    destruct (Ho' _ Hk2) as [-> ->]. by apply Ho1.
Qed.

Lemma recover_service_pods sv s :
  sv_pods (recover_service sv s) = sv_pods sv /\ sv_lm (recover_service sv s) = sv_lm sv.
Proof. unfold recover_service. by destruct (_ <? _)%Z. Qed.

Lemma recover_services_pods l sv :
  sv_pods (foldl recover_service sv l) = sv_pods sv /\ sv_lm (foldl recover_service sv l) = sv_lm sv.
Proof.
  revert sv. induction l as [|s l IH]; intros sv; [done|]. cbn [foldl].
  destruct (IH (recover_service sv s)) as [-> ->]. apply recover_service_pods.
Qed.

Lemma RecoverState_outcome d o_svc o_pod sv :
  server_wf sv -> lm_pods (sv_lm sv) = ∅ ->
  let sv' := RecoverState TempDir NewLog d o_svc o_pod sv in
  server_wf sv' /\ dom (sv_pods sv') = dom (sv_pods sv) /\
  (forall pod, pod ∈ map_values (sv_pods sv) -> recovered sv sv' pod) /\
  forall k, is_Some (managed sv' k) -> exists pod, sv_pods sv !! k = Some pod /\ to_recover pod = true.
Proof.
  intros Hw Hempty sv'. unfold sv', RecoverState.
  destruct (recover_services_pods (ListServices o_svc (sv_services sv) "") sv) as [Ep El].
  set (sv1 := foldl recover_service sv _) in *.
  assert (Hw1 : server_wf sv1) by (apply wf_foldl; [intros; by apply wf_recover_service|done]).
  assert (Hkeyed : keyed podMeta (sv_pods sv)) by apply Hw.
  set (l := allPods o_pod sv1 "").
  assert (Hl : forall pod, pod ∈ l <-> exists k, sv_pods sv !! k = Some pod).
  { intros pod. unfold l, allPods. rewrite elem_of_kv_list, Ep. unfold in_namespace. simpl. naive_solver. }
  assert (Hnd : NoDup (pod_key_of <$> l)).
  { unfold l, allPods, kv_list. apply NoDup_fmap_bool_filter. rewrite (shuffle_perm o_pod), Ep.
    unfold map_values; simpl. rewrite <- list_fmap_compose.
    rewrite (list_fmap_ext _ fst); [apply NoDup_fst_map_to_list|].
    intros i [k p] Hi; simpl. apply list_elem_of_lookup_2, elem_of_map_to_list in Hi.
    symmetry. by apply Hkeyed. }
  destruct (recover_pods_spec d l sv1 Hw1 Hnd) as (Hw' & Hr & Ho).
  { intros pod _. by rewrite El, Hempty, lookup_empty. }
  set (sv2 := foldl _ sv1 l) in *.
  assert (Hr' : forall pod, pod ∈ l -> recovered sv sv2 pod).
  { intros pod Hin. specialize (Hr pod Hin). unfold recovered in *. by rewrite Ep in Hr. }
  assert (Hin : forall k, k ∈ (pod_key_of <$> l) <-> is_Some (sv_pods sv !! k)).
  { intros k. rewrite list_elem_of_fmap. split.
    - intros (pod & -> & [k' Hk]%Hl). exists pod. by rewrite (Hkeyed _ _ Hk) in Hk.
    - intros [pod Hk]. exists pod. split; [by apply Hkeyed|]. apply Hl. eauto. }
  split_and!; [done| | |].
  - apply set_eq. intros k. rewrite !elem_of_dom.
    destruct (decide (k ∈ (pod_key_of <$> l))) as [Hk|Hk].
    + pose proof Hk as Hk'. apply Hin in Hk'. split; [done|]. intros _.
      apply list_elem_of_fmap in Hk as (pod & -> & Hpod). specialize (Hr' _ Hpod). unfold recovered in Hr'.
      destruct (to_recover pod); [destruct Hr' as (q & -> & _); eauto|by destruct Hr' as [-> _]].
    + destruct (Ho k Hk) as [-> _]. by rewrite Ep.
  - intros pod [k Hk]%elem_of_map_values. apply Hr', Hl. eauto.
  - intros k Hm. destruct (decide (k ∈ (pod_key_of <$> l))) as [Hk|Hk].
    + apply list_elem_of_fmap in Hk as (pod & -> & Hpod). exists pod.
      pose proof Hpod as [k' Hk']%Hl. rewrite (Hkeyed _ _ Hk') in Hk'. split; [exact Hk'|].
      specialize (Hr' _ Hpod). unfold recovered in Hr'. destruct (to_recover pod); [done|].
      destruct Hr' as [_ E]. rewrite E in Hm. by destruct Hm.
    + destruct (Ho k Hk) as [_ E]. rewrite E, El, Hempty, lookup_empty in Hm. by destruct Hm.
Qed.

(** After a restart the recovery misses nothing and invents nothing, whatever the order
    of the records and whatever fails: every pod that was running or pending is under
    the manager and on record as running, or on record as failed; the others keep their
    record and stay down; no record appears or disappears, and nothing else is
    managed. *)
Theorem RecoverState_complete d o_svc o_pod sv :
  server_wf sv -> lm_pods (sv_lm sv) = ∅ ->
  let sv' := RecoverState TempDir NewLog d o_svc o_pod sv in
  server_wf sv' /\ dom (sv_pods sv') = dom (sv_pods sv) /\
  (forall pod, pod ∈ map_values (sv_pods sv) -> recovered sv sv' pod) /\
  forall k, is_Some (managed sv' k) -> exists pod, sv_pods sv !! k = Some pod /\ to_recover pod = true.
Proof. apply RecoverState_outcome. Qed.
End Recovery.

(** ** Shutdown *)

Section Shutdown.
Context {F W N L : Type} `{FS F} `{PodEngines F W} `{TCPLaws N}.
Context (TempDir : string).
Implicit Types (lm : LifecycleManager L) (h : Host F W N) (px : gmap string ServiceProxy).

(** Ending pods only ever frees sockets and leases. *)
Definition frees h h' : Prop :=
  listening (h_net h') ⊆ listening (h_net h) /\
  forall k, allocated (h_pool h) !! k = None -> allocated (h_pool h') !! k = None.

Lemma frees_trans h1 h2 h3 : frees h1 h2 -> frees h2 h3 -> frees h1 h3.
Proof. intros [A1 B1] [A2 B2]. split; [by etrans|auto]. Qed.

(** Nothing of a pod is left: its lease and its socket are free. *)
Definition freed h (k : string) (mp : managedPod L) : Prop :=
  ((0 < mp_hostPort mp)%Z -> allocated (h_pool h) !! k = None) /\
  forall p, mp_proxy mp = Some p -> p ∉ listening (h_net h).

Lemma freed_later h h' k mp : frees h h' -> freed h k mp -> freed h' k mp.
Proof. intros [A B] [C D]. split; [auto|]. intros p Hp Hin. by apply (D p), A. Qed.

Lemma Release_frees pool key k : allocated pool !! k = None -> allocated (Release pool key) !! k = None.
Proof. intros Hk. unfold Release. destruct (allocated pool !! key); [|done]. by apply lookup_delete_None; right. Qed.

Lemma Release_freed pool key : allocated (Release pool key) !! key = None.
Proof. unfold Release. destruct (allocated pool !! key) eqn:E; [apply lookup_delete_eq|done]. Qed.

Lemma tear_down_frees h (mp : managedPod L) key name :
  frees h (tear_down TempDir h mp key name) /\ freed (tear_down TempDir h mp key name) key mp.
Proof.
  pose proof (tear_down_net TempDir h mp key name) as En.
  pose proof (tear_down_pool TempDir h mp key name) as Ep.
  destruct (release_if_pool h (mp_hostPort mp) key) as (_ & _ & _ & Er). rewrite Er in Ep.
  unfold frees, freed. rewrite En, Ep. split; split.
  - destruct (mp_proxy mp); [|done]. rewrite Close_ok. set_solver.
  - intros k Hk. case_match; [by apply Release_frees|done].
  - intros Hpos. destruct (Z.ltb_spec 0 (mp_hostPort mp)); [apply Release_freed|lia].
  - intros p ->. rewrite Close_ok. set_solver.
Qed.

Lemma terminate_all_spec o lm px h pods :
  sys_wf lm px h ->
  exists lm' h', terminate_all TempDir o lm h pods = ((lm', h'), Ok tt) /\ sys_wf lm' px h' /\ frees h h' /\
    (forall k, lm_pods lm' !! k = if decide (k ∈ (pod_key_of <$> pods)) then None else lm_pods lm !! k) /\
    forall k mp, lm_pods lm !! k = Some mp -> k ∈ (pod_key_of <$> pods) -> freed h' k mp.
Proof.
  revert lm h. induction pods as [|pod pods IH]; intros lm h Hw; cbn [terminate_all].
  { exists lm, h. split_and!; [done..|]. intros k mp _ Hk. by apply elem_of_nil in Hk. }
  destruct (Terminate TempDir o lm h _ _) as [[lm1 h1] r] eqn:ET.
  pose proof (sys_Terminate TempDir _ _ _ _ _ _ _ _ _ Hw ET) as Hw1.
  assert (H1' : r <> Some (Panic "") /\ (forall w, r <> Some (Panic w)) /\ frees h h1 /\
    lm_pods lm1 = delete (pod_key_of pod) (lm_pods lm) /\
    forall mp, lm_pods lm !! pod_key_of pod = Some mp -> freed h1 (pod_key_of pod) mp).
  { unfold pod_key_of. destruct (lm_pods lm !! podKey (Namespace (podMeta pod)) (Name (podMeta pod))) as [mp|] eqn:Ek.
    - destruct (Terminate_spec TempDir o lm h _ _ mp (sw_hub _ _ _ Hw) Ek) as (ws & E & _).
      rewrite E in ET. injection ET as <- <- <-.
      destruct (tear_down_frees h mp (podKey (Namespace (podMeta pod)) (Name (podMeta pod))) (Name (podMeta pod))).
      split_and!; [done|done|done|done|]. by intros mp' [= <-].
    - unfold Terminate in ET. rewrite Ek in ET. injection ET as <- <- <-.
      split_and!; [done|done|by split|by rewrite delete_id|done]. }
  destruct H1' as (_ & Hno & Hfr & Epods & Hfreed).
  destruct (IH lm1 h1 Hw1) as (lm' & h' & E & Hw' & Hfr' & Hl' & Hf').
  exists lm', h'. split_and!.
  - destruct r as [[u|e|w]|]; [exact E..|by destruct (Hno w)|exact E].
  - done.
  - by eapply frees_trans.
  - intros k. rewrite Hl', fmap_cons, Epods.
    destruct (decide (k ∈ (pod_key_of <$> pods))) as [Hk|Hk].
    + by rewrite decide_True by (by right).
    + destruct (decide (k = pod_key_of pod)) as [->|Hne].
      * rewrite decide_True by left. apply lookup_delete_eq.
      * rewrite decide_False; [by apply lookup_delete_ne|]. rewrite not_elem_of_cons. done.
  - intros k mp Hk. rewrite fmap_cons, elem_of_cons.
    destruct (decide (k = pod_key_of pod)) as [->|Hne].
    + intros _. eapply freed_later; [exact Hfr'|]. by apply Hfreed.
    + intros [?|Hin]; [done|]. apply (Hf' k mp); [|done]. rewrite Epods. by rewrite lookup_delete_ne.
Qed.

Lemma shutdown_outcome o op lm px h :
  sys_wf lm px h ->
  exists lm' h', LShutdown TempDir o op lm h = ((lm', h'), Ok tt) /\
    lm_pods lm' = ∅ /\ sys_wf lm' px h' /\ frees h h' /\
    forall k mp, lm_pods lm !! k = Some mp -> freed h' k mp.
Proof.
  intros Hw. unfold LShutdown.
  set (pods := mp_pod <$> op (map_to_list (lm_pods lm)).*2).
  assert (Hin : forall k mp, lm_pods lm !! k = Some mp -> k ∈ (pod_key_of <$> pods)).
  { intros k mp Hk. rewrite <- (sw_managed _ _ _ Hw _ _ Hk). apply list_elem_of_fmap_2, list_elem_of_fmap_2.
    apply elem_of_shuffle. apply (list_elem_of_fmap_2' snd _ (k, mp)); [|done]. by apply elem_of_map_to_list. }
  destruct (terminate_all_spec o lm px h pods Hw) as (lm' & h' & E & Hw' & Hfr & Hl & Hf).
  exists lm', h'. split_and!; [exact E| |done|done|].
  - apply map_empty. intros k. rewrite Hl. destruct (decide _) as [|Hni]; [done|].
    destruct (lm_pods lm !! k) as [mp|] eqn:Ek; [|done]. exfalso. by eapply Hni, Hin.
  - intros k mp Hk. eapply Hf; [done|]. by eapply Hin.
Qed.

Lemma shutdown_empties o op lm px h :
  sys_wf lm px h -> forall lm' h', LShutdown TempDir o op lm h = ((lm', h'), Ok tt) -> lm_pods lm' = ∅.
Proof.
  intros Hw lm' h' E. destruct (shutdown_outcome o op lm px h Hw) as (lm1 & h1 & E1 & He & _). congruence.
Qed.

(** [lifecycle.Shutdown]: no panic, every pod the manager had is ended, its lease given
    back and its socket closed, and nothing is managed afterwards. *)
Theorem shutdown_clears o op lm px h :
  sys_wf lm px h ->
  exists lm' h', LShutdown TempDir o op lm h = ((lm', h'), Ok tt) /\
    lm_pods lm' = ∅ /\ sys_wf lm' px h' /\ frees h h' /\
    forall k mp, lm_pods lm !! k = Some mp -> freed h' k mp.
Proof. apply shutdown_outcome. Qed.
End Shutdown.

(** ** The life of the daemon *)

(** Where [runServer] is, from the start of the controllers on: before [RecoverState],
    at the [select], and in the steps of the shutdown; and how it ended. *)
Inductive main_pc :=
| MRecover | MSelect | MStopProxies | MCloseHttp | MDrain | MEndPods | MCloseDb
| MExited (code : Z).

(** The goroutine of [ListenAndServe]. *)
Inductive http_state := HNotStarted | HStarting | HServing | HStopped.

Inductive which := RS | Dep.

Section Daemon.
Context {F W N L T : Type} `{FS F} `{PodEngines F W} `{TCPLaws N} `{Bolt T}.
Context `{Codec Pod, Codec Service, Codec ConfigMap, Codec Secret, Codec Deployment, Codec ReplicaSet}.
Context `{Codec PodSpec}.
Context `{Decoder Pod, Decoder Service, Decoder ConfigMap, Decoder Secret}.
Context `{Texts} `{JsonTexts} `{UnicodeCase}.
Context (TempDir : string) (NewLog : L).
Context (ReadAll : L -> bytes) (TailLines : L -> Z -> bytes).
Abbreviation server := (Server F W N L T).

(** [dm_err] is the value in [errCh]; [dm_streams] counts the requests that keep their
    connection (watches and followed logs). *)
Record daemon := mkDaemon {
  dm_sv : server;
  dm_pc : main_pc;
  dm_cancelled : bool;
  dm_http : http_state;
  dm_err : bool;
  dm_streams : nat;
  dm_rs : controller;
  dm_dep : controller;
  dm_db : bool;
}.
Implicit Types dm : daemon.

Definition set_main dm sv pc http err db : daemon :=
  mkDaemon sv pc (dm_cancelled dm) http err (dm_streams dm) (dm_rs dm) (dm_dep dm) db.
Definition set_server dm sv : daemon :=
  mkDaemon sv (dm_pc dm) (dm_cancelled dm) (dm_http dm) (dm_err dm) (dm_streams dm) (dm_rs dm) (dm_dep dm) (dm_db dm).
Definition set_pc dm pc : daemon := set_main dm (dm_sv dm) pc (dm_http dm) (dm_err dm) (dm_db dm).
Definition set_streams dm n : daemon :=
  mkDaemon (dm_sv dm) (dm_pc dm) (dm_cancelled dm) (dm_http dm) (dm_err dm) n (dm_rs dm) (dm_dep dm) (dm_db dm).
Definition get_loop dm (k : which) : controller := match k with RS => dm_rs dm | Dep => dm_dep dm end.
Definition set_loop dm (k : which) (c : controller) : daemon :=
  match k with
  | RS => mkDaemon (dm_sv dm) (dm_pc dm) (dm_cancelled dm) (dm_http dm) (dm_err dm) (dm_streams dm) c (dm_dep dm) (dm_db dm)
  | Dep => mkDaemon (dm_sv dm) (dm_pc dm) (dm_cancelled dm) (dm_http dm) (dm_err dm) (dm_streams dm) (dm_rs dm) c (dm_db dm)
  end.

(** The database is open, the server is built, both controllers have been started. *)
Definition boot sv : daemon :=
  mkDaemon sv MRecover false HNotStarted false 0 (Loops.Start NewController) (Loops.Start NewController) true.

Inductive main_event :=
| EvRecover (d : Pod -> env_draw) (o_svc : shuffle Service) (o_pod : shuffle Pod)
| EvServeError
| EvSignal
| EvStopProxies (o : shuffle (string * ServiceProxy))
| EvCloseHttp
| EvDrained
| EvEndPods (o : shuffle Z) (op : shuffle (managedPod L))
| EvCloseDb.

(** One step of the main goroutine.  [log.Fatalf] exits at once: the deferred
    [db.Close] does not run.  [httpServer.Shutdown] with a context that never ends
    closes the listener and waits until no connection is busy. *)
Definition main_step (ev : main_event) dm : option daemon :=
  let sv := dm_sv dm in
  match ev, dm_pc dm with
  | EvRecover d o_svc o_pod, MRecover =>
      Some (set_main dm (RecoverState TempDir NewLog d o_svc o_pod sv) MSelect HStarting (dm_err dm) (dm_db dm))
  | EvServeError, MSelect => if dm_err dm then Some (set_pc dm (MExited 1)) else None
  | EvSignal, MSelect => if dm_cancelled dm then Some (set_pc dm MStopProxies) else None
  | EvStopProxies o, MStopProxies =>
      Some (set_pc (set_server dm (set_proxy_manager sv (SvcProxy.Shutdown o (proxy_manager sv)))) MCloseHttp)
  | EvCloseHttp, MCloseHttp => Some (set_main dm sv MDrain HStopped true (dm_db dm))
  | EvDrained, MDrain => if decide (dm_streams dm = 0) then Some (set_pc dm MEndPods) else None
  | EvEndPods o op, MEndPods =>
      match LShutdown TempDir o op (sv_lm sv) (sv_host sv) with
      | (s, Panic _) => Some (set_pc (set_server dm (set_sv_lm sv s)) (MExited 2))
      | (s, _) => Some (set_pc (set_server dm (set_sv_lm sv s)) MCloseDb)
      end
  | EvCloseDb, MCloseDb => Some (set_main dm sv (MExited 0) (dm_http dm) (dm_err dm) false)
  | _, _ => None
  end.

Definition alive dm : bool := match dm_pc dm with MExited _ => false | _ => true end.

(** The reply keeps its connection. *)
Definition holds_connection (resp : res launch_error response) : bool :=
  match resp with
  | Ok (Reply (Stream _)) => true
  | Ok (Reply (LogText _ follow)) => follow
  | _ => false
  end.

Inductive daemon_step : daemon -> daemon -> Prop :=
| DMain ev dm dm' : alive dm = true -> main_step ev dm = Some dm' -> daemon_step dm dm'
| DSignal dm :
    alive dm = true ->
    daemon_step dm (mkDaemon (dm_sv dm) (dm_pc dm) true (dm_http dm) (dm_err dm) (dm_streams dm)
      (dm_rs dm) (dm_dep dm) (dm_db dm))
| DListen dm (bound : bool) :
    alive dm = true -> dm_http dm = HStarting ->
    daemon_step dm (set_main dm (dm_sv dm) (dm_pc dm) (if bound then HServing else HStopped)
      (negb bound) (dm_db dm))
| DServeFails dm :
    alive dm = true -> dm_http dm = HServing ->
    daemon_step dm (set_main dm (dm_sv dm) (dm_pc dm) HStopped true (dm_db dm))
| DRequest d rq sv' resp dm :
    alive dm = true -> dm_http dm = HServing ->
    serve TempDir NewLog ReadAll TailLines d (dm_sv dm) rq = (sv', resp) ->
    daemon_step dm (set_streams (set_server dm sv')
      (if holds_connection resp then S (dm_streams dm) else dm_streams dm))
| DHangUp dm n : alive dm = true -> dm_streams dm = S n -> daemon_step dm (set_streams dm n)
| DTick k i c dm :
    alive dm = true -> worker_step (dm_cancelled dm) (get_loop dm k) i Tick = Some c ->
    daemon_step dm (set_loop dm k c)
| DReturn k i c dm :
    alive dm = true -> worker_step (dm_cancelled dm) (get_loop dm k) i Return = Some c ->
    daemon_step dm (set_loop dm k c)
| DDeployments i c o o1 o2 now dm :
    alive dm = true -> worker_step (dm_cancelled dm) (dm_dep dm) i Finish = Some c ->
    daemon_step dm (set_loop (set_server dm (deployment_tick o o1 o2 now (dm_sv dm))) Dep c)
| DReplicaSets i c env ow o o1 o2 draws sv' r dm :
    alive dm = true -> worker_step (dm_cancelled dm) (dm_rs dm) i Finish = Some c ->
    replicaset_tick TempDir NewLog env ow o o1 o2 draws (dm_sv dm) = (sv', r) ->
    daemon_step dm (let dm' := set_loop (set_server dm sv') RS c in
                    match r with Panic _ => set_pc dm' (MExited 2) | _ => dm' end)
| DBackground sv' dm :
    alive dm = true -> background_step (dm_sv dm) sv' -> daemon_step dm (set_server dm sv').

Definition daemon_reach : daemon -> daemon -> Prop := rtc daemon_step.

(** *** The server stays well formed *)

Lemma wf_stop_proxies (sv : server) o :
  server_wf sv -> server_wf (set_proxy_manager sv (SvcProxy.Shutdown o (proxy_manager sv))).
Proof.
  intros [[Hh Hp Hm Hx Hs] [? ? ? ? ? ?]].
  assert (HL : forall l pool n, (forall k sp, (k, sp) ∈ l -> sv_proxies sv !! k = Some sp) ->
    pool_ok pool -> (forall k mp p, lm_pods (sv_lm sv) !! k = Some mp -> mp_proxy mp = Some p -> p ∈ listening n) ->
    let r := foldl (fun '(pool, n) '(key, sp) => (Release pool key, (Close n sp).1)) (pool, n) l in
    pool_ok r.1 /\ forall k mp p, lm_pods (sv_lm sv) !! k = Some mp -> mp_proxy mp = Some p -> p ∈ listening r.2).
  { induction l as [|[k0 sp] l IH]; intros pool n Hl Hpo Hn; [done|]. cbn [foldl].
    apply IH; [intros k s Hk; apply Hl; by right|by apply Release_ok|].
    intros k mp p Hk Ep. pose proof (Hl k0 sp (list_elem_of_here _ _)) as Hsp.
    destruct (Hx _ _ Hsp) as [El Ec]. unfold Close. rewrite El, Ec. simpl. rewrite Close_ok.
    apply elem_of_difference. split; [by eapply Hn|]. rewrite elem_of_singleton. intros ->.
    assert (E : (true, k0) = (false, k)); [|discriminate E].
    apply (proj2 Hs) with (p := sp_port sp); unfold hold; simpl; [by rewrite Hsp|by rewrite Hk]. }
  unfold SvcProxy.Shutdown. cbn [proxies pm_pool pm_net proxy_manager].
  specialize (HL (o (map_to_list (sv_proxies sv))) (h_pool (sv_host sv)) (h_net (sv_host sv))).
  destruct (foldl _ _ _) as [pool n]. destruct HL as [Hp' Hn'].
  - intros k sp Hin. apply elem_of_shuffle in Hin. by apply elem_of_map_to_list.
  - done.
  - intros k mp p Hk Ep. apply (proj1 Hs (false, k)). unfold hold; simpl. by rewrite Hk.
  - split; [|by split]. split; simpl; [done|done|done|by intros k sp; rewrite lookup_empty|]. split.
    + intros [[|] k] p; unfold hold; simpl; [by rewrite lookup_empty|]. intros Ho.
      destruct (lm_pods (sv_lm sv) !! k) as [mp|] eqn:Ek; [|done]. by eapply Hn'.
    + intros [[|] k1] [[|] k2] p; unfold hold; simpl; rewrite ?lookup_empty; try done.
      intros H1' H2'. by apply (proj2 Hs (false, k1) (false, k2) p).
Qed.

Lemma wf_daemon_step dm dm' : server_wf (dm_sv dm) -> daemon_step dm dm' -> server_wf (dm_sv dm').
Proof.
  intros Hw Hs. destruct Hs as [ev dm dm' _ E| | | |d rq sv' resp dm _ _ E| |k i c dm|k i c dm| |
    i c env ow o o1 o2 draws sv' r dm _ _ E|sv' dm _ E]; try done.
  - unfold main_step in E. destruct ev, (dm_pc dm); try done.
    + injection E as <-. by apply wf_RecoverState.
    + destruct (dm_err dm); [|done]. by injection E as <-.
    + destruct (dm_cancelled dm); [|done]. by injection E as <-.
    + injection E as <-. by apply wf_stop_proxies.
    + by injection E as <-.
    + destruct (decide _); [|done]. by injection E as <-.
    + destruct (terminate_all_spec TempDir o (sv_lm (dm_sv dm)) (sv_proxies (dm_sv dm)) (sv_host (dm_sv dm))
        (mp_pod <$> op (map_to_list (lm_pods (sv_lm (dm_sv dm)))).*2) (sv_sys _ Hw)) as (lm' & h' & E' & Hw' & _).
      unfold LShutdown in E. rewrite E' in E. injection E as <-. by apply wf_set_lm.
    + by injection E as <-.
  - destruct (serve_answers TempDir NewLog ReadAll TailLines d (dm_sv dm) rq Hw) as (sv1 & rp & E1 & Hw1).
    simpl. congruence.
  - by destruct k.
  - by destruct k.
  - simpl. by apply wf_deployment_tick.
  - pose proof (wf_replicaset_tick TempDir NewLog env ow o o1 o2 draws (dm_sv dm) Hw) as Hw1.
    rewrite E in Hw1. simpl in Hw1. by destruct r.
  - by eapply wf_background.
Qed.

(** *** Ways to end *)

(** Failing to listen, for instance because the address is in use, comes after the
    recovery and ends the daemon at once: every pod that [RecoverState] has started
    keeps running without a manager, and the database is not closed. *)
Theorem listen_failure_orphans sv d o_svc o_pod :
  server_wf sv -> lm_pods (sv_lm sv) = ∅ ->
  exists dm', daemon_reach (boot sv) dm' /\ dm_pc dm' = MExited 1 /\ dm_db dm' = true /\
    dm_sv dm' = RecoverState TempDir NewLog d o_svc o_pod sv /\
    forall pod, pod ∈ map_values (sv_pods sv) -> recovered sv (dm_sv dm') pod.
Proof.
  intros Hw Hempty. eexists. split.
  - eapply rtc_l; [by apply (DMain (EvRecover d o_svc o_pod))|].
    eapply rtc_l; [by apply (DListen _ false)|].
    eapply rtc_l; [|apply rtc_refl]. by apply (DMain EvServeError).
  - split_and!; [done|done|done|]. simpl. by apply RecoverState_outcome.
Qed.

(** A step in which no client gives up its connection. *)
Definition patient_step dm dm' : Prop := daemon_step dm dm' /\ dm_streams dm <= dm_streams dm'.

(** One open watch or followed log holds up the shutdown for as long as its client
    likes: [httpServer.Shutdown] has no deadline, so [lifecycle.Shutdown] is not reached
    (the daemon can only die of a panic). *)
Theorem stream_blocks_shutdown dm dm' :
  rtc patient_step dm dm' -> dm_pc dm = MDrain -> 0 < dm_streams dm ->
  dm_pc dm' = MDrain /\ 0 < dm_streams dm' \/ dm_pc dm' = MExited 2.
Proof.
  intros Hr Hpc Hst.
  assert (Hdead : forall x y, rtc patient_step x y -> dm_pc x = MExited 2 -> dm_pc y = MExited 2).
  { intros x y Hxy. induction Hxy as [|x y z [Hs _] _ IH]; [done|]. intros Hx. exfalso.
    assert (Ha : alive x = false) by (unfold alive; by rewrite Hx). by destruct Hs; congruence. }
  induction Hr as [|x y z [Hs Hle] Hyz IH]; [by left|].
  assert (Hy : dm_pc y = MDrain /\ 0 < dm_streams y \/ dm_pc y = MExited 2).
  { destruct Hs as [ev dm dm2 _ E| | | |d rq sv' resp dm _ _ E|dm n _ E|k i c dm|k i c dm| |
      i c env ow o o1 o2 draws sv' r dm _ _ E|sv' dm _ E]; simpl in *; try (left; split; [done|lia]).
    - unfold main_step in E. rewrite Hpc in E. destruct ev; try done.
      destruct (decide _); [lia|done].
    - destruct k; left; done.
    - destruct k; left; done.
    - destruct r; [left|left|right]; done. }
  destruct Hy as [[Hy1 Hy2]|Hy]; [by apply IH|right; by eapply Hdead].
Qed.

Lemma background_empty (sv sv' : server) :
  lm_pods (sv_lm sv) = ∅ -> background_step sv sv' -> lm_pods (sv_lm sv') = ∅.
Proof.
  intros He Hs. destruct Hs as [o key sv lm' st E|o key sv lm' h' st E|o key ev sv lm' E|key ev sv|id sv|
    id ws sv _ _|id e ws sv _|n f eng sv _]; simpl; try done.
  - unfold monitor_tick in E. rewrite He, lookup_empty in E. by injection E as <- _.
  - unfold monitor_restart in E. rewrite He, lookup_empty in E. by injection E as _ <- _.
  - unfold readiness_event in E. rewrite He, lookup_empty in E. by injection E as <-.
Qed.

(** What holds from the last part of an orderly shutdown on, when the replica set
    controller has returned. *)
Definition ending dm : Prop :=
  server_wf (dm_sv dm) /\ dm_http dm = HStopped /\ Forall (eq WReturned) (workers (dm_rs dm)) /\
  (dm_pc dm = MEndPods \/ dm_pc dm = MCloseDb /\ lm_pods (sv_lm (dm_sv dm)) = ∅ \/
   dm_pc dm = MExited 0 /\ lm_pods (sv_lm (dm_sv dm)) = ∅ /\ dm_db dm = false).

Lemma ending_step dm dm' : ending dm -> daemon_step dm dm' -> ending dm'.
Proof.
  intros (Hw & Hh & Hrs & Hpc) Hs. pose proof (wf_daemon_step _ _ Hw Hs) as Hw'.
  unfold ending. destruct Hs as [ev dm dm2 Ha E| |dm b _ Eh|dm _ Eh|d rq sv' resp dm _ Eh|dm n _ E|
    k i c dm _ E|k i c dm _ E|i c o o1 o2 now dm _ E|i c env ow o o1 o2 draws sv' r dm _ E|sv' dm _ E];
    try (by rewrite Hh in Eh); try done.
  - split; [done|]. unfold main_step in E.
    destruct Hpc as [Hpc|[[Hpc He]|(Hpc & _)]]; rewrite Hpc in E; destruct ev; try done.
    + destruct (terminate_all_spec TempDir o (sv_lm (dm_sv dm)) (sv_proxies (dm_sv dm)) (sv_host (dm_sv dm))
        (mp_pod <$> op (map_to_list (lm_pods (sv_lm (dm_sv dm)))).*2) (sv_sys _ Hw)) as (lm' & h' & E' & _).
      pose proof (shutdown_empties TempDir o op _ _ _ (sv_sys _ Hw) lm' h') as HE.
      unfold LShutdown in E, HE. rewrite E' in E, HE. injection E as <-.
      split_and!; [done|done|]. right. left. split; [done|]. by apply HE.
    + injection E as <-. split_and!; [done|done|]. right. right. done.
  - split; [done|]. destruct k; cbn [get_loop] in E; [by rewrite all_returned_stuck in E|by split_and!].
  - split; [done|]. destruct k; cbn [get_loop] in E; [by rewrite all_returned_stuck in E|by split_and!].
  - by rewrite all_returned_stuck in E.
  - split; [done|]. split_and!; [done|done|]. simpl.
    destruct Hpc as [?|[[? He]|(? & He & ?)]]; [by left|right; left|right; right];
      split_and!; try done; by eapply background_empty.
Qed.

(** C33. An orderly end, once no request is served and the replica set controller has
    returned: the daemon exits with 0, no pod is managed any more, and the database
    has been closed, whatever else happens meanwhile. *)
Theorem graceful_exit_clean dm dm' code :
  server_wf (dm_sv dm) -> dm_pc dm = MEndPods -> dm_http dm = HStopped ->
  Forall (eq WReturned) (workers (dm_rs dm)) -> daemon_reach dm dm' -> dm_pc dm' = MExited code ->
  code = 0%Z /\ lm_pods (sv_lm (dm_sv dm')) = ∅ /\ dm_db dm' = false.
Proof.
  intros Hw Hpc Hh Hrs Hr Hx.
  assert (He : ending dm') by (clear Hx; assert (He : ending dm) by (split_and!; auto);
    clear Hw Hpc Hh Hrs; induction Hr as [|x y z Hs _ IH]; [done|by apply IH, (ending_step x)]).
  destruct He as (_ & _ & _ & [E|[[E _]|(E & ? & ?)]]); try congruence.
  split_and!; [congruence|done|done].
Qed.

(** The controllers are neither stopped nor awaited at the end: a pass of the replica
    set controller that is under way when [lifecycle.Shutdown] runs may launch pods on
    the emptied manager, and the daemon still exits with 0, with whatever that pass has
    launched. *)
Theorem late_tick_orphans dm i o op env ow o0 o1 o2 draws lm' h' :
  dm_pc dm = MEndPods -> workers (dm_rs dm) !! i = Some WReconciling ->
  LShutdown TempDir o op (sv_lm (dm_sv dm)) (sv_host (dm_sv dm)) = ((lm', h'), Ok tt) ->
  let late := replicaset_tick TempDir NewLog env ow o0 o1 o2 draws (set_sv_lm (dm_sv dm) (lm', h')) in
  late.2 = Ok tt ->
  exists dm', daemon_reach dm dm' /\ dm_pc dm' = MExited 0 /\ dm_sv dm' = late.1.
Proof.
  intros Hpc Hi E late El.
  set (dm1 := set_pc (set_server dm (set_sv_lm (dm_sv dm) (lm', h'))) MCloseDb).
  set (dm2 := set_loop (set_server dm1 late.1) RS (set_worker (dm_rs dm) i WSelect)).
  exists (set_main dm2 (dm_sv dm2) (MExited 0) (dm_http dm2) (dm_err dm2) false). split; [|by split].
  apply (rtc_l _ _ dm1).
  { apply (DMain (EvEndPods o op)); [unfold alive; by rewrite Hpc|].
    unfold main_step. by rewrite Hpc, E. }
  apply (rtc_l _ _ dm2).
  { pose proof (DReplicaSets i (set_worker (dm_rs dm) i WSelect) env ow o0 o1 o2 draws late.1 late.2 dm1) as Hd.
    rewrite El in Hd. apply Hd; [done| |by rewrite <- El, <- surjective_pairing].
    unfold worker_step, dm1. simpl. by rewrite Hi. }
  apply rtc_once. by apply (DMain EvCloseDb).
Qed.
End Daemon.
(** ** Daemons to run *)

Definition ex_ran (name : string) (phase : PodPhase) : Pod :=
  mkPod (mkTypeMeta "v1" "Pod") (mkObjectMeta name "default" "u1" ex_native None 0 "")
    (mkPodSpec [ex_container []] [] RestartAlways []) (mkPodStatus phase "" "" 0 [] [] "" 30005).

(** The records of a daemon that was killed: one pod ran, one had succeeded. *)
Definition ex_crashed : ex_server_t :=
  ex_server (<["default/web" := ex_ran "web" PodRunning]> {["default/job" := ex_ran "job" PodSucceeded]})
    NewLifecycleManager.

Lemma ex_crashed_wf : server_wf ex_crashed.
Proof.
  destruct ex_server_wf as [Hs [_ ? ? ? ? ?]]. split; [exact Hs|]. split; try done.
  intros k p Hk. simpl in Hk. apply lookup_insert_Some in Hk as [[<- <-]|[_ Hk]]; [done|].
  by apply lookup_singleton_Some in Hk as [<- <-].
Qed.

Definition ex_recover (sv : ex_server_t) : ex_server_t :=
  RecoverState "/tmp" tt (fun _ => ex_env_draw) in_order in_order sv.


Lemma ex_recovered_wf : server_wf (ex_recover ex_crashed).
Proof. apply wf_RecoverState, ex_crashed_wf. Qed.

Lemma ex_crashed_pods pod :
  pod = ex_ran "web" PodRunning \/ pod = ex_ran "job" PodSucceeded -> pod ∈ map_values (sv_pods ex_crashed).
Proof. intros [->| ->]; apply elem_of_map_values; [by exists "default/web"|by exists "default/job"]. Qed.

Lemma RecoverState_complete_witness :
  let sv := ex_recover ex_crashed in
  recovered ex_crashed sv (ex_ran "web" PodRunning) /\ recovered ex_crashed sv (ex_ran "job" PodSucceeded) /\
  (mp_hostPort <$> lm_pods (sv_lm sv) !! "default/web") = Some 30005%Z.
Proof.
  pose proof (RecoverState_complete "/tmp" tt (fun _ => ex_env_draw) in_order in_order ex_crashed
    ex_crashed_wf eq_refl) as HR.
  cbv zeta in HR. fold (ex_recover ex_crashed) in HR. destruct HR as (_ & _ & Hr & _).
  cbv zeta. split_and!; [apply Hr, ex_crashed_pods; by left|apply Hr, ex_crashed_pods; by right|].
  vm_compute. reflexivity.
Defined.

Lemma shutdown_clears_witness :
  let sv := ex_recover ex_crashed in
  is_Some (lm_pods (sv_lm sv) !! "default/web") /\
  exists lm' h', LShutdown "/tmp" in_order in_order (sv_lm sv) (sv_host sv) = ((lm', h'), Ok tt) /\ lm_pods lm' = ∅.
Proof.
  cbv zeta. split; [vm_compute; by eexists|].
  pose proof ex_recovered_wf as Hw. revert Hw. generalize (ex_recover ex_crashed) as sv. intros sv Hw.
  destruct (shutdown_clears "/tmp" in_order in_order (sv_lm sv) (sv_proxies sv) (sv_host sv) (sv_sys _ Hw))
    as (lm' & h' & E & He & _). by exists lm', h'.
Defined.

Definition ex_dm (sv : ex_server_t) (pc : main_pc) (streams : nat) (rs : controller) : daemon :=
  mkDaemon sv pc true HStopped true streams rs NewController true.
Definition ex_step := daemon_step (F := memfiles) (W := gmap string PodPhase) (N := gset Z) (L := unit) (T := memdb)
  "/tmp" tt (fun _ => []) (fun _ _ => []).

Lemma listen_failure_orphans_witness :
  exists dm', rtc ex_step (boot ex_crashed) dm' /\ dm_pc dm' = MExited 1 /\
    recovered ex_crashed (dm_sv dm') (ex_ran "web" PodRunning).
Proof.
  destruct (listen_failure_orphans "/tmp" tt (fun _ => []) (fun _ _ => []) ex_crashed (fun _ => ex_env_draw)
    in_order in_order ex_crashed_wf eq_refl) as (dm' & Hr & Hx & _ & _ & Hrec).
  exists dm'. split_and!; [exact Hr|exact Hx|]. apply Hrec, ex_crashed_pods. by left.
Defined.

Lemma stream_blocks_shutdown_witness :
  let dm := ex_dm ex_crashed MDrain 2 NewController in
  let dm' := set_streams (set_server dm (dm_sv dm)) 2 in
  rtc (patient_step (F := memfiles) (W := gmap string PodPhase) (N := gset Z) (T := memdb)
    "/tmp" tt (fun _ => []) (fun _ _ => [])) dm dm' /\ (dm_pc dm' = MDrain /\ 0 < dm_streams dm' \/ dm_pc dm' = MExited 2).
Proof.
  intros dm dm'.
  assert (Hr : rtc (patient_step (F := memfiles) (W := gmap string PodPhase) (N := gset Z) (T := memdb)
    "/tmp" tt (fun _ => []) (fun _ _ => [])) dm dm').
  { apply rtc_once. split; [|done]. by apply (DSignal _ _ _ _ dm). }
  split; [exact Hr|].
  exact (stream_blocks_shutdown "/tmp" tt (fun _ => []) (fun _ _ => []) dm dm' Hr eq_refl (Nat.lt_0_succ 1)).
Defined.

Lemma graceful_exit_clean_witness :
  exists dm', rtc ex_step (ex_dm (ex_recover ex_crashed) MEndPods 0 (mkController false 0 [WReturned])) dm' /\
    dm_pc dm' = MExited 0 /\ lm_pods (sv_lm (dm_sv dm')) = ∅.
Proof.
  pose proof ex_recovered_wf as Hw. revert Hw. generalize (ex_recover ex_crashed) as sv. intros sv Hw.
  destruct (shutdown_outcome "/tmp" in_order in_order (sv_lm sv) (sv_proxies sv) (sv_host sv) (sv_sys _ Hw))
    as (lm' & h' & E & _).
  set (dm := ex_dm sv MEndPods 0 _).
  set (dm1 := set_pc (set_server dm (set_sv_lm sv (lm', h'))) MCloseDb).
  set (dm2 := set_main dm1 (dm_sv dm1) (MExited 0) (dm_http dm1) (dm_err dm1) false).
  assert (Hr : rtc ex_step dm dm2).
  { eapply rtc_l; [apply (DMain _ _ _ _ (EvEndPods in_order in_order) dm dm1); [done|]|].
    - unfold main_step. cbn [dm_pc dm_sv dm ex_dm]. rewrite E. reflexivity.
    - apply rtc_once. by apply (DMain _ _ _ _ EvCloseDb dm1). }
  exists dm2.
  destruct (graceful_exit_clean "/tmp" tt (fun _ => []) (fun _ _ => []) dm dm2 0 Hw eq_refl eq_refl
    (Forall_cons_2 _ _ [] eq_refl (Forall_nil_2 _)) Hr eq_refl) as (_ & He & _).
  split_and!; [exact Hr|done|exact He].
Defined.

(** A daemon at the end of an orderly shutdown, whose replica set controller is in a
    pass: the deployment's replica set asks for three pods that are not there yet. *)
Definition ex_due : ex_server_t := set_sv_ctl ex_daemon ex_first.
Definition ex_tick (sv : ex_server_t) : ex_server_t * res string unit :=
  replicaset_tick "/tmp" tt ex_env in_order in_order (fun _ => in_order) (fun _ => in_order) (fun _ => ex_draw) sv.

Lemma late_tick_orphans_witness :
  exists dm', rtc ex_step (ex_dm ex_due MEndPods 0 (mkController false 1 [WReconciling])) dm' /\
    dm_pc dm' = MExited 0 /\ size (lm_pods (sv_lm (dm_sv dm'))) = 3.
Proof.
  destruct (LShutdown "/tmp" in_order in_order (sv_lm ex_due) (sv_host ex_due)) as [[lm' h'] r] eqn:E.
  assert (Er : r = Ok tt) by (change r with ((lm', h'), r).2; rewrite <- E; by vm_compute). subst r.
  set (late := ex_tick (set_sv_lm ex_due (lm', h'))).
  assert (E2 : late.2 = Ok tt /\ size (lm_pods (sv_lm late.1)) = 3)
    by (unfold late; change (lm', h') with ((lm', h'), @Ok launch_error unit tt).1; rewrite <- E; by vm_compute).
  destruct (late_tick_orphans "/tmp" tt (fun _ => []) (fun _ _ => [])
    (ex_dm ex_due MEndPods 0 (mkController false 1 [WReconciling])) 0 in_order in_order ex_env in_order
    in_order (fun _ => in_order) (fun _ => in_order) (fun _ => ex_draw) lm' h' eq_refl eq_refl E (proj1 E2))
    as (dm' & Hr & Hx & Hs).
  exists dm'. split_and!; [exact Hr|exact Hx|]. rewrite Hs. exact (proj2 E2).
Defined.
