(* ===== verification/Restart.v ===== *)
(** * Start-up from the database (src/main.go, src/api/server.go)

    [runServer] opens the database, loads every store from it, and builds the managers
    and controllers around them.  A write of a store goes to its map and then to its
    bucket, two steps here; a daemon that was killed finds its objects again, but for the
    writes between the two, and [RecoverState] brings the pods back. *)

From S2P Require Import Prelude Types GoStrings Store Stores PortPool Hub SvcProxy Path Volume Health Lifecycle Manifest Deployment ReplicaSetCtl Table Server ServerPods Handlers Demo Rollout Discovery Api ApiLaws Loops Cluster Daemon.

(** ** The buckets mirror the maps *)

(** What the stores of the daemon hold. *)
Record objects := mkObjects {
  o_pods : gmap string Pod;
  o_services : gmap string Service;
  o_configMaps : gmap string ConfigMap;
  o_secrets : gmap string Secret;
  o_deployments : gmap string Deployment;
  o_replicaSets : gmap string ReplicaSet;
}.

Definition no_objects : objects := mkObjects ∅ ∅ ∅ ∅ ∅ ∅.

(** One write of a store: an object is stored or deleted. *)
Inductive record_op :=
| OnPod (op : kv_op (A := Pod))
| OnService (op : kv_op (A := Service))
| OnConfigMap (op : kv_op (A := ConfigMap))
| OnSecret (op : kv_op (A := Secret))
| OnDeployment (op : kv_op (A := Deployment))
| OnReplicaSet (op : kv_op (A := ReplicaSet)).

(** The goroutines that write: one writes to the map, and later to the database; in
    between its write is in flight, and others may be too. *)
Inductive record_event :=
| Begin (op : record_op)
| Commit (i : nat).

(** The writes in flight of one kind. *)
Definition on_pod (op : record_op) := match op with OnPod op => Some op | _ => None end.
Definition on_service (op : record_op) := match op with OnService op => Some op | _ => None end.
Definition on_configMap (op : record_op) := match op with OnConfigMap op => Some op | _ => None end.
Definition on_secret (op : record_op) := match op with OnSecret op => Some op | _ => None end.
Definition on_deployment (op : record_op) := match op with OnDeployment op => Some op | _ => None end.
Definition on_replicaSet (op : record_op) := match op with OnReplicaSet op => Some op | _ => None end.

Section Restart.
Context {T : Type} `{HBolt : BoltLaws T}.
Context `{Codec Pod, Codec Service, Codec ConfigMap, Codec Secret, Codec Deployment, Codec ReplicaSet}.
Implicit Types (r : objects) (t : T) (fl : list record_op).

(** The first half of a write. *)
Definition write_memory r (op : record_op) : objects :=
  let '(mkObjects p sv c se d rs) := r in
  match op with
  | OnPod op => mkObjects (kv_mem (T := T) "pods" podMeta p op) sv c se d rs
  | OnService op => mkObjects p (kv_mem (T := T) "services" svcMeta sv op) c se d rs
  | OnConfigMap op => mkObjects p sv (kv_mem (T := T) "configmaps" cmMeta c op) se d rs
  | OnSecret op => mkObjects p sv c (kv_mem (T := T) "secrets" secMeta se op) d rs
  | OnDeployment op => mkObjects p sv c se (kv_mem (T := T) "deployments" depMeta d op) rs
  | OnReplicaSet op => mkObjects p sv c se d (kv_mem (T := T) "replicasets" rsMeta rs op)
  end.

(** The second half; all stores write to the one database. *)
Definition write_database t (op : record_op) : T :=
  match op with
  | OnPod op => kv_db "pods" podMeta t op
  | OnService op => kv_db "services" svcMeta t op
  | OnConfigMap op => kv_db "configmaps" cmMeta t op
  | OnSecret op => kv_db "secrets" secMeta t op
  | OnDeployment op => kv_db "deployments" depMeta t op
  | OnReplicaSet op => kv_db "replicasets" rsMeta t op
  end.

Definition record_step (s : objects * T * list record_op) (ev : record_event) : objects * T * list record_op :=
  let '(r, t, fl) := s in
  match ev with
  | Begin op => (write_memory r op, t, op :: fl)
  | Commit i =>
      match fl !! i with
      | Some op => (r, write_database t op, delete i fl)
      | None => s
      end
  end.

(** The objects written can be read back; no write begins while another one of its key
    is in flight. *)
Definition can_begin fl (op : record_op) : Prop :=
  match op with
  | OnPod op => op_readable podMeta op /\ op_key podMeta op ∉ (op_key podMeta <$> omap on_pod fl)
  | OnService op => op_readable svcMeta op /\ op_key svcMeta op ∉ (op_key svcMeta <$> omap on_service fl)
  | OnConfigMap op => op_readable cmMeta op /\ op_key cmMeta op ∉ (op_key cmMeta <$> omap on_configMap fl)
  | OnSecret op => op_readable secMeta op /\ op_key secMeta op ∉ (op_key secMeta <$> omap on_secret fl)
  | OnDeployment op => op_readable depMeta op /\ op_key depMeta op ∉ (op_key depMeta <$> omap on_deployment fl)
  | OnReplicaSet op => op_readable rsMeta op /\ op_key rsMeta op ∉ (op_key rsMeta <$> omap on_replicaSet fl)
  end.

(** The database commits the write. *)
Definition commits t (op : record_op) : Prop :=
  match op with
  | OnPod op => op_ok "pods" podMeta t op
  | OnService op => op_ok "services" svcMeta t op
  | OnConfigMap op => op_ok "configmaps" cmMeta t op
  | OnSecret op => op_ok "secrets" secMeta t op
  | OnDeployment op => op_ok "deployments" depMeta t op
  | OnReplicaSet op => op_ok "replicasets" rsMeta t op
  end.

Definition orderly (s : objects * T * list record_op) (ev : record_event) : Prop :=
  match ev with
  | Begin op => can_begin s.2 op
  | Commit i => match s.2 !! i with Some op => commits s.1.2 op | None => True end
  end.

Fixpoint all_orderly (s : objects * T * list record_op) (evs : list record_event) : Prop :=
  match evs with [] => True | ev :: evs => orderly s ev /\ all_orderly (record_step s ev) evs end.

(** The six maps and their buckets. *)
Record mirrors r t fl : Prop := {
  mi_pods : in_step "pods" podMeta (o_pods r) t (omap on_pod fl);
  mi_services : in_step "services" svcMeta (o_services r) t (omap on_service fl);
  mi_configMaps : in_step "configmaps" cmMeta (o_configMaps r) t (omap on_configMap fl);
  mi_secrets : in_step "secrets" secMeta (o_secrets r) t (omap on_secret fl);
  mi_deployments : in_step "deployments" depMeta (o_deployments r) t (omap on_deployment fl);
  mi_replicaSets : in_step "replicasets" rsMeta (o_replicaSets r) t (omap on_replicaSet fl);
}.

Lemma mirrors_begin r t fl op : mirrors r t fl -> can_begin fl op -> mirrors (write_memory r op) t (op :: fl).
Proof using HBolt.
  destruct r as [p sv c se d rs]. intros [Hp Hs Hc Hse Hd Hr] Hok. simpl in *.
  destruct op; destruct Hok as [Hread Hnew]; split; simpl; try done; by apply in_step_begin.
Qed.

Lemma write_database_other t op :
  commits t op ->
  (forall b, has_bucket (write_database t op) b = has_bucket t b) /\
  forall b k, (match op with OnPod _ => "pods" | OnService _ => "services" | OnConfigMap _ => "configmaps"
    | OnSecret _ => "secrets" | OnDeployment _ => "deployments" | OnReplicaSet _ => "replicasets" end) <> b ->
    bolt_Get (write_database t op) b k = bolt_Get t b k.
Proof using HBolt.
  intros Hok. destruct op as [op|op|op|op|op|op]; simpl in *; (split;
    [intros b; apply (proj1 (kv_db_Get _ _ t op b "" Hok))|
     intros b k Hne; rewrite (proj2 (kv_db_Get _ _ t op b k Hok)); by rewrite decide_False by naive_solver]).
Qed.

Lemma mirrors_commit r t fl1 op fl2 :
  mirrors r t (fl1 ++ op :: fl2) -> commits t op -> mirrors r (write_database t op) (fl1 ++ fl2).
Proof using HBolt.
  intros [Hp Hs Hc Hse Hd Hr] Hok. destruct (write_database_other t op Hok) as [Hb Hg].
  rewrite omap_app in Hp. rewrite omap_app in Hs. rewrite omap_app in Hc.
  rewrite omap_app in Hse. rewrite omap_app in Hd. rewrite omap_app in Hr.
  destruct op; simpl in *; split; rewrite omap_app;
    first [by apply in_step_commit|by eapply in_step_other; [exact Hb|intros k; by apply Hg|]].
Qed.

Lemma mirrors_step r t fl ev :
  mirrors r t fl -> orderly (r, t, fl) ev ->
  mirrors (record_step (r, t, fl) ev).1.1 (record_step (r, t, fl) ev).1.2 (record_step (r, t, fl) ev).2.
Proof using HBolt.
  intros Hm Hok. destruct ev as [op|i]; simpl in *; [by apply mirrors_begin|].
  destruct (fl !! i) as [op|] eqn:Ei; [|done]. simpl.
  rewrite <- (take_drop_middle _ _ _ Ei) in Hm.
  rewrite delete_take_drop. by apply mirrors_commit.
Qed.

Lemma mirrors_run r t fl evs :
  mirrors r t fl -> all_orderly (r, t, fl) evs ->
  let s := foldl record_step (r, t, fl) evs in mirrors s.1.1 s.1.2 s.2.
Proof using HBolt.
  revert r t fl. induction evs as [|ev evs IH]; intros r t fl Hm Hok; [done|].
  destruct Hok as [H1' H2']. pose proof (mirrors_step r t fl ev Hm H1') as Hm'. cbn [foldl].
  destruct (record_step (r, t, fl) ev) as [[r' t'] fl']. by apply IH.
Qed.

(** The objects after a trip through JSON. *)
Definition images r : objects :=
  mkObjects (omap image (o_pods r)) (omap image (o_services r)) (omap image (o_configMaps r))
    (omap image (o_secrets r)) (omap image (o_deployments r)) (omap image (o_replicaSets r)).

(** Equal but for the objects with a write in flight. *)
Definition off {A} (meta : A -> ObjectMeta) (fl : list (kv_op (A := A))) (m1 m2 : gmap string A) : Prop :=
  forall k, k ∉ (op_key meta <$> fl) -> m1 !! k = m2 !! k.

Record settled fl r1 r2 : Prop := {
  st_pods : off podMeta (omap on_pod fl) (o_pods r1) (o_pods r2);
  st_services : off svcMeta (omap on_service fl) (o_services r1) (o_services r2);
  st_configMaps : off cmMeta (omap on_configMap fl) (o_configMaps r1) (o_configMaps r2);
  st_secrets : off secMeta (omap on_secret fl) (o_secrets r1) (o_secrets r2);
  st_deployments : off depMeta (omap on_deployment fl) (o_deployments r1) (o_deployments r2);
  st_replicaSets : off rsMeta (omap on_replicaSet fl) (o_replicaSets r1) (o_replicaSets r2);
}.

Lemma settled_all r1 r2 : settled [] r1 r2 -> r1 = r2.
Proof.
  destruct r1, r2. intros [Hp Hs Hc Hse Hd Hr]. simpl in *.
  f_equal; apply map_eq; intros k;
    first [apply Hp|apply Hs|apply Hc|apply Hse|apply Hd|apply Hr]; apply not_elem_of_nil.
Qed.
End Restart.

(** ** Starting the daemon *)

Section Startup.
Context {F W N L T : Type} `{FS F} `{PodEngines F W} `{HTCP : TCPLaws N} `{HBolt : BoltLaws T}.
Context `{Codec Pod, Codec Service, Codec ConfigMap, Codec Secret, Codec Deployment, Codec ReplicaSet}.
Context `{Texts} `{UnicodeCase}.
Context (TempDir : string) (NewLog : L).
Abbreviation server := (Server F W N L T).
Abbreviation daemon := (daemon (F := F) (W := W) (N := N) (L := L) (T := T)).

(** The managers and stores of [runServer], on the sockets, files and engines there
    are. *)
Definition start_up (t : T) (net : N) (files : F) (eng : W) : server :=
  let portPool := NewPortPool 30000 32767 in
  let configStore := NewConfigStore (Some t) in
  let controllerStore := NewControllerStore (Some t) in
  NewServer NewLifecycleManager (mkHost portPool net files eng) configStore controllerStore (Some t).

(** [runServer] up to [RecoverState]; a database that cannot be opened ends it. *)
Definition runServer (bolt_Open : string -> option T) (net : N) (files : F) (eng : W) : res store_error daemon :=
  match Open bolt_Open "lok8s.db" with
  | Ok t => Ok (boot (start_up t net files eng))
  | Err e => Err e
  | Panic w => Panic w
  end.

(** What a server has on record. *)
Definition on_record (sv : server) : objects :=
  mkObjects (sv_pods sv) (services (sv_services sv)) (configMaps (sv_config sv)) (secrets (sv_config sv))
    (deployments (sv_ctl sv)) (replicaSets (sv_ctl sv)).

Lemma start_up_records r t fl net files eng :
  mirrors r t fl ->
  settled fl (on_record (start_up t net files eng)) (images r) /\ server_wf (start_up t net files eng).
Proof using HBolt HTCP.
  intros [Hp Hs Hc Hse Hd Hr].
  destruct (in_step_load _ _ _ _ _ Hp) as [Kp Hp'], (in_step_load _ _ _ _ _ Hs) as [Ks Hs'],
    (in_step_load _ _ _ _ _ Hc) as [Kc Hc'], (in_step_load _ _ _ _ _ Hse) as [Kse Hse'],
    (in_step_load _ _ _ _ _ Hd) as [Kd Hd'], (in_step_load _ _ _ _ _ Hr) as [Kr Hr'].
  split; [by split|].
  apply server_wf_new; [done|apply pool_exact_ok, NewPortPool_exact|done..|by split].
Qed.

(** C2. A daemon that is killed at any moment and started again on the same database: when the
    two agree, writes go to the maps in
    memory first and to the database later, and any number of goroutines may be in
    between.  As long as no two writes of one key overlap, the database commits what
    reaches it, and the objects written can be decoded again under their own
    names, the new daemon has exactly what was in memory (of all six kinds, as it comes
    back from JSON), but for the keys whose write was still in flight; and its recovery
    brings every pod it finds running or pending back, or puts it on record as
    failed. *)
Theorem crash_recovery r t evs bolt_Open net files eng d o_svc o_pod :
  mirrors r t [] -> all_orderly (r, t, []) evs ->
  let '(r', t', fl) := foldl record_step (r, t, []) evs in
  Open bolt_Open "lok8s.db" = Ok t' ->
  exists dm, runServer bolt_Open net files eng = Ok dm /\
    settled fl (on_record (dm_sv dm)) (images r') /\ (fl = [] -> on_record (dm_sv dm) = images r') /\
    let sv' := RecoverState TempDir NewLog d o_svc o_pod (dm_sv dm) in
    server_wf (dm_sv dm) /\ server_wf sv' /\ dom (sv_pods sv') = dom (sv_pods (dm_sv dm)) /\
    forall pod, pod ∈ map_values (sv_pods (dm_sv dm)) -> recovered (dm_sv dm) sv' pod.
Proof using HBolt HTCP.
  intros Hm Hok. pose proof (mirrors_run r t [] evs Hm Hok) as Hm'.
  destruct (foldl record_step (r, t, []) evs) as [[r' t'] fl]. simpl in Hm'. intros Eo.
  exists (boot (start_up t' net files eng)). unfold runServer. rewrite Eo. split; [done|].
  destruct (start_up_records r' t' fl net files eng Hm') as [Er Hw]. cbn [dm_sv boot].
  destruct (RecoverState_outcome TempDir NewLog d o_svc o_pod _ Hw eq_refl) as (Hw' & Hd & Hrec & _).
  split_and!; [done| |done..]. intros ->. by apply settled_all.
Qed.

(** C23. Nothing orders the two halves of writes that do overlap: of two pods stored under one
    key at the same time, when both writes are committed, memory may keep the one and the database the other; the
    next start brings back the pod that had been replaced. *)
Theorem overlapping_writes_diverge r t p1 p2 net files eng :
  has_bucket t "pods" = true -> pod_key_of p1 = pod_key_of p2 ->
  commits t (OnPod (KStore p2)) -> commits (write_database t (OnPod (KStore p2))) (OnPod (KStore p1)) ->
  let '(r', t', fl) := foldl record_step (r, t, [])
    [Begin (OnPod (KStore p1)); Begin (OnPod (KStore p2)); Commit 0; Commit 0] in
  fl = [] /\ o_pods r' !! pod_key_of p1 = Some p2 /\
  sv_pods (start_up t' net files eng) !! pod_key_of p1 = image p1.
Proof using HBolt HTCP.
  intros Hb Ek H1' H2'. destruct r as [p sv c se d rs].
  cbn [foldl record_step write_memory lookup list_lookup delete list_delete].
  split; [done|]. split.
  - cbn [o_pods]. rewrite kv_mem_lookup, decide_True; [done|exact Ek].
  - destruct (kv_db_Get _ _ _ _ "pods" (pod_key_of p1) H2') as [Hb2 Hg2].
    destruct (kv_db_Get _ _ _ _ "pods" (pod_key_of p1) H1') as [Hb1 _].
    unfold start_up. cbn [sv_pods NewServer]. rewrite (kv_load_all_view (T := T) "pods").
    + unfold db_view. cbn [write_database] in *. rewrite Hg2. by rewrite decide_True.
    + cbn [write_database] in *. by rewrite Hb2, Hb1.
Qed.
End Startup.

(** ** A database that survives *)

(** Pods by their names, and whether they have failed. *)
#[local] Instance ex_running : Codec Pod := {
  marshal p := Some ((if String.eqb (Phase (podStatus p)) PodFailed then Byte.x46 else Byte.x52) ::
    bytes_of (Name (podMeta p)));
  unmarshal b :=
    match b with
    | Byte.x46 :: n => Some (ex_ran (string_of n) PodFailed)
    | _ :: n => Some (ex_ran (string_of n) PodRunning)
    | [] => None
    end;
}.
Definition ex_disk : memdb :=
  list_to_map ((fun b => (b, ∅)) <$> ["pods"; "services"; "configmaps"; "secrets"; "deployments"; "replicasets"]).
(** The daemon is killed while the deletion of a pod has not reached the database. *)
Definition ex_writes : list record_event :=
  [Begin (OnPod (KStore (ex_ran "web" PodRunning))); Begin (OnPod (KStore (ex_ran "db" PodRunning)));
   Commit 1; Commit 0; Begin (OnPod (KDelete "default" "db"))].
Definition ex_after : objects * memdb * list record_op := foldl record_step (no_objects, ex_disk, []) ex_writes.

Lemma ex_disk_empty : mirrors no_objects ex_disk [].
Proof.
  assert (Hm : forall A (HA : Codec A) b (meta : A -> ObjectMeta), ex_disk !! b = Some ∅ -> in_step b meta ∅ ex_disk []).
  { intros A HA b meta Hb.
    assert (Hv : forall k, db_view b ex_disk k = None)
      by (intros k; unfold db_view; simpl; rewrite Hb; simpl; by rewrite lookup_empty).
    split.
    - simpl. by rewrite Hb.
    - apply keyed_empty.
    - intros k a. by rewrite lookup_empty.
    - constructor.
    - intros op Hop. by apply elem_of_nil in Hop.
    - intros k _. by rewrite Hv, lookup_empty.
    - intros k a. by rewrite Hv. }
  split; by apply Hm.
Qed.

Lemma create_buckets_present (t : memdb) names :
  forallb (fun b => bool_decide (is_Some (t !! b))) names = true -> create_buckets t names = Ok t.
Proof.
  induction names as [|b names IH]; [done|]. cbn [forallb create_buckets]. intros [Hb Hs]%andb_true_iff.
  apply bool_decide_eq_true in Hb as [m Hb]. simpl. rewrite Hb. by apply IH.
Qed.

Lemma ex_reopened : Open (fun _ => Some ex_after.1.2) "lok8s.db" = Ok ex_after.1.2.
Proof. apply create_buckets_present. vm_compute. reflexivity. Qed.

Lemma ex_orderly : all_orderly (no_objects, ex_disk, []) ex_writes.
Proof.
  assert (Hr : forall name, readable (A := Pod) podMeta (ex_ran name PodRunning)).
  { intros name. exists (ex_ran name PodRunning). split; [|done]. unfold image; simpl.
    unfold string_of, bytes_of. by rewrite string_of_list_byte_of_string. }
  split; [split; [apply Hr|apply not_elem_of_nil]|].
  split; [split; [apply Hr|simpl; rewrite list_elem_of_singleton; discriminate]|].
  split; [reflexivity|]. split; [reflexivity|]. split; [|exact I]. split; [exact I|apply not_elem_of_nil].
Qed.

Lemma ex_web_in_memory : o_pods (images ex_after.1.1) !! "default/web" = Some (ex_ran "web" PodRunning).
Proof. vm_compute. reflexivity. Qed.

Lemma ex_web_settled : "default/web" ∉ (op_key podMeta <$> omap on_pod ex_after.2).
Proof. vm_compute. intros Hin. apply list_elem_of_singleton in Hin. discriminate Hin. Qed.

Lemma crash_recovery_witness :
  exists dm, runServer (fun _ => Some ex_after.1.2) ∅ [] ∅ = Ok dm /\
    recovered (dm_sv dm)
      (RecoverState "/tmp" tt (fun _ => ex_env_draw) in_order in_order (dm_sv dm)) (ex_ran "web" PodRunning).
Proof.
  pose proof ex_reopened as Ho. pose proof ex_web_in_memory as Hw. pose proof ex_web_settled as Hs.
  pose proof (crash_recovery (F := memfiles) (W := gmap string PodPhase) (N := gset Z) "/tmp" tt no_objects ex_disk
    ex_writes (fun _ => Some ex_after.1.2) ∅ [] ∅ (fun _ => ex_env_draw) in_order in_order ex_disk_empty ex_orderly) as HR.
  destruct (foldl record_step (no_objects, ex_disk, []) ex_writes) as [[r' t'] fl] eqn:E.
  assert (Ea : ex_after = (r', t', fl)) by exact E. rewrite Ea in Ho, Hw, Hs, HR |- *.
  destruct (HR Ho) as (dm & Hrun & Hset & _ & _ & _ & _ & Hall).
  exists dm. split; [exact Hrun|]. apply Hall, elem_of_map_values. exists "default/web".
  rewrite <- Hw. exact (st_pods _ _ _ Hset _ Hs).
Defined.

Lemma overlapping_writes_diverge_witness :
  let ran := ex_ran "web" PodRunning in
  let failed := ex_ran "web" PodFailed in
  let '(r', t', fl) := foldl record_step (no_objects, ex_disk, [])
    [Begin (OnPod (KStore ran)); Begin (OnPod (KStore failed)); Commit 0; Commit 0] in
  fl = [] /\ o_pods r' !! "default/web" = Some failed /\
  sv_pods (start_up (F := memfiles) (W := gmap string PodPhase) (N := gset Z) (L := unit) t' ∅ [] ∅)
    !! "default/web" = Some ran.
Proof.
  exact (overlapping_writes_diverge no_objects ex_disk (ex_ran "web" PodRunning) (ex_ran "web" PodFailed)
    ∅ [] ∅ eq_refl eq_refl eq_refl eq_refl).
Defined.
